(* ===== verification/_CoqProject ===== *)
-Q . S2P
Prelude.v
Net.v
Model.v
Metric.v
Wire.v
WireDecode.v
WireEncode.v
WirePrefix.v
WireRoundtrip.v
WirePackets.v
WireSound.v
WireStamp.v
Api.v
EngineState.v
Sources.v
Output.v
Rib.v
Deadlines.v
Neighbors.v
Timers.v
Engine.v
OutputSpec.v
Invariant.v
AdmissionSpec.v
SelectionSpec.v
ReceiveSpec.v
TimersSpec.v
EngineSpec.v
Demo.v
EngineTheorems.v
SelectionTheorems.v
LoopSpec.v
SourceTheorems.v
Hops.v
Network.v
EngineTraces.v
Mac.v
MacSpec.v
MacTheorems.v
MacExchange.v
MacDemo.v
Scheduler.v
Sender.v
SchedulerSpec.v
SenderSpec.v
SenderTheorems.v
Router.v
RouterLoop.v
BatchSpec.v
RouterTheorems.v
RouterOutput.v
RouterDemo.v
Filters.v
DaemonConfig.v
Projection.v
ProjectionTheorems.v
SourceViews.v
DaemonTheorems.v
DaemonDemo.v
Netlink.v
Recovery.v
Exporter.v
ExporterOrder.v
ExporterSpec.v
ExporterTheorems.v
RecoveryTheorems.v
KernelModel.v
ExporterDemo.v
State.v
StateTheorems.v
Handle.v
Interfaces.v
InterfaceTheorems.v
Control.v
ControlTheorems.v
Transport.v
TransportTheorems.v
Lifecycle.v
LifecycleTheorems.v
LifecycleDemo.v
