(* ===== verification/Prelude.v ===== *)
(** babel-rs, a Babel (RFC 8966) routing daemon in Rust: a model of its
    protocol library, of its router and of its daemon, with the theorems that
    make them correct.

    * The program

    The workspace has three crates.  [babel-protocol] is free of I/O: it
    decodes and encodes datagrams ([wire.rs], [wire/]), measures links
    ([metric.rs]), authenticates packets ([mac.rs]) and runs the protocol in an
    engine ([engine.rs], [engine/]) that turns one event (packet, tick,
    configuration change) into a list of actions (packets to send, a new RIB, a
    new sequence number).  [babel-router] runs the engine on Tokio: a loop
    feeds it received packets, ticks and commands and applies its actions; a
    sender per interface batches, delays, paces and sends its packets; an
    exporter gets each new RIB.  [babel-rs] is the daemon: it reads its
    configuration and state file, starts the router, attaches the interfaces
    the kernel has, exports routes to the kernel, answers a control socket,
    reloads its configuration and shuts down in order.

    * The model

    Fixed-width integers are [Z] with wrapping and saturating operations
    written out; a panic is [None], an error of the source an [Err].  Each
    operation of the source is a definition of the same name.  State passes
    explicitly: the methods of the engine run in a small state and output
    monad over the record [Engine] ([EngineState]); the sender is a step
    relation; the loop of the router a function of its input.

    - [Prelude]: machine integers, results, orders, sorting, arrays, hash and
      tree maps and their iteration order, shared tactics and lemmas.
    - [Net]: addresses of the standard library; the [ipnet] crate with
      [contains].
    - [Model]: [model.rs], [limits.rs], [policy.rs].  [Metric]: [metric.rs].
    - [Wire], [WireDecode], [WireEncode]: [wire.rs], [wire/prefix.rs],
      [wire/decode.rs], [wire/encode.rs], [wire/packetizer.rs].
    - [Api]: [engine/api.rs], [validation.rs].  [EngineState]: the records of
      [engine.rs].  [Sources], [Output], [Rib], [Deadlines], [Neighbors],
      [Timers], [Engine]: the files of that name under [engine/], and the
      dispatch of events in [engine.rs].
    - [Mac]: [mac.rs].
    - [Scheduler]: [output.rs], [output_queue.rs].  [Sender]: [run_sender] of
      [router/io.rs] as a state machine.
    - [Router], [RouterLoop]: [router.rs], [router/runtime.rs] and the snapshot
      of [export.rs].  [Network]: engines as routers on shared links, which
      exchange the updates they send.
    - [DaemonConfig]: [config.rs].  [Filters]: [policy.rs] of the daemon and
      the patterns of [config.rs].
    - [Projection]: [linux/projection.rs] and [DaemonPolicy].  [Netlink]:
      kernel messages and [linux/identity.rs].  [Recovery]:
      [linux/recovery.rs].  [Exporter]: [linux/netlink.rs] and [linux.rs], the
      requests of a reconciliation in a monad that logs them, and what runs
      concurrently as explicit lists of operations.
    - [State]: [state.rs].  [Handle]: what the daemon asks of a running router,
      as a class with its laws, which [Router] meets.  [Interfaces]:
      [interfaces.rs], the manager of interfaces.  [Control]: [control.rs], both ends of
      the socket.  [Lifecycle]: start, events, reload and shutdown of
      [main.rs]; a reload also as a task that counts its awaits, where a signal
      can drop it.
    - [Transport]: [transport.rs], [transport/datagrams.rs], the receiver and the
      exporter's worker of [router/io.rs] as state machines, the exporters and
      stores of [export.rs] as a class, the status of the interfaces and the end
      of a shutdown in [router/runtime.rs].

    What the code takes from elsewhere is a parameter: the [ipnet] crate
    ([IpNetLib], with its documented laws; [ipnet_model] shows that they can
    be met), the keyed digests ([MacLib], with the lengths of the digests), the
    metrics a host may supply ([MetricImpl]; [builtin_metrics] is the instance
    of the library's own), the iteration order of hash maps ([HashOrder]: any
    permutation of the entries, chosen anew for each event of a run in
    [reachable]), [powf] of the C library ([Libm]), whether the
    build checks for overflow ([Build]), for the router, clock readings,
    socket results and capacities of vectors ([Alloc], [Env]), and, for the
    daemon, the kernel ([Netlink]: any answers; [NetlinkLaws]: what the daemon
    relies on; [KernelModel] meets it), the TOML and JSON libraries, the
    interfaces and attributes the system lists, the texts of errors and the
    contents of files and results of writing them.

    Loops over bytes take the length of the input as fuel; more fuel gives the
    same result ([tlv_loop_fuel], [sub_loop_fuel]), since each round consumes a
    byte.  A control session takes the length of what the client sends
    ([serve_session]).  The
    search for a free table takes one more than the number of tables in use
    ([next_free_spec]).  All other recursion is structural.

    * The theorems

    - Wire format ([WirePrefix], [WireRoundtrip], [WirePackets], [WireSound],
      [WireStamp]): every datagram fits its size and decodes on its own to its
      share of the TLVs; what the decoder accepts is valid; addresses survive
      exactly when the format can carry them; stamping commutes with decoding.
    - Metrics ([Metric]): the Hello history refines a window of flags; costs
      are in range; ETX costs are the documented quotient.
    - Engine ([OutputSpec], [Invariant], [AdmissionSpec],
      [SelectionSpec], [ReceiveSpec], [TimersSpec], [EngineSpec] build one
      invariant and one step relation; [EngineTheorems], [SelectionTheorems]
      and [Deadlines] conclude): the engine never panics in
      a build without overflow checks; selected routes are backed by usable
      candidates; limits hold; a host that follows the actions knows the RIB;
      selection, hysteresis, requests and retries do what they should.
    - Source table ([SourceTheorems], by way of the invariant of [LoopSpec] for a
      router on its own): finite updates are permitted and recorded when they
      leave, with a distance at least as good as the announced one, and recorded
      distances only improve until they expire, which is the feasibility
      condition behind loop freedom.  The two statements on distances compare
      them in a window of sequence numbers.
    - Network ([LoopSpec], [SourceTheorems], [Hops], [Network]): no routing loops.  One
      engine keeps a local invariant: a selected route is strictly better, in the
      order of sequence numbers and metrics, than what its own table records, and
      what it was told is covered by the table of the sender for as long as it can
      be used ([LoopSpec]); what an event announces is recorded for a full
      lifetime ([SourceTheorems]); next hops are addresses of the announcing interface
      ([Hops]).  Together the recorded distances fall along every chain of next
      hops, under any loss, delay, repetition and reordering of messages.  The
      conditions are those of [net_step]: messages and ticks are not too late, an
      origin's sequence numbers stay within half of their space, and a router
      that has a route holds no request for its destination on behalf of
      another.  [EngineTraces] shows that the last condition is needed: answering
      such a request lets two routers select each other after a lost retraction.
    - Edges ([EngineTraces], with concrete runs that reach them): where the engine
      does not do what it means to, for every engine in that situation: a
      Hello sixteen behind the expected one panics a checked build, a lost learned
      copy retracts an origin, and held requests are answered with distances of
      routes that are not selected.
    - Authentication ([MacSpec], [MacTheorems], [MacExchange]): what a session
      accepts, that it accepts no packet twice and sends no counter twice,
      that sessions with a common key understand each other, by way of the
      challenge exchange if need be.
    - Output ([SchedulerSpec], [SenderSpec], [SenderTheorems]): whatever
      leaves an interface was asked for under the generation in force and has
      not expired; the byte budget holds in every interleaving; the worker
      neither oversleeps nor spins; jitter stays within its bounds.
    - Router ([BatchSpec], [RouterTheorems], [RouterOutput]): batching
      keeps order; start-up leaves the RIB empty; the loop never panics and
      publishes exactly the RIB of the engine from the start on;
      with all workers interleaved, each interface keeps within its budget.
    - Transport ([TransportTheorems]): packets cross a link between two sockets,
      signed or not; what a receiver gives the router is what its session
      accepted; the exporter ends up with the RIB of the engine.
    - Configuration ([DaemonTheorems], [Filters]): an accepted configuration
      starts a router and gives every interface a valid policy; rules of nested
      sources are ordered; patterns match as they should.
    - Projection ([ProjectionTheorems], [SourceViews]): tables obey source
      precedence, sources keep tables of their own, and each source-specific
      route the engine selects is honoured.
    - Kernel export ([ExporterOrder], [ExporterSpec], [ExporterTheorems],
      [RecoveryTheorems]): the order of requests under any answers, of which the
      log keeps both, so that the first failure is the last request; the state
      of the kernel after a successful round; what shutdown leaves; how long
      routes of an earlier life are kept by daemons with the same state file.
    - State file ([StateTheorems]): a checkpoint is used once over any sequence
      of starts, stops and crashes; a failed replacement leaves the old file.
    - Interfaces ([InterfaceTheorems]): proved against the laws of [Handle]; a
      scan attaches exactly the interfaces it should.
    - Control ([ControlTheorems]): a session answers each frame in turn, gives up
      every operation on its stream after thirty seconds and is held up by nothing
      but its commands; a client reads what the dispatch produced.
    - Lifecycle ([LifecycleTheorems]): a start gives every part the same
      configuration; a reload changes all of them or none, unless the interface
      manager is gone, and dropped by a signal it leaves all but the router and the
      recovery journal as they were; the shutdown ends within its
      deadlines and cleans up.

    [Demo], [MacDemo], [RouterDemo], [DaemonDemo], [ExporterDemo] and
    [LifecycleDemo] are concrete instances and runs on which the theorems are
    applied; smaller ones stand beside their theorems.

    * Not modelled

    - The sender's counters of dropped datagrams are shared by all interfaces in
      the source; the model keeps them per sender and takes the sum the status
      reports as an input.
    - Logging, [Debug] and serialization of status records.
    - The syntax of TOML and JSON (parameters), netlink and file system calls,
      signal handlers, spawning and joining of tasks.
    - Module declarations, re-exports, the capacity example of the protocol
      library and the tests.
    - In [Network], the scheduler's delays and the MAC are part of the delay and
      the loss of messages; that the codec carries updates faithfully is
      [update_means_carries] with [encode_packets_roundtrip]. *)
From Stdlib Require Export Init.Byte Strings.Byte ZArith Lia.
From stdpp Require Export base tactics list gmap fin_maps strings sorting countable.
Local Open Scope Z_scope.

#[global] Arguments Z.shiftl : simpl never.
#[global] Arguments Z.shiftr : simpl never.
#[global] Arguments Z.land : simpl never.
#[global] Arguments Z.lor : simpl never.
#[global] Arguments Z.lxor : simpl never.
#[global] Arguments Z.modulo : simpl never.
#[global] Arguments Z.div : simpl never.
#[global] Arguments Z.pow : simpl never.
#[global] Arguments Z.min : simpl never.
#[global] Arguments Z.max : simpl never.
#[global] Arguments Z.mul : simpl never.
#[global] Arguments Z.add : simpl never.
#[global] Arguments Z.sub : simpl never.
#[global] Arguments Z.leb : simpl never.
#[global] Arguments Z.ltb : simpl never.
#[global] Arguments Z.eqb : simpl never.

(** * Machine integers

    A [u8], [u16], [u32] or [u64] of the source is a [Z] with the range
    written out; the source's wrapping and saturating operations are the
    functions below.  [usize] values that count elements are [nat]. *)

Definition u16_max : Z := 65535.
Definition u32_max : Z := 4294967295.
Definition u64_max : Z := 18446744073709551615.

Definition in_u8 (z : Z) : Prop := 0 <= z < 256.
Definition in_u16 (z : Z) : Prop := 0 <= z < 65536.
Definition in_u32 (z : Z) : Prop := 0 <= z < 4294967296.
Definition in_u64 (z : Z) : Prop := 0 <= z <= u64_max.

Definition wrapping_add16 (a b : Z) : Z := (a + b) mod 65536.
Definition wrapping_sub16 (a b : Z) : Z := (a - b) mod 65536.
Definition wrapping_sub32 (a b : Z) : Z := (a - b) mod 4294967296.
Definition wrapping_mul64 (a b : Z) : Z := (a * b) mod 18446744073709551616.
Definition wrapping_add64 (a b : Z) : Z := (a + b) mod 18446744073709551616.

Definition saturating_add16 (a b : Z) : Z := Z.min (a + b) u16_max.
Definition saturating_mul16 (a b : Z) : Z := Z.min (a * b) u16_max.
Definition saturating_add64 (a b : Z) : Z := Z.min (a + b) u64_max.
Definition saturating_mul64 (a b : Z) : Z := Z.min (a * b) u64_max.
(** Unsigned saturating subtraction is the same at every width. *)
Definition saturating_sub (a b : Z) : Z := Z.max 0 (a - b).
Definition abs_diff (a b : Z) : Z := Z.abs (a - b).
(** [uN::div_ceil] on non-negative operands, divisor positive. *)
Definition div_ceil (a b : Z) : Z := (a + b - 1) / b.

Lemma wrapping_sub16_range a b : in_u16 (wrapping_sub16 a b).
Proof. unfold in_u16, wrapping_sub16. apply Z.mod_pos_bound. lia. Qed.

Lemma wrapping_add16_range a b : in_u16 (wrapping_add16 a b).
Proof. unfold in_u16, wrapping_add16. apply Z.mod_pos_bound. lia. Qed.

(** * Bytes *)

Abbreviation byte := Byte.byte.

(** The numeric value of an octet and the truncating conversion back. *)
Definition u8 (b : byte) : Z := Z.of_N (Byte.to_N b).
Definition b8 (z : Z) : byte := default Byte.x00 (Byte.of_N (Z.to_N (z mod 256))).

Lemma u8_range b : 0 <= u8 b < 256.
Proof. unfold u8. pose proof (Byte.to_N_bounded b). lia. Qed.

Lemma u8_b8 z : u8 (b8 z) = z mod 256.
Proof.
  unfold u8, b8. pose proof (Z.mod_pos_bound z 256 ltac:(lia)).
  destruct (Byte.of_N (Z.to_N (z mod 256))) as [b|] eqn:E; simpl.
  - apply Byte.to_of_N in E. rewrite E. lia.
  - apply Byte.of_N_None_iff in E. lia.
Qed.

Lemma u8_b8_small z : 0 <= z < 256 -> u8 (b8 z) = z.
Proof. intros. rewrite u8_b8. by apply Z.mod_small. Qed.

Lemma b8_u8 b : b8 (u8 b) = b.
Proof.
  unfold b8. rewrite Z.mod_small by apply u8_range.
  unfold u8. rewrite N2Z.id, Byte.of_to_N. done.
Qed.

Lemma u8_inj a b : u8 a = u8 b -> a = b.
Proof. intros H. by rewrite <- (b8_u8 a), <- (b8_u8 b), H. Qed.

#[global] Instance byte_eq_dec : EqDecision byte.
Proof.
  refine (fun a b => match decide (u8 a = u8 b) with
                     | left e => left (u8_inj a b e)
                     | right n => right _ end).
  abstract (congruence).
Defined.

#[global] Program Instance byte_countable : Countable byte :=
  inj_countable u8 (fun z => Some (b8 z)) _.
Next Obligation. intros b. cbv beta. apply f_equal, b8_u8. Qed.

(** Big-endian field access ([be16], [be32] and [to_be_bytes]). *)
Definition be_value (l : list byte) : Z := fold_left (fun acc b => acc * 256 + u8 b) l 0.
Definition to_be16 (z : Z) : list byte := [b8 (z / 256); b8 z].
Definition to_be32 (z : Z) : list byte :=
  [b8 (z / 16777216); b8 (z / 65536); b8 (z / 256); b8 z].

#[global] Arguments be_value : simpl never.
#[global] Arguments b8 : simpl never.
#[global] Arguments u8 : simpl never.

Lemma be_value_to_be16 z : in_u16 z -> be_value (to_be16 z) = z.
Proof.
  intros H. unfold be_value, to_be16, in_u16 in *. simpl.
  rewrite !u8_b8. Z.div_mod_to_equations. lia.
Qed.

Lemma be_value_to_be32 z : in_u32 z -> be_value (to_be32 z) = z.
Proof.
  intros H. unfold be_value, to_be32, in_u32 in *. simpl.
  rewrite !u8_b8. Z.div_mod_to_equations. lia.
Qed.

Lemma length_to_be16 z : length (to_be16 z) = 2%nat.
Proof. done. Qed.
Lemma length_to_be32 z : length (to_be32 z) = 4%nat.
Proof. done. Qed.

Lemma be_value_app1 l b : be_value (l ++ [b]) = be_value l * 256 + u8 b.
Proof. unfold be_value. by rewrite fold_left_app. Qed.

Lemma be_value_range l : 0 <= be_value l < 256 ^ Z.of_nat (length l).
Proof.
  induction l as [|b l IH] using rev_ind; [simpl; unfold be_value; simpl; lia|].
  rewrite be_value_app1, length_app. simpl length.
  rewrite Nat2Z.inj_add, Z.pow_add_r by lia. change (256 ^ Z.of_nat 1) with 256.
  pose proof (u8_range b). nia.
Qed.

(** * Fixed-size byte arrays ([[u8; n]]) *)

Definition array (n : nat) : Type := dsig (fun l : list byte => length l = n).

Definition arr_list {n} (a : array n) : list byte := `a.

Lemma arr_length {n} (a : array n) : length (arr_list a) = n.
Proof. exact (proj2_dsig a). Qed.

Lemma arr_ext {n} (a b : array n) : arr_list a = arr_list b -> a = b.
Proof. apply dsig_eq. Qed.

(** [<[u8; n]>::try_from(slice).ok()]. *)
Definition try_array (n : nat) (l : list byte) : option (array n) :=
  match decide (length l = n) with
  | left H => Some (dexist l H)
  | right _ => None
  end.

(** A zeroed array whose first octets are overwritten with [l]
    ([let mut raw = [0; n]; raw[..l.len()].copy_from_slice(&l)]), for a
    [l] of at most [n] octets. *)
Definition pad_list (n : nat) (l : list byte) : list byte :=
  take n (l ++ replicate n Byte.x00).

Lemma pad_list_length n l : length (pad_list n l) = n.
Proof. unfold pad_list. rewrite length_take, length_app, length_replicate. lia. Qed.

Definition arr_of_list (n : nat) (l : list byte) : array n :=
  dexist (pad_list n l) (pad_list_length n l).

Lemma try_array_Some n l a : try_array n l = Some a <-> length l = n /\ arr_list a = l.
Proof.
  unfold try_array. case_decide as H; split.
  - intros [= <-]. done.
  - intros [_ <-]. f_equal. by apply dsig_eq.
  - done.
  - intros [? _]. done.
Qed.

Lemma try_array_arr_list n (a : array n) : try_array n (arr_list a) = Some a.
Proof. apply try_array_Some. split; [apply arr_length | done]. Qed.

Lemma arr_list_of_list n l : length l = n -> arr_list (arr_of_list n l) = l.
Proof.
  intros H. unfold arr_of_list, arr_list. simpl. unfold pad_list.
  rewrite take_app_le by lia. rewrite <- H. apply take_ge. lia.
Qed.

Lemma arr_of_list_arr_list n (a : array n) : arr_of_list n (arr_list a) = a.
Proof. apply arr_ext, arr_list_of_list, arr_length. Qed.

#[global] Instance array_eq_dec n : EqDecision (array n).
Proof. unfold array, dsig. apply _. Defined.
#[global] Instance array_countable n : Countable (array n).
Proof. unfold array, dsig. apply _. Defined.

(** * Results: [Result<A, E>] with the [?] operator as bind *)

Inductive result (E A : Type) : Type :=
| Ok (a : A)
| Err (e : E).
Arguments Ok {E A} a.
Arguments Err {E A} e.

#[global] Instance result_ret E : MRet (result E) := fun _ a => Ok a.
#[global] Instance result_bind E : MBind (result E) := fun _ _ f m =>
  match m with Ok a => f a | Err e => Err e end.

#[global] Instance result_fmap E : FMap (result E) := fun _ _ f m =>
  match m with Ok a => Ok (f a) | Err e => Err e end.

(** [Option::ok_or] and [Result::ok]. *)
Definition ok_or {E A} (o : option A) (e : E) : result E A :=
  match o with Some a => Ok a | None => Err e end.
Definition result_ok {E A} (r : result E A) : option A :=
  match r with Ok a => Some a | Err _ => None end.

#[global] Instance result_eq_dec E A `{EqDecision E, EqDecision A} : EqDecision (result E A).
Proof. solve_decision. Defined.

Lemma result_bind_Ok {E A B} (m : result E A) (f : A -> result E B) b :
  m ≫= f = Ok b <-> exists a, m = Ok a /\ f a = Ok b.
Proof. destruct m; simpl; naive_solver. Qed.

Lemma ok_or_Ok {E A} (o : option A) (e : E) a : ok_or o e = Ok a -> o = Some a.
Proof. destruct o; simpl; by intros [= ->]. Qed.

(** Peel a sequence of [?] steps that ended in [Ok]. *)
Ltac bind_steps H :=
  repeat match type of H with
  | mbind _ _ = Ok _ => let x := fresh "x" in let Hx := fresh "Hx" in
      apply result_bind_Ok in H as (x & Hx & H)
  end.

(** The same through the branches that did not fail. *)
Ltac result_steps H :=
  repeat match type of H with
  | mbind _ _ = Ok _ => let x := fresh "x" in let Hx := fresh "Hx" in
      apply result_bind_Ok in H as (x & Hx & H)
  | Ok (if ?b then _ else _) = Ok _ => destruct b; [discriminate H|]
  | (if ?b then _ else _) = Ok _ =>
      let E := fresh "E" in destruct b eqn:E; [try discriminate H|try discriminate H]
  | (match ?b with _ => _ end) = Ok _ =>
      let E := fresh "E" in destruct b eqn:E; try discriminate H
  end.

(** * Total orders ([Ord]) and ordered iteration *)

Class Ord (A : Type) : Type := cmp : A -> A -> comparison.

#[global] Instance Z_ord : Ord Z := Z.compare.
#[global] Instance byte_ord : Ord byte := fun a b => Z.compare (u8 a) (u8 b).
#[global] Instance pair_ord {A B} `{Ord A, Ord B} : Ord (A * B) := fun p q =>
  match cmp (fst p) (fst q) with Eq => cmp (snd p) (snd q) | c => c end.
#[global] Instance option_ord {A} `{Ord A} : Ord (option A) := fun x y =>
  match x, y with
  | None, None => Eq
  | None, Some _ => Lt
  | Some _, None => Gt
  | Some a, Some b => cmp a b
  end.
Fixpoint list_cmp {A} `{Ord A} (l k : list A) : comparison :=
  match l, k with
  | [], [] => Eq
  | [], _ => Lt
  | _, [] => Gt
  | a :: l', b :: k' => match cmp a b with Eq => list_cmp l' k' | c => c end
  end.
#[global] Instance list_ord {A} `{Ord A} : Ord (list A) := list_cmp.
#[global] Instance array_ord n : Ord (array n) := fun a b => cmp (arr_list a) (arr_list b).
#[global] Instance string_ord : Ord string := String.compare.

Definition ord_le {A} `{Ord A} (a b : A) : Prop := cmp a b <> Gt.
#[global] Instance ord_le_dec {A} `{Ord A} (a b : A) : Decision (ord_le a b).
Proof. unfold ord_le. apply _. Defined.

(** The contract of [Ord]: swapping the arguments mirrors the answer, equal
    answers mean equal values, and the order is transitive. *)
Class OrdLaws (A : Type) {O : Ord A} : Prop := {
  cmp_mirror : forall a b : A, cmp b a = CompOpp (cmp a b);
  cmp_equal : forall a b : A, cmp a b = Eq -> a = b;
  cmp_lt_trans : forall a b c : A, cmp a b = Lt -> cmp b c = Lt -> cmp a c = Lt
}.

Lemma cmp_refl {A} `{OrdLaws A} (a : A) : cmp a a = Eq.
Proof. pose proof (cmp_mirror a a) as E. by destruct (cmp a a). Qed.

(** Orders that compare images under an injection. *)
Lemma ord_laws_image {A B} `{Ord A, OrdLaws B} (f : A -> B) :
  (forall a b, cmp a b = cmp (f a) (f b)) -> (forall a b, f a = f b -> a = b) -> OrdLaws A.
Proof.
  intros Hc Hi. split.
  - intros a b. rewrite !Hc. apply cmp_mirror.
  - intros a b. rewrite Hc. intros E%cmp_equal. by apply Hi.
  - intros a b c. rewrite !Hc. apply cmp_lt_trans.
Qed.

#[global] Instance Z_ord_laws : OrdLaws Z.
Proof.
  split; unfold cmp, Z_ord.
  - intros a b. apply Z.compare_antisym.
  - apply Z.compare_eq.
  - intros a b c. rewrite !Z.compare_lt_iff. lia.
Qed.
#[global] Instance byte_ord_laws : OrdLaws byte.
Proof.
  apply (ord_laws_image u8); [done|]. intros a b E. by rewrite <- (b8_u8 a), <- (b8_u8 b), E.
Qed.
Lemma cmp_pair {A B} `{Ord A, Ord B} (a1 a2 : A) (b1 b2 : B) :
  cmp (a1, b1) (a2, b2) = match cmp a1 a2 with Eq => cmp b1 b2 | c => c end.
Proof. done. Qed.
Lemma cmp_cons {A} `{Ord A} (x y : A) l k :
  cmp (x :: l) (y :: k) = match cmp x y with Eq => cmp l k | c => c end.
Proof. done. Qed.

#[global] Instance pair_ord_laws {A B} `{OrdLaws A, OrdLaws B} : OrdLaws (A * B).
Proof.
  split.
  - intros [a1 b1] [a2 b2]. rewrite !cmp_pair, (cmp_mirror a1 a2).
    destruct (cmp a1 a2); simpl; [apply cmp_mirror|done..].
  - intros [a1 b1] [a2 b2]. rewrite cmp_pair. destruct (cmp a1 a2) eqn:E; [|done..].
    intros ->%cmp_equal. by apply cmp_equal in E as ->.
  - intros [a1 b1] [a2 b2] [a3 b3]. rewrite !cmp_pair.
    destruct (cmp a1 a2) eqn:E1; [apply cmp_equal in E1 as ->| |done].
    + destruct (cmp a2 a3) eqn:E2; [apply cmp_lt_trans|done..].
    + intros _. destruct (cmp a2 a3) eqn:E2; [apply cmp_equal in E2 as <-; by rewrite E1| |done].
      by rewrite (cmp_lt_trans a1 a2 a3).
Qed.
#[global] Instance list_ord_laws {A} `{OrdLaws A} : OrdLaws (list A).
Proof.
  split.
  - intros a. induction a as [|x a IH]; intros [|y b]; try done.
    rewrite !cmp_cons, (cmp_mirror x y). destruct (cmp x y); simpl; [apply IH|done..].
  - intros a. induction a as [|x a IH]; intros [|y b]; try done.
    rewrite cmp_cons. destruct (cmp x y) eqn:E; [|done..]. intros ->%IH. by apply cmp_equal in E as ->.
  - intros a. induction a as [|x a IH]; intros [|y b] [|z c]; try done. rewrite !cmp_cons.
    destruct (cmp x y) eqn:E1; [apply cmp_equal in E1 as ->| |done].
    + destruct (cmp y z) eqn:E2; [apply IH|done..].
    + intros _. destruct (cmp y z) eqn:E2; [apply cmp_equal in E2 as <-; by rewrite E1| |done].
      by rewrite (cmp_lt_trans x y z).
Qed.
#[global] Instance array_ord_laws n : OrdLaws (array n).
Proof. apply (ord_laws_image arr_list); [done|apply arr_ext]. Qed.

#[global] Instance ord_le_total {A} `{OrdLaws A} {C} (f : C -> A) : Total (fun p q => ord_le (f p) (f q)).
Proof.
  intros p q. unfold ord_le. rewrite (cmp_mirror (f p) (f q)). destruct (cmp (f p) (f q)); simpl; auto.
Qed.
#[global] Instance ord_le_trans {A} `{OrdLaws A} {C} (f : C -> A) :
  Transitive (fun p q => ord_le (f p) (f q)).
Proof.
  intros p q r. unfold ord_le. destruct (cmp (f p) (f q)) eqn:E1; [apply cmp_equal in E1 as ->; done| |done].
  intros _. destruct (cmp (f q) (f r)) eqn:E2; [apply cmp_equal in E2 as <-; by rewrite E1| |done].
  intros _. by rewrite (cmp_lt_trans (f p) (f q) (f r)).
Qed.

(** [Iterator::min_by]: the first of the least elements. *)
Definition min_by {A} (c : A -> A -> comparison) (l : list A) : option A :=
  match l with
  | [] => None
  | a :: l' => Some (fold_left (fun x y => match c x y with Gt => y | _ => x end) l' a)
  end.

Lemma min_by_Some {A} (c : A -> A -> comparison) l : l <> [] -> is_Some (min_by c l).
Proof. destruct l; [done|]. intros _. eexists. reflexivity. Qed.

(** The minimum is an element, and least for every measure the order refines. *)
Lemma min_by_least {A} (c : A -> A -> comparison) (f : A -> Z) l m :
  (forall x y, c x y = Gt -> f y <= f x) -> (forall x y, c x y <> Gt -> f x <= f y) ->
  min_by c l = Some m -> m ∈ l /\ forall a, a ∈ l -> f m <= f a.
Proof.
  intros Hgt Hle. destruct l as [|a l]; [done|]. simpl. intros [= <-].
  set (pick := fun x y => match c x y with Gt => y | _ => x end).
  enough (forall a, fold_left pick l a ∈ a :: l /\ forall b, b ∈ a :: l -> f (fold_left pick l a) <= f b)
    as H by apply H.
  clear a. induction l as [|b l IH]; intros a; simpl.
  - split; [constructor|]. intros x. rewrite list_elem_of_singleton. intros ->. lia.
  - destruct (IH (pick a b)) as [Hin Hmin].
    assert (f (pick a b) <= f a /\ f (pick a b) <= f b) as [Ha Hb].
    { unfold pick. destruct (c a b) eqn:E; [split; [lia|apply Hle; congruence]..|].
      split; [by apply Hgt|lia]. }
    assert (pick a b = a \/ pick a b = b) as Hp by (unfold pick; destruct (c a b); auto).
    split.
    + rewrite !elem_of_cons in *. destruct Hin as [->|]; [|auto]. destruct Hp as [-> | ->]; auto.
    + intros x. rewrite !elem_of_cons. pose proof (Hmin (pick a b) ltac:(constructor)).
      intros [->|[->|Hx]]; [lia|lia|]. apply Hmin. by constructor.
Qed.

Lemma fold_max_ge l a : a <= fold_left Z.max l a.
Proof. revert a. induction l as [|b l IH]; intros a; simpl; [lia|]. specialize (IH (Z.max a b)). lia. Qed.

(** [Iterator::max] on numbers. *)
Definition max_list (l : list Z) : option Z :=
  match l with [] => None | a :: l' => Some (fold_left Z.max l' a) end.

(** [Iterator::find_map]. *)
Fixpoint find_map {A B} (f : A -> option B) (l : list A) : option B :=
  match l with
  | [] => None
  | a :: l' => match f a with Some b => Some b | None => find_map f l' end
  end.

Lemma find_map_Some {A B} (f : A -> option B) l b :
  find_map f l = Some b -> exists a, a ∈ l /\ f a = Some b.
Proof.
  induction l as [|a l IH]; simpl; [done|]. destruct (f a) eqn:E.
  - intros [= ->]. exists a. split; [constructor|done].
  - intros (a' & H & Ha)%IH. exists a'. split; [by constructor|done].
Qed.

(** A [BTreeMap] is a [gmap] read in key order. *)
Definition btree_iter {K V} `{Countable K, Ord K} (m : gmap K V) : list (K * V) :=
  merge_sort (fun p q => ord_le (fst p) (fst q)) (map_to_list m).
Definition btree_keys {K V} `{Countable K, Ord K} (m : gmap K V) : list K :=
  (btree_iter m).*1.
Definition btree_values {K V} `{Countable K, Ord K} (m : gmap K V) : list V :=
  (btree_iter m).*2.

Lemma btree_iter_perm {K V} `{Countable K, Ord K} (m : gmap K V) :
  btree_iter m ≡ₚ map_to_list m.
Proof. apply merge_sort_Permutation. Qed.

(** A [HashMap] is a [gmap] whose iteration order is any enumeration of its
    entries: the order is a parameter, an enumeration chosen for each map. *)
Class HashOrder : Type := {
  hm_iter : forall {K V} `{Countable K}, gmap K V -> list (K * V);
  hm_iter_perm : forall {K V} `{Countable K} (m : gmap K V), hm_iter m ≡ₚ map_to_list m;
  hs_iter : forall {K} `{Countable K}, gset K -> list K;
  hs_iter_perm : forall {K} `{Countable K} (X : gset K), hs_iter X ≡ₚ elements X
}.

(** One enumeration, for evaluation. *)
Definition enum_order : HashOrder := {|
  hm_iter := fun K V _ _ m => map_to_list m;
  hm_iter_perm := fun K V _ _ m => Permutation_refl _;
  hs_iter := fun K _ _ X => elements X;
  hs_iter_perm := fun K _ _ X => Permutation_refl _
|}.

Section Iteration.
Context {K V : Type} `{Countable K} (m : gmap K V).

Lemma hm_iter_lookup {HO : HashOrder} k v : (k, v) ∈ hm_iter m <-> m !! k = Some v.
Proof. rewrite hm_iter_perm. apply elem_of_map_to_list. Qed.

Lemma btree_iter_lookup `{Ord K} k v : (k, v) ∈ btree_iter m <-> m !! k = Some v.
Proof. rewrite btree_iter_perm. apply elem_of_map_to_list. Qed.

Lemma btree_keys_lookup `{Ord K} k : k ∈ btree_keys m <-> is_Some (m !! k).
Proof.
  unfold btree_keys. rewrite list_elem_of_fmap. split.
  - intros ([k' v] & -> & Hv). apply btree_iter_lookup in Hv. simpl. by rewrite Hv.
  - intros [v Hv]. exists (k, v). split; [done|]. by apply btree_iter_lookup.
Qed.

Lemma btree_iter_NoDup `{Ord K} : NoDup (btree_iter m).*1.
Proof. rewrite btree_iter_perm. apply NoDup_fst_map_to_list. Qed.

Lemma hm_iter_NoDup {HO : HashOrder} : NoDup (hm_iter m).*1.
Proof. rewrite hm_iter_perm. apply NoDup_fst_map_to_list. Qed.

(** A flag accumulated over all entries of a map. *)
Lemma existsb_hm_iter {HO : HashOrder} f :
  existsb f (hm_iter m) = false <-> forall k v, m !! k = Some v -> f (k, v) = false.
Proof.
  rewrite <- not_true_iff_false, existsb_exists. split.
  - intros Hn k v Hk. apply not_true_iff_false. intros Hf. apply Hn. exists (k, v).
    split; [|done]. apply list_elem_of_In. by apply hm_iter_lookup.
  - intros Hall ([k v] & Hin & Hf). apply list_elem_of_In, hm_iter_lookup in Hin.
    rewrite (Hall k v Hin) in Hf. done.
Qed.
End Iteration.

(** Entries written in a loop over their keys. *)
Lemma lookup_fold_insert {K V} `{Countable K} (f : K -> V) l (m : gmap K V) k :
  fold_left (fun t k => <[k := f k]> t) l m !! k = if bool_decide (k ∈ l) then Some (f k) else m !! k.
Proof.
  revert m. induction l as [|a l IH]; intros m; cbn [fold_left]; [done|].
  rewrite IH. destruct (decide (k = a)) as [->|Hne].
  - rewrite (bool_decide_true (a ∈ a :: l)) by set_solver. rewrite lookup_insert, decide_True by done.
    by case_bool_decide.
  - rewrite lookup_insert_ne by done. assert (k ∈ a :: l <-> k ∈ l) by set_solver.
    do 2 case_bool_decide; tauto.
Qed.

Lemma elem_of_filter_bool {A} (f : A -> bool) l a : a ∈ List.filter f l <-> a ∈ l /\ f a = true.
Proof. rewrite !list_elem_of_In. apply filter_In. Qed.

Lemma NoDup_filter_keys {K V} (f : K * V -> bool) l : NoDup l.*1 -> NoDup (List.filter f l).*1.
Proof.
  induction l as [|[k v] l IH]; intros H; simpl in *; [done|]. apply list.NoDup_cons in H as [Hk H].
  destruct (f (k, v)); [|auto]. rewrite fmap_cons. apply list.NoDup_cons. split; [|auto].
  intros ([k' v'] & E & [Hin _]%elem_of_filter_bool)%list_elem_of_fmap. simpl in E. subst k'. apply Hk.
  apply list_elem_of_fmap. by exists (k, v').
Qed.
