(* ===== verification/Net.v ===== *)
(** Addresses of [std::net] and the interface of the [ipnet] crate.

    [Ipv4Addr], [Ipv6Addr] and [IpAddr] are the standard library's types with
    the predicates the sources call on them.  [ipnet] is a third-party crate:
    its network types are a parameter ([IpNetTypes], [IpNetLib]) with the
    documented behaviour of [new], [addr], [prefix_len], [trunc] and [network]
    as laws; [ipnet_model] is one implementation of that interface, used to
    evaluate the definitions on concrete inputs. *)
From S2P Require Import Prelude.
Local Open Scope Z_scope.

(** * [std::net] *)

Record Ipv4Addr := MkIpv4Addr { v4_octets : array 4 }.
Record Ipv6Addr := MkIpv6Addr { v6_octets : array 16 }.

Inductive IpAddr :=
| IpV4 (a : Ipv4Addr)
| IpV6 (a : Ipv6Addr).

#[global] Instance Ipv4Addr_eq_dec : EqDecision Ipv4Addr.
Proof. solve_decision. Defined.
#[global] Instance Ipv6Addr_eq_dec : EqDecision Ipv6Addr.
Proof. solve_decision. Defined.
#[global] Instance IpAddr_eq_dec : EqDecision IpAddr.
Proof. solve_decision. Defined.
#[global] Program Instance Ipv4Addr_countable : Countable Ipv4Addr :=
  inj_countable v4_octets (fun o => Some (MkIpv4Addr o)) _.
Next Obligation. by intros []. Qed.
#[global] Program Instance Ipv6Addr_countable : Countable Ipv6Addr :=
  inj_countable v6_octets (fun o => Some (MkIpv6Addr o)) _.
Next Obligation. by intros []. Qed.
#[global] Program Instance IpAddr_countable : Countable IpAddr :=
  inj_countable
    (fun a => match a with IpV4 a => inl a | IpV6 a => inr a end)
    (fun s => match s with inl a => Some (IpV4 a) | inr a => Some (IpV6 a) end) _.
Next Obligation. by intros []. Qed.

#[global] Instance Ipv4Addr_ord : Ord Ipv4Addr := fun a b => cmp (v4_octets a) (v4_octets b).
#[global] Instance Ipv6Addr_ord : Ord Ipv6Addr := fun a b => cmp (v6_octets a) (v6_octets b).
#[global] Instance Ipv4Addr_ord_laws : OrdLaws Ipv4Addr.
Proof. apply (ord_laws_image v4_octets); [done|]. by intros [a] [b] [= ->]. Qed.
#[global] Instance Ipv6Addr_ord_laws : OrdLaws Ipv6Addr.
Proof. apply (ord_laws_image v6_octets); [done|]. by intros [a] [b] [= ->]. Qed.
(** The derived order of the enum: every IPv4 address before every IPv6 one. *)
#[global] Instance IpAddr_ord : Ord IpAddr := fun a b =>
  match a, b with
  | IpV4 x, IpV4 y => cmp x y
  | IpV4 _, IpV6 _ => Lt
  | IpV6 _, IpV4 _ => Gt
  | IpV6 x, IpV6 y => cmp x y
  end.

Definition is_ipv4 (a : IpAddr) : bool := match a with IpV4 _ => true | IpV6 _ => false end.
Definition is_ipv6 (a : IpAddr) : bool := negb (is_ipv4 a).

(** Octet [i] as a number; the arrays are long enough at every use. *)
Definition octet (l : list byte) (i : nat) : Z := u8 (nth i l Byte.x00).

(** fe80::/10. *)
Definition is_unicast_link_local (a : Ipv6Addr) : bool :=
  let o := arr_list (v6_octets a) in
  (octet o 0 =? 0xfe) && (Z.land (octet o 1) 0xc0 =? 0x80).

Definition v4_is_unspecified (a : Ipv4Addr) : bool :=
  bool_decide (arr_list (v4_octets a) = [b8 0; b8 0; b8 0; b8 0]).
Definition v4_is_loopback (a : Ipv4Addr) : bool := octet (arr_list (v4_octets a)) 0 =? 127.
Definition v4_is_multicast (a : Ipv4Addr) : bool :=
  let o := octet (arr_list (v4_octets a)) 0 in (224 <=? o) && (o <=? 239).
Definition v4_is_broadcast (a : Ipv4Addr) : bool :=
  bool_decide (arr_list (v4_octets a) = [b8 255; b8 255; b8 255; b8 255]).
Definition v6_is_multicast (a : Ipv6Addr) : bool := octet (arr_list (v6_octets a)) 0 =? 0xff.
Definition is_multicast (a : IpAddr) : bool :=
  match a with IpV4 a => v4_is_multicast a | IpV6 a => v6_is_multicast a end.

Definition ipv4 (a b c d : Z) : Ipv4Addr := MkIpv4Addr (arr_of_list 4 [b8 a; b8 b; b8 c; b8 d]).
(** [Ipv6Addr::new] from eight 16-bit segments. *)
Definition ipv6 (segments : list Z) : Ipv6Addr :=
  MkIpv6Addr (arr_of_list 16 (concat (map to_be16 segments))).

(** ** Display, as the byte string [to_string] produces *)

Definition ascii_digit (d : Z) : byte := b8 (if d <? 10 then 48 + d else 87 + d).

(** [{}] and [{:x}] of a number, most significant digit first. *)
Fixpoint digits (fuel : nat) (base z : Z) (acc : list byte) : list byte :=
  match fuel with
  | O => acc
  | S fuel' =>
      let acc' := ascii_digit (z mod base) :: acc in
      if z / base =? 0 then acc' else digits fuel' base (z / base) acc'
  end.
Definition show_dec (z : Z) : list byte := digits 20 10 z [].
Definition show_hex (z : Z) : list byte := digits 16 16 z [].

Fixpoint join_bytes (sep : byte) (parts : list (list byte)) : list byte :=
  match parts with
  | [] => []
  | [p] => p
  | p :: rest => p ++ sep :: join_bytes sep rest
  end.

Definition show_ipv4 (o : list byte) : list byte :=
  join_bytes (b8 46) (map (fun b => show_dec (u8 b)) o).

Fixpoint segments_of (o : list byte) : list Z :=
  match o with
  | a :: b :: rest => (u8 a * 256 + u8 b) :: segments_of rest
  | _ => []
  end.

(** The first longest run of zero segments: start and length. *)
Fixpoint zero_span (i : nat) (segs : list Z) (cur best : nat * nat) : nat * nat :=
  match segs with
  | [] => best
  | s :: rest =>
      if s =? 0 then
        let cur' := (if (snd cur =? 0)%nat then i else fst cur, S (snd cur)) in
        zero_span (S i) rest cur' (if (snd best <? snd cur')%nat then cur' else best)
      else zero_span (S i) rest (O, O) best
  end.

Definition show_ipv6 (o : list byte) : list byte :=
  if bool_decide (take 12 o = replicate 10 (b8 0) ++ [b8 255; b8 255]) then
    [b8 58; b8 58; b8 102; b8 102; b8 102; b8 102; b8 58] ++ show_ipv4 (drop 12 o)
  else
    let segs := segments_of o in
    let colon := b8 58 in
    let show l := join_bytes colon (map show_hex l) in
    let '(start, len) := zero_span 0 segs (O, O) (O, O) in
    if (1 <? len)%nat then
      show (take start segs) ++ [colon; colon] ++ show (drop (start + len) segs)
    else show segs.

Definition addr_to_string (a : IpAddr) : list byte :=
  match a with
  | IpV4 a => show_ipv4 (arr_list (v4_octets a))
  | IpV6 a => show_ipv6 (arr_list (v6_octets a))
  end.

(** * [ipnet] *)

(** The mask of one octet when [k] of its leading bits belong to the prefix. *)
Definition octet_mask (k : Z) : Z :=
  if 8 <=? k then 255 else if k <=? 0 then 0 else 256 - 2 ^ (8 - k).

(** An address with the bits behind the first [p] cleared. *)
Fixpoint mask_octets (p : Z) (l : list byte) : list byte :=
  match l with
  | [] => []
  | b :: rest => b8 (Z.land (u8 b) (octet_mask p)) :: mask_octets (p - 8) rest
  end.

Lemma mask_octets_length p l : length (mask_octets p l) = length l.
Proof. revert p. induction l; intros; simpl; auto. Qed.

Class IpNetTypes : Type := {
  Ipv4Net : Type;
  Ipv6Net : Type;
  Ipv4Net_eq_dec :: EqDecision Ipv4Net;
  Ipv4Net_countable :: Countable Ipv4Net;
  Ipv6Net_eq_dec :: EqDecision Ipv6Net;
  Ipv6Net_countable :: Countable Ipv6Net
}.

Inductive IpNet {T : IpNetTypes} : Type :=
| NetV4 (n : Ipv4Net)
| NetV6 (n : Ipv6Net).

#[global] Instance IpNet_eq_dec {T : IpNetTypes} : EqDecision IpNet.
Proof. solve_decision. Defined.
#[global] Program Instance IpNet_countable {T : IpNetTypes} : Countable IpNet :=
  inj_countable
    (fun a => match a with NetV4 a => inl a | NetV6 a => inr a end)
    (fun s => match s with inl a => Some (NetV4 a) | inr a => Some (NetV6 a) end) _.
Next Obligation. by intros ? []. Qed.

Class IpNetLib : Type := {
  ipnet_types :: IpNetTypes;
  ipnet_ord :: Ord IpNet;
  (** The derived order is a total one that agrees with equality. *)
  ipnet_ord_laws :: OrdLaws IpNet;
  (** [Ipv4Net::new(addr, prefix_len).ok()] and the accessors. *)
  v4net_new : Ipv4Addr -> Z -> option Ipv4Net;
  v4net_addr : Ipv4Net -> Ipv4Addr;
  v4net_plen : Ipv4Net -> Z;
  v4net_trunc : Ipv4Net -> Ipv4Net;
  v4net_network : Ipv4Net -> Ipv4Addr;
  v6net_new : Ipv6Addr -> Z -> option Ipv6Net;
  v6net_addr : Ipv6Net -> Ipv6Addr;
  v6net_plen : Ipv6Net -> Z;
  v6net_trunc : Ipv6Net -> Ipv6Net;
  v6net_network : Ipv6Net -> Ipv6Addr;
  (** [new] fails exactly on a prefix length above the family's width, and a
      network is determined by its address and prefix length. *)
  v4net_plen_range : forall n, 0 <= v4net_plen n <= 32;
  v4net_new_spec : forall a p n, 0 <= p ->
    v4net_new a p = Some n <-> p <= 32 /\ v4net_addr n = a /\ v4net_plen n = p;
  v4net_trunc_plen : forall n, v4net_plen (v4net_trunc n) = v4net_plen n;
  v4net_trunc_addr : forall n,
    arr_list (v4_octets (v4net_addr (v4net_trunc n))) =
    mask_octets (v4net_plen n) (arr_list (v4_octets (v4net_addr n)));
  v4net_network_trunc : forall n, v4net_network n = v4net_addr (v4net_trunc n);
  v6net_plen_range : forall n, 0 <= v6net_plen n <= 128;
  v6net_new_spec : forall a p n, 0 <= p ->
    v6net_new a p = Some n <-> p <= 128 /\ v6net_addr n = a /\ v6net_plen n = p;
  v6net_trunc_plen : forall n, v6net_plen (v6net_trunc n) = v6net_plen n;
  v6net_trunc_addr : forall n,
    arr_list (v6_octets (v6net_addr (v6net_trunc n))) =
    mask_octets (v6net_plen n) (arr_list (v6_octets (v6net_addr n)));
  v6net_network_trunc : forall n, v6net_network n = v6net_addr (v6net_trunc n);
  (** [new] succeeds on every prefix length of the family's width. *)
  v4net_new_total : forall a p, 0 <= p <= 32 -> is_Some (v4net_new a p);
  v6net_new_total : forall a p, 0 <= p <= 128 -> is_Some (v6net_new a p)
}.

Section IpNet.
Context {NL : IpNetLib}.

Definition net_addr (n : IpNet) : IpAddr :=
  match n with NetV4 n => IpV4 (v4net_addr n) | NetV6 n => IpV6 (v6net_addr n) end.
Definition net_plen (n : IpNet) : Z :=
  match n with NetV4 n => v4net_plen n | NetV6 n => v6net_plen n end.
Definition net_trunc (n : IpNet) : IpNet :=
  match n with NetV4 n => NetV4 (v4net_trunc n) | NetV6 n => NetV6 (v6net_trunc n) end.
Definition net_is_ipv4 (n : IpNet) : bool := is_ipv4 (net_addr n).

(** The octets of a network's address. *)
Definition net_octets (n : IpNet) : list byte :=
  match n with
  | NetV4 n => arr_list (v4_octets (v4net_addr n))
  | NetV6 n => arr_list (v6_octets (v6net_addr n))
  end.

Lemma net_plen_range n : 0 <= net_plen n <= 128.
Proof.
  destruct n as [n|n]; simpl;
    [pose proof (v4net_plen_range n) | pose proof (v6net_plen_range n)]; lia.
Qed.

Lemma v4net_ext n m : v4net_addr n = v4net_addr m -> v4net_plen n = v4net_plen m -> n = m.
Proof.
  intros Ha Hp. pose proof (v4net_plen_range n) as R.
  assert (v4net_new (v4net_addr n) (v4net_plen n) = Some n) as E1.
  { apply v4net_new_spec; [lia|]. repeat split; lia. }
  assert (v4net_new (v4net_addr n) (v4net_plen n) = Some m) as E2.
  { apply v4net_new_spec; [lia|]. rewrite Ha, Hp. repeat split; lia. }
  congruence.
Qed.

Lemma v6net_ext n m : v6net_addr n = v6net_addr m -> v6net_plen n = v6net_plen m -> n = m.
Proof.
  intros Ha Hp. pose proof (v6net_plen_range n) as R.
  assert (v6net_new (v6net_addr n) (v6net_plen n) = Some n) as E1.
  { apply v6net_new_spec; [lia|]. repeat split; lia. }
  assert (v6net_new (v6net_addr n) (v6net_plen n) = Some m) as E2.
  { apply v6net_new_spec; [lia|]. rewrite Ha, Hp. repeat split; lia. }
  congruence.
Qed.

(** Two networks of one family with the same octets and length are equal. *)
Lemma net_ext n m :
  net_is_ipv4 n = net_is_ipv4 m -> net_octets n = net_octets m ->
  net_plen n = net_plen m -> n = m.
Proof.
  destruct n as [n|n], m as [m|m]; simpl; try done; intros _ Ho Hp; f_equal.
  - apply v4net_ext; [|done].
    destruct (v4net_addr n), (v4net_addr m); f_equal; by apply arr_ext.
  - apply v6net_ext; [|done].
    destruct (v6net_addr n), (v6net_addr m); f_equal; by apply arr_ext.
Qed.

Lemma net_trunc_is_ipv4 n : net_is_ipv4 (net_trunc n) = net_is_ipv4 n.
Proof. by destruct n. Qed.
Lemma net_trunc_plen n : net_plen (net_trunc n) = net_plen n.
Proof. destruct n; simpl; [apply v4net_trunc_plen | apply v6net_trunc_plen]. Qed.
Lemma net_trunc_octets n : net_octets (net_trunc n) = mask_octets (net_plen n) (net_octets n).
Proof. destruct n; simpl; [apply v4net_trunc_addr | apply v6net_trunc_addr]. Qed.

Lemma octet_mask_idem p b :
  Z.land (Z.land b (octet_mask p)) (octet_mask p) = Z.land b (octet_mask p).
Proof. by rewrite <- Z.land_assoc, Z.land_diag. Qed.

Lemma land_byte_range b m : 0 <= Z.land (u8 b) m < 256.
Proof.
  assert (Z.land (u8 b) m = Z.land (u8 b) m mod 2 ^ 8) as ->.
  { rewrite <- Z.land_ones by lia.
    rewrite <- Z.land_assoc, (Z.land_comm m), Z.land_assoc.
    by rewrite Z.land_ones, (Z.mod_small (u8 b) (2 ^ 8)) by (apply u8_range || lia). }
  apply Z.mod_pos_bound. lia.
Qed.

Lemma mask_octets_idem p l : mask_octets p (mask_octets p l) = mask_octets p l.
Proof.
  revert p. induction l as [|b l IH]; intros; simpl; [done|]. rewrite IH. f_equal.
  rewrite u8_b8_small by apply land_byte_range.
  by rewrite octet_mask_idem.
Qed.

Lemma net_trunc_idem n : net_trunc (net_trunc n) = net_trunc n.
Proof.
  apply net_ext; [apply net_trunc_is_ipv4 | | apply net_trunc_plen].
  by rewrite !net_trunc_octets, net_trunc_plen, mask_octets_idem.
Qed.

(** Prefixes without host bits. *)
Definition canonical (n : IpNet) : Prop := net_trunc n = n.

Lemma canonical_octets n : canonical n -> mask_octets (net_plen n) (net_octets n) = net_octets n.
Proof. intros H. by rewrite <- net_trunc_octets, H. Qed.
End IpNet.

(** ** One implementation of the interface *)

Definition v4net_impl : Type := dsig (fun p : Ipv4Addr * Z => 0 <= snd p <= 32).
Definition v6net_impl : Type := dsig (fun p : Ipv6Addr * Z => 0 <= snd p <= 128).

Definition net_impl_types : IpNetTypes := {|
  Ipv4Net := v4net_impl;
  Ipv6Net := v6net_impl;
  Ipv4Net_eq_dec := ltac:(unfold v4net_impl, dsig; apply _);
  Ipv4Net_countable := ltac:(unfold v4net_impl, dsig; apply _);
  Ipv6Net_eq_dec := ltac:(unfold v6net_impl, dsig; apply _);
  Ipv6Net_countable := ltac:(unfold v6net_impl, dsig; apply _)
|}.

(** The checked constructor of a pair with a bounded prefix length. *)
Definition mk_net {A} (w : Z) (a : A) (p : Z) : option (dsig (fun q : A * Z => 0 <= snd q <= w)) :=
  match decide (0 <= p <= w) with
  | left H => Some (dexist (P := fun q : A * Z => 0 <= snd q <= w) (a, p) H)
  | right _ => None
  end.

Lemma mk_net_spec {A} w (a : A) p n :
  0 <= p -> mk_net w a p = Some n <-> p <= w /\ fst (`n) = a /\ snd (`n) = p.
Proof.
  intros Hp. unfold mk_net. case_decide as H; split.
  - intros [= <-]. simpl. lia || (repeat split; lia).
  - intros (_ & <- & Hs). f_equal. apply dsig_eq. simpl. destruct n as [[x y] ?]; simpl in *.
    by subst.
  - done.
  - lia.
Qed.

Lemma mk_net_total {A} w (a : A) p : 0 <= p <= w -> is_Some (mk_net w a p).
Proof. intros H. unfold mk_net. case_decide; [eauto | lia]. Qed.

Lemma mask_array_length {n} (p : Z) (a : array n) : length (mask_octets p (arr_list a)) = n.
Proof. rewrite mask_octets_length. apply arr_length. Qed.

Definition mask_array {n} (p : Z) (a : array n) : array n :=
  dexist (mask_octets p (arr_list a)) (mask_array_length p a).

Definition trunc4 (n : v4net_impl) : v4net_impl :=
  dexist (P := fun p : Ipv4Addr * Z => 0 <= snd p <= 32)
    (MkIpv4Addr (mask_array (snd (`n)) (v4_octets (fst (`n)))), snd (`n)) (proj2_dsig n).
Definition trunc6 (n : v6net_impl) : v6net_impl :=
  dexist (P := fun p : Ipv6Addr * Z => 0 <= snd p <= 128)
    (MkIpv6Addr (mask_array (snd (`n)) (v6_octets (fst (`n)))), snd (`n)) (proj2_dsig n).

Definition net_impl_ord : Ord (@IpNet net_impl_types) := fun a b =>
  match a, b with
  | NetV4 x, NetV4 y => cmp (`x : Ipv4Addr * Z) (`y)
  | NetV4 _, NetV6 _ => Lt
  | NetV6 _, NetV4 _ => Gt
  | NetV6 x, NetV6 y => cmp (`x : Ipv6Addr * Z) (`y)
  end.

Lemma net_impl_ord_laws : @OrdLaws (@IpNet net_impl_types) net_impl_ord.
Proof.
  split; unfold cmp, net_impl_ord.
  - intros [a|a] [b|b]; try done; apply cmp_mirror.
  - intros [a|a] [b|b]; try done; intros E%cmp_equal; f_equal; by apply dsig_eq.
  - intros [a|a] [b|b] [c|c]; try done; apply cmp_lt_trans.
Qed.

Definition ipnet_model : IpNetLib := {|
  ipnet_types := net_impl_types;
  ipnet_ord := net_impl_ord;
  ipnet_ord_laws := net_impl_ord_laws;
  v4net_new := mk_net 32 : Ipv4Addr -> Z -> option (@Ipv4Net net_impl_types);
  v4net_addr := fun n : v4net_impl => fst (`n);
  v4net_plen := fun n : v4net_impl => snd (`n);
  v4net_trunc := trunc4;
  v4net_network := fun n : v4net_impl => fst (proj1_sig (trunc4 n));
  v6net_new := mk_net 128 : Ipv6Addr -> Z -> option (@Ipv6Net net_impl_types);
  v6net_addr := fun n : v6net_impl => fst (`n);
  v6net_plen := fun n : v6net_impl => snd (`n);
  v6net_trunc := trunc6;
  v6net_network := fun n : v6net_impl => fst (proj1_sig (trunc6 n));
  v4net_plen_range := fun n => proj2_dsig n;
  v4net_new_spec := mk_net_spec 32;
  v4net_trunc_plen := fun n => eq_refl;
  v4net_trunc_addr := fun n => eq_refl;
  v4net_network_trunc := fun n => eq_refl;
  v6net_plen_range := fun n => proj2_dsig n;
  v6net_new_spec := mk_net_spec 128;
  v6net_trunc_plen := fun n => eq_refl;
  v6net_trunc_addr := fun n => eq_refl;
  v6net_network_trunc := fun n => eq_refl;
  v4net_new_total := mk_net_total 32;
  v6net_new_total := mk_net_total 128
|}.

(** * Containment of networks ([contains] of the [ipnet] crate)

    The crate's documented behaviour is a parameter: a network contains an
    address or a network of its family exactly if the bits of its prefix agree
    and the other prefix is no shorter.  What the daemon relies on (a partial
    order whose chains are ordered by length) follows. *)

Class NetContains {NL : IpNetLib} : Type := {
  net_contains : IpNet -> IpNet -> bool;
  net_contains_spec : forall a b, net_contains a b = true <->
    net_is_ipv4 a = net_is_ipv4 b /\ net_plen a <= net_plen b /\
    mask_octets (net_plen a) (net_octets b) = mask_octets (net_plen a) (net_octets a);
  net_contains_addr : IpNet -> IpAddr -> bool;
  net_contains_addr_spec : forall a x, net_contains_addr a x = true <->
    net_is_ipv4 a = is_ipv4 x /\
    mask_octets (net_plen a) (match x with
                              | IpV4 x => arr_list (v4_octets x)
                              | IpV6 x => arr_list (v6_octets x)
                              end) = mask_octets (net_plen a) (net_octets a)
}.

(** * Masks *)

Lemma octet_mask_le p q : p <= q -> Z.land (octet_mask q) (octet_mask p) = octet_mask p.
Proof.
  intros H. unfold octet_mask. destruct (Z.leb_spec 8 p).
  { by destruct (Z.leb_spec 8 q); [|lia]. }
  destruct (Z.leb_spec p 0); [apply Z.land_0_r|].
  assert (p = 1 \/ p = 2 \/ p = 3 \/ p = 4 \/ p = 5 \/ p = 6 \/ p = 7) as Hp by lia.
  destruct (Z.leb_spec 8 q).
  { by destruct Hp as [->|[->|[->|[->|[->|[->| ->]]]]]]. }
  destruct (Z.leb_spec q 0); [lia|].
  assert (q = 1 \/ q = 2 \/ q = 3 \/ q = 4 \/ q = 5 \/ q = 6 \/ q = 7) as Hq by lia.
  destruct Hp as [->|[->|[->|[->|[->|[->| ->]]]]]], Hq as [->|[->|[->|[->|[->|[->| ->]]]]]]; lia || done.
Qed.

(** The shorter of two masks wins. *)
Lemma mask_mask p q l : p <= q -> mask_octets p (mask_octets q l) = mask_octets p l.
Proof.
  revert p q. induction l as [|b l IH]; intros p q H; simpl; [done|]. rewrite IH by lia. f_equal.
  rewrite u8_b8_small by apply land_byte_range. by rewrite <- Z.land_assoc, octet_mask_le.
Qed.

Section Contains.
Context {NL : IpNetLib} {NC : NetContains}.

Lemma canonical_trunc n : canonical (net_trunc n).
Proof. apply net_trunc_idem. Qed.

Lemma contains_refl a : net_contains a a = true.
Proof. by apply net_contains_spec. Qed.

Lemma contains_trans a b c : net_contains a b = true -> net_contains b c = true -> net_contains a c = true.
Proof.
  rewrite !net_contains_spec. intros (H1 & H2 & H3) (H4 & H5 & H6). split; [congruence|]. split; [lia|].
  rewrite <- H3, <- (mask_mask (net_plen a) (net_plen b) (net_octets c)), H6, mask_mask by lia. done.
Qed.

Lemma contains_plen a b : net_contains a b = true -> net_plen a <= net_plen b.
Proof. by intros (_ & H & _)%net_contains_spec. Qed.

Lemma contains_family a b : net_contains a b = true -> net_is_ipv4 a = net_is_ipv4 b.
Proof. by intros (H & _)%net_contains_spec. Qed.

(** Networks that contain a common one form a chain. *)
Lemma contains_chain a b c : net_contains a c = true -> net_contains b c = true ->
  net_plen a <= net_plen b -> net_contains a b = true.
Proof.
  rewrite !net_contains_spec. intros (H1 & H2 & H3) (H4 & H5 & H6) Hle. split; [congruence|]. split; [done|].
  rewrite <- H3, <- (mask_mask (net_plen a) (net_plen b) (net_octets c)), H6, mask_mask by lia. done.
Qed.

Lemma contains_antisym a b : canonical a -> canonical b -> net_contains a b = true ->
  net_plen a = net_plen b -> a = b.
Proof.
  intros Ha Hb (H1 & _ & H3)%net_contains_spec Hp. apply net_ext; try done.
  rewrite <- (canonical_octets a Ha), <- (canonical_octets b Hb), <- H3. by rewrite Hp.
Qed.

(** At most one canonical network of each length contains a given one. *)
Lemma contains_unique a b c : canonical a -> canonical b -> net_contains a c = true ->
  net_contains b c = true -> net_plen a = net_plen b -> a = b.
Proof. intros Ha Hb H1 H2 Hp. apply contains_antisym; try done. eapply contains_chain; eauto. lia. Qed.

Lemma trunc_contains n m : net_contains (net_trunc n) m = net_contains n m.
Proof.
  apply eq_true_iff_eq. rewrite !net_contains_spec, net_trunc_is_ipv4, net_trunc_plen, net_trunc_octets.
  by rewrite mask_octets_idem.
Qed.
End Contains.

(** One implementation. *)
Definition contains_model (NL : IpNetLib) : NetContains := {|
  net_contains := fun a b => bool_decide (net_is_ipv4 a = net_is_ipv4 b /\ net_plen a <= net_plen b /\
    mask_octets (net_plen a) (net_octets b) = mask_octets (net_plen a) (net_octets a));
  net_contains_spec := fun a b => bool_decide_eq_true _;
  net_contains_addr := fun a x => bool_decide (net_is_ipv4 a = is_ipv4 x /\
    mask_octets (net_plen a) (match x with
                              | IpV4 x => arr_list (v4_octets x)
                              | IpV6 x => arr_list (v6_octets x)
                              end) = mask_octets (net_plen a) (net_octets a));
  net_contains_addr_spec := fun a x => bool_decide_eq_true _
|}.
