(* ===== verification/Model.v ===== *)
(** Routing keys, identities, distances and selected routes ([model.rs]),
    admission limits ([limits.rs]) and route policies ([policy.rs]). *)
From S2P Require Import Prelude Net.
Local Open Scope Z_scope.

Definition INFINITY : Z := 0xffff.

(** * Router identities *)

Definition reserved_ids : list (array 8) :=
  [arr_of_list 8 (replicate 8 (b8 0)); arr_of_list 8 (replicate 8 (b8 0xff))].

(** The tuple field is private: every value went through [new]. *)
Definition RouterId : Type := dsig (fun value : array 8 => value ∉ reserved_ids).

Definition RouterId_new (value : array 8) : option RouterId :=
  match decide (value ∉ reserved_ids) with
  | left H => Some (dexist value H)
  | right _ => None
  end.

Definition octets (id : RouterId) : array 8 := `id.

#[global] Instance RouterId_eq_dec : EqDecision RouterId.
Proof. unfold RouterId, dsig. apply _. Defined.
#[global] Instance RouterId_countable : Countable RouterId.
Proof. unfold RouterId, dsig. apply _. Defined.
#[global] Instance RouterId_ord : Ord RouterId := fun a b => cmp (octets a) (octets b).

Lemma RouterId_new_Some v id : RouterId_new v = Some id <-> octets id = v.
Proof.
  unfold RouterId_new, octets. split.
  - case_decide; [by intros [= <-] | done].
  - intros <-. case_decide as H; [f_equal; by apply dsig_eq | destruct (proj2_dsig id H)].
Qed.

Lemma RouterId_new_octets id : RouterId_new (octets id) = Some id.
Proof. by apply RouterId_new_Some. Qed.

(** * Distances *)

Record Distance := MkDistance { d_seqno : Z; d_metric : Z }.

#[global] Instance Distance_eq_dec : EqDecision Distance.
Proof. solve_decision. Defined.

Definition seqno_gt (a b : Z) : bool :=
  let delta := wrapping_sub16 a b in
  negb (delta =? 0) && (delta <? 0x8000).

Definition feasible_against (self feasible : Distance) : bool :=
  seqno_gt (d_seqno self) (d_seqno feasible)
  || ((d_seqno self =? d_seqno feasible) && (d_metric self <? d_metric feasible)).

Lemma seqno_gt_spec a b :
  seqno_gt a b = true <-> exists d, 1 <= d < 0x8000 /\ (a - b) mod 65536 = d.
Proof.
  unfold seqno_gt, wrapping_sub16. rewrite andb_true_iff, negb_true_iff, Z.eqb_neq, Z.ltb_lt.
  pose proof (Z.mod_pos_bound (a - b) 65536 ltac:(lia)). split; [intros []; eexists; split; [|done]; lia|].
  intros (d & ? & ->). lia.
Qed.

Lemma seqno_gt_irrefl a : seqno_gt a a = false.
Proof. unfold seqno_gt, wrapping_sub16. by rewrite Z.sub_diag. Qed.

Lemma seqno_gt_asym a b : seqno_gt a b = true -> seqno_gt b a = false.
Proof.
  intros H. apply seqno_gt_spec in H as (d & Hd & E). apply not_true_iff_false.
  intros H. apply seqno_gt_spec in H as (e & He & E'). Z.div_mod_to_equations. lia.
Qed.

(** Distances at least as good as [d]: those [d] is not feasible against. *)
Definition dominates (fd d : Distance) : Prop := feasible_against d fd = false.

Lemma feasible_irrefl d : feasible_against d d = false.
Proof. unfold feasible_against. rewrite seqno_gt_irrefl. simpl. lia. Qed.

Lemma feasible_asym d e : feasible_against d e = true -> feasible_against e d = false.
Proof.
  unfold feasible_against. rewrite orb_true_iff, orb_false_iff, andb_true_iff, andb_false_iff.
  rewrite !Z.eqb_eq, !Z.ltb_lt, Z.eqb_neq, Z.ltb_ge.
  intros [H | [H1 H2]].
  - split; [by apply seqno_gt_asym|]. left. intros E. rewrite E, seqno_gt_irrefl in H. done.
  - rewrite H1. split; [apply seqno_gt_irrefl | lia].
Qed.

(** * Route keys *)

Section RouteKeys.
Context {NL : IpNetLib}.

Record RouteKey := MkRouteKey { destination : IpNet; source : option IpNet }.

#[global] Instance RouteKey_eq_dec : EqDecision RouteKey.
Proof. solve_decision. Defined.
#[global] Program Instance RouteKey_countable : Countable RouteKey :=
  inj_countable (fun k => (destination k, source k)) (fun p => Some (MkRouteKey p.1 p.2)) _.
Next Obligation. by intros []. Qed.
#[global] Instance RouteKey_ord : Ord RouteKey := fun a b =>
  cmp (destination a, source a) (destination b, source b).

Definition RouteKey_new (destination : IpNet) (source : option IpNet) : option RouteKey :=
  if match source with
     | Some value => negb (Bool.eqb (net_is_ipv4 value) (net_is_ipv4 destination))
     | None => false
     end
  then None
  else
    let source := match source with
                  | Some value => if negb (net_plen value =? 0) then Some value else None
                  | None => None
                  end in
    Some (MkRouteKey (net_trunc destination) (net_trunc <$> source)).

(** * Selected routes *)

Record SelectedRoute := MkSelectedRoute {
  sr_key : RouteKey;
  sr_router_id : RouterId;
  sr_seqno : Z;
  sr_metric : Z;
  sr_next_hop : IpAddr;
  sr_interface : string
}.

#[global] Instance SelectedRoute_eq_dec : EqDecision SelectedRoute.
Proof. solve_decision. Defined.

(** * Route policies *)

Record ImportContext := MkImportContext {
  im_key : RouteKey;
  im_interface : string;
  im_neighbor : IpAddr;
  im_next_hop : IpAddr;
  im_router_id : RouterId;
  im_seqno : Z;
  im_advertised_metric : Z
}.

Record ExportContext := MkExportContext {
  ex_key : RouteKey;
  ex_interface : string;
  ex_router_id : RouterId;
  ex_locally_originated : bool
}.

(** [dyn RoutePolicy]: two pure callbacks. *)
Record RoutePolicy := MkRoutePolicy {
  accept : ImportContext -> bool;
  announce : ExportContext -> bool
}.

Definition AllowAllRoutes : RoutePolicy :=
  {| accept := fun _ => true; announce := fun _ => true |}.
End RouteKeys.

(** * Resource limits *)

Record ResourceLimits := MkResourceLimits {
  max_neighbors : nat;
  max_candidates : nat;
  max_candidates_per_neighbor : nat
}.

Definition default_limits : ResourceLimits :=
  {| max_neighbors := 256;
     max_candidates := Z.to_nat 16384;
     max_candidates_per_neighbor := Z.to_nat 4096 |}.

Record ResourceStatus := MkResourceStatus {
  rs_limits : ResourceLimits;
  rs_candidates : nat;
  rs_sources : nat;
  rs_pending_requests : nat;
  rs_unreachable : nat;
  rejected_neighbors : Z;
  rejected_candidates_global : Z;
  rejected_candidates_per_neighbor : Z
}.

Definition default_status : ResourceStatus := {|
  rs_limits := default_limits;
  rs_candidates := 0;
  rs_sources := 0;
  rs_pending_requests := 0;
  rs_unreachable := 0;
  rejected_neighbors := 0;
  rejected_candidates_global := 0;
  rejected_candidates_per_neighbor := 0
|}.
