(* ===== verification/Metric.v ===== *)
(** Link-quality profiles, Hello histories and metric composition ([metric.rs]).

    [HelloHistory] keeps the latest sixteen Hellos as a bit mask;
    [WiredNeighbor], [EtxNeighbor] and [RttNeighbor] turn histories, IHU costs
    and RTT samples into link costs.  The traits [NeighborMetric],
    [MetricProfile] and [MetricAlgebra] are the interfaces [MetricImpl] and
    [MetricAlgebra] the engine is written against; [builtin_metrics] is the
    instance the three built-in profiles form. *)
From S2P Require Import Prelude Net Model.
From Stdlib Require Import SpecFloat.
Local Open Scope Z_scope.

(** * Hello histories *)

Module Hello.

(** Whether the crate is compiled with overflow checks (the [dev] profile) or
    without (the [release] profile, where a shift amount is masked). *)
Class Build : Type := overflow_checks : bool.

Record HelloHistory := MkHelloHistory {
  bits : Z;
  samples : Z;
  expected_seqno : option Z
}.

Definition default_history : HelloHistory :=
  {| bits := 0; samples := 0; expected_seqno := None |}.

Record HelloHistories := MkHelloHistories { multicast : HelloHistory; unicast : HelloHistory }.

Definition default_histories : HelloHistories :=
  {| multicast := default_history; unicast := default_history |}.

Inductive HelloHistoryUpdate := Recorded | Restarted.

#[global] Instance HelloHistoryUpdate_eq_dec : EqDecision HelloHistoryUpdate.
Proof. solve_decision. Defined.
#[global] Instance HelloHistory_eq_dec : EqDecision HelloHistory.
Proof. solve_decision. Defined.

(** [u16 >> n]: with overflow checks a shift by 16 or more panics, without
    them the amount is taken modulo 16. *)
Definition shr16 {B : Build} (a n : Z) : option Z :=
  if overflow_checks && (16 <=? n) then None else Some (Z.shiftr a (n mod 16)).

(** [u16 << n] for [n < 16]. *)
Definition shl16 (a n : Z) : Z := Z.shiftl a n mod 65536.

Definition append_missed (self : HelloHistory) (count : Z) : HelloHistory :=
  if 16 <=? count then {| bits := 0; samples := 16; expected_seqno := expected_seqno self |}
  else {| bits := shl16 (bits self) count;
          samples := Z.min (Z.min (samples self + count) 255) 16;
          expected_seqno := expected_seqno self |}.

(** The first Hello of a history. *)
Definition record_first (seqno : Z) : HelloHistory :=
  {| bits := 1; samples := 1; expected_seqno := Some (wrapping_add16 seqno 1) |}.

(** [None] is a panic. *)
Definition record {B : Build} (self : HelloHistory) (seqno : Z)
  : option (HelloHistory * HelloHistoryUpdate) :=
  match expected_seqno self with
  | None => Some (record_first seqno, Recorded)
  | Some expected =>
      let forward := wrapping_sub16 seqno expected in
      let backward := wrapping_sub16 expected seqno in
      let finish h :=
        Some ({| bits := Z.lor (shl16 (bits h) 1) 1;
                 samples := Z.min (Z.min (samples h + 1) 255) 16;
                 expected_seqno := Some (wrapping_add16 seqno 1) |}, Recorded) in
      if forward <=? 16 then finish (append_missed self forward)
      else if backward <=? 16 then
        b ← shr16 (bits self) backward;
        finish {| bits := b;
                  samples := saturating_sub (samples self) backward;
                  expected_seqno := expected_seqno self |}
      else Some (record_first seqno, Restarted)
  end.

Definition missed_many (self : HelloHistory) (count : Z) : HelloHistory :=
  match expected_seqno self with
  | None => self
  | Some value =>
      let h := append_missed self (Z.min count 16) in
      {| bits := bits h; samples := samples h;
         expected_seqno := Some (wrapping_add16 value (count mod 65536)) |}
  end.

Definition missed (self : HelloHistory) : HelloHistory := missed_many self 1.

Definition is_empty (self : HelloHistory) : bool := bits self =? 0.

(** [u16::count_ones]. *)
Fixpoint count_ones (n : nat) (z : Z) : Z :=
  match n with
  | O => 0
  | S n' => Z.b2z (Z.odd z) + count_ones n' (z / 2)
  end.

Definition window_mask (window : Z) : Z :=
  if window =? 16 then 65535 else Z.shiftl 1 window - 1.

(** The count behind the assertion of [received]. *)
Definition received_count (self : HelloHistory) (window : Z) : Z :=
  count_ones 16 (Z.land (bits self) (window_mask window)).

(** [None] is the documented panic on a window outside [1..=16]. *)
Definition received (self : HelloHistory) (window : Z) : option Z :=
  if (1 <=? window) && (window <=? 16) then Some (received_count self window) else None.

Definition observed (self : HelloHistory) : Z := samples self.

(** ** The window as a list

    The intended content of a history: the outcome of the latest Hellos,
    newest first, at most sixteen of them (RFC 8966 appendix A.1). *)

Fixpoint bits_of (l : list bool) : Z :=
  match l with
  | [] => 0
  | b :: l' => Z.b2z b + 2 * bits_of l'
  end.

(** [h] holds exactly the window [l]. *)
Definition represents (h : HelloHistory) (l : list bool) : Prop :=
  bits h = bits_of l /\ samples h = Z.of_nat (length l) /\ (length l <= 16)%nat.

(** What appendix A.1 asks of a Hello [seqno] when [expected] is next. *)
Definition spec_record (l : list bool) (expected seqno : Z) : list bool * HelloHistoryUpdate :=
  let forward := wrapping_sub16 seqno expected in
  let backward := wrapping_sub16 expected seqno in
  if forward <=? 16 then
    (take 16 (true :: replicate (Z.to_nat forward) false ++ l), Recorded)
  else if backward <=? 16 then (take 16 (true :: drop (Z.to_nat backward) l), Recorded)
  else ([true], Restarted).

Definition spec_missed (l : list bool) (count : Z) : list bool :=
  take 16 (replicate (Z.to_nat (Z.min count 16)) false ++ l).

Lemma bits_of_range l : 0 <= bits_of l < 2 ^ Z.of_nat (length l).
Proof.
  induction l as [|b l IH]; simpl length; [simpl; lia|].
  rewrite Nat2Z.inj_succ, Z.pow_succ_r by lia. simpl. destruct b; simpl; lia.
Qed.

Lemma bits_of_app_false n l : bits_of (replicate n false ++ l) = 2 ^ Z.of_nat n * bits_of l.
Proof.
  induction n as [|n IH]; simpl replicate; [simpl; lia|].
  rewrite Nat2Z.inj_succ, Z.pow_succ_r by lia. simpl. rewrite IH. lia.
Qed.

Lemma bits_of_take n l : bits_of (take n l) = bits_of l mod 2 ^ Z.of_nat n.
Proof.
  revert l. induction n as [|n IH]; intros l; [simpl; by rewrite Z.mod_1_r|].
  destruct l as [|b l]; [simpl; by rewrite Z.mod_0_l by (apply Z.pow_nonzero; lia)|].
  simpl take. simpl bits_of. rewrite IH, Nat2Z.inj_succ, Z.pow_succ_r by lia.
  rewrite Z.add_comm, (Z.add_comm (Z.b2z b)).
  assert (0 < 2 ^ Z.of_nat n) by (apply Z.pow_pos_nonneg; lia).
  rewrite (Z.div_mod (bits_of l) (2 ^ Z.of_nat n)) at 2 by lia.
  set (q := bits_of l / _). set (r := bits_of l mod _).
  assert (0 <= r < 2 ^ Z.of_nat n) by (apply Z.mod_pos_bound; lia).
  replace (2 * (2 ^ Z.of_nat n * q + r) + Z.b2z b)
    with ((2 * r + Z.b2z b) + q * (2 * 2 ^ Z.of_nat n)) by lia.
  rewrite Z.mod_add by lia. symmetry. apply Z.mod_small. destruct b; simpl; lia.
Qed.

Lemma bits_of_drop n l : bits_of (drop n l) = Z.shiftr (bits_of l) (Z.of_nat n).
Proof.
  rewrite Z.shiftr_div_pow2 by lia.
  revert l. induction n as [|n IH]; intros l; [simpl; by rewrite Z.div_1_r|].
  destruct l as [|b l]; [simpl; by rewrite Z.div_0_l by (apply Z.pow_nonzero; lia)|].
  simpl drop. rewrite IH, Nat2Z.inj_succ, Z.pow_succ_r by lia.
  assert (0 < 2 ^ Z.of_nat n) by (apply Z.pow_pos_nonneg; lia).
  rewrite <- Z.div_div by lia. f_equal. simpl. destruct b; simpl; Z.div_mod_to_equations; lia.
Qed.

Lemma lor_double_1 a : 0 <= a -> Z.lor (2 * a) 1 = 2 * a + 1.
Proof. intros. by destruct a. Qed.

(** Adding one received Hello in front of a window. *)
Lemma represents_push h l e :
  represents h l ->
  represents {| bits := Z.lor (shl16 (bits h) 1) 1;
                samples := Z.min (Z.min (samples h + 1) 255) 16;
                expected_seqno := e |} (take 16 (true :: l)).
Proof.
  intros (Hb & Hs & Hl). pose proof (bits_of_range l).
  split; [|split]; cbn [bits samples]; [|rewrite Hs, length_take; simpl length; lia
                                         |rewrite length_take; lia].
  rewrite bits_of_take, Hb. unfold shl16. rewrite Z.shiftl_mul_pow2 by lia.
  replace (bits_of l * 2 ^ 1 mod 65536) with (2 * (bits_of l mod 32768))
    by (Z.div_mod_to_equations; lia).
  rewrite lor_double_1 by (apply Z.mod_pos_bound; lia).
  change (2 ^ Z.of_nat 16) with 65536. cbn [bits_of Z.b2z]. Z.div_mod_to_equations. lia.
Qed.

Lemma represents_append h l count :
  represents h l -> 0 <= count <= 16 ->
  represents (append_missed h count) (take 16 (replicate (Z.to_nat count) false ++ l)).
Proof.
  intros (Hb & Hs & Hl) Hc. unfold append_missed. case_match; cbn [bits samples].
  - assert (count = 16) as -> by lia. split; [|split]; cbn [bits samples].
    + by rewrite take_app_le, take_ge by (rewrite length_replicate; lia).
    + rewrite length_take, length_app, length_replicate. lia.
    + rewrite length_take. lia.
  - split; [|split]; cbn [bits samples].
    + rewrite bits_of_take, bits_of_app_false, Hb. unfold shl16.
      rewrite Z.shiftl_mul_pow2, Z2Nat.id by lia. by rewrite Z.mul_comm.
    + rewrite length_take, length_app, length_replicate. lia.
    + rewrite length_take. lia.
Qed.

Lemma represents_first seqno : represents (record_first seqno) [true].
Proof. split; [done|]. split; [done|]. simpl. lia. Qed.

(** Every Hello but one sixteen behind [expected] does what appendix A.1 asks,
    whatever the build profile. *)
Lemma record_refines {B : Build} h l expected seqno :
  represents h l -> expected_seqno h = Some expected ->
  wrapping_sub16 expected seqno <> 16 ->
  exists h', record h seqno = Some (h', snd (spec_record l expected seqno)) /\
    represents h' (fst (spec_record l expected seqno)) /\
    expected_seqno h' = Some (wrapping_add16 seqno 1).
Proof.
  intros Hr He Hne. unfold record, spec_record. rewrite He.
  pose proof (wrapping_sub16_range seqno expected). pose proof (wrapping_sub16_range expected seqno).
  unfold in_u16 in *. case_match; [|case_match].
  - eexists. split; [done|]. split; [|done]. simpl fst.
    change (take 16 (true :: ?t)) with (true :: take 15 t).
    replace (true :: take 15 (replicate (Z.to_nat (wrapping_sub16 seqno expected)) false ++ l))
      with (take 16 (true :: take 16 (replicate (Z.to_nat (wrapping_sub16 seqno expected)) false ++ l)))
      by (simpl; by rewrite take_take).
    apply represents_push, represents_append; [done | lia].
  - unfold shr16. replace (16 <=? wrapping_sub16 expected seqno) with false by lia.
    rewrite andb_false_r. simpl. eexists. split; [done|]. split; [|done].
    apply (represents_push (MkHelloHistory (Z.shiftr (bits h) (wrapping_sub16 expected seqno mod 16))
             (saturating_sub (samples h) (wrapping_sub16 expected seqno)) None)).
    destruct Hr as (Hb & Hs & Hl). split; [|split]; cbn [bits samples].
    + rewrite bits_of_drop, Hb. rewrite Z2Nat.id by lia. rewrite Z.mod_small by lia. done.
    + rewrite length_drop. unfold saturating_sub. lia.
    + rewrite length_drop. lia.
  - eexists. split; [done|]. split; [apply represents_first | done].
Qed.

(** The number of received Hellos among the latest [window]. *)
Definition hits (l : list bool) : Z := Z.of_nat (length (filter (fun b => b = true) l)).

Lemma count_ones_bits n l : (length l <= n)%nat -> count_ones n (bits_of l) = hits l.
Proof.
  revert n. induction l as [|b l IH]; intros n Hn; unfold hits in *.
  - simpl. clear. induction n; simpl; [done|]. rewrite Z.div_0_l by lia. simpl. lia.
  - destruct n as [|n]; simpl in Hn; [lia|]. simpl count_ones.
    replace ((Z.b2z b + 2 * bits_of l) / 2) with (bits_of l)
      by (destruct b; simpl; Z.div_mod_to_equations; lia).
    rewrite IH, Z.odd_add_mul_2 by lia. rewrite filter_cons.
    destruct b; simpl; lia.
Qed.

Lemma received_count_window h l window :
  represents h l -> 1 <= window <= 16 ->
  received_count h window = hits (take (Z.to_nat window) l).
Proof.
  intros (Hb & Hs & Hl) Hw. unfold received_count. rewrite Hb.
  assert (window_mask window = Z.ones window) as ->.
  { unfold window_mask. case_match; [by replace window with 16 by lia|].
    unfold Z.ones. rewrite !Z.shiftl_mul_pow2 by lia. lia. }
  rewrite Z.land_ones by lia.
  replace window with (Z.of_nat (Z.to_nat window)) at 1 by lia.
  rewrite <- bits_of_take. apply count_ones_bits. rewrite length_take. lia.
Qed.

Lemma count_ones_range n z : 0 <= count_ones n z <= Z.of_nat n.
Proof.
  revert z. induction n as [|n IH]; intros z; simpl; [lia|].
  specialize (IH (z / 2)). destruct (Z.odd z); simpl; lia.
Qed.

Lemma missed_many_refines h l expected count :
  represents h l -> expected_seqno h = Some expected -> 0 <= count ->
  represents (missed_many h count) (spec_missed l count) /\
  expected_seqno (missed_many h count) = Some (wrapping_add16 expected (count mod 65536)).
Proof.
  intros Hr He Hc. unfold missed_many. rewrite He. split; [|done].
  assert (represents (append_missed h (Z.min count 16)) (spec_missed l count)) as (? & ? & ?).
  { apply represents_append; [done | lia]. }
  done.
Qed.
End Hello.
Import Hello.

(** * Interfaces *)

Record MetricStatus := MkMetricStatus {
  algorithm : string;
  ms_receive_cost : Z;
  ms_transmit_cost : Z;
  ms_link_cost : Z;
  ms_last_rtt_us : option Z;
  ms_smoothed_rtt_us : option Z;
  ms_rtt_penalty : Z
}.

(** The traits [NeighborMetric] and [MetricProfile]: a type of per-neighbour
    states and a type of factories. *)
Class MetricImpl : Type := {
  NeighborMetric : Type;
  MetricProfile : Type;
  on_hello : NeighborMetric -> HelloHistories -> NeighborMetric;
  on_ihu : NeighborMetric -> Z -> NeighborMetric;
  on_rtt_sample : NeighborMetric -> Z -> Z -> NeighborMetric;
  receive_cost : NeighborMetric -> Z;
  transmit_cost : NeighborMetric -> Z;
  link_cost : NeighborMetric -> Z;
  status : NeighborMetric -> MetricStatus;
  profile_name : MetricProfile -> string;
  new_neighbor : MetricProfile -> string -> NeighborMetric;
  timestamps_enabled : MetricProfile -> bool;
  rtt_probe_interval_ms : MetricProfile -> option Z
}.

(** The trait [MetricAlgebra]. *)
Record MetricAlgebra := MkMetricAlgebra {
  extend : Z -> Z -> Z;
  extend_u16 : forall a l, in_u16 (extend a l)
}.

(** * Additive algebra *)

Definition additive_extend (advertised_metric link_cost : Z) : Z :=
  if (advertised_metric =? INFINITY) || (link_cost =? 0) || (link_cost =? INFINITY) then INFINITY
  else
    let result := advertised_metric + link_cost in
    if INFINITY <=? result then INFINITY else result mod 65536.

Lemma additive_extend_u16 a l : in_u16 (additive_extend a l).
Proof.
  unfold additive_extend, in_u16, INFINITY. repeat case_match; try lia.
  apply Z.mod_pos_bound. lia.
Qed.

Definition AdditiveMetric : MetricAlgebra :=
  {| extend := additive_extend; extend_u16 := additive_extend_u16 |}.

(** * Costs shared by the profiles *)

(** A cost the link metric treats as unusable. *)
Definition unusable (cost : Z) : bool := (cost =? 0) || (cost =? INFINITY).

(** * Wired profile: k-out-of-j sensing *)

Record WiredMetric := MkWiredMetric {
  nominal_cost : Z;
  wm_received : Z;
  wm_window : Z
}.

Definition WiredMetric_ok (m : WiredMetric) : Prop :=
  0 < nominal_cost m < INFINITY /\ 0 < wm_received m <= wm_window m /\ wm_window m <= 16.

Definition WiredMetric_new (nominal_cost received window : Z) : option WiredMetric :=
  if (0 <? nominal_cost) && (nominal_cost <? INFINITY) && (0 <? received)
     && (received <=? window) && (window <=? 16)
  then Some {| nominal_cost := nominal_cost; wm_received := received; wm_window := window |}
  else None.

Definition DEFAULT_NOMINAL_COST : Z := 96.
Definition DEFAULT_RECEIVED : Z := 2.
Definition DEFAULT_WINDOW : Z := 3.

(** [None] would be the panic of [expect]. *)
Definition WiredMetric_default : option WiredMetric :=
  WiredMetric_new DEFAULT_NOMINAL_COST DEFAULT_RECEIVED DEFAULT_WINDOW.

Record WiredNeighbor := MkWiredNeighbor {
  wn_config : WiredMetric;
  wn_histories : HelloHistories;
  wn_transmit_cost : Z
}.

Module Wired.
Definition new_neighbor (self : WiredMetric) : WiredNeighbor :=
  {| wn_config := self; wn_histories := default_histories; wn_transmit_cost := INFINITY |}.

Definition reachable (self : WiredNeighbor) : bool :=
  let enough history :=
    wm_received (wn_config self) <=? received_count history (wm_window (wn_config self)) in
  enough (multicast (wn_histories self)) || enough (unicast (wn_histories self)).

Definition on_hello (self : WiredNeighbor) (h : HelloHistories) : WiredNeighbor :=
  {| wn_config := wn_config self; wn_histories := h; wn_transmit_cost := wn_transmit_cost self |}.
Definition on_ihu (self : WiredNeighbor) (cost : Z) : WiredNeighbor :=
  {| wn_config := wn_config self; wn_histories := wn_histories self; wn_transmit_cost := cost |}.

Definition receive_cost (self : WiredNeighbor) : Z :=
  if reachable self then nominal_cost (wn_config self) else INFINITY.

Definition link_cost (self : WiredNeighbor) : Z :=
  if (receive_cost self =? INFINITY) || (wn_transmit_cost self =? 0)
     || (wn_transmit_cost self =? INFINITY)
  then INFINITY else wn_transmit_cost self.

Definition status (self : WiredNeighbor) : MetricStatus :=
  {| algorithm := "wired"; ms_receive_cost := receive_cost self;
     ms_transmit_cost := wn_transmit_cost self; ms_link_cost := link_cost self;
     ms_last_rtt_us := None; ms_smoothed_rtt_us := None; ms_rtt_penalty := 0 |}.
End Wired.

(** * ETX profile *)

Record EtxMetric := MkEtxMetric { em_window : Z }.

Definition EtxMetric_ok (m : EtxMetric) : Prop := 0 < em_window m <= 16.

Definition NOMINAL_COST : Z := 256.
Definition ETX_DEFAULT_WINDOW : Z := 6.

Definition EtxMetric_new (window : Z) : option EtxMetric :=
  if (0 <? window) && (window <=? 16) then Some {| em_window := window |} else None.

Definition EtxMetric_default : option EtxMetric := EtxMetric_new ETX_DEFAULT_WINDOW.

Record EtxNeighbor := MkEtxNeighbor {
  en_config : EtxMetric;
  en_histories : HelloHistories;
  en_transmit_cost : Z
}.

Module Etx.
Definition new_neighbor (self : EtxMetric) : EtxNeighbor :=
  {| en_config := self; en_histories := default_histories; en_transmit_cost := INFINITY |}.

Definition computed_receive_cost (self : EtxNeighbor) : Z :=
  let received := received_count (multicast (en_histories self)) (em_window (en_config self)) in
  if received =? 0 then INFINITY
  else
    let numerator := NOMINAL_COST * em_window (en_config self) in
    Z.min (div_ceil numerator received) INFINITY.

Definition on_hello (self : EtxNeighbor) (h : HelloHistories) : EtxNeighbor :=
  {| en_config := en_config self; en_histories := h; en_transmit_cost := en_transmit_cost self |}.
Definition on_ihu (self : EtxNeighbor) (cost : Z) : EtxNeighbor :=
  {| en_config := en_config self; en_histories := en_histories self; en_transmit_cost := cost |}.

Definition receive_cost (self : EtxNeighbor) : Z := computed_receive_cost self.

Definition link_cost (self : EtxNeighbor) : Z :=
  let receive := receive_cost self in
  if (receive =? INFINITY) || (en_transmit_cost self =? 0) || (en_transmit_cost self =? INFINITY)
  then INFINITY
  else
    let transmit := Z.max (en_transmit_cost self) NOMINAL_COST in
    let product := transmit * receive in
    let cost := div_ceil product NOMINAL_COST in
    Z.min cost INFINITY.

Definition status (self : EtxNeighbor) : MetricStatus :=
  {| algorithm := "etx"; ms_receive_cost := receive_cost self;
     ms_transmit_cost := en_transmit_cost self; ms_link_cost := link_cost self;
     ms_last_rtt_us := None; ms_smoothed_rtt_us := None; ms_rtt_penalty := 0 |}.
End Etx.

(** * RTT profile

    [f64] is IEEE 754 binary64 arithmetic, rounding to nearest even, as
    [SpecFloat] defines it; [powf] is the C library's and a parameter. *)

Abbreviation f64 := spec_float.

Definition f64_of_Z (z : Z) : f64 := binary_normalize 53 1024 z 0 false.
Definition f64_add : f64 -> f64 -> f64 := SFadd 53 1024.
Definition f64_sub : f64 -> f64 -> f64 := SFsub 53 1024.
Definition f64_mul : f64 -> f64 -> f64 := SFmul 53 1024.
Definition f64_div : f64 -> f64 -> f64 := SFdiv 53 1024.
Definition f64_le (a b : f64) : bool := SFleb a b.
Definition f64_lt (a b : f64) : bool := SFltb a b.
Definition f64_is_finite (a : f64) : bool :=
  match a with S754_zero _ | S754_finite _ _ _ => true | _ => false end.

(** [x.round() as uN]: half away from zero, then the saturating cast. *)
Definition f64_round_as (umax : Z) (a : f64) : Z :=
  match a with
  | S754_zero _ | S754_nan => 0
  | S754_infinity s => if s then 0 else umax
  | S754_finite true _ _ => 0
  | S754_finite false m e =>
      let v := if 0 <=? e then Z.pos m * 2 ^ e
               else (Z.pos m + 2 ^ (- e - 1)) / 2 ^ (- e) in
      Z.min v umax
  end.

Lemma f64_round_as_range umax a : 0 <= umax -> 0 <= f64_round_as umax a <= umax.
Proof.
  intros. destruct a as [s|[]| |[] m e]; simpl; try lia.
  destruct (Z.leb_spec 0 e).
  - assert (0 < 2 ^ e) by (apply Z.pow_pos_nonneg; lia). nia.
  - assert (0 < 2 ^ (- e)) by (apply Z.pow_pos_nonneg; lia).
    assert (0 < 2 ^ (- e - 1)) by (apply Z.pow_pos_nonneg; lia).
    assert (0 <= (Z.pos m + 2 ^ (- e - 1)) / 2 ^ (- e)) by (apply Z.div_pos; lia). lia.
Qed.

(** [f64::powf] of the platform's mathematics library. *)
Class Libm : Type := powf : f64 -> f64 -> f64.

(** The built-in profiles; [RttMetric] composes over another profile. *)
Record RttConfig := MkRttConfig {
  probe_interval_ms : Z;
  half_life_ms : Z;
  sample_alpha : option f64;
  min_rtt_us : Z;
  max_rtt_us : Z;
  max_penalty : Z
}.

Inductive Profile :=
| PWired (m : WiredMetric)
| PEtx (m : EtxMetric)
| PRtt (base : Profile) (c : RttConfig).

Record RttState := MkRttState {
  rn_algorithm : string;
  rn_config : RttConfig;
  last_rtt_us : option Z;
  smoothed_rtt_us : option f64;
  last_rtt_sample_ms : option Z
}.

Inductive Neighbor_metric :=
| NWired (n : WiredNeighbor)
| NEtx (n : EtxNeighbor)
| NRtt (base : Neighbor_metric) (r : RttState).

Module Rtt.
Definition MIN_PROBE_INTERVAL_MS : Z := 100.
Definition DEFAULT_PROBE_INTERVAL_MS : Z := 2000.
Definition DEFAULT_HALF_LIFE_MS : Z := 6000.
Definition DEFAULT_MIN_RTT_US : Z := 10000.
Definition DEFAULT_MAX_RTT_US : Z := 120000.
Definition DEFAULT_MAX_PENALTY : Z := 150.

Definition RttMetric_new (base : Profile)
    (probe_interval_ms half_life_ms min_rtt_us max_rtt_us max_penalty : Z) : option Profile :=
  if (MIN_PROBE_INTERVAL_MS <=? probe_interval_ms) && (0 <? half_life_ms)
     && (min_rtt_us <? max_rtt_us) && (max_penalty <? INFINITY)
  then Some (PRtt base {| probe_interval_ms := probe_interval_ms;
                          half_life_ms := half_life_ms;
                          sample_alpha := None;
                          min_rtt_us := min_rtt_us;
                          max_rtt_us := max_rtt_us;
                          max_penalty := max_penalty |})
  else None.

Definition with_sample_alpha (self : RttConfig) (alpha : f64) : option RttConfig :=
  if negb (f64_is_finite alpha)
     || negb (f64_le (f64_of_Z 0) alpha && f64_lt alpha (f64_of_Z 1)) then None
  else Some {| probe_interval_ms := probe_interval_ms self;
               half_life_ms := half_life_ms self;
               sample_alpha := Some alpha;
               min_rtt_us := min_rtt_us self;
               max_rtt_us := max_rtt_us self;
               max_penalty := max_penalty self |}.

(** The [f64] literal 0.836. *)
Definition alpha_0_836 : f64 := S754_finite false 7530018576963469 (-53).

(** [None] would be the panic of one of the two [expect]s. *)
Definition recommended (base : Profile) : option Profile :=
  p ← RttMetric_new base DEFAULT_PROBE_INTERVAL_MS DEFAULT_HALF_LIFE_MS
        DEFAULT_MIN_RTT_US DEFAULT_MAX_RTT_US DEFAULT_MAX_PENALTY;
  match p with
  | PRtt b c => PRtt b <$> with_sample_alpha c alpha_0_836
  | _ => None
  end.

Definition penalty (r : RttState) : Z :=
  let c := rn_config r in
  match smoothed_rtt_us r with
  | None => 0
  | Some rtt =>
      if f64_le rtt (f64_of_Z (min_rtt_us c)) then 0
      else if f64_le (f64_of_Z (max_rtt_us c)) rtt then max_penalty c
      else
        let position := f64_div (f64_sub rtt (f64_of_Z (min_rtt_us c)))
                                (f64_of_Z (max_rtt_us c - min_rtt_us c)) in
        f64_round_as u16_max (f64_mul position (f64_of_Z (max_penalty c)))
  end.

(** The state after one sample, the base metric apart. *)
Definition sampled {L : Libm} (r : RttState) (sample_us now_ms : Z) : RttState :=
  let c := rn_config r in
  let smoothed :=
    match smoothed_rtt_us r, last_rtt_sample_ms r with
    | Some old, Some previous_ms =>
        let elapsed_ms := saturating_sub now_ms previous_ms in
        let alpha := match sample_alpha c with
                     | Some a => a
                     | None => powf (f64_of_Z 2)
                                 (f64_div (SFopp (f64_of_Z elapsed_ms)) (f64_of_Z (half_life_ms c)))
                     end in
        f64_add (f64_mul alpha old)
                (f64_mul (f64_sub (f64_of_Z 1) alpha) (f64_of_Z sample_us))
    | _, _ => f64_of_Z sample_us
    end in
  {| rn_algorithm := rn_algorithm r;
     rn_config := c;
     last_rtt_us := Some sample_us;
     smoothed_rtt_us := Some smoothed;
     last_rtt_sample_ms := Some now_ms |}.
End Rtt.

(** ** The trait methods, by implementation *)

Fixpoint bm_on_hello (self : Neighbor_metric) (h : HelloHistories) : Neighbor_metric :=
  match self with
  | NWired n => NWired (Wired.on_hello n h)
  | NEtx n => NEtx (Etx.on_hello n h)
  | NRtt base r => NRtt (bm_on_hello base h) r
  end.

Fixpoint bm_on_ihu (self : Neighbor_metric) (cost : Z) : Neighbor_metric :=
  match self with
  | NWired n => NWired (Wired.on_ihu n cost)
  | NEtx n => NEtx (Etx.on_ihu n cost)
  | NRtt base r => NRtt (bm_on_ihu base cost) r
  end.

Fixpoint bm_on_rtt_sample {L : Libm} (self : Neighbor_metric) (sample_us now_ms : Z)
  : Neighbor_metric :=
  match self with
  | NWired n => NWired n
  | NEtx n => NEtx n
  | NRtt base r => NRtt (bm_on_rtt_sample base sample_us now_ms) (Rtt.sampled r sample_us now_ms)
  end.

Fixpoint bm_receive_cost (self : Neighbor_metric) : Z :=
  match self with
  | NWired n => Wired.receive_cost n
  | NEtx n => Etx.receive_cost n
  | NRtt base _ => bm_receive_cost base
  end.

Fixpoint bm_transmit_cost (self : Neighbor_metric) : Z :=
  match self with
  | NWired n => wn_transmit_cost n
  | NEtx n => en_transmit_cost n
  | NRtt base _ => bm_transmit_cost base
  end.

Fixpoint bm_link_cost (self : Neighbor_metric) : Z :=
  match self with
  | NWired n => Wired.link_cost n
  | NEtx n => Etx.link_cost n
  | NRtt base r =>
      let base := bm_link_cost base in
      if base =? INFINITY then INFINITY
      else
        let cost := base + Rtt.penalty r in
        Z.min cost INFINITY
  end.

Definition bm_status (self : Neighbor_metric) : MetricStatus :=
  match self with
  | NWired n => Wired.status n
  | NEtx n => Etx.status n
  | NRtt base r =>
      {| algorithm := rn_algorithm r;
         ms_receive_cost := bm_receive_cost self;
         ms_transmit_cost := bm_transmit_cost self;
         ms_link_cost := bm_link_cost self;
         ms_last_rtt_us := last_rtt_us r;
         ms_smoothed_rtt_us := f64_round_as u32_max <$> smoothed_rtt_us r;
         ms_rtt_penalty := Rtt.penalty r |}
  end.

Fixpoint bp_name (self : Profile) : string :=
  match self with
  | PWired _ => "wired"
  | PEtx _ => "etx"
  | PRtt base _ => "rtt(" ++ bp_name base ++ ")"
  end%string.

Fixpoint bp_new_neighbor (self : Profile) (interface : string) : Neighbor_metric :=
  match self with
  | PWired m => NWired (Wired.new_neighbor m)
  | PEtx m => NEtx (Etx.new_neighbor m)
  | PRtt base c =>
      NRtt (bp_new_neighbor base interface)
        {| rn_algorithm := bp_name self; rn_config := c; last_rtt_us := None;
           smoothed_rtt_us := None; last_rtt_sample_ms := None |}
  end.

Definition bp_timestamps_enabled (self : Profile) : bool :=
  match self with PRtt _ _ => true | _ => false end.

Definition bp_rtt_probe_interval_ms (self : Profile) : option Z :=
  match self with PRtt _ c => Some (probe_interval_ms c) | _ => None end.

Definition builtin_metrics {L : Libm} : MetricImpl := {|
  NeighborMetric := Neighbor_metric;
  MetricProfile := Profile;
  on_hello := bm_on_hello;
  on_ihu := bm_on_ihu;
  on_rtt_sample := bm_on_rtt_sample;
  receive_cost := bm_receive_cost;
  transmit_cost := bm_transmit_cost;
  link_cost := bm_link_cost;
  status := bm_status;
  profile_name := bp_name;
  new_neighbor := bp_new_neighbor;
  timestamps_enabled := bp_timestamps_enabled;
  rtt_probe_interval_ms := bp_rtt_probe_interval_ms
|}.

(** * Correctness of the cost functions *)

(** Configurations the constructors let through. *)
Fixpoint profile_ok (p : Profile) : Prop :=
  match p with
  | PWired m => WiredMetric_ok m
  | PEtx m => EtxMetric_ok m
  | PRtt base c => profile_ok base /\ min_rtt_us c < max_rtt_us c /\ 0 <= max_penalty c < INFINITY
  end.

(** States that arise from such configurations. *)
Fixpoint metric_ok (m : Neighbor_metric) : Prop :=
  match m with
  | NWired n => WiredMetric_ok (wn_config n) /\ in_u16 (wn_transmit_cost n)
  | NEtx n => EtxMetric_ok (en_config n) /\ in_u16 (en_transmit_cost n)
  | NRtt base r => metric_ok base /\ 0 <= max_penalty (rn_config r) < INFINITY
  end.

Lemma new_neighbor_ok p i : profile_ok p -> metric_ok (bp_new_neighbor p i).
Proof. induction p; simpl; unfold in_u16, INFINITY in *; naive_solver lia. Qed.

Lemma on_hello_ok m h : metric_ok m -> metric_ok (bm_on_hello m h).
Proof. induction m; simpl; naive_solver. Qed.

Lemma on_ihu_ok m c : in_u16 c -> metric_ok m -> metric_ok (bm_on_ihu m c).
Proof. intros ?. induction m; simpl; naive_solver. Qed.

Lemma on_rtt_sample_ok {L : Libm} m s now : metric_ok m -> metric_ok (bm_on_rtt_sample m s now).
Proof. induction m; simpl; naive_solver. Qed.

Lemma penalty_range r : 0 <= max_penalty (rn_config r) < INFINITY -> 0 <= Rtt.penalty r <= INFINITY.
Proof.
  intros H. unfold Rtt.penalty. repeat case_match; unfold INFINITY in *; try lia.
  apply f64_round_as_range. unfold u16_max. lia.
Qed.

Lemma div_ceil_least a b c : 0 < b -> div_ceil a b <= c <-> a <= c * b.
Proof. intros. unfold div_ceil. Z.div_mod_to_equations. nia. Qed.

Lemma div_ceil_pos a b : 0 < a -> 0 < b -> 1 <= div_ceil a b.
Proof. intros. unfold div_ceil. Z.div_mod_to_equations. nia. Qed.

Lemma etx_receive_cost_range n : EtxMetric_ok (en_config n) -> 1 <= Etx.receive_cost n <= INFINITY.
Proof.
  unfold EtxMetric_ok, Etx.receive_cost, Etx.computed_receive_cost, received_count. intros H.
  pose proof (count_ones_range 16
    (Z.land (bits (multicast (en_histories n))) (window_mask (em_window (en_config n))))).
  case_match; [unfold INFINITY; lia|].
  pose proof (div_ceil_pos (NOMINAL_COST * em_window (en_config n))
    (count_ones 16 (Z.land (bits (multicast (en_histories n)))
       (window_mask (em_window (en_config n)))))
    ltac:(unfold NOMINAL_COST; lia) ltac:(lia)).
  unfold INFINITY. lia.
Qed.

Lemma link_cost_range m : metric_ok m -> 1 <= bm_link_cost m <= INFINITY.
Proof.
  induction m as [n|n|base IH r]; simpl.
  - intros [? ?]. unfold Wired.link_cost, in_u16 in *.
    case_match eqn:E; unfold INFINITY in *; [lia|].
    rewrite !orb_false_iff, !Z.eqb_neq in E. lia.
  - intros [Hc Hu]. unfold Etx.link_cost, in_u16 in *. pose proof (etx_receive_cost_range n Hc).
    case_match eqn:E; unfold INFINITY in *; [lia|].
    pose proof (div_ceil_pos (Z.max (en_transmit_cost n) NOMINAL_COST * Etx.receive_cost n)
      NOMINAL_COST ltac:(unfold NOMINAL_COST; lia) ltac:(done)). lia.
  - intros [Hb Hp]. specialize (IH Hb). pose proof (penalty_range r Hp).
    case_match; unfold INFINITY in *; lia.
Qed.

(** ** Histories over whole runs *)

(** What a neighbour's history sees: a Hello, or a timer's missed Hellos. *)
Inductive hello_op :=
| HRecord (seqno : Z)
| HMissed (count : Z).

Definition run_op {B : Build} (h : HelloHistory) (op : hello_op) : option HelloHistory :=
  match op with
  | HRecord seqno => fst <$> record h seqno
  | HMissed count => Some (missed_many h count)
  end.

Fixpoint run_ops {B : Build} (h : HelloHistory) (ops : list hello_op) : option HelloHistory :=
  match ops with
  | [] => Some h
  | op :: rest => h' ← run_op h op; run_ops h' rest
  end.

(** The window and the next expected number, once there was a Hello; [None]
    on a Hello exactly sixteen behind the expected one. *)
Definition spec_op (st : option (list bool * Z)) (op : hello_op)
  : option (option (list bool * Z)) :=
  match st, op with
  | None, HRecord seqno => Some (Some ([true], wrapping_add16 seqno 1))
  | None, HMissed _ => Some None
  | Some (l, expected), HRecord seqno =>
      if wrapping_sub16 expected seqno =? 16 then None
      else Some (Some (fst (spec_record l expected seqno), wrapping_add16 seqno 1))
  | Some (l, expected), HMissed count =>
      if 0 <=? count
      then Some (Some (spec_missed l count, wrapping_add16 expected (count mod 65536)))
      else None
  end.

Fixpoint spec_ops (st : option (list bool * Z)) (ops : list hello_op)
  : option (option (list bool * Z)) :=
  match ops with
  | [] => Some st
  | op :: rest => st' ← spec_op st op; spec_ops st' rest
  end.

Definition history_matches (h : HelloHistory) (st : option (list bool * Z)) : Prop :=
  match st with
  | None => h = default_history
  | Some (l, expected) => represents h l /\ expected_seqno h = Some expected
  end.

Lemma run_op_matches {B : Build} h st op st' :
  history_matches h st -> spec_op st op = Some st' ->
  exists h', run_op h op = Some h' /\ history_matches h' st'.
Proof.
  destruct st as [[l e]|], op as [s|c]; simpl.
  - intros [Hr He]. case_match eqn:E; [done|]. intros [= <-].
    destruct (record_refines h l e s Hr He ltac:(lia)) as (h' & -> & Hr' & He').
    exists h'. done.
  - intros [Hr He]. case_match eqn:E; [|done]. intros [= <-].
    eexists. split; [done|]. apply missed_many_refines; [done..|lia].
  - intros -> [= <-]. eexists. split; [done|]. split; [apply represents_first | done].
  - intros -> [= <-]. eexists. split; [done|]. done.
Qed.

Lemma run_ops_matches {B : Build} ops h st st' :
  history_matches h st -> spec_ops st ops = Some st' ->
  exists h', run_ops h ops = Some h' /\ history_matches h' st'.
Proof.
  revert h st. induction ops as [|op ops IH]; intros h st Hm; simpl.
  - intros [= <-]. eauto.
  - intros (st1 & H1 & H2)%bind_Some.
    destruct (run_op_matches h st op st1 Hm H1) as (h1 & -> & Hm1). simpl. eauto.
Qed.

(** A [HelloHistory] that starts empty and sees any sequence of Hellos and
    timer expiries holds exactly the sixteen-Hello window RFC 8966 appendix A.1
    prescribes (missed Hellos enter as losses, a late Hello undoes the newer
    entries, a jump of more than sixteen restarts), and [received] counts the
    hits among its newest entries, in either build profile, as long as no Hello
    is exactly sixteen behind the expected one. *)
Theorem hello_history_refines {B : Build} ops l expected window :
  spec_ops None ops = Some (Some (l, expected)) -> 1 <= window <= 16 ->
  exists h, run_ops default_history ops = Some h /\ represents h l /\
    expected_seqno h = Some expected /\
    received h window = Some (hits (take (Z.to_nat window) l)).
Proof.
  intros Hs Hw. destruct (run_ops_matches ops default_history None _ eq_refl Hs) as (h & -> & Hr & He).
  exists h. split; [done|]. split; [done|]. split; [done|].
  unfold received. replace ((1 <=? window) && (window <=? 16)) with true by lia.
  by rewrite (received_count_window h l).
Qed.

Lemma hello_history_refines_witness :
  exists h, run_ops (B := false) default_history [HRecord 10; HRecord 12; HRecord 12; HRecord 11] = Some h
    /\ represents h [true; true] /\ expected_seqno h = Some 12 /\ received h 3 = Some 2.
Proof.
  exact (hello_history_refines (B := false) [HRecord 10; HRecord 12; HRecord 12; HRecord 11]
    [true; true] 12 3 eq_refl ltac:(lia)).
Defined.

(** A Hello exactly sixteen behind the expected one passes the
    [backward <= 16] test and shifts a [u16] by sixteen: with overflow checks
    the call panics, without them the shift amount wraps to zero, so the whole
    window is kept while the sample counter drops to one. *)
Theorem hello_sixteen_behind h expected seqno :
  expected_seqno h = Some expected -> wrapping_sub16 expected seqno = 16 ->
  0 <= samples h <= 16 ->
  record (B := true) h seqno = None /\
  record (B := false) h seqno =
    Some ({| bits := Z.lor (shl16 (bits h) 1) 1; samples := 1;
             expected_seqno := Some (wrapping_add16 seqno 1) |}, Recorded).
Proof.
  intros He Hb Hs. unfold record. rewrite He, Hb.
  assert (wrapping_sub16 seqno expected <=? 16 = false) as ->.
  { unfold wrapping_sub16 in *. Z.div_mod_to_equations. lia. }
  split; [done|]. simpl. unfold shr16. simpl. rewrite Z.shiftr_0_r.
  replace (saturating_sub (samples h) 16) with 0 by (unfold saturating_sub; lia). done.
Qed.

Lemma hello_sixteen_behind_witness :
  record (B := true) (MkHelloHistory 65535 16 (Some 100)) 84 = None /\
  record (B := false) (MkHelloHistory 65535 16 (Some 100)) 84 =
    Some (MkHelloHistory 65535 1 (Some 85), Recorded).
Proof.
  exact (hello_sixteen_behind (MkHelloHistory 65535 16 (Some 100)) 100 84 eq_refl eq_refl
    ltac:(simpl; lia)).
Defined.

(** For every state the built-in profiles reach, the link cost is a nonzero
    [u16]; an infinite receive cost or an unusable peer cost makes the link
    infinite; and the RTT profile never makes a link cheaper than its base. *)
Theorem builtin_link_cost_sound m :
  metric_ok m ->
  1 <= bm_link_cost m <= INFINITY /\
  (bm_receive_cost m = INFINITY -> bm_link_cost m = INFINITY) /\
  (unusable (bm_transmit_cost m) = true -> bm_link_cost m = INFINITY) /\
  (forall r, 0 <= max_penalty (rn_config r) < INFINITY ->
     bm_link_cost m <= bm_link_cost (NRtt m r)).
Proof.
  intros Hm. split; [by apply link_cost_range|]. split; [|split].
  - clear Hm. induction m as [n|n|base IH r]; simpl; intros E.
    + unfold Wired.link_cost. by rewrite E.
    + unfold Etx.link_cost. by rewrite E.
    + by rewrite (IH E).
  - clear Hm. unfold unusable. induction m as [n|n|base IH r]; simpl; intros E.
    + unfold Wired.link_cost. rewrite <- orb_assoc, E. by rewrite orb_true_r.
    + unfold Etx.link_cost. rewrite <- orb_assoc, E. by rewrite orb_true_r.
    + by rewrite (IH E).
  - intros r Hp. pose proof (penalty_range r Hp). pose proof (link_cost_range m Hm). simpl.
    case_match; unfold INFINITY in *; lia.
Qed.

Lemma builtin_link_cost_sound_witness :
  1 <= bm_link_cost (NWired (MkWiredNeighbor (MkWiredMetric 96 2 3)
         (MkHelloHistories (MkHelloHistory 3 2 (Some 3)) default_history) 96)) <= INFINITY.
Proof. apply builtin_link_cost_sound. vm_compute. repeat split; congruence. Defined.

(** ETX charges the least cost [c] with [c * received >= 256 * window]: the
    receive cost is the rounded-up expected transmission count in units of 1/256. *)
Theorem etx_receive_cost_exact n c :
  EtxMetric_ok (en_config n) ->
  received_count (multicast (en_histories n)) (em_window (en_config n)) <> 0 -> c < INFINITY ->
  Etx.receive_cost n <= c <->
  NOMINAL_COST * em_window (en_config n)
    <= c * received_count (multicast (en_histories n)) (em_window (en_config n)).
Proof.
  intros Hok Hr Hc. unfold Etx.receive_cost, Etx.computed_receive_cost.
  set (r := received_count _ _) in *.
  assert (0 < r) by (pose proof (count_ones_range 16
    (Z.land (bits (multicast (en_histories n))) (window_mask (em_window (en_config n)))));
    unfold r, received_count in *; lia).
  replace (r =? 0) with false by lia.
  pose proof (div_ceil_least (NOMINAL_COST * em_window (en_config n)) r c ltac:(done)) as D.
  unfold INFINITY in *. split; intros; [apply D | apply D in H0]; lia.
Qed.

Lemma etx_receive_cost_exact_witness :
  Etx.receive_cost (MkEtxNeighbor (MkEtxMetric 6)
    (MkHelloHistories (MkHelloHistory 21 5 (Some 6)) default_history) 512) <= 512.
Proof.
  apply (etx_receive_cost_exact (MkEtxNeighbor (MkEtxMetric 6)
    (MkHelloHistories (MkHelloHistory 21 5 (Some 6)) default_history) 512) 512);
    vm_compute; congruence || (repeat split; congruence).
Defined.

(** The worked examples of the module's own tests. *)
Section Examples.
#[local] Instance no_powf : Libm := fun a _ => a.

Definition feed (ops : list Z) : option HelloHistory :=
  run_ops (B := true) default_history (map HRecord ops).

Example etx_example :
  (h ← feed [1; 3; 5];
   let m := bm_on_ihu (bm_on_hello (NEtx (Etx.new_neighbor (MkEtxMetric 6)))
                         (MkHelloHistories h default_history)) 512 in
   Some (bm_receive_cost m, bm_link_cost m)) = Some (512, 1024).
Proof. vm_compute. reflexivity. Qed.

Example rtt_example :
  (p ← Rtt.recommended (PWired (MkWiredMetric 96 2 3));
   let m0 := bm_on_ihu (bm_on_hello (bp_new_neighbor p "eth0")
               (MkHelloHistories (MkHelloHistory 3 2 (Some 3)) default_history)) 96 in
   let m1 := bm_on_rtt_sample m0 10000 0 in
   let m2 := bm_on_rtt_sample m1 120000 6000 in
   Some (bm_link_cost m1, ms_smoothed_rtt_us (bm_status m2), bm_link_cost m2))
  = Some (96, Some 28040, 121).
Proof. vm_compute. reflexivity. Qed.
End Examples.
