(* ===== verification/Wire.v ===== *)
(** Wire types ([wire.rs]) and the primitives for addresses, prefixes and TLV
    fields ([wire/prefix.rs]). *)
From S2P Require Import Prelude Net Model.
Local Open Scope Z_scope.

Definition MAGIC : Z := 42.
Definition VERSION : Z := 2.
Definition PORT : Z := 6696.
Definition MAX_PACKET_SIZE : nat := Z.to_nat (65535 + 4).
Definition DEFAULT_UDP_PAYLOAD_SIZE : nat := Z.to_nat 1232.

Definition TLV_PAD1 : Z := 0.
Definition TLV_PADN : Z := 1.
Definition TLV_ACK_REQ : Z := 2.
Definition TLV_ACK : Z := 3.
Definition TLV_HELLO : Z := 4.
Definition TLV_IHU : Z := 5.
Definition TLV_ROUTER_ID : Z := 6.
Definition TLV_NEXT_HOP : Z := 7.
Definition TLV_UPDATE : Z := 8.
Definition TLV_ROUTE_REQUEST : Z := 9.
Definition TLV_SEQNO_REQUEST : Z := 10.

Definition SUBTLV_TIMESTAMP : Z := 3.
Definition SUBTLV_SOURCE_PREFIX : Z := 128.

Inductive AddressEncoding := Wildcard | Ipv4 | Ipv6 | Ipv6LinkLocal | Ipv4ViaIpv6.

#[global] Instance AddressEncoding_eq_dec : EqDecision AddressEncoding.
Proof. solve_decision. Defined.

(** [ae as u8]. *)
Definition ae_u8 (ae : AddressEncoding) : Z :=
  match ae with Wildcard => 0 | Ipv4 => 1 | Ipv6 => 2 | Ipv6LinkLocal => 3 | Ipv4ViaIpv6 => 4 end.

Definition ae_from_u8 (value : Z) : option AddressEncoding :=
  if value =? 0 then Some Wildcard
  else if value =? 1 then Some Ipv4
  else if value =? 2 then Some Ipv6
  else if value =? 3 then Some Ipv6LinkLocal
  else if value =? 4 then Some Ipv4ViaIpv6
  else None.

#[global] Program Instance AddressEncoding_countable : Countable AddressEncoding :=
  inj_countable ae_u8 ae_from_u8 _.
Next Obligation. by intros []. Qed.

Definition address_len (ae : AddressEncoding) : option nat :=
  match ae with
  | Wildcard => Some 0
  | Ipv4 | Ipv4ViaIpv6 => Some 4
  | Ipv6 => Some 16
  | Ipv6LinkLocal => Some 8
  end%nat.

Definition max_prefix_bits (ae : AddressEncoding) : option Z :=
  match ae with
  | Wildcard => Some 0
  | Ipv4 | Ipv4ViaIpv6 => Some 32
  | Ipv6 | Ipv6LinkLocal => Some 128
  end.

Inductive WireError :=
| ShortHeader
| BadMagic
| UnsupportedVersion (version : Z)
| TruncatedBody
| TruncatedTlv (type_ : Z)
| InvalidTlv (type_ : Z)
| BodyTooLarge
| MissingRouterId
| PacketBudgetTooSmall
| PacketSplitRequired.

#[global] Instance WireError_eq_dec : EqDecision WireError.
Proof. solve_decision. Defined.

Section Types.
Context {NL : IpNetLib}.

Inductive SubTlv :=
| SubPad1
| SubPadN (value : list byte)
| TimestampHello (timestamp : Z)
| TimestampIhu (origin received : Z)
| SourcePrefix (prefix : IpNet)
| SubUnknown (type_ : Z) (value : list byte).

Record ResolvedUpdate := MkResolvedUpdate {
  ru_key : option RouteKey;
  ru_router_id : option RouterId;
  ru_next_hop : option IpAddr;
  ru_interval_cs : Z;
  ru_seqno : Z;
  ru_metric : Z;
  ru_v4_via_v6 : bool;
  ru_sub_tlvs : list SubTlv
}.

Inductive Tlv :=
| TPad1
| TPadN (value : list byte)
| TAckRequest (nonce interval_cs : Z)
| TAck (nonce : Z)
| THello (unicast : bool) (seqno interval_cs : Z) (sub_tlvs : list SubTlv)
| TIhu (address : option IpAddr) (rxcost interval_cs : Z) (sub_tlvs : list SubTlv)
| TRouterId (id : RouterId)
| TNextHop (address : IpAddr)
| TUpdate (update : ResolvedUpdate)
| TRouteRequest (key : option RouteKey) (sub_tlvs : list SubTlv)
| TSeqnoRequest (key : RouteKey) (seqno hop_count : Z) (router_id : RouterId)
    (sub_tlvs : list SubTlv)
| TUnknown (type_ : Z) (value : list byte).

(** An inbound [Packet] is its TLVs. *)
Record Packet := MkPacket { tlvs : list Tlv }.

Record OutboundUpdate := MkOutboundUpdate {
  ou_key : option RouteKey;
  ou_router_id : option RouterId;
  ou_next_hop : option IpAddr;
  ou_interval_cs : Z;
  ou_seqno : Z;
  ou_metric : Z;
  ou_v4_via_v6 : bool;
  ou_sub_tlvs : list SubTlv
}.

Inductive OutboundTlv :=
| OPad1
| OPadN (value : list byte)
| OAckRequest (nonce interval_cs : Z)
| OAck (nonce : Z)
| OHello (unicast : bool) (seqno interval_cs : Z) (sub_tlvs : list SubTlv)
| OIhu (address : option IpAddr) (rxcost interval_cs : Z) (sub_tlvs : list SubTlv)
| OUpdate (update : OutboundUpdate)
| ORouteRequest (key : option RouteKey) (sub_tlvs : list SubTlv)
| OSeqnoRequest (key : RouteKey) (seqno hop_count : Z) (router_id : RouterId)
    (sub_tlvs : list SubTlv)
| OUnknown (type_ : Z) (value : list byte).

Record OutboundPacket := MkOutboundPacket { out_tlvs : list OutboundTlv }.

#[global] Instance SubTlv_eq_dec : EqDecision SubTlv.
Proof. solve_decision. Defined.
#[global] Instance ResolvedUpdate_eq_dec : EqDecision ResolvedUpdate.
Proof. solve_decision. Defined.
#[global] Instance Tlv_eq_dec : EqDecision Tlv.
Proof. solve_decision. Defined.
#[global] Instance Packet_eq_dec : EqDecision Packet.
Proof. solve_decision. Defined.
#[global] Instance OutboundUpdate_eq_dec : EqDecision OutboundUpdate.
Proof. solve_decision. Defined.
#[global] Instance OutboundTlv_eq_dec : EqDecision OutboundTlv.
Proof. solve_decision. Defined.
End Types.

(** * Slices *)

(** [l[a..b]]. *)
Definition slice {A} (a b : nat) (l : list A) : list A := take (b - a) (drop a l).

Lemma slice_length {A} a b (l : list A) :
  (a <= b <= length l)%nat -> length (slice a b l) = (b - a)%nat.
Proof. intros. unfold slice. rewrite length_take, length_drop. lia. Qed.

(** Octet [i] of a slice the caller has checked to be long enough. *)
Definition at_ (i : nat) (l : list byte) : Z := octet l i.

(** * Primitives of prefix.rs *)

Definition be16 (data : list byte) : Z := be_value (take 2 data).
Definition be32 (data : list byte) : Z := be_value (take 4 data).
#[global] Arguments be16 : simpl never.
#[global] Arguments be32 : simpl never.

Definition require_nonzero (value type_ : Z) : result WireError unit :=
  if value =? 0 then Err (InvalidTlv type_) else Ok tt.

Definition require_zeroes (value : list byte) (type_ : Z) : result WireError unit :=
  if existsb (fun b => negb (u8 b =? 0)) value then Err (InvalidTlv type_) else Ok tt.

(** Appends to [out]; an oversized value is an error. *)
Definition put_tlv (out : list byte) (type_ : Z) (value : list byte)
  : result WireError (list byte) :=
  if (255 <? length value)%nat then Err BodyTooLarge
  else Ok (out ++ [b8 type_; b8 (Z.of_nat (length value))] ++ value).

#[global] Arguments put_tlv : simpl never.

(** The link-local form is given the eight octets its encoding has, which is
    all that its callers slice off; other lengths would not fit the copy. *)
Definition decode_address (ae : AddressEncoding) (data : list byte) : option IpAddr :=
  match ae with
  | Ipv4 => (fun o => IpV4 (MkIpv4Addr o)) <$> try_array 4 data
  | Ipv6 => (fun o => IpV6 (MkIpv6Addr o)) <$> try_array 16 data
  | Ipv6LinkLocal =>
      Some (IpV6 (MkIpv6Addr (arr_of_list 16 ([b8 0xfe; b8 0x80] ++ replicate 6 (b8 0) ++ data))))
  | _ => None
  end.

Definition encode_address (address : IpAddr) : AddressEncoding * list byte :=
  match address with
  | IpV4 value => (Ipv4, arr_list (v4_octets value))
  | IpV6 value =>
      if is_unicast_link_local value then (Ipv6LinkLocal, drop 8 (arr_list (v6_octets value)))
      else (Ipv6, arr_list (v6_octets value))
  end.

Definition encode_optional_address (address : option IpAddr) : AddressEncoding * list byte :=
  match address with Some a => encode_address a | None => (Wildcard, []) end.

Definition prefix_encoded_len (ae : AddressEncoding) (plen : Z) : option nat :=
  m ← max_prefix_bits ae;
  if m <? plen then None
  else
    let octets := Z.to_nat (div_ceil plen 8) in
    match ae with
    | Ipv6LinkLocal => if 64 <=? plen then Some (octets - 8)%nat else None
    | Wildcard => if plen =? 0 then Some 0%nat else None
    | _ => Some octets
    end.

(** [*encoded.last_mut()? &= mask]. *)
Definition mask_last (mask : Z) (l : list byte) : list byte :=
  match list.last l with
  | None => l
  | Some b => take (length l - 1) l ++ [b8 (Z.land (u8 b) mask)]
  end.

Section Prefix.
Context {NL : IpNetLib}.

Definition decode_prefix (ae : AddressEncoding) (plen : Z) (omitted : nat)
    (suffix : list byte) (previous : option (list byte)) : option IpNet :=
  encoded_len ← prefix_encoded_len ae plen;
  if (encoded_len <? omitted)%nat || (length suffix <? encoded_len - omitted)%nat then None
  else
    head ← (if (0 <? omitted)%nat then
              p ← previous;
              if (length p <? omitted)%nat then None else Some (take omitted p)
            else Some []);
    let encoded := head ++ take (encoded_len - omitted) suffix in
    let encoded :=
      if negb (plen mod 8 =? 0) && negb (length encoded =? 0)%nat
      then mask_last (Z.shiftl 0xff (8 - plen mod 8) mod 256) encoded
      else encoded in
    match ae with
    | Ipv4 | Ipv4ViaIpv6 =>
        NetV4 <$> v4net_new (MkIpv4Addr (arr_of_list 4 encoded)) plen
    | Ipv6 => NetV6 <$> v6net_new (MkIpv6Addr (arr_of_list 16 encoded)) plen
    | Ipv6LinkLocal =>
        NetV6 <$> v6net_new (MkIpv6Addr (arr_of_list 16
          ([b8 0xfe; b8 0x80] ++ replicate 6 (b8 0) ++ encoded))) plen
    | Wildcard => None
    end.

Definition prefix_wire_bytes (prefix : IpNet) (ae : AddressEncoding) : list byte :=
  let size := default 0%nat (prefix_encoded_len ae (net_plen prefix)) in
  match prefix, ae with
  | NetV4 value, _ => take size (arr_list (v4_octets (v4net_addr value)))
  | NetV6 value, Ipv6LinkLocal => slice 8 (8 + size) (arr_list (v6_octets (v6net_addr value)))
  | NetV6 value, _ => take size (arr_list (v6_octets (v6net_addr value)))
  end.

Definition ae_for_key (key : RouteKey) (v4_via_v6 : bool) : AddressEncoding :=
  if net_is_ipv4 (destination key) then (if v4_via_v6 then Ipv4ViaIpv6 else Ipv4) else Ipv6.

Definition router_id_from_prefix (prefix : IpNet) : array 8 :=
  let bytes := net_octets prefix in
  let count := Nat.min (length bytes) 8 in
  arr_of_list 8 (replicate (8 - count) (b8 0) ++ drop (length bytes - count) bytes).
End Prefix.

(** * TLV framing

    One iteration of the three loops that walk a sequence of TLVs by offset
    ([decode_packet], [decode_sub_tlvs] and [mac::tlvs]), on the bytes from the
    offset on. *)
Inductive frame :=
| FrameEnd
| FramePad (rest : list byte)
| FrameShort (type_ : Z)
| FrameTlv (type_ : Z) (value rest : list byte).

Definition next_frame (data : list byte) : frame :=
  match data with
  | [] => FrameEnd
  | t :: rest =>
      if u8 t =? 0 then FramePad rest
      else match rest with
           | [] => FrameShort (u8 t)
           | l :: rest =>
               let len := Z.to_nat (u8 l) in
               if (length rest <? len)%nat then FrameShort (u8 t)
               else FrameTlv (u8 t) (take len rest) (drop len rest)
           end
  end.

(** Every iteration consumes at least one octet, so the remaining length is
    enough fuel for each of the loops. *)
Lemma next_frame_pad data rest :
  next_frame data = FramePad rest -> length data = S (length rest).
Proof. unfold next_frame. repeat case_match; intros [=]; subst; simpl; done. Qed.

Lemma next_frame_tlv data t v rest :
  next_frame data = FrameTlv t v rest ->
  (length data = 2 + length v + length rest)%nat /\ t <> 0 /\ (length v <= 255)%nat.
Proof.
  unfold next_frame. repeat case_match; intros [=]; subst; simpl.
  rewrite length_take, length_drop. pose proof (u8_range b0).
  apply Nat.ltb_ge in H2. lia.
Qed.

Lemma next_frame_put type_ value rest :
  0 < type_ < 256 -> (length value <= 255)%nat ->
  next_frame ([b8 type_; b8 (Z.of_nat (length value))] ++ value ++ rest)
  = FrameTlv type_ value rest.
Proof.
  intros Ht Hl. simpl. rewrite !u8_b8_small by lia.
  replace (type_ =? 0) with false by lia. rewrite Nat2Z.id.
  replace (length (value ++ rest) <? length value)%nat with false
    by (symmetry; apply Nat.ltb_ge; rewrite length_app; lia).
  by rewrite take_app_length, drop_app_length.
Qed.
