(* ===== verification/WireDecode.v ===== *)
(** Packet framing, TLV validation and inbound context resolution
    ([wire/decode.rs]). *)
From S2P Require Import Prelude Net Model Wire.
Local Open Scope Z_scope.

Section Decode.
Context {NL : IpNetLib}.

Record ParserState := MkParserState {
  ps_router_id : option RouterId;
  ps_prefixes : gmap AddressEncoding (list byte);
  ps_next_hop_v4 : option IpAddr;
  ps_next_hop_v6 : option IpAddr
}.

Definition ParserState_new (source : IpAddr) : ParserState :=
  {| ps_router_id := None;
     ps_prefixes := ∅;
     ps_next_hop_v4 := if is_ipv4 source then Some source else None;
     ps_next_hop_v6 := if is_ipv4 source then None else Some source |}.

Definition set_router_id (id : option RouterId) (s : ParserState) : ParserState :=
  {| ps_router_id := id; ps_prefixes := ps_prefixes s;
     ps_next_hop_v4 := ps_next_hop_v4 s; ps_next_hop_v6 := ps_next_hop_v6 s |}.

Definition set_prefix (ae : AddressEncoding) (bytes : list byte) (s : ParserState) : ParserState :=
  {| ps_router_id := ps_router_id s; ps_prefixes := <[ae := bytes]> (ps_prefixes s);
     ps_next_hop_v4 := ps_next_hop_v4 s; ps_next_hop_v6 := ps_next_hop_v6 s |}.

Definition set_next_hop (address : IpAddr) (s : ParserState) : ParserState :=
  if is_ipv4 address then
    {| ps_router_id := ps_router_id s; ps_prefixes := ps_prefixes s;
       ps_next_hop_v4 := Some address; ps_next_hop_v6 := ps_next_hop_v6 s |}
  else
    {| ps_router_id := ps_router_id s; ps_prefixes := ps_prefixes s;
       ps_next_hop_v4 := ps_next_hop_v4 s; ps_next_hop_v6 := Some address |}.

(** ** Sub-TLVs *)

Inductive SubContext := CtxHello | CtxIhu | CtxPrefix (ae : AddressEncoding).

Record DecodedSubTlvs := MkDecodedSubTlvs {
  sub_values : list SubTlv;
  sub_source_prefix : option IpNet;
  mandatory_unknown : bool
}.

Definition push_sub (v : SubTlv) (r : DecodedSubTlvs) : DecodedSubTlvs :=
  {| sub_values := sub_values r ++ [v]; sub_source_prefix := sub_source_prefix r;
     mandatory_unknown := mandatory_unknown r |}.
Definition mark_mandatory (r : DecodedSubTlvs) : DecodedSubTlvs :=
  {| sub_values := sub_values r; sub_source_prefix := sub_source_prefix r;
     mandatory_unknown := true |}.
Definition set_source (p : IpNet) (r : DecodedSubTlvs) : DecodedSubTlvs :=
  {| sub_values := sub_values r; sub_source_prefix := Some p;
     mandatory_unknown := mandatory_unknown r |}.

(** The [SUBTLV_SOURCE_PREFIX] arm. *)
Definition decode_source_prefix (body : list byte) (context : SubContext)
    (destination : option IpNet) (r : DecodedSubTlvs) : DecodedSubTlvs :=
  match context with
  | CtxPrefix ae =>
      if bool_decide (is_Some (sub_source_prefix r)) || bool_decide (ae = Wildcard)
         || (length body =? 0)%nat || (at_ 0 body =? 0)
      then mark_mandatory r
      else
        let plen := at_ 0 body in
        match prefix_encoded_len ae plen with
        | None => mark_mandatory r
        | Some size =>
            if (length body <? 1 + size)%nat then mark_mandatory r
            else
              match decode_prefix ae plen 0 (slice 1 (1 + size) body) None with
              | None => mark_mandatory r
              | Some prefix =>
                  if match destination with
                     | Some dst => negb (Bool.eqb (net_is_ipv4 dst) (net_is_ipv4 prefix))
                     | None => false
                     end
                  then mark_mandatory r else set_source prefix r
              end
        end
  | _ => mark_mandatory r
  end.

(** One framed sub-TLV. *)
Definition decode_sub_tlv (type_ : Z) (body : list byte) (context : SubContext)
    (destination : option IpNet) (r : DecodedSubTlvs) : DecodedSubTlvs :=
  if type_ =? 1 then push_sub (SubPadN body) r
  else if type_ =? SUBTLV_TIMESTAMP then
    match context with
    | CtxHello =>
        if (4 <=? length body)%nat then push_sub (TimestampHello (be32 body)) r
        else push_sub (SubUnknown type_ body) r
    | CtxIhu =>
        if (8 <=? length body)%nat
        then push_sub (TimestampIhu (be32 body) (be32 (drop 4 body))) r
        else push_sub (SubUnknown type_ body) r
    | _ => push_sub (SubUnknown type_ body) r
    end
  else if type_ =? SUBTLV_SOURCE_PREFIX then decode_source_prefix body context destination r
  else
    let r := if negb (Z.land type_ 0x80 =? 0) then mark_mandatory r else r in
    push_sub (SubUnknown type_ body) r.

Fixpoint sub_loop (fuel : nat) (data : list byte) (context : SubContext)
    (destination : option IpNet) (r : DecodedSubTlvs) : result WireError DecodedSubTlvs :=
  match next_frame data with
  | FrameEnd => Ok r
  | FrameShort type_ => Err (InvalidTlv type_)
  | FramePad rest =>
      match fuel with
      | O => Err ShortHeader
      | S fuel => sub_loop fuel rest context destination (push_sub SubPad1 r)
      end
  | FrameTlv type_ body rest =>
      match fuel with
      | O => Err ShortHeader
      | S fuel => sub_loop fuel rest context destination (decode_sub_tlv type_ body context destination r)
      end
  end.

Definition empty_subs : DecodedSubTlvs :=
  {| sub_values := []; sub_source_prefix := None; mandatory_unknown := false |}.

Definition decode_sub_tlvs (data : list byte) (context : SubContext)
    (destination : option IpNet) : result WireError DecodedSubTlvs :=
  sub_loop (length data) data context destination empty_subs.

Definition has_unknown_mandatory (data : list byte) : result WireError bool :=
  r ← decode_sub_tlvs data CtxHello None; Ok (mandatory_unknown r).

(** ** Updates and requests *)

(** Ends of [decode_update]: the sub-TLVs and the resolved update. *)
Definition finish_update (value : list byte) (ae : AddressEncoding) (natural : nat)
    (prefix : IpNet) (interval_cs seqno metric : Z) (state : ParserState)
  : result WireError (option Tlv * ParserState) :=
  sub ← decode_sub_tlvs (drop natural value) (CtxPrefix ae) (Some prefix);
  if mandatory_unknown sub then Ok (None, state)
  else
    key ← ok_or (RouteKey_new prefix (sub_source_prefix sub)) (InvalidTlv TLV_UPDATE);
    if negb (metric =? INFINITY) && bool_decide (ps_router_id state = None) then Ok (None, state)
    else
      let next_hop :=
        if metric =? INFINITY then None
        else if bool_decide (ae = Ipv4ViaIpv6) then ps_next_hop_v6 state
        else if net_is_ipv4 prefix then ps_next_hop_v4 state
        else ps_next_hop_v6 state in
      if negb (metric =? INFINITY) && bool_decide (next_hop = None) then Ok (None, state)
      else Ok (Some (TUpdate {| ru_key := Some key;
                                ru_router_id := ps_router_id state;
                                ru_next_hop := next_hop;
                                ru_interval_cs := interval_cs;
                                ru_seqno := seqno;
                                ru_metric := metric;
                                ru_v4_via_v6 := bool_decide (ae = Ipv4ViaIpv6);
                                ru_sub_tlvs := sub_values sub |}), state).

(** The parser state an Update with [flags] leaves behind. *)
Definition update_flags (flags : Z) (ae : AddressEncoding) (prefix : IpNet) (state : ParserState)
  : ParserState :=
  let state :=
    if negb (Z.land flags 0x80 =? 0) then
      let bytes := prefix_wire_bytes prefix ae in
      set_prefix ae (pad_list (default 0%nat (address_len ae)) bytes) state
    else state in
  if negb (Z.land flags 0x40 =? 0)
  then set_router_id (RouterId_new (router_id_from_prefix prefix)) state
  else state.

Definition decode_update (value : list byte) (state : ParserState)
  : result WireError (option Tlv * ParserState) :=
  let invalid := InvalidTlv TLV_UPDATE in
  if (length value <? 10)%nat then Err invalid
  else
    match ae_from_u8 (at_ 0 value) with
    | None => Ok (None, state)
    | Some ae =>
        let flags := at_ 1 value in
        let plen := at_ 2 value in
        let omitted := Z.to_nat (at_ 3 value) in
        let interval_cs := be16 (slice 4 6 value) in
        let seqno := be16 (slice 6 8 value) in
        let metric := be16 (slice 8 10 value) in
        if interval_cs =? 0 then Err invalid
        else if negb (metric =? INFINITY) && bool_decide (ae = Wildcard) then Ok (None, state)
        else if bool_decide (ae = Wildcard) then
          if negb (plen =? 0) || negb (omitted =? 0)%nat then Ok (None, state)
          else
            sub ← decode_sub_tlvs (drop 10 value) (CtxPrefix ae) None;
            if mandatory_unknown sub || bool_decide (is_Some (sub_source_prefix sub))
            then Ok (None, state)
            else Ok (Some (TUpdate {| ru_key := None; ru_router_id := None; ru_next_hop := None;
                                      ru_interval_cs := interval_cs; ru_seqno := seqno;
                                      ru_metric := metric; ru_v4_via_v6 := false;
                                      ru_sub_tlvs := sub_values sub |}), state)
        else if bool_decide (ae = Ipv6LinkLocal) && negb (omitted =? 0)%nat then Ok (None, state)
        else
          encoded_len ← ok_or (prefix_encoded_len ae plen) invalid;
          if (encoded_len <? omitted)%nat || (length value <? 10 + encoded_len - omitted)%nat
          then Err invalid
          else
            let natural := (10 + encoded_len - omitted)%nat in
            match decode_prefix ae plen omitted (slice 10 natural value) (ps_prefixes state !! ae) with
            | None => Ok (None, state)
            | Some prefix =>
                finish_update value ae natural prefix interval_cs seqno metric
                  (update_flags flags ae prefix state)
            end
    end.

Definition decode_route_request (value : list byte) : result WireError (option Tlv) :=
  let invalid := InvalidTlv TLV_ROUTE_REQUEST in
  if (length value <? 2)%nat then Err invalid
  else
    match ae_from_u8 (at_ 0 value) with
    | None => Ok None
    | Some ae =>
        let plen := at_ 1 value in
        if bool_decide (ae = Wildcard) then
          if negb (plen =? 0) then Ok None
          else
            sub ← decode_sub_tlvs (drop 2 value) (CtxPrefix ae) None;
            if mandatory_unknown sub || bool_decide (is_Some (sub_source_prefix sub)) then Ok None
            else Ok (Some (TRouteRequest None (sub_values sub)))
        else
          size ← ok_or (prefix_encoded_len ae plen) invalid;
          if (length value <? 2 + size)%nat then Err invalid
          else
            prefix ← ok_or (decode_prefix ae plen 0 (slice 2 (2 + size) value) None) invalid;
            sub ← decode_sub_tlvs (drop (2 + size) value) (CtxPrefix ae) (Some prefix);
            if mandatory_unknown sub then Ok None
            else
              key ← ok_or (RouteKey_new prefix (sub_source_prefix sub)) invalid;
              Ok (Some (TRouteRequest (Some key) (sub_values sub)))
    end.

Definition decode_seqno_request (value : list byte) : result WireError (option Tlv) :=
  let invalid := InvalidTlv TLV_SEQNO_REQUEST in
  if (length value <? 14)%nat then Err invalid
  else
    match ae_from_u8 (at_ 0 value) with
    | None => Ok None
    | Some ae =>
        if bool_decide (ae = Wildcard) then Ok None
        else
          let plen := at_ 1 value in
          size ← ok_or (prefix_encoded_len ae plen) invalid;
          if (length value <? 14 + size)%nat || (at_ 4 value =? 0) then Err invalid
          else
            raw ← ok_or (try_array 8 (slice 6 14 value)) invalid;
            router_id ← ok_or (RouterId_new raw) invalid;
            prefix ← ok_or (decode_prefix ae plen 0 (slice 14 (14 + size) value) None) invalid;
            sub ← decode_sub_tlvs (drop (14 + size) value) (CtxPrefix ae) (Some prefix);
            if mandatory_unknown sub then Ok None
            else
              key ← ok_or (RouteKey_new prefix (sub_source_prefix sub)) invalid;
              Ok (Some (TSeqnoRequest key (be16 (slice 2 4 value)) (at_ 4 value) router_id
                          (sub_values sub)))
    end.

(** ** TLVs and packets *)

Definition decode_ack_request (value : list byte) : result WireError (option Tlv) :=
  let invalid := InvalidTlv TLV_ACK_REQ in
  if (length value <? 6)%nat then Err invalid
  else
    let interval_cs := be16 (slice 4 6 value) in
    if interval_cs =? 0 then Err invalid
    else
      unknown ← has_unknown_mandatory (drop 6 value);
      Ok (if unknown : bool then None else Some (TAckRequest (be16 (slice 2 4 value)) interval_cs)).

Definition decode_ack (value : list byte) : result WireError (option Tlv) :=
  if (length value <? 2)%nat then Err (InvalidTlv TLV_ACK)
  else
    unknown ← has_unknown_mandatory (drop 2 value);
    Ok (if unknown : bool then None else Some (TAck (be16 value))).

Definition decode_hello (value : list byte) : result WireError (option Tlv) :=
  if (length value <? 6)%nat then Err (InvalidTlv TLV_HELLO)
  else
    sub ← decode_sub_tlvs (drop 6 value) CtxHello None;
    Ok (if mandatory_unknown sub then None
        else Some (THello (negb (Z.land (be16 value) 0x8000 =? 0)) (be16 (slice 2 4 value))
                     (be16 (slice 4 6 value)) (sub_values sub))).

Definition decode_ihu (value : list byte) : result WireError (option Tlv) :=
  let invalid := InvalidTlv TLV_IHU in
  if (length value <? 6)%nat then Err invalid
  else
    match ae_from_u8 (at_ 0 value) with
    | None => Ok None
    | Some ae =>
        if bool_decide (ae = Ipv4ViaIpv6) then Ok None
        else
          addr_len ← ok_or (address_len ae) invalid;
          if (length value <? 6 + addr_len)%nat || (be16 (slice 4 6 value) =? 0) then Err invalid
          else
            address ← (if bool_decide (ae = Wildcard) then Ok None
                       else Some <$> ok_or (decode_address ae (slice 6 (6 + addr_len) value)) invalid);
            sub ← decode_sub_tlvs (drop (6 + addr_len) value) CtxIhu None;
            Ok (if mandatory_unknown sub then None
                else Some (TIhu address (be16 (slice 2 4 value)) (be16 (slice 4 6 value))
                             (sub_values sub)))
    end.

Definition decode_router_id (value : list byte) (state : ParserState)
  : result WireError (option Tlv * ParserState) :=
  let invalid := InvalidTlv TLV_ROUTER_ID in
  if (length value <? 10)%nat then Err invalid
  else
    raw ← ok_or (try_array 8 (slice 2 10 value)) invalid;
    id ← ok_or (RouterId_new raw) invalid;
    let state := set_router_id (Some id) state in
    unknown ← has_unknown_mandatory (drop 10 value);
    Ok (if unknown : bool then None else Some (TRouterId id), state).

Definition decode_next_hop (value : list byte) (state : ParserState)
  : result WireError (option Tlv * ParserState) :=
  let invalid := InvalidTlv TLV_NEXT_HOP in
  if (length value <? 2)%nat then Err invalid
  else
    match ae_from_u8 (at_ 0 value) with
    | None => Ok (None, state)
    | Some ae =>
        if bool_decide (ae = Wildcard) || bool_decide (ae = Ipv4ViaIpv6) then Ok (None, state)
        else
          addr_len ← ok_or (address_len ae) invalid;
          if (length value <? 2 + addr_len)%nat then Err invalid
          else
            address ← ok_or (decode_address ae (slice 2 (2 + addr_len) value)) invalid;
            let state := set_next_hop address state in
            unknown ← has_unknown_mandatory (drop (2 + addr_len) value);
            Ok (if unknown : bool then None else Some (TNextHop address), state)
    end.

(** Arms of [decode_tlv] that leave the parser state alone. *)
Definition stateless (state : ParserState) (r : result WireError (option Tlv))
  : result WireError (option Tlv * ParserState) := t ← r; Ok (t, state).

Definition decode_tlv (type_ : Z) (value : list byte) (state : ParserState)
  : result WireError (option Tlv * ParserState) :=
  if type_ =? TLV_PADN then Ok (Some (TPadN value), state)
  else if type_ =? TLV_ACK_REQ then stateless state (decode_ack_request value)
  else if type_ =? TLV_ACK then stateless state (decode_ack value)
  else if type_ =? TLV_HELLO then stateless state (decode_hello value)
  else if type_ =? TLV_IHU then stateless state (decode_ihu value)
  else if type_ =? TLV_ROUTER_ID then decode_router_id value state
  else if type_ =? TLV_NEXT_HOP then decode_next_hop value state
  else if type_ =? TLV_UPDATE then decode_update value state
  else if type_ =? TLV_ROUTE_REQUEST then stateless state (decode_route_request value)
  else if type_ =? TLV_SEQNO_REQUEST then stateless state (decode_seqno_request value)
  else Ok (Some (TUnknown type_ value), state).

Fixpoint tlv_loop (fuel : nat) (body : list byte) (state : ParserState) (acc : list Tlv)
  : result WireError (list Tlv * ParserState) :=
  match next_frame body with
  | FrameEnd => Ok (acc, state)
  | FrameShort type_ => Err (TruncatedTlv type_)
  | FramePad rest =>
      match fuel with
      | O => Err ShortHeader
      | S fuel => tlv_loop fuel rest state (acc ++ [TPad1])
      end
  | FrameTlv type_ value rest =>
      match fuel with
      | O => Err ShortHeader
      | S fuel =>
          r ← decode_tlv type_ value state;
          let '(tlv, state) := r in
          tlv_loop fuel rest state (acc ++ match tlv with Some t => [t] | None => [] end)
      end
  end.

(** The loop of [decode_packet] over a body. *)
Definition decode_body (body : list byte) (state : ParserState)
  : result WireError (list Tlv * ParserState) :=
  tlv_loop (length body) body state [].

Definition decode_packet (data : list byte) (source : IpAddr) : result WireError Packet :=
  if (length data <? 4)%nat then Err ShortHeader
  else if negb (at_ 0 data =? MAGIC) then Err BadMagic
  else if negb (at_ 1 data =? VERSION) then Err (UnsupportedVersion (at_ 1 data))
  else
    let body_len := Z.to_nat (be16 (slice 2 4 data)) in
    if (length data <? 4 + body_len)%nat then Err TruncatedBody
    else
      let body := slice 4 (4 + body_len) data in
      r ← decode_body body (ParserState_new source);
      Ok (MkPacket (fst r)).
End Decode.
