(* ===== verification/WireEncode.v ===== *)
(** Encoding of semantic TLVs ([wire/encode.rs]) and the packetizer
    ([wire/packetizer.rs]): MTU-bounded datagrams, context resets and send-time
    timestamps. *)
From S2P Require Import Prelude Net Model Wire.
Local Open Scope Z_scope.

Section Encode.
Context {NL : IpNetLib}.

Record EncodeContext := MkEncodeContext {
  ec_router_id : option RouterId;
  ec_next_hop_v4 : option IpAddr;
  ec_next_hop_v6 : option IpAddr
}.

Definition default_context : EncodeContext :=
  {| ec_router_id := None; ec_next_hop_v4 := None; ec_next_hop_v6 := None |}.

Definition ec_set_router_id (id : RouterId) (c : EncodeContext) : EncodeContext :=
  {| ec_router_id := Some id; ec_next_hop_v4 := ec_next_hop_v4 c; ec_next_hop_v6 := ec_next_hop_v6 c |}.
Definition ec_set_v4 (a : IpAddr) (c : EncodeContext) : EncodeContext :=
  {| ec_router_id := ec_router_id c; ec_next_hop_v4 := Some a; ec_next_hop_v6 := ec_next_hop_v6 c |}.
Definition ec_set_v6 (a : IpAddr) (c : EncodeContext) : EncodeContext :=
  {| ec_router_id := ec_router_id c; ec_next_hop_v4 := ec_next_hop_v4 c; ec_next_hop_v6 := Some a |}.

Definition encode_router_id (id : RouterId) (out : list byte) : result WireError (list byte) :=
  put_tlv out TLV_ROUTER_ID ([b8 0; b8 0] ++ arr_list (octets id)).

Definition encode_next_hop (address : IpAddr) (out : list byte) : result WireError (list byte) :=
  let '(ae, bytes) := encode_address address in
  put_tlv out TLV_NEXT_HOP ([b8 (ae_u8 ae); b8 0] ++ bytes).

Definition encode_source_prefix (source : option IpNet) (ae : AddressEncoding) (out : list byte)
  : result WireError (list byte) :=
  match source with
  | Some source =>
      put_tlv out SUBTLV_SOURCE_PREFIX ([b8 (net_plen source)] ++ prefix_wire_bytes source ae)
  | None => Ok out
  end.

Definition encode_sub_tlv (value : SubTlv) (out : list byte) : result WireError (list byte) :=
  match value with
  | SourcePrefix _ => Ok out
  | SubPad1 => Ok (out ++ [b8 0])
  | SubPadN v => _ ← require_zeroes v 1; put_tlv out 1 v
  | TimestampHello v => put_tlv out SUBTLV_TIMESTAMP (to_be32 v)
  | TimestampIhu origin received =>
      put_tlv out SUBTLV_TIMESTAMP (to_be32 origin ++ to_be32 received)
  | SubUnknown type_ value => put_tlv out type_ value
  end.

Fixpoint encode_sub_tlvs (values : list SubTlv) (out : list byte) : result WireError (list byte) :=
  match values with
  | [] => Ok out
  | value :: rest => out ← encode_sub_tlv value out; encode_sub_tlvs rest out
  end.

Definition encode_update (update : OutboundUpdate) (out : list byte) : result WireError (list byte) :=
  match ou_key update with
  | None =>
      put_tlv out TLV_UPDATE ([b8 0; b8 0; b8 0; b8 0] ++ to_be16 (ou_interval_cs update)
        ++ to_be16 (ou_seqno update) ++ to_be16 (ou_metric update))
  | Some key =>
      let ae := ae_for_key key (ou_v4_via_v6 update) in
      let v := [b8 (ae_u8 ae); b8 0; b8 (net_plen (destination key)); b8 0]
        ++ to_be16 (ou_interval_cs update) ++ to_be16 (ou_seqno update)
        ++ to_be16 (ou_metric update) ++ prefix_wire_bytes (destination key) ae in
      v ← encode_source_prefix (source key) ae v;
      v ← encode_sub_tlvs (ou_sub_tlvs update) v;
      put_tlv out TLV_UPDATE v
  end.

(** The Router-ID TLV an Update needs first, if any. *)
Definition emit_router_id (update : OutboundUpdate) (context : EncodeContext) (out : list byte)
  : result WireError (EncodeContext * list byte) :=
  if bool_decide (is_Some (ou_key update)) && negb (ou_metric update =? INFINITY) then
    router_id ← ok_or (ou_router_id update) MissingRouterId;
    if bool_decide (ec_router_id context = Some router_id) then Ok (context, out)
    else
      out ← encode_router_id router_id out;
      Ok (ec_set_router_id router_id context, out)
  else Ok (context, out).

(** The Next-Hop TLV an Update needs first, if any. *)
Definition emit_next_hop (update : OutboundUpdate) (context : EncodeContext) (out : list byte)
  : result WireError (EncodeContext * list byte) :=
  match ou_next_hop update with
  | Some next_hop =>
      if negb (ou_metric update =? INFINITY) then
        let v6_slot := ou_v4_via_v6 update || is_ipv6 next_hop in
        let active := if v6_slot then ec_next_hop_v6 context else ec_next_hop_v4 context in
        if bool_decide (active = Some next_hop) then Ok (context, out)
        else
          out ← encode_next_hop next_hop out;
          Ok (if v6_slot then ec_set_v6 next_hop context else ec_set_v4 next_hop context, out)
      else Ok (context, out)
  | None => Ok (context, out)
  end.

Definition encode_outbound_tlv (tlv : OutboundTlv) (context : EncodeContext) (out : list byte)
  : result WireError (EncodeContext * list byte) :=
  match tlv with
  | OPad1 => Ok (context, out ++ [b8 TLV_PAD1])
  | OPadN value =>
      _ ← require_zeroes value TLV_PADN;
      out ← put_tlv out TLV_PADN value;
      Ok (context, out)
  | OAckRequest nonce interval_cs =>
      _ ← require_nonzero interval_cs TLV_ACK_REQ;
      out ← put_tlv out TLV_ACK_REQ ([b8 0; b8 0] ++ to_be16 nonce ++ to_be16 interval_cs);
      Ok (context, out)
  | OAck nonce =>
      out ← put_tlv out TLV_ACK (to_be16 nonce);
      Ok (context, out)
  | OHello unicast seqno interval_cs sub_tlvs =>
      let v := to_be16 (if unicast : bool then 0x8000 else 0) ++ to_be16 seqno ++ to_be16 interval_cs in
      v ← encode_sub_tlvs sub_tlvs v;
      out ← put_tlv out TLV_HELLO v;
      Ok (context, out)
  | OIhu address rxcost interval_cs sub_tlvs =>
      _ ← require_nonzero interval_cs TLV_IHU;
      let '(ae, bytes) := encode_optional_address address in
      let v := [b8 (ae_u8 ae); b8 0] ++ to_be16 rxcost ++ to_be16 interval_cs ++ bytes in
      v ← encode_sub_tlvs sub_tlvs v;
      out ← put_tlv out TLV_IHU v;
      Ok (context, out)
  | OUpdate update =>
      _ ← require_nonzero (ou_interval_cs update) TLV_UPDATE;
      r ← emit_router_id update context out;
      r ← emit_next_hop update (fst r) (snd r);
      out ← encode_update update (snd r);
      Ok (fst r, out)
  | ORouteRequest key sub_tlvs =>
      v ← match key with
          | Some key =>
              let ae := ae_for_key key false in
              encode_source_prefix (source key) ae
                ([b8 (ae_u8 ae); b8 (net_plen (destination key))]
                   ++ prefix_wire_bytes (destination key) ae)
          | None => Ok [b8 0; b8 0]
          end;
      v ← encode_sub_tlvs sub_tlvs v;
      out ← put_tlv out TLV_ROUTE_REQUEST v;
      Ok (context, out)
  | OSeqnoRequest key seqno hop_count router_id sub_tlvs =>
      _ ← require_nonzero hop_count TLV_SEQNO_REQUEST;
      let ae := ae_for_key key false in
      let v := [b8 (ae_u8 ae); b8 (net_plen (destination key))] ++ to_be16 seqno
        ++ [b8 hop_count; b8 0] ++ arr_list (octets router_id)
        ++ prefix_wire_bytes (destination key) ae in
      v ← encode_source_prefix (source key) ae v;
      v ← encode_sub_tlvs sub_tlvs v;
      out ← put_tlv out TLV_SEQNO_REQUEST v;
      Ok (context, out)
  | OUnknown type_ value =>
      out ← put_tlv out type_ value;
      Ok (context, out)
  end.

(** ** Packetizer *)

Definition finish_packet (body : list byte) : result WireError (list byte) :=
  if (Z.to_nat 65535 <? length body)%nat then Err BodyTooLarge
  else Ok ([b8 MAGIC; b8 VERSION] ++ to_be16 (Z.of_nat (length body)) ++ body).

Definition requires_fresh_next_hop_context (tlv : OutboundTlv) (context : EncodeContext) : bool :=
  match tlv with
  | OUpdate update =>
      if (ou_metric update =? INFINITY) || bool_decide (is_Some (ou_next_hop update)) then false
      else if ou_v4_via_v6 update
              || match ou_key update with
                 | Some key => negb (net_is_ipv4 (destination key))
                 | None => false
                 end
           then bool_decide (is_Some (ec_next_hop_v6 context))
           else bool_decide (is_Some (ec_next_hop_v4 context))
  | _ => false
  end.

Definition is_timestamp_hello (s : SubTlv) : bool :=
  match s with TimestampHello _ => true | _ => false end.
Definition is_timestamp_ihu (s : SubTlv) : bool :=
  match s with TimestampIhu _ _ => true | _ => false end.
Definition is_hello (tlv : OutboundTlv) : bool := match tlv with OHello _ _ _ _ => true | _ => false end.
Definition is_ihu (tlv : OutboundTlv) : bool := match tlv with OIhu _ _ _ _ => true | _ => false end.
Definition is_timestamped (tlv : OutboundTlv) : bool :=
  match tlv with OHello _ _ _ subs => existsb is_timestamp_hello subs | _ => false end.
Definition is_stamped_ihu (tlv : OutboundTlv) : bool :=
  match tlv with OIhu _ _ _ subs => existsb is_timestamp_ihu subs | _ => false end.

(** The IHUs directly behind a timestamped Hello, and what follows them. *)
Fixpoint span_ihus (l : list OutboundTlv) : list OutboundTlv * list OutboundTlv :=
  match l with
  | t :: rest =>
      if is_ihu t then let '(g, r) := span_ihus rest in (t :: g, r) else ([], l)
  | [] => ([], [])
  end.

Fixpoint encode_group (group : list OutboundTlv) (context : EncodeContext) (out : list byte)
  : result WireError (EncodeContext * list byte) :=
  match group with
  | [] => Ok (context, out)
  | tlv :: rest =>
      r ← encode_outbound_tlv tlv context out;
      encode_group rest (fst r) (snd r)
  end.

(** The packetizer's local variables. *)
Record PackState := MkPackState {
  pk_packets : list (list byte);
  pk_body : list byte;
  pk_context : EncodeContext;
  pk_has_hello : bool
}.

(** Close the current datagram and start one with an empty context. *)
Definition flush (s : PackState) : result WireError PackState :=
  p ← finish_packet (pk_body s);
  Ok {| pk_packets := pk_packets s ++ [p]; pk_body := []; pk_context := default_context;
        pk_has_hello := false |}.

(** One iteration of the loop: the group that starts with [tlv]. *)
Definition pack_group (body_budget : nat) (tlv : OutboundTlv) (group : list OutboundTlv)
    (s : PackState) : result WireError PackState :=
  s ← (if negb (length (pk_body s) =? 0)%nat
          && (requires_fresh_next_hop_context tlv (pk_context s) || (is_hello tlv && pk_has_hello s))
       then flush s else Ok s);
  e ← encode_group group (pk_context s) [];
  if (body_budget <? length (snd e))%nat then Err BodyTooLarge
  else
    se ← (if negb (length (pk_body s) =? 0)%nat
             && (body_budget <? length (pk_body s) + length (snd e))%nat
          then
            s ← flush s;
            e ← encode_group group (pk_context s) [];
            if (body_budget <? length (snd e))%nat then Err BodyTooLarge else Ok (s, e)
          else Ok (s, e));
    let '(s, e) := se in
    Ok {| pk_packets := pk_packets s; pk_body := pk_body s ++ snd e; pk_context := fst e;
          pk_has_hello := pk_has_hello s || is_hello tlv |}.

Fixpoint pack_loop (fuel : nat) (body_budget : nat) (l : list OutboundTlv) (s : PackState)
  : result WireError PackState :=
  match l with
  | [] => Ok s
  | tlv :: rest =>
      match fuel with
      | O => Err ShortHeader
      | S fuel =>
          let '(ihus, next) := if is_timestamped tlv then span_ihus rest else ([], rest) in
          if negb (is_timestamped tlv) && is_stamped_ihu tlv then Err (InvalidTlv TLV_IHU)
          else
            s ← pack_group body_budget tlv (tlv :: ihus) s;
            pack_loop fuel body_budget next s
      end
  end.

Definition encode_packets (packet : OutboundPacket) (max_packet_size : nat)
  : result WireError (list (list byte)) :=
  if (max_packet_size <? 4)%nat then Err PacketBudgetTooSmall
  else
    let max_packet_size := Nat.min max_packet_size MAX_PACKET_SIZE in
    let body_budget := (max_packet_size - 4)%nat in
    s ← pack_loop (length (out_tlvs packet)) body_budget (out_tlvs packet)
          {| pk_packets := []; pk_body := []; pk_context := default_context; pk_has_hello := false |};
    s ← flush s;
    Ok (pk_packets s).

Definition encode_packet (packet : OutboundPacket) : result WireError (list byte) :=
  packets ← encode_packets packet MAX_PACKET_SIZE;
  match packets with
  | [p] => Ok p
  | _ => Err PacketSplitRequired
  end.
End Encode.

(** ** Send-time timestamps *)

(** [data[i..i + v.len()].copy_from_slice(v)]. *)
Definition splice (i : nat) (v data : list byte) : list byte :=
  take i data ++ v ++ drop (i + length v) data.

(** The sub-TLVs of one Hello, [data[sub..tlv_end]]; the datagram is rewritten
    in place, so what was stamped before an error stays stamped. *)
Fixpoint stamp_subs (fuel : nat) (data : list byte) (sub tlv_end : nat) (timestamp : Z)
  : list byte * result WireError unit :=
  if (sub <? tlv_end)%nat then
    match fuel with
    | O => (data, Err ShortHeader)
    | S fuel =>
        let sub_type := at_ sub data in
        let sub := S sub in
        if sub_type =? 0 then stamp_subs fuel data sub tlv_end timestamp
        else if (tlv_end <=? sub)%nat then (data, Err (InvalidTlv TLV_HELLO))
        else
          let sub_length := Z.to_nat (at_ sub data) in
          let sub := S sub in
          if (tlv_end - sub <? sub_length)%nat then (data, Err (InvalidTlv TLV_HELLO))
          else
            let data := if (sub_type =? SUBTLV_TIMESTAMP) && (4 <=? sub_length)%nat
                        then splice sub (to_be32 timestamp) data else data in
            stamp_subs fuel data (sub + sub_length) tlv_end timestamp
    end
  else (data, Ok tt).

Fixpoint stamp_tlvs (fuel : nat) (data : list byte) (offset end_ : nat) (timestamp : Z)
  : list byte * result WireError unit :=
  if (offset <? end_)%nat then
    match fuel with
    | O => (data, Err ShortHeader)
    | S fuel =>
        let type_ := at_ offset data in
        let offset := S offset in
        if type_ =? TLV_PAD1 then stamp_tlvs fuel data offset end_ timestamp
        else if (end_ <=? offset)%nat then (data, Err (TruncatedTlv type_))
        else
          let len := Z.to_nat (at_ offset data) in
          let offset := S offset in
          if (end_ - offset <? len)%nat then (data, Err (TruncatedTlv type_))
          else if (type_ =? TLV_HELLO) && (6 <=? len)%nat then
            match stamp_subs len data (offset + 6) (offset + len) timestamp with
            | (data, Ok _) => stamp_tlvs fuel data (offset + len) end_ timestamp
            | (data, Err e) => (data, Err e)
            end
          else stamp_tlvs fuel data (offset + len) end_ timestamp
    end
  else (data, Ok tt).

Definition stamp_hello_timestamps (data : list byte) (timestamp : Z)
  : list byte * result WireError unit :=
  if (length data <? 4)%nat then (data, Err ShortHeader)
  else if negb (at_ 0 data =? MAGIC) then (data, Err BadMagic)
  else if negb (at_ 1 data =? VERSION) then (data, Err (UnsupportedVersion (at_ 1 data)))
  else
    let body_len := Z.to_nat (be16 (slice 2 4 data)) in
    if (length data <? 4 + body_len)%nat then (data, Err TruncatedBody)
    else stamp_tlvs body_len data 4 (4 + body_len) timestamp.
