(* ===== verification/WirePrefix.v ===== *)
(** Prefixes and addresses survive encoding: [decode_prefix] inverts
    [prefix_wire_bytes] on canonical prefixes, [decode_address] inverts
    [encode_address], and what the decoder builds is canonical. *)
From S2P Require Import Prelude Net Model Wire.
Local Open Scope Z_scope.

(** The octets [decode_prefix] fills in, before they are padded. *)
Definition masked (plen : Z) (encoded : list byte) : list byte :=
  if negb (plen mod 8 =? 0) && negb (length encoded =? 0)%nat
  then mask_last (Z.shiftl 0xff (8 - plen mod 8) mod 256) encoded
  else encoded.

Definition octets_for (plen : Z) : nat := Z.to_nat (div_ceil plen 8).

Lemma octets_for_0 p : p <= 0 -> octets_for p = 0%nat.
Proof. intros. unfold octets_for, div_ceil. Z.div_mod_to_equations. lia. Qed.

Lemma octets_for_small p : 0 < p <= 8 -> octets_for p = 1%nat.
Proof. intros. unfold octets_for, div_ceil. Z.div_mod_to_equations. lia. Qed.

Lemma octets_for_step p : 8 < p -> octets_for p = S (octets_for (p - 8)).
Proof. intros. unfold octets_for, div_ceil. Z.div_mod_to_equations. lia. Qed.

Lemma octets_for_le p n : 0 <= p <= 8 * Z.of_nat n -> (octets_for p <= n)%nat.
Proof. intros. unfold octets_for, div_ceil. Z.div_mod_to_equations. lia. Qed.

Lemma partial_mask p : 0 < p < 8 -> Z.shiftl 0xff (8 - p mod 8) mod 256 = octet_mask p.
Proof.
  intros. assert (p = 1 \/ p = 2 \/ p = 3 \/ p = 4 \/ p = 5 \/ p = 6 \/ p = 7) by lia.
  by destruct_or!; subst p.
Qed.

Lemma mask_last_length m l : length (mask_last m l) = length l.
Proof.
  unfold mask_last. case_match eqn:E; [|done].
  rewrite length_app, length_take. simpl. destruct l; [done|]. simpl. lia.
Qed.

Lemma masked_length p l : length (masked p l) = length l.
Proof. unfold masked. case_match; [apply mask_last_length | done]. Qed.

Lemma mask_last_cons m b l : l <> [] -> mask_last m (b :: l) = b :: mask_last m l.
Proof.
  intros. destruct l as [|c l]; [done|]. unfold mask_last.
  change (list.last (b :: c :: l)) with (list.last (c :: l)).
  case_match eqn:E; [|done]. simpl. by rewrite !Nat.sub_0_r.
Qed.

Lemma masked_cons p b l : l <> [] -> 8 < p -> masked p (b :: l) = b :: masked (p - 8) l.
Proof.
  intros Hl Hp. unfold masked.
  replace ((p - 8) mod 8) with (p mod 8) by (Z.div_mod_to_equations; lia).
  destruct l as [|c l]; [done|]. cbn [length Nat.eqb negb]. rewrite andb_true_r.
  case_match; [by rewrite mask_last_cons | done].
Qed.

Lemma mask_octets_0 p l : p <= 0 -> mask_octets p l = replicate (length l) (b8 0).
Proof.
  revert p. induction l as [|b l IH]; intros p Hp; simpl; [done|].
  rewrite IH by lia. unfold octet_mask. replace (8 <=? p) with false by lia.
  replace (p <=? 0) with true by lia. by rewrite Z.land_0_r.
Qed.

Lemma octet_mask_full p b : 8 <= p -> b8 (Z.land (u8 b) (octet_mask p)) = b.
Proof.
  intros. unfold octet_mask. replace (8 <=? p) with true by lia.
  change 255 with (Z.ones 8). rewrite Z.land_ones by lia.
  rewrite Z.mod_small by apply u8_range. apply b8_u8.
Qed.

(** Masking the significant octets and padding them with zeros is the
    truncation of the address to [p] bits. *)
Lemma masked_pad p l :
  0 <= p <= 8 * Z.of_nat (length l) ->
  masked p (take (octets_for p) l) ++ replicate (length l - octets_for p) (b8 0) = mask_octets p l.
Proof.
  revert p. induction l as [|b l IH]; intros p Hp; simpl length in *.
  - replace p with 0 by lia. done.
  - destruct (decide (p = 0)) as [->|]; [|destruct (decide (p <= 8))].
    + rewrite octets_for_0, mask_octets_0 by lia. done.
    + rewrite octets_for_small by lia. simpl take. rewrite take_0.
      simpl mask_octets. rewrite mask_octets_0 by lia.
      replace (S (length l) - 1)%nat with (length l) by lia.
      change (?a :: ?r) with ([a] ++ r). f_equal.
      unfold masked. destruct (decide (p = 8)) as [->|].
      * simpl. by rewrite octet_mask_full by lia.
      * replace (p mod 8 =? 0) with false by (Z.div_mod_to_equations; lia).
        simpl. by rewrite partial_mask by lia.
    + rewrite octets_for_step by lia. simpl take. simpl mask_octets.
      rewrite octet_mask_full by lia.
      destruct (decide (l = [])) as [->|]; [simpl in Hp; lia|].
      rewrite masked_cons.
      * simpl. f_equal. apply IH. lia.
      * intros E. apply (f_equal length) in E. rewrite length_take in E.
        destruct l; [done|]. simpl in *.
        assert (1 <= octets_for (p - 8))%nat; [|lia].
        unfold octets_for, div_ceil. Z.div_mod_to_equations. lia.
      * lia.
Qed.

Section Prefixes.
Context {NL : IpNetLib}.

(** The encoding an unqualified prefix travels in. *)
Definition ae_matches (ae : AddressEncoding) (n : IpNet) : Prop :=
  match ae with
  | Ipv4 | Ipv4ViaIpv6 => net_is_ipv4 n = true
  | Ipv6 => net_is_ipv4 n = false
  | _ => False
  end.

Definition net_width (n : IpNet) : nat := if net_is_ipv4 n then 4%nat else 16%nat.

Lemma net_octets_length n : length (net_octets n) = net_width n.
Proof. destruct n; apply arr_length. Qed.

Lemma net_plen_width n : 0 <= net_plen n <= 8 * Z.of_nat (net_width n).
Proof.
  destruct n as [n|n]; cbn; [pose proof (v4net_plen_range n) | pose proof (v6net_plen_range n)]; lia.
Qed.

Lemma encoded_len_matches ae n :
  ae_matches ae n -> prefix_encoded_len ae (net_plen n) = Some (octets_for (net_plen n)).
Proof.
  pose proof (net_plen_width n) as W. unfold ae_matches, net_width, prefix_encoded_len in *.
  destruct ae; try done; intros E; rewrite E in W; simpl in *;
    by case_match; [lia|].
Qed.

Lemma prefix_bytes_matches ae n :
  ae_matches ae n -> prefix_wire_bytes n ae = take (octets_for (net_plen n)) (net_octets n).
Proof.
  intros H. unfold prefix_wire_bytes. rewrite (encoded_len_matches ae n H). simpl.
  destruct n, ae; done.
Qed.

Lemma octets_for_net n : (octets_for (net_plen n) <= net_width n)%nat.
Proof. apply octets_for_le, net_plen_width. Qed.

Lemma prefix_bytes_length ae n :
  ae_matches ae n -> length (prefix_wire_bytes n ae) = octets_for (net_plen n).
Proof.
  intros H. rewrite (prefix_bytes_matches ae n H), length_take, net_octets_length.
  pose proof (octets_for_net n). lia.
Qed.

Lemma pad_list_replicate n l :
  (length l <= n)%nat -> pad_list n l = l ++ replicate (n - length l) (b8 0).
Proof.
  intros. unfold pad_list. rewrite take_app. rewrite take_ge by lia. f_equal.
  rewrite take_replicate. f_equal. lia.
Qed.

Lemma v4_new_canonical (n : Ipv4Net) enc :
  pad_list 4 enc = arr_list (v4_octets (v4net_addr n)) ->
  v4net_new (MkIpv4Addr (arr_of_list 4 enc)) (v4net_plen n) = Some n.
Proof.
  intros E. pose proof (v4net_plen_range n). apply v4net_new_spec; [lia|].
  split; [lia|]. split; [|done]. destruct (v4net_addr n) as [o]; simpl in *. f_equal.
  by apply arr_ext.
Qed.

Lemma v6_new_canonical (n : Ipv6Net) enc :
  pad_list 16 enc = arr_list (v6_octets (v6net_addr n)) ->
  v6net_new (MkIpv6Addr (arr_of_list 16 enc)) (v6net_plen n) = Some n.
Proof.
  intros E. pose proof (v6net_plen_range n). apply v6net_new_spec; [lia|].
  split; [lia|]. split; [|done]. destruct (v6net_addr n) as [o]; simpl in *. f_equal.
  by apply arr_ext.
Qed.

(** The decoder reads a canonical prefix back from its own octets, whatever
    follows them. *)
Lemma decode_prefix_bytes ae n previous :
  canonical n -> ae_matches ae n ->
  decode_prefix ae (net_plen n) 0 (prefix_wire_bytes n ae) previous = Some n.
Proof.
  intros Hc Hm. unfold decode_prefix. rewrite (encoded_len_matches ae n Hm). simpl.
  pose proof (prefix_bytes_length ae n Hm) as Hl. rewrite Nat.sub_0_r, <- Hl, Nat.ltb_irrefl.
  simpl. rewrite take_ge by lia. fold (masked (net_plen n) (prefix_wire_bytes n ae)).
  assert (pad_list (net_width n) (masked (net_plen n) (prefix_wire_bytes n ae)) = net_octets n) as E.
  { rewrite pad_list_replicate by (rewrite masked_length, Hl; apply octets_for_net).
    rewrite masked_length, Hl, (prefix_bytes_matches ae n Hm).
    rewrite <- net_octets_length at 1. rewrite masked_pad; [by apply canonical_octets|].
    rewrite net_octets_length. apply net_plen_width. }
  destruct n as [n|n], ae; simpl in *; try done;
    (rewrite v4_new_canonical || rewrite v6_new_canonical); done.
Qed.
End Prefixes.
