(* ===== verification/WireRoundtrip.v ===== *)
(** Round trips between the packetizer and the decoder.

    The encoder's [EncodeContext] and the decoder's [ParserState] are two views
    of the same packet-local context ([context_sim]); every outbound TLV the
    encoder writes is read back as the inbound TLV it stands for, so every
    datagram [encode_packets] produces decodes on its own and the datagrams
    together carry the semantic TLVs in order. *)
From S2P Require Import Prelude Net Model Wire WireDecode WireEncode WirePrefix.
Local Open Scope Z_scope.

(** * Addresses *)

Definition link_local_prefix : list byte := [b8 0xfe; b8 0x80] ++ replicate 6 (b8 0).

(** Addresses the wire format can carry: an IPv6 address of fe80::/10 must lie
    in fe80::/64. *)
Definition encodable (a : IpAddr) : Prop :=
  match a with
  | IpV4 _ => True
  | IpV6 v => is_unicast_link_local v = true -> take 8 (arr_list (v6_octets v)) = link_local_prefix
  end.

#[global] Instance encodable_dec a : Decision (encodable a).
Proof. destruct a; simpl; apply _. Defined.

Lemma decode_encode_address a :
  decode_address (fst (encode_address a)) (snd (encode_address a)) = Some a <-> encodable a.
Proof.
  destruct a as [v|v]; simpl.
  - rewrite try_array_arr_list. by destruct v.
  - destruct (is_unicast_link_local v) eqn:E; simpl.
    + fold link_local_prefix. change ([b8 0xfe; b8 0x80] ++ ?l) with ([b8 0xfe; b8 0x80] ++ l).
      assert (b8 254 :: b8 128 :: b8 0 :: b8 0 :: b8 0 :: b8 0 :: b8 0 :: b8 0
                :: drop 8 (arr_list (v6_octets v))
              = link_local_prefix ++ drop 8 (arr_list (v6_octets v))) as -> by done.
      assert (length (link_local_prefix ++ drop 8 (arr_list (v6_octets v))) = 16%nat) as Hl.
      { rewrite length_app, length_drop, arr_length. done. }
      split.
      * intros [= H] _. apply (f_equal v6_octets) in H. simpl in H.
        rewrite <- H, arr_list_of_list by done. done.
      * intros H. specialize (H eq_refl). do 2 f_equal. destruct v as [o]; simpl in *. f_equal.
        apply arr_ext. rewrite arr_list_of_list by done.
        rewrite <- (take_drop 8 (arr_list o)) at 2. by rewrite H.
    + rewrite try_array_arr_list. destruct v. naive_solver.
Qed.

Lemma encode_address_ae a :
  (fst (encode_address a) = Ipv4 \/ fst (encode_address a) = Ipv6
   \/ fst (encode_address a) = Ipv6LinkLocal) /\
  address_len (fst (encode_address a)) = Some (length (snd (encode_address a))) /\
  is_ipv4 a = bool_decide (fst (encode_address a) = Ipv4).
Proof.
  destruct a as [v|v]; simpl; [rewrite arr_length; auto|].
  case_match; simpl; rewrite ?length_drop, arr_length; auto.
Qed.

(** * Fuel *)

Section Fuel.
Context {NL : IpNetLib}.

Lemma sub_loop_fuel n data context dst r :
  (length data <= n)%nat ->
  sub_loop n data context dst r = sub_loop (length data) data context dst r.
Proof.
  remember (length data) as m eqn:Em. revert n data r Em.
  induction m as [m IH] using lt_wf_ind. intros n data r Em Hn.
  destruct (next_frame data) as [|rest|t|t v rest] eqn:F.
  - destruct n, m; simpl; by rewrite F.
  - apply next_frame_pad in F as L. destruct n as [|n], m as [|m]; try lia.
    simpl. rewrite F, (IH (length rest)), (IH (length rest) ltac:(lia) m); try lia; done.
  - destruct n, m; simpl; by rewrite F.
  - apply next_frame_tlv in F as L. destruct n as [|n], m as [|m]; try lia.
    simpl. rewrite F, (IH (length rest)), (IH (length rest) ltac:(lia) m); try lia; done.
Qed.

Lemma tlv_loop_fuel n body state acc :
  (length body <= n)%nat ->
  tlv_loop n body state acc = tlv_loop (length body) body state acc.
Proof.
  remember (length body) as m eqn:Em. revert n body state acc Em.
  induction m as [m IH] using lt_wf_ind. intros n body state acc Em Hn.
  destruct (next_frame body) as [|rest|t|t v rest] eqn:F.
  - destruct n, m; simpl; by rewrite F.
  - apply next_frame_pad in F as L. destruct n as [|n], m as [|m]; try lia.
    simpl. rewrite F, (IH (length rest)), (IH (length rest) ltac:(lia) m); try lia; done.
  - destruct n, m; simpl; by rewrite F.
  - apply next_frame_tlv in F as L. destruct n as [|n], m as [|m]; try lia.
    simpl. rewrite F. destruct (decode_tlv t v state) as [[tlv st]|e]; simpl; [|done].
    rewrite (IH (length rest)), (IH (length rest) ltac:(lia) m); try lia; done.
Qed.

(** ** Decoding a sequence piece by piece *)

(** [enc] is decoded as sub-TLVs that turn the result so far by [f]. *)
Definition subs_decode (context : SubContext) (dst : option IpNet) (enc : list byte)
    (f : DecodedSubTlvs -> DecodedSubTlvs) : Prop :=
  forall rest r n, (length (enc ++ rest) <= n)%nat ->
    sub_loop n (enc ++ rest) context dst r = sub_loop (length rest) rest context dst (f r).

(** [enc] is decoded as the TLVs [ts], taking the parser from [st] to [st']. *)
Definition tlvs_decode (enc : list byte) (st st' : ParserState) (ts : list Tlv) : Prop :=
  forall rest acc n, (length (enc ++ rest) <= n)%nat ->
    tlv_loop n (enc ++ rest) st acc = tlv_loop (length rest) rest st' (acc ++ ts).

Lemma subs_decode_nil context dst : subs_decode context dst [] id.
Proof. intros rest r n Hn. by apply sub_loop_fuel. Qed.

Lemma subs_decode_app context dst e1 e2 f g :
  subs_decode context dst e1 f -> subs_decode context dst e2 g ->
  subs_decode context dst (e1 ++ e2) (g ∘ f).
Proof.
  intros H1 H2 rest r n Hn. rewrite <- app_assoc in *. rewrite H1 by done. by apply H2.
Qed.

Lemma subs_decode_pad context dst : subs_decode context dst [b8 0] (push_sub SubPad1).
Proof.
  intros rest r n Hn. by rewrite sub_loop_fuel by done.
Qed.

Lemma subs_decode_tlv context dst type_ value :
  0 < type_ < 256 -> (length value <= 255)%nat ->
  subs_decode context dst ([b8 type_; b8 (Z.of_nat (length value))] ++ value)
    (decode_sub_tlv type_ value context dst).
Proof.
  intros Ht Hl rest r n Hn. rewrite <- app_assoc in *.
  pose proof (next_frame_put type_ value rest Ht Hl) as F.
  destruct n as [|n]; [simpl in Hn; lia|]. simpl app in *. cbn [sub_loop]. rewrite F.
  apply sub_loop_fuel. simpl in Hn. rewrite length_app in Hn. lia.
Qed.

Lemma subs_decode_all context dst enc f :
  subs_decode context dst enc f ->
  decode_sub_tlvs enc context dst = Ok (f empty_subs).
Proof.
  intros H. unfold decode_sub_tlvs. specialize (H [] empty_subs (length enc)).
  rewrite app_nil_r in H. rewrite H by done. done.
Qed.

Lemma tlvs_decode_nil st : tlvs_decode [] st st [].
Proof. intros rest acc n Hn. rewrite app_nil_r. by apply tlv_loop_fuel. Qed.

Lemma tlvs_decode_app e1 e2 s1 s2 s3 t1 t2 :
  tlvs_decode e1 s1 s2 t1 -> tlvs_decode e2 s2 s3 t2 -> tlvs_decode (e1 ++ e2) s1 s3 (t1 ++ t2).
Proof.
  intros H1 H2 rest acc n Hn. rewrite <- app_assoc in *. rewrite H1 by done.
  rewrite H2 by done. by rewrite app_assoc.
Qed.

Lemma tlvs_decode_pad st : tlvs_decode [b8 0] st st [TPad1].
Proof.
  intros rest acc n Hn. by rewrite tlv_loop_fuel by done.
Qed.

(** One framed TLV, kept or dropped. *)
Lemma tlvs_decode_frame type_ value st st' o :
  0 < type_ < 256 -> (length value <= 255)%nat ->
  decode_tlv type_ value st = Ok (o, st') ->
  tlvs_decode ([b8 type_; b8 (Z.of_nat (length value))] ++ value) st st'
    (match o with Some t => [t] | None => [] end).
Proof.
  intros Ht Hl Hd rest acc n Hn. rewrite <- app_assoc in *.
  pose proof (next_frame_put type_ value rest Ht Hl) as F.
  destruct n as [|n]; [simpl in Hn; lia|]. simpl app in *. cbn [tlv_loop]. rewrite F, Hd. simpl.
  apply tlv_loop_fuel. simpl in Hn. rewrite length_app in Hn. lia.
Qed.

Lemma tlvs_decode_tlv type_ value st st' t :
  0 < type_ < 256 -> (length value <= 255)%nat ->
  decode_tlv type_ value st = Ok (Some t, st') ->
  tlvs_decode ([b8 type_; b8 (Z.of_nat (length value))] ++ value) st st' [t].
Proof. intros Ht Hl Hd. exact (tlvs_decode_frame _ _ _ _ (Some t) Ht Hl Hd). Qed.

Lemma tlvs_decode_body enc st st' ts :
  tlvs_decode enc st st' ts -> decode_body enc st = Ok (ts, st').
Proof.
  intros H. unfold decode_body. specialize (H [] [] (length enc)).
  rewrite app_nil_r in H. rewrite H by done. done.
Qed.
End Fuel.

(** * What the encoder may be given *)

Lemma put_tlv_Ok out type_ value out' :
  put_tlv out type_ value = Ok out' <->
  (length value <= 255)%nat /\ out' = out ++ [b8 type_; b8 (Z.of_nat (length value))] ++ value.
Proof.
  unfold put_tlv. destruct (Nat.ltb_spec 255 (length value)); split; try done; try lia.
  - intros [= <-]. done.
  - by intros [_ ->].
Qed.

Lemma be16_field z rest : in_u16 z -> be16 (b8 (z / 256) :: b8 z :: rest) = z.
Proof. intros H. exact (be_value_to_be16 z H). Qed.

Lemma be32_field z rest :
  in_u32 z -> be32 (b8 (z / 16777216) :: b8 (z / 65536) :: b8 (z / 256) :: b8 z :: rest) = z.
Proof. intros H. exact (be_value_to_be32 z H). Qed.

Lemma try_array_take n (l rest : list byte) (a : array n) :
  arr_list a = l -> try_array n l = Some a.
Proof. intros <-. apply try_array_arr_list. Qed.

Section Wellformed.
Context {NL : IpNetLib}.

(** Sub-TLVs that mean the same in [context]: timestamps in their own TLVs, no
    explicit source prefix, no mandatory or reinterpreted unknown type. *)
Definition sub_wf (context : SubContext) (s : SubTlv) : Prop :=
  match s with
  | SubPad1 | SubPadN _ => True
  | TimestampHello t => context = CtxHello /\ in_u32 t
  | TimestampIhu o r => context = CtxIhu /\ in_u32 o /\ in_u32 r
  | SourcePrefix _ => False
  | SubUnknown t v =>
      1 < t < 128 /\
      (t = SUBTLV_TIMESTAMP ->
       match context with
       | CtxHello => length v < 4
       | CtxIhu => length v < 8
       | CtxPrefix _ => True
       end%nat)
  end.

Definition key_wf (k : RouteKey) : Prop := RouteKey_new (destination k) (source k) = Some k.

(** Whether a finite route needs an IPv6 next hop. *)
Definition via_v6 (u : OutboundUpdate) (k : RouteKey) : bool :=
  ou_v4_via_v6 u || negb (net_is_ipv4 (destination k)).

Definition next_hop_wf (src : IpAddr) (u : OutboundUpdate) (k : RouteKey) : Prop :=
  match ou_next_hop u with
  | Some a => encodable a /\ is_ipv4 a = negb (via_v6 u k)
  | None => is_ipv4 src = negb (via_v6 u k)
  end.

Definition update_wf (src : IpAddr) (u : OutboundUpdate) : Prop :=
  in_u16 (ou_interval_cs u) /\ in_u16 (ou_seqno u) /\ in_u16 (ou_metric u) /\
  match ou_key u with
  | None => ou_metric u = INFINITY /\ ou_sub_tlvs u = [] /\ ou_v4_via_v6 u = false
  | Some k =>
      key_wf k /\ Forall (sub_wf (CtxPrefix (ae_for_key k (ou_v4_via_v6 u)))) (ou_sub_tlvs u) /\
      (ou_v4_via_v6 u = true -> net_is_ipv4 (destination k) = true) /\
      (ou_metric u <> INFINITY -> next_hop_wf src u k)
  end.

(** Outbound TLVs for a datagram sent from [src]. *)
Definition tlv_wf (src : IpAddr) (t : OutboundTlv) : Prop :=
  match t with
  | OPad1 | OPadN _ => True
  | OAckRequest nonce interval => in_u16 nonce /\ in_u16 interval
  | OAck nonce => in_u16 nonce
  | OHello _ seqno interval subs =>
      in_u16 seqno /\ in_u16 interval /\ Forall (sub_wf CtxHello) subs
  | OIhu address rxcost interval subs =>
      match address with Some a => encodable a | None => True end /\
      in_u16 rxcost /\ in_u16 interval /\ Forall (sub_wf CtxIhu) subs
  | OUpdate u => update_wf src u
  | ORouteRequest key subs =>
      match key with
      | Some k => key_wf k /\ Forall (sub_wf (CtxPrefix (ae_for_key k false))) subs
      | None => Forall (sub_wf (CtxPrefix Wildcard)) subs
      end
  | OSeqnoRequest key seqno hop_count _ subs =>
      key_wf key /\ in_u16 seqno /\ in_u8 hop_count /\
      Forall (sub_wf (CtxPrefix (ae_for_key key false))) subs
  | OUnknown type_ _ => TLV_SEQNO_REQUEST < type_ < 256
  end.

(** What an Update means to the receiver.  A retraction carries no next hop and
    no router-id of its own. *)
Definition update_means (src : IpAddr) (u : OutboundUpdate) (r : ResolvedUpdate) : Prop :=
  ru_key r = ou_key u /\ ru_interval_cs r = ou_interval_cs u /\ ru_seqno r = ou_seqno u /\
  ru_metric r = ou_metric u /\ ru_v4_via_v6 r = ou_v4_via_v6 u /\ ru_sub_tlvs r = ou_sub_tlvs u /\
  (ou_metric u = INFINITY -> ru_next_hop r = None) /\
  (ou_metric u <> INFINITY ->
     ru_router_id r = ou_router_id u /\ is_Some (ru_router_id r) /\
     ru_next_hop r = Some (default src (ou_next_hop u))).

Definition tlv_means (src : IpAddr) (o : OutboundTlv) (t : Tlv) : Prop :=
  match o with
  | OPad1 => t = TPad1
  | OPadN v => t = TPadN v
  | OAckRequest n i => t = TAckRequest n i
  | OAck n => t = TAck n
  | OHello u s i subs => t = THello u s i subs
  | OIhu a c i subs => t = TIhu a c i subs
  | OUpdate u => exists r, t = TUpdate r /\ update_means src u r
  | ORouteRequest k subs => t = TRouteRequest k subs
  | OSeqnoRequest k s h id subs => t = TSeqnoRequest k s h id subs
  | OUnknown ty v => t = TUnknown ty v
  end.

(** Context TLVs the packetizer inserts. *)
Definition is_context (t : Tlv) : bool :=
  match t with TRouterId _ | TNextHop _ => true | _ => false end.

(** ** Sub-TLVs *)

Definition append_subs (subs : list SubTlv) (r : DecodedSubTlvs) : DecodedSubTlvs :=
  {| sub_values := sub_values r ++ subs; sub_source_prefix := sub_source_prefix r;
     mandatory_unknown := mandatory_unknown r |}.

Lemma subs_decode_ext context dst enc f g :
  (forall r, f r = g r) -> subs_decode context dst enc f -> subs_decode context dst enc g.
Proof. intros E H rest r n Hn. rewrite <- E. by apply H. Qed.

Lemma unknown_not_mandatory t : 1 < t < 128 -> Z.land t 0x80 = 0.
Proof.
  intros H. replace t with (t mod 2 ^ 7) by (apply Z.mod_small; lia).
  rewrite <- Z.land_ones by lia. rewrite <- Z.land_assoc. apply Z.land_0_r.
Qed.

Lemma decode_sub_unknown context dst t v r :
  sub_wf context (SubUnknown t v) ->
  decode_sub_tlv t v context dst r = push_sub (SubUnknown t v) r.
Proof.
  intros [Ht Hs]. unfold decode_sub_tlv. replace (t =? 1) with false by lia.
  destruct (Z.eqb_spec t SUBTLV_TIMESTAMP) as [E|E].
  - specialize (Hs E). destruct context; try done.
    + by destruct (Nat.leb_spec 4 (length v)); [lia|].
    + by destruct (Nat.leb_spec 8 (length v)); [lia|].
  - replace (t =? SUBTLV_SOURCE_PREFIX) with false by (unfold SUBTLV_SOURCE_PREFIX; lia).
    by rewrite unknown_not_mandatory.
Qed.

Lemma encode_sub_tlv_decodes context dst s out out' :
  sub_wf context s -> encode_sub_tlv s out = Ok out' ->
  exists enc, out' = out ++ enc /\ subs_decode context dst enc (push_sub s).
Proof.
  destruct s as [|v|t|o rc|p|t v]; simpl; intros Hw He.
  - simplify_eq. eexists. split; [done|]. apply subs_decode_pad.
  - apply result_bind_Ok in He as ([] & _ & He). apply put_tlv_Ok in He as [Hl ->].
    eexists. split; [done|]. eapply subs_decode_ext; [|by apply subs_decode_tlv]. done.
  - apply put_tlv_Ok in He as [Hl ->]. destruct Hw as [-> Ht].
    eexists. split; [done|]. eapply subs_decode_ext; [|by apply subs_decode_tlv].
    intros r. unfold decode_sub_tlv, to_be32. simpl. by rewrite be32_field.
  - apply put_tlv_Ok in He as [Hl ->]. destruct Hw as (-> & Ho & Hr).
    eexists. split; [done|]. eapply subs_decode_ext; [|by apply subs_decode_tlv].
    intros r. unfold decode_sub_tlv, to_be32. simpl. by rewrite !be32_field.
  - done.
  - apply put_tlv_Ok in He as [Hl ->]. eexists. split; [done|].
    eapply subs_decode_ext; [|apply subs_decode_tlv; [lia|done]].
    intros r. by apply decode_sub_unknown.
Qed.

Lemma encode_sub_tlvs_decodes context dst subs out out' :
  Forall (sub_wf context) subs -> encode_sub_tlvs subs out = Ok out' ->
  exists enc, out' = out ++ enc /\ subs_decode context dst enc (append_subs subs).
Proof.
  revert out. induction subs as [|s subs IH]; intros out Hw He.
  - simpl in He. simplify_eq. exists []. split; [by rewrite app_nil_r|].
    eapply subs_decode_ext; [|apply subs_decode_nil]. intros []. unfold append_subs. simpl.
    by rewrite app_nil_r.
  - apply Forall_cons_iff in Hw as [Hs Hw]. simpl in He.
    apply result_bind_Ok in He as (o1 & H1 & H2).
    destruct (encode_sub_tlv_decodes context dst s out o1 Hs H1) as (e1 & -> & D1).
    destruct (IH _ Hw H2) as (e2 & -> & D2).
    exists (e1 ++ e2). split; [by rewrite app_assoc|].
    eapply subs_decode_ext; [|by eapply subs_decode_app].
    intros r. unfold append_subs, push_sub. simpl. by rewrite <- app_assoc.
Qed.
End Wellformed.

Lemma slice_mid {A} (h m e : list A) : slice (length h) (length h + length m) (h ++ m ++ e) = m.
Proof.
  unfold slice. rewrite drop_app_length. replace (length h + length m - length h)%nat with (length m) by lia.
  apply take_app_length.
Qed.

Lemma drop_mid {A} (h m e : list A) : drop (length h + length m) (h ++ m ++ e) = e.
Proof. rewrite app_assoc, <- length_app. apply drop_app_length. Qed.

Section Keys.
Context {NL : IpNetLib}.

(** What [RouteKey_new] returns is canonical: building it again is the identity. *)
Lemma RouteKey_new_wf d s k : RouteKey_new d s = Some k -> key_wf k.
Proof.
  unfold key_wf, RouteKey_new. destruct s as [s|]; simpl.
  - destruct (Bool.eqb (net_is_ipv4 s) (net_is_ipv4 d)) eqn:E; simpl; [|done].
    destruct (Z.eqb_spec (net_plen s) 0) as [Hp|Hp]; simpl; intros [= <-]; simpl;
      rewrite ?net_trunc_is_ipv4, ?net_trunc_plen, ?E, ?net_trunc_idem; [done|].
    simpl. replace (net_plen s =? 0) with false by lia. simpl. by rewrite net_trunc_idem.
  - intros [= <-]. simpl. by rewrite net_trunc_idem.
Qed.

Lemma key_wf_inv k :
  key_wf k ->
  canonical (destination k) /\
  match source k with
  | None => True
  | Some s => canonical s /\ net_plen s <> 0 /\ net_is_ipv4 s = net_is_ipv4 (destination k)
  end.
Proof.
  unfold key_wf, RouteKey_new, canonical. destruct k as [d s]; simpl.
  destruct s as [s|]; simpl.
  - destruct (Bool.eqb (net_is_ipv4 s) (net_is_ipv4 d)) eqn:E; simpl; [|done].
    apply Bool.eqb_prop in E. destruct (Z.eqb_spec (net_plen s) 0); simpl; [done|].
    intros [= H1 H2]. done.
  - intros [= H]. done.
Qed.

Lemma ae_for_key_matches k v : ae_matches (ae_for_key k v) (destination k).
Proof. unfold ae_for_key. destruct (net_is_ipv4 (destination k)) eqn:E; [by destruct v | done]. Qed.

Lemma ae_for_key_matches_source k v s :
  net_is_ipv4 s = net_is_ipv4 (destination k) -> ae_matches (ae_for_key k v) s.
Proof.
  unfold ae_for_key. destruct (net_is_ipv4 (destination k)) eqn:E; intros ?; [by destruct v | done].
Qed.

Lemma ae_for_key_not k v : ae_for_key k v <> Wildcard /\ ae_for_key k v <> Ipv6LinkLocal.
Proof. unfold ae_for_key. by repeat case_match. Qed.

Lemma ae_roundtrip ae : ae_from_u8 (u8 (b8 (ae_u8 ae))) = Some ae.
Proof. by destruct ae. Qed.

Lemma plen_roundtrip n : u8 (b8 (net_plen n)) = net_plen n.
Proof. apply u8_b8_small. pose proof (net_plen_range n). lia. Qed.

Lemma decode_source_sub k v s :
  key_wf k -> source k = Some s ->
  decode_source_prefix (b8 (net_plen s) :: prefix_wire_bytes s (ae_for_key k v))
    (CtxPrefix (ae_for_key k v)) (Some (destination k)) empty_subs = set_source s empty_subs.
Proof.
  intros Hk Hs. apply key_wf_inv in Hk as [_ Hk]. rewrite Hs in Hk. destruct Hk as (Hc & Hp & Hf).
  pose proof (ae_for_key_matches_source k v s Hf) as Hm. pose proof (ae_for_key_not k v) as [Hw _].
  unfold decode_source_prefix. rewrite (bool_decide_false _ Hw). simpl.
  unfold at_, octet. simpl nth. rewrite plen_roundtrip.
  replace (net_plen s =? 0) with false by lia. simpl.
  rewrite (encoded_len_matches _ _ Hm), <- (prefix_bytes_length _ _ Hm), Nat.ltb_irrefl.
  rewrite <- (app_nil_r (prefix_wire_bytes s (ae_for_key k v))).
  rewrite (slice_mid [b8 (net_plen s)] (prefix_wire_bytes s (ae_for_key k v)) [])
    || (rewrite app_nil_r; replace (slice 1 _ _) with (prefix_wire_bytes s (ae_for_key k v))
          by (unfold slice; simpl; rewrite Nat.sub_0_r; by rewrite take_ge)).
  rewrite decode_prefix_bytes by done. rewrite Hf, Bool.eqb_reflx. done.
Qed.

(** The sub-TLVs after a key: its source prefix, then the given ones. *)
Lemma encode_key_subs k v subs out o1 o2 :
  key_wf k -> Forall (sub_wf (CtxPrefix (ae_for_key k v))) subs ->
  encode_source_prefix (source k) (ae_for_key k v) out = Ok o1 ->
  encode_sub_tlvs subs o1 = Ok o2 ->
  exists enc, o2 = out ++ enc /\
    decode_sub_tlvs enc (CtxPrefix (ae_for_key k v)) (Some (destination k))
    = Ok {| sub_values := subs; sub_source_prefix := source k; mandatory_unknown := false |}.
Proof.
  intros Hk Hw H1 H2.
  destruct (encode_sub_tlvs_decodes _ (Some (destination k)) subs o1 o2 Hw H2) as (e2 & -> & D2).
  destruct (source k) as [s|] eqn:Es; simpl in H1.
  - apply put_tlv_Ok in H1 as [Hl ->].
    eexists. split; [by rewrite <- app_assoc|].
    erewrite subs_decode_all; [|eapply subs_decode_app; [by apply subs_decode_tlv | exact D2]].
    unfold compose.
    change (decode_sub_tlv SUBTLV_SOURCE_PREFIX ?b ?c ?d ?r) with (decode_source_prefix b c d r).
    change ([b8 (net_plen s)] ++ ?l) with (b8 (net_plen s) :: l).
    rewrite (decode_source_sub k v s) by done. done.
  - simplify_eq. exists e2. split; [done|]. by rewrite (subs_decode_all _ _ _ _ D2).
Qed.
End Keys.

(** * TLV values *)

(** Discharge a length check of the decoder that the encoder's output passes. *)
Ltac len_ok :=
  match goal with
  | |- context [(?a <? ?b)%nat] =>
      replace (a <? b)%nat with false
        by (symmetry; apply Nat.ltb_ge; rewrite ?length_app; simpl; rewrite ?length_app; lia)
  end.

Section Values.
Context {NL : IpNetLib}.

Definition plain_subs (subs : list SubTlv) : DecodedSubTlvs :=
  {| sub_values := subs; sub_source_prefix := None; mandatory_unknown := false |}.

Lemma encode_plain_subs context subs out out' :
  Forall (sub_wf context) subs -> encode_sub_tlvs subs out = Ok out' ->
  exists enc, out' = out ++ enc /\ decode_sub_tlvs enc context None = Ok (plain_subs subs).
Proof.
  intros Hw He. destruct (encode_sub_tlvs_decodes context None subs out out' Hw He) as (e & -> & D).
  exists e. split; [done|]. by rewrite (subs_decode_all _ _ _ _ D).
Qed.

Lemma decode_ack_request_value nonce interval :
  in_u16 nonce -> in_u16 interval -> interval <> 0 ->
  decode_ack_request ([b8 0; b8 0] ++ to_be16 nonce ++ to_be16 interval)
  = Ok (Some (TAckRequest nonce interval)).
Proof.
  intros Hn Hi H0. unfold decode_ack_request, to_be16, slice. simpl.
  rewrite !be16_field by done. by replace (interval =? 0) with false by lia.
Qed.

Lemma decode_ack_value nonce : in_u16 nonce -> decode_ack (to_be16 nonce) = Ok (Some (TAck nonce)).
Proof. intros Hn. unfold decode_ack, to_be16. simpl. by rewrite be16_field. Qed.

Lemma decode_hello_value (u : bool) seqno interval enc subs :
  in_u16 seqno -> in_u16 interval -> decode_sub_tlvs enc CtxHello None = Ok (plain_subs subs) ->
  decode_hello ((to_be16 (if u then 0x8000 else 0) ++ to_be16 seqno ++ to_be16 interval) ++ enc)
  = Ok (Some (THello u seqno interval subs)).
Proof.
  intros Hs Hi Hd. unfold decode_hello, to_be16, slice. simpl. rewrite drop_0, Hd. simpl.
  rewrite !be16_field by (unfold in_u16 in *; destruct u; lia). by destruct u.
Qed.

Lemma decode_ihu_value address rxcost interval enc subs :
  match address with Some a => encodable a | None => True end ->
  in_u16 rxcost -> in_u16 interval -> interval <> 0 ->
  decode_sub_tlvs enc CtxIhu None = Ok (plain_subs subs) ->
  decode_ihu (([b8 (ae_u8 (fst (encode_optional_address address))); b8 0] ++ to_be16 rxcost
    ++ to_be16 interval ++ snd (encode_optional_address address)) ++ enc)
  = Ok (Some (TIhu address rxcost interval subs)).
Proof.
  intros Ha Hr Hi H0 Hd. unfold decode_ihu, to_be16, at_, octet. simpl app. simpl nth.
  rewrite ae_roundtrip. simpl length. simpl Nat.ltb.
  destruct address as [a|]; simpl.
  - destruct (encode_address_ae a) as (Hae & Hlen & _).
    apply decode_encode_address in Ha.
    destruct (encode_address a) as [ae bytes]; simpl in *.
    rewrite bool_decide_false by (by destruct_or!; subst). rewrite Hlen. simpl.
    rewrite (bool_decide_false (ae = Wildcard)) by (by destruct_or!; subst).
    unfold slice. simpl. rewrite be16_field by done.
    replace (interval =? 0) with false by lia.
    len_ok. simpl. rewrite drop_0, ?Nat.sub_0_r, take_app_length, Ha. simpl.
    rewrite drop_app_length, Hd. simpl. by rewrite !be16_field by done.
  - unfold slice. simpl. rewrite !be16_field by done. replace (interval =? 0) with false by lia.
    simpl. rewrite drop_0, Hd. done.
Qed.

Lemma decode_router_id_value id st :
  decode_router_id ([b8 0; b8 0] ++ arr_list (octets id)) st
  = Ok (Some (TRouterId id), set_router_id (Some id) st).
Proof.
  unfold decode_router_id. pose proof (arr_length (octets id)) as Hl.
  len_ok.
  unfold slice. simpl. rewrite drop_0, take_ge, try_array_arr_list by lia. simpl.
  rewrite RouterId_new_octets. simpl. by rewrite drop_ge by lia.
Qed.

Lemma decode_next_hop_value a st :
  encodable a ->
  decode_next_hop ([b8 (ae_u8 (fst (encode_address a))); b8 0] ++ snd (encode_address a)) st
  = Ok (Some (TNextHop a), set_next_hop a st).
Proof.
  intros Ha. apply decode_encode_address in Ha. destruct (encode_address_ae a) as (Hae & Hlen & _).
  destruct (encode_address a) as [ae bytes]; simpl in *.
  unfold decode_next_hop, at_, octet. simpl. rewrite ae_roundtrip.
  rewrite !bool_decide_false by (by destruct_or!; subst). simpl. rewrite Hlen. simpl.
  rewrite Nat.ltb_irrefl. unfold slice. simpl. rewrite drop_0, take_ge, Ha by lia. simpl. by rewrite drop_ge by lia.
Qed.

Lemma ok_or_Some_bind {E A B} (a : A) (e : E) (f : A -> result E B) : ok_or (Some a) e ≫= f = f a.
Proof. done. Qed.

(** A prefix field behind a header of [n] octets. *)
Lemma slice_field {A} n (h m e : list A) :
  length h = n -> slice n (n + length m) (h ++ m ++ e) = m.
Proof. intros <-. apply slice_mid. Qed.

Lemma drop_field {A} n (h m e : list A) : length h = n -> drop (n + length m) (h ++ m ++ e) = e.
Proof. intros <-. apply drop_mid. Qed.

Lemma key_prefix_len k v :
  prefix_encoded_len (ae_for_key k v) (net_plen (destination k))
  = Some (length (prefix_wire_bytes (destination k) (ae_for_key k v))).
Proof.
  pose proof (ae_for_key_matches k v) as Hm.
  by rewrite (encoded_len_matches _ _ Hm), (prefix_bytes_length _ _ Hm).
Qed.

Lemma decode_key_prefix k v previous :
  key_wf k ->
  decode_prefix (ae_for_key k v) (net_plen (destination k)) 0
    (prefix_wire_bytes (destination k) (ae_for_key k v)) previous = Some (destination k).
Proof.
  intros Hk. apply key_wf_inv in Hk as [Hc _]. apply decode_prefix_bytes; [done|].
  apply ae_for_key_matches.
Qed.

Definition keyed_subs (k : RouteKey) (subs : list SubTlv) : DecodedSubTlvs :=
  {| sub_values := subs; sub_source_prefix := source k; mandatory_unknown := false |}.

Lemma decode_route_request_any enc subs :
  decode_sub_tlvs enc (CtxPrefix Wildcard) None = Ok (plain_subs subs) ->
  decode_route_request ([b8 0; b8 0] ++ enc) = Ok (Some (TRouteRequest None subs)).
Proof.
  intros Hd. unfold decode_route_request, at_, octet. simpl.
  change (ae_from_u8 (u8 (b8 0))) with (Some Wildcard). simpl.
  change (u8 (b8 0) =? 0) with true. simpl. rewrite drop_0, Hd. done.
Qed.

Lemma decode_route_request_value k enc subs :
  let ae := ae_for_key k false in
  key_wf k ->
  decode_sub_tlvs enc (CtxPrefix ae) (Some (destination k)) = Ok (keyed_subs k subs) ->
  decode_route_request (([b8 (ae_u8 ae); b8 (net_plen (destination k))]
      ++ prefix_wire_bytes (destination k) ae) ++ enc)
  = Ok (Some (TRouteRequest (Some k) subs)).
Proof.
  intros ae Hk Hd. subst ae. unfold decode_route_request. rewrite <- app_assoc. len_ok.
  unfold at_, octet. simpl nth. rewrite ae_roundtrip, plen_roundtrip.
  rewrite bool_decide_false by apply ae_for_key_not.
  rewrite key_prefix_len, ok_or_Some_bind.
  len_ok. rewrite (slice_field 2), (drop_field 2) by done.
  rewrite decode_key_prefix by done. simpl. rewrite Hd. simpl.
  by rewrite Hk.
Qed.

Lemma decode_seqno_request_value k seqno hop id enc subs :
  let ae := ae_for_key k false in
  key_wf k -> in_u16 seqno -> in_u8 hop -> hop <> 0 ->
  decode_sub_tlvs enc (CtxPrefix ae) (Some (destination k)) = Ok (keyed_subs k subs) ->
  decode_seqno_request (([b8 (ae_u8 ae); b8 (net_plen (destination k))] ++ to_be16 seqno
      ++ [b8 hop; b8 0] ++ arr_list (octets id) ++ prefix_wire_bytes (destination k) ae) ++ enc)
  = Ok (Some (TSeqnoRequest k seqno hop id subs)).
Proof.
  intros ae Hk Hs Hh H0 Hd. subst ae. unfold decode_seqno_request, to_be16.
  pose proof (arr_length (octets id)) as Ho.
  set (h := [b8 (ae_u8 (ae_for_key k false)); b8 (net_plen (destination k)); b8 (seqno / 256); b8 seqno; b8 hop; b8 0]
              ++ arr_list (octets id)).
  assert (length h = 14)%nat as Hh14 by (unfold h; rewrite length_app, Ho; done).
  replace (([b8 (ae_u8 (ae_for_key k false)); b8 (net_plen (destination k))] ++ _) ++ enc)
    with (h ++ prefix_wire_bytes (destination k) (ae_for_key k false) ++ enc)
    by (unfold h; by rewrite <- !app_assoc).
  len_ok.
  assert (forall i, (i < 6)%nat -> at_ i (h ++ prefix_wire_bytes (destination k) (ae_for_key k false) ++ enc)
    = u8 (nth i [b8 (ae_u8 (ae_for_key k false)); b8 (net_plen (destination k)); b8 (seqno / 256); b8 seqno; b8 hop; b8 0] Byte.x00)) as Hat.
  { intros i Hi. unfold at_, octet, h. rewrite <- app_assoc, app_nth1 by done. done. }
  rewrite !Hat by lia. simpl nth. rewrite ae_roundtrip, plen_roundtrip, u8_b8_small by done.
  rewrite bool_decide_false by apply ae_for_key_not.
  rewrite key_prefix_len, ok_or_Some_bind.
  len_ok. replace (hop =? 0) with false by lia. cbn [orb].
  rewrite (slice_field 14), (drop_field 14) by done.
  replace (slice 6 14 _) with (arr_list (octets id))
    by (unfold slice, h; simpl; rewrite drop_0, take_app_le, take_ge by lia; done).
  rewrite try_array_arr_list. simpl. rewrite RouterId_new_octets. simpl.
  rewrite decode_key_prefix by done. simpl. rewrite Hd. simpl.
  rewrite Hk. simpl. unfold slice, h. simpl. by rewrite be16_field.
Qed.
End Values.

(** * Updates and the packet-local context *)

Section Context_.
Context {NL : IpNetLib}.

Definition slot (c s : option IpAddr) (src : IpAddr) (v4 : bool) : Prop :=
  s = match c with
      | Some a => Some a
      | None => if Bool.eqb (is_ipv4 src) v4 then Some src else None
      end.

(** The decoder of a datagram from [src] has the encoder's context; without a
    Next-Hop TLV the next hop of a family is the datagram's own source. *)
Definition context_sim (src : IpAddr) (c : EncodeContext) (st : ParserState) : Prop :=
  ps_router_id st = ec_router_id c /\
  slot (ec_next_hop_v4 c) (ps_next_hop_v4 st) src true /\
  slot (ec_next_hop_v6 c) (ps_next_hop_v6 st) src false.

Lemma context_sim_new src : context_sim src default_context (ParserState_new src).
Proof. unfold context_sim, slot. simpl. by destruct (is_ipv4 src). Qed.

Definition update_header (u : OutboundUpdate) (k : RouteKey) : list byte :=
  [b8 (ae_u8 (ae_for_key k (ou_v4_via_v6 u))); b8 0; b8 (net_plen (destination k)); b8 0]
    ++ to_be16 (ou_interval_cs u) ++ to_be16 (ou_seqno u) ++ to_be16 (ou_metric u).

(** The next hop the decoder resolves for [u]. *)
Definition resolved_next_hop (u : OutboundUpdate) (k : RouteKey) (st : ParserState) : option IpAddr :=
  if ou_metric u =? INFINITY then None
  else if via_v6 u k then ps_next_hop_v6 st else ps_next_hop_v4 st.

Definition resolve (u : OutboundUpdate) (k : RouteKey) (st : ParserState) : ResolvedUpdate :=
  {| ru_key := Some k; ru_router_id := ps_router_id st; ru_next_hop := resolved_next_hop u k st;
     ru_interval_cs := ou_interval_cs u; ru_seqno := ou_seqno u; ru_metric := ou_metric u;
     ru_v4_via_v6 := ou_v4_via_v6 u; ru_sub_tlvs := ou_sub_tlvs u |}.

Lemma ae_for_key_via u k :
  (ou_v4_via_v6 u = true -> net_is_ipv4 (destination k) = true) ->
  bool_decide (ae_for_key k (ou_v4_via_v6 u) = Ipv4ViaIpv6) = ou_v4_via_v6 u.
Proof.
  unfold ae_for_key. intros H. destruct (ou_v4_via_v6 u).
  - by rewrite H.
  - by case_match.
Qed.

Lemma finish_update_value u k value n st :
  key_wf k -> (ou_v4_via_v6 u = true -> net_is_ipv4 (destination k) = true) ->
  decode_sub_tlvs (drop n value) (CtxPrefix (ae_for_key k (ou_v4_via_v6 u))) (Some (destination k))
  = Ok (keyed_subs k (ou_sub_tlvs u)) ->
  (ou_metric u <> INFINITY -> is_Some (ps_router_id st) /\ is_Some (resolved_next_hop u k st)) ->
  finish_update value (ae_for_key k (ou_v4_via_v6 u)) n (destination k) (ou_interval_cs u)
    (ou_seqno u) (ou_metric u) st
  = Ok (Some (TUpdate (resolve u k st)), st).
Proof.
  intros Hk Hv Hd Hc. unfold finish_update. rewrite Hd. simpl. rewrite Hk, ok_or_Some_bind.
  rewrite ae_for_key_via by done. unfold resolve, resolved_next_hop, via_v6 in *.
  destruct (Z.eqb_spec (ou_metric u) INFINITY) as [E|E]; simpl; [done|].
  destruct (Hc E) as [[id Hid] [a Ha]]. rewrite Hid. simpl.
  destruct (ou_v4_via_v6 u); simpl in *; [by rewrite Ha|].
  destruct (net_is_ipv4 (destination k)); simpl in *; by rewrite Ha.
Qed.

Lemma decode_update_value u k enc st :
  key_wf k -> (ou_v4_via_v6 u = true -> net_is_ipv4 (destination k) = true) ->
  in_u16 (ou_interval_cs u) -> in_u16 (ou_seqno u) -> in_u16 (ou_metric u) -> ou_interval_cs u <> 0 ->
  decode_sub_tlvs enc (CtxPrefix (ae_for_key k (ou_v4_via_v6 u))) (Some (destination k))
  = Ok (keyed_subs k (ou_sub_tlvs u)) ->
  (ou_metric u <> INFINITY -> is_Some (ps_router_id st) /\ is_Some (resolved_next_hop u k st)) ->
  decode_update (update_header u k
      ++ prefix_wire_bytes (destination k) (ae_for_key k (ou_v4_via_v6 u)) ++ enc) st
  = Ok (Some (TUpdate (resolve u k st)), st).
Proof.
  intros Hk Hv Hi Hs Hm H0 Hd Hc. unfold decode_update. len_ok.
  set (v := update_header u k ++ _ ++ enc).
  assert (at_ 0 v = u8 (b8 (ae_u8 (ae_for_key k (ou_v4_via_v6 u))))
          /\ at_ 1 v = 0 /\ at_ 2 v = u8 (b8 (net_plen (destination k))) /\ at_ 3 v = 0) as (-> & -> & -> & ->)
    by done.
  assert (be16 (slice 4 6 v) = ou_interval_cs u /\ be16 (slice 6 8 v) = ou_seqno u
          /\ be16 (slice 8 10 v) = ou_metric u) as (-> & -> & ->)
    by (unfold slice, v, update_header, to_be16; simpl; by rewrite !be16_field).
  rewrite ae_roundtrip, plen_roundtrip. replace (ou_interval_cs u =? 0) with false by lia.
  destruct (ae_for_key_not k (ou_v4_via_v6 u)) as [Hw Hl].
  rewrite (bool_decide_false _ Hw), andb_false_r, (bool_decide_false _ Hl).
  change (Z.to_nat 0) with 0%nat. rewrite andb_false_l, key_prefix_len, ok_or_Some_bind.
  unfold v. rewrite Nat.sub_0_r. len_ok. rewrite orb_false_l. len_ok.
  rewrite (slice_field 10) by done.
  rewrite decode_key_prefix by done.
  change (update_flags 0 ?a ?b st) with st.
  apply finish_update_value; try done. by rewrite (drop_field 10).
Qed.

Lemma decode_retract_all u st :
  in_u16 (ou_interval_cs u) -> in_u16 (ou_seqno u) -> ou_metric u = INFINITY ->
  ou_interval_cs u <> 0 ->
  decode_update ([b8 0; b8 0; b8 0; b8 0] ++ to_be16 (ou_interval_cs u) ++ to_be16 (ou_seqno u)
      ++ to_be16 (ou_metric u)) st
  = Ok (Some (TUpdate {| ru_key := None; ru_router_id := None; ru_next_hop := None;
          ru_interval_cs := ou_interval_cs u; ru_seqno := ou_seqno u; ru_metric := INFINITY;
          ru_v4_via_v6 := false; ru_sub_tlvs := [] |}), st).
Proof.
  intros Hi Hs Hm H0. unfold decode_update.
  change (at_ 0 _) with 0. change (ae_from_u8 0) with (Some Wildcard). len_ok.
  unfold slice, to_be16. simpl. rewrite Hm, !be16_field by done.
  by replace (ou_interval_cs u =? 0) with false by lia.
Qed.
End Context_.
