(* ===== verification/WirePackets.v ===== *)
(** The packetizer's datagrams decode to the TLVs they were built from. *)
From S2P Require Import Prelude Net Model Wire WireDecode WireEncode WirePrefix WireRoundtrip.
Local Open Scope Z_scope.

(** * One outbound TLV *)

Section Tlvs.
Context {NL : IpNetLib}.

(** [enc] decodes to context TLVs only, and relates the contexts it ends in. *)
Definition emits_context (src : IpAddr) (enc : list byte) (st : ParserState) (c' : EncodeContext)
    (st' : ParserState) : Prop :=
  exists ts, tlvs_decode enc st st' ts /\ Forall (fun t => is_context t = true) ts /\
    context_sim src c' st'.

Lemma emits_nothing src c st : context_sim src c st -> emits_context src [] st c st.
Proof. intros H. exists []. split; [apply tlvs_decode_nil | done]. Qed.

Lemma emits_context_sim src enc st c' st' :
  emits_context src enc st c' st' -> context_sim src c' st'.
Proof. by intros (ts & _ & _ & ?). Qed.

Lemma emit_router_id_decodes src u c out c' out' st :
  context_sim src c st -> emit_router_id u c out = Ok (c', out') ->
  exists enc st', out' = out ++ enc /\ emits_context src enc st c' st' /\
    ec_next_hop_v4 c' = ec_next_hop_v4 c /\ ec_next_hop_v6 c' = ec_next_hop_v6 c /\
    (is_Some (ou_key u) -> ou_metric u <> INFINITY ->
       ec_router_id c' = ou_router_id u /\ is_Some (ou_router_id u)).
Proof.
  intros Hc. unfold emit_router_id.
  destruct (bool_decide (is_Some (ou_key u)) && negb (ou_metric u =? INFINITY)) eqn:E.
  - destruct (ou_router_id u) as [id|]; simpl; [|done].
    destruct (bool_decide_reflect (ec_router_id c = Some id)) as [Hr|Hr].
    + intros ?; simplify_eq. exists [], st. rewrite app_nil_r.
      split_and!; try done. by apply emits_nothing.
    + intros He. apply result_bind_Ok in He as (o & He & Hr'); simplify_eq.
      apply put_tlv_Ok in He as [Hl ->].
      eexists _, (set_router_id (Some id) st). split; [done|]. split_and!; try done.
      exists [TRouterId id]. split; [|split; [by repeat constructor | by destruct Hc as (_ & ? & ?)]].
      apply tlvs_decode_tlv; [done|done|]. apply decode_router_id_value.
  - intros ?; simplify_eq. exists [], st. rewrite app_nil_r. split_and!; try done.
    + by apply emits_nothing.
    + intros Hk Hm. rewrite (bool_decide_true _ Hk) in E. simpl in E.
      apply negb_false_iff in E. apply Z.eqb_eq in E. done.
Qed.

Lemma context_sim_next_hop src c st a v6 :
  context_sim src c st -> is_ipv4 a = negb v6 ->
  context_sim src (if v6 then ec_set_v6 a c else ec_set_v4 a c) (set_next_hop a st).
Proof.
  intros (H1 & H2 & H3) Ha. unfold context_sim, set_next_hop. rewrite Ha. by destruct v6.
Qed.

Lemma emit_next_hop_decodes src u k c out c' out' st :
  context_sim src c st ->
  (ou_metric u <> INFINITY -> next_hop_wf src u k) -> ou_key u = Some k ->
  (ou_v4_via_v6 u = true -> net_is_ipv4 (destination k) = true) ->
  requires_fresh_next_hop_context (OUpdate u) c = false ->
  emit_next_hop u c out = Ok (c', out') ->
  exists enc st', out' = out ++ enc /\ emits_context src enc st c' st' /\
    ec_router_id c' = ec_router_id c /\
    (ou_metric u <> INFINITY -> resolved_next_hop u k st' = Some (default src (ou_next_hop u))).
Proof.
  intros Hc Hn Hk Hv Hf. unfold emit_next_hop, next_hop_wf, resolved_next_hop in *.
  assert (forall c st, context_sim src c st -> context_sim src c st) as Hid by done.
  destruct (Z.eqb_spec (ou_metric u) INFINITY) as [E|E]; simpl.
  { intros He. assert (c' = c /\ out' = out) as [-> ->] by (destruct (ou_next_hop u); by simplify_eq).
    exists [], st. rewrite app_nil_r. split_and!; try done. by apply emits_nothing. }
  specialize (Hn E). destruct (ou_next_hop u) as [a|] eqn:Ea.
  - destruct Hn as [Ha Hf4].
    assert (ou_v4_via_v6 u || is_ipv6 a = via_v6 u k) as Hs.
    { unfold via_v6, is_ipv6 in *. rewrite Hf4. destruct (ou_v4_via_v6 u); simpl; [done|].
      by rewrite negb_involutive. }
    rewrite Hs. case_bool_decide as Hact.
    + intros ?; simplify_eq. exists [], st. rewrite app_nil_r.
      split; [done|]. split; [by apply emits_nothing|]. split; [done|]. intros _.
      destruct Hc as (_ & H4 & H6). unfold slot in *.
      destruct (via_v6 u k); rewrite Hact in *; done.
    + intros He. apply result_bind_Ok in He as (o & He & Hr'); simplify_eq.
      unfold encode_next_hop in He. destruct (encode_address a) as [ae bytes] eqn:Eae.
      apply put_tlv_Ok in He as [Hl ->].
      eexists _, (set_next_hop a st). split; [done|]. split; [|split; [by destruct (via_v6 u k)|]].
      * exists [TNextHop a]. split; [|split; [by repeat constructor | by apply context_sim_next_hop]].
        apply tlvs_decode_tlv; [done|done|].
        pose proof (decode_next_hop_value a st Ha) as D. by rewrite Eae in D.
      * intros _. unfold set_next_hop. rewrite Hf4. by destruct (via_v6 u k).
  - intros ?; simplify_eq. exists [], st. rewrite app_nil_r.
    split; [done|]. split; [by apply emits_nothing|]. split; [done|]. intros _. simpl.
    unfold requires_fresh_next_hop_context in Hf. rewrite Ea, Hk in Hf.
    replace (ou_metric u =? INFINITY) with false in Hf by lia. simpl in Hf. fold (via_v6 u k) in Hf.
    destruct Hc as (_ & H4 & H6). unfold slot in *. rewrite Hn in *.
    destruct (via_v6 u k); simpl in *; apply bool_decide_eq_false in Hf.
    + destruct (ec_next_hop_v6 c'); [by destruct Hf|]. done.
    + destruct (ec_next_hop_v4 c'); [by destruct Hf|]. done.
Qed.
End Tlvs.

Section Outbound.
Context {NL : IpNetLib}.

(** [enc] decodes to TLVs that, context TLVs aside, mean [os]. *)
Definition decodes_as (src : IpAddr) (enc : list byte) (st : ParserState) (c' : EncodeContext)
    (st' : ParserState) (os : list OutboundTlv) : Prop :=
  exists ts, tlvs_decode enc st st' ts /\
    Forall2 (tlv_means src) os (filter (fun t => is_context t = false) ts) /\
    context_sim src c' st'.

Lemma decodes_as_nil src c st : context_sim src c st -> decodes_as src [] st c st [].
Proof. intros H. exists []. split; [apply tlvs_decode_nil | split; [constructor | done]]. Qed.

Lemma decodes_as_app src e1 e2 s1 c2 s2 c3 s3 o1 o2 :
  decodes_as src e1 s1 c2 s2 o1 -> decodes_as src e2 s2 c3 s3 o2 ->
  decodes_as src (e1 ++ e2) s1 c3 s3 (o1 ++ o2).
Proof.
  intros (t1 & D1 & M1 & _) (t2 & D2 & M2 & Hc). exists (t1 ++ t2).
  split; [by eapply tlvs_decode_app|]. split; [|done]. rewrite list.filter_app. by apply Forall2_app.
Qed.

Lemma emits_context_as src enc st c' st' :
  emits_context src enc st c' st' -> decodes_as src enc st c' st' [].
Proof.
  intros (ts & D & Hf & Hc). exists ts. split; [done|]. split; [|done].
  replace (filter _ ts) with (@nil Tlv); [constructor|]. clear D.
  induction Hf as [|t ts Ht _ IH]; [done|]. rewrite filter_cons_False by congruence. done.
Qed.

Lemma decodes_as_tlv src type_ value st c t' o out out' :
  0 < type_ < 256 -> put_tlv out type_ value = Ok out' -> context_sim src c st ->
  decode_tlv type_ value st = Ok (Some t', st) -> is_context t' = false -> tlv_means src o t' ->
  exists enc st', out' = out ++ enc /\ enc <> [] /\ decodes_as src enc st c st' [o].
Proof.
  intros Ht Hp Hc Hd Hn Hm. apply put_tlv_Ok in Hp as [Hl ->].
  eexists _, st. split; [done|]. split; [done|]. exists [t'].
  split; [by apply tlvs_decode_tlv|]. split; [|done].
  rewrite filter_cons_True by done. by repeat constructor.
Qed.

Lemma require_nonzero_Ok v t x : require_nonzero v t = Ok x -> v <> 0.
Proof. unfold require_nonzero. destruct (Z.eqb_spec v 0); done. Qed.

Lemma encode_update_decodes src u k c out out' st :
  update_wf src u -> ou_interval_cs u <> 0 -> ou_key u = Some k -> context_sim src c st ->
  (ou_metric u <> INFINITY ->
     ps_router_id st = ou_router_id u /\ is_Some (ou_router_id u) /\
     resolved_next_hop u k st = Some (default src (ou_next_hop u))) ->
  encode_update u out = Ok out' ->
  exists enc st', out' = out ++ enc /\ enc <> [] /\ decodes_as src enc st c st' [OUpdate u].
Proof.
  intros (Hi & Hs & Hm & Hw) H0 Hk Hc Hr He. rewrite Hk in Hw. destruct Hw as (Hkw & Hsub & Hv & _).
  unfold encode_update in He. rewrite Hk in He.
  apply result_bind_Ok in He as (v1 & H1 & He). apply result_bind_Ok in He as (v2 & H2 & He).
  destruct (encode_key_subs _ _ _ _ _ _ Hkw Hsub H1 H2) as (enc & -> & D).
  eapply (decodes_as_tlv _ _ _ _ _ (TUpdate (resolve u k st))); [|exact He|done| |done|]; [done| |].
  - change (decode_tlv TLV_UPDATE) with decode_update.
    rewrite <- !app_assoc. apply (decode_update_value u k enc st); try done.
    intros E. destruct (Hr E) as (-> & ? & ->). eauto.
  - exists (resolve u k st). split; [done|]. unfold update_means, resolve. simpl.
    split_and!; try done.
    + intros E. unfold resolved_next_hop. by rewrite E.
    + intros E. destruct (Hr E) as (-> & ? & ->). done.
Qed.

Lemma outbound_update_decodes src u c out c' out' st :
  update_wf src u -> requires_fresh_next_hop_context (OUpdate u) c = false -> context_sim src c st ->
  encode_outbound_tlv (OUpdate u) c out = Ok (c', out') ->
  exists enc st', out' = out ++ enc /\ enc <> [] /\ decodes_as src enc st c' st' [OUpdate u].
Proof.
  intros Hw Hf Hc He. simpl in He.
  apply result_bind_Ok in He as ([] & H0 & He). apply require_nonzero_Ok in H0.
  apply result_bind_Ok in He as ([c1 o1] & H1 & He). apply result_bind_Ok in He as ([c2 o2] & H2 & He).
  simpl in *. apply result_bind_Ok in He as (o3 & H3 & He). simplify_eq.
  destruct (emit_router_id_decodes _ _ _ _ _ _ _ Hc H1) as (e1 & st1 & -> & X1 & N4 & N6 & R1).
  destruct (ou_key u) as [k|] eqn:Ek.
  - assert (Hw' := Hw). destruct Hw as (_ & _ & _ & Hw). rewrite Ek in Hw. destruct Hw as (_ & _ & Hv & Hn).
    assert (context_sim src c1 st1) as Hc1 by (by eapply emits_context_sim).
    eapply emit_next_hop_decodes in H2 as (e2 & st2 & -> & X2 & R2 & N2); [|done..|].
    2: { revert Hf. unfold requires_fresh_next_hop_context. by rewrite Ek, N4, N6. }
    assert (context_sim src c' st2) as Hc2 by (by eapply emits_context_sim).
    eapply (encode_update_decodes src u k c') in H3 as (e3 & st3 & -> & Hne & D3); try done.
    + exists (e1 ++ e2 ++ e3), st3. rewrite !app_assoc. split; [done|].
      split; [intros E; apply app_eq_nil in E as [_ E]; done|].
      rewrite <- app_assoc. eapply (decodes_as_app _ _ _ _ _ _ _ _ [] [_]); [by apply emits_context_as|].
      eapply (decodes_as_app _ _ _ _ _ _ _ _ [] [_]); [by apply emits_context_as | done].
    + intros E. destruct (R1 ltac:(done) E) as [R ?]. destruct Hc2 as (-> & _). rewrite R2, R. auto.
  - destruct Hw as (Hi & Hs & _ & Hw). rewrite Ek in Hw. destruct Hw as (Hm & Hsub & Hv).
    assert (c' = c1 /\ o2 = out ++ e1) as [-> ->].
    { revert H2. unfold emit_next_hop. rewrite Hm. simpl. destruct (ou_next_hop u); by intros ?; simplify_eq. }
    unfold encode_update in H3. rewrite Ek in H3.
    eapply decodes_as_tlv in H3 as (e3 & st3 & -> & Hne & D3);
      [| done | by eapply emits_context_sim | by apply decode_retract_all | done |].
    + exists (e1 ++ e3), st3. rewrite app_assoc. split; [done|].
      split; [intros E; apply app_eq_nil in E as [_ E]; done|].
      eapply (decodes_as_app _ _ _ _ _ _ _ _ [] [_]); [by apply emits_context_as | done].
    + eexists. split; [done|]. unfold update_means. simpl. rewrite Ek, Hm, Hsub, Hv. split_and!; done.
Qed.

(** The goal is one framed TLV, read back as [t]; leaves what [done] cannot do. *)
Ltac one_tlv t :=
  match goal with
  | H : put_tlv _ _ _ = Ok _ |- _ =>
      eapply (decodes_as_tlv _ _ _ _ _ t); [| exact H | eassumption | ..]; try done
  end.

Lemma encode_outbound_tlv_decodes src t c out c' out' st :
  tlv_wf src t -> requires_fresh_next_hop_context t c = false -> context_sim src c st ->
  encode_outbound_tlv t c out = Ok (c', out') ->
  exists enc st', out' = out ++ enc /\ enc <> [] /\ decodes_as src enc st c' st' [t].
Proof.
  destruct t as [|v|nonce interval|nonce|u seqno interval subs|a rx interval subs|u|k subs|k seqno hop id subs|ty v];
    intros Hw Hf Hc He; [..|by eapply outbound_update_decodes| | |];
    cbn [encode_outbound_tlv] in He; simpl in Hw; destruct_and?.
  - simplify_eq. exists [b8 0], st. split; [done|]. split; [done|]. exists [TPad1].
    split; [apply tlvs_decode_pad|]. split; [by repeat constructor | done].
  - bind_steps He. injection He as <- <-. one_tlv (TPadN v).
  - bind_steps He. injection He as <- <-. apply require_nonzero_Ok in Hx.
    one_tlv (TAckRequest nonce interval).
    change (decode_tlv TLV_ACK_REQ ?v ?s) with (stateless s (decode_ack_request v)).
    by rewrite decode_ack_request_value.
  - bind_steps He. injection He as <- <-. one_tlv (TAck nonce).
    change (decode_tlv TLV_ACK ?v ?s) with (stateless s (decode_ack v)). by rewrite decode_ack_value.
  - bind_steps He. injection He as <- <-. eapply encode_plain_subs in Hx as (e & -> & D); [|done].
    one_tlv (THello u seqno interval subs).
    change (decode_tlv TLV_HELLO ?v ?s) with (stateless s (decode_hello v)).
    by rewrite (decode_hello_value u seqno interval e subs).
  - bind_steps He. apply require_nonzero_Ok in Hx.
    destruct (encode_optional_address a) as [ae bytes] eqn:Ea. bind_steps He. injection He as <- <-.
    eapply encode_plain_subs in Hx0 as (e & -> & D); [|done].
    one_tlv (TIhu a rx interval subs).
    change (decode_tlv TLV_IHU ?v ?s) with (stateless s (decode_ihu v)).
    pose proof (decode_ihu_value a rx interval e subs) as V. rewrite Ea in V. cbn [fst snd] in V. by rewrite V.
  - destruct k as [k|]; simpl in Hw; bind_steps He; injection He as <- <-.
    + destruct Hw as [Hk Hs]. destruct (encode_key_subs k false subs _ _ _ Hk Hs Hx Hx0) as (e & -> & D).
      one_tlv (TRouteRequest (Some k) subs).
      change (decode_tlv TLV_ROUTE_REQUEST ?v ?s) with (stateless s (decode_route_request v)).
      by rewrite decode_route_request_value with (subs := subs).
    + injection Hx as <-. eapply encode_plain_subs in Hx0 as (e & -> & D); [|done].
      one_tlv (TRouteRequest None subs).
      change (decode_tlv TLV_ROUTE_REQUEST ?v ?s) with (stateless s (decode_route_request v)).
      by rewrite decode_route_request_any with (subs := subs).
  - bind_steps He. injection He as <- <-. apply require_nonzero_Ok in Hx.
    destruct (encode_key_subs k false subs _ _ _ ltac:(done) ltac:(done) Hx0 Hx1) as (e & -> & D).
    one_tlv (TSeqnoRequest k seqno hop id subs).
    change (decode_tlv TLV_SEQNO_REQUEST ?v ?s) with (stateless s (decode_seqno_request v)).
    by rewrite decode_seqno_request_value with (subs := subs).
  - bind_steps He. injection He as <- <-. one_tlv (TUnknown ty v).
    + unfold TLV_SEQNO_REQUEST in *. lia.
    + unfold decode_tlv, TLV_PADN, TLV_ACK_REQ, TLV_ACK, TLV_HELLO, TLV_IHU, TLV_ROUTER_ID,
        TLV_NEXT_HOP, TLV_UPDATE, TLV_ROUTE_REQUEST, TLV_SEQNO_REQUEST in *.
      by repeat (case_match; [lia|]).
Qed.
End Outbound.

(** * The packetizer *)

Section Packets.
Context {NL : IpNetLib}.

Lemma encode_group_decodes src t rest c out c' out' st :
  tlv_wf src t -> Forall (tlv_wf src) rest -> requires_fresh_next_hop_context t c = false ->
  Forall (fun t => is_ihu t = true) rest -> context_sim src c st ->
  encode_group (t :: rest) c out = Ok (c', out') ->
  exists enc st', out' = out ++ enc /\ enc <> [] /\ decodes_as src enc st c' st' (t :: rest).
Proof.
  revert t c out st. induction rest as [|i rest IH]; intros t c out st Ht Hr Hf Hi Hc He;
    cbn [encode_group] in He; apply result_bind_Ok in He as ([c1 o1] & H1 & He); simpl fst in He;
    simpl snd in He; destruct (encode_outbound_tlv_decodes _ _ _ _ _ _ _ Ht Hf Hc H1)
      as (e1 & st1 & -> & Hne & D1).
  - simplify_eq. eauto 10.
  - apply Forall_cons_iff in Hr as [Hr1 Hr2]. apply Forall_cons_iff in Hi as [Hi1 Hi2].
    assert (requires_fresh_next_hop_context i c1 = false) as Hf1 by by destruct i.
    assert (context_sim src c1 st1) as Hc1 by (by destruct D1 as (? & _ & _ & ?)).
    destruct (IH i c1 (out ++ e1) st1 Hr1 Hr2 Hf1 Hi2 Hc1 He) as (e2 & st2 & -> & _ & D2).
    exists (e1 ++ e2), st2. rewrite app_assoc. split; [done|].
    split; [intros E; by apply app_eq_nil in E as [? _]|].
    by eapply (decodes_as_app _ _ _ _ _ _ _ _ [t]).
Qed.

Lemma finish_packet_decodes src body p ts st' :
  finish_packet body = Ok p -> decode_body body (ParserState_new src) = Ok (ts, st') ->
  length p = (4 + length body)%nat /\ decode_packet p src = Ok (MkPacket ts).
Proof.
  unfold finish_packet. destruct (Nat.ltb_spec (Z.to_nat 65535) (length body)) as [|Hl]; [done|].
  intros [= <-] Hd. split; [done|]. unfold decode_packet. simpl length. simpl Nat.ltb.
  change (at_ 0 _) with MAGIC. change (at_ 1 _) with VERSION. simpl.
  unfold slice, to_be16. simpl. rewrite be16_field by (unfold in_u16; lia).
  rewrite Nat2Z.id, Nat.ltb_irrefl. rewrite ?drop_0, take_ge by lia. by rewrite Hd.
Qed.

(** Timestamped IHUs directly follow the timestamped Hello that was stamped with
    them. *)
Fixpoint stamps_paired (after_hello : bool) (l : list OutboundTlv) : bool :=
  match l with
  | [] => true
  | t :: rest =>
      (negb (is_stamped_ihu t) || after_hello)
      && stamps_paired (is_timestamped t || (after_hello && is_ihu t)) rest
  end.

Definition hellos (l : list OutboundTlv) : nat := length (filter (fun t => is_hello t = true) l).

(** A datagram of at most [size] octets that carries exactly [os]. *)
Definition datagram (src : IpAddr) (size : nat) (os : list OutboundTlv) (p : list byte) : Prop :=
  (length p <= size)%nat /\ (hellos os <= 1)%nat /\ stamps_paired false os = true /\
  exists ts, decode_packet p src = Ok (MkPacket ts) /\
    Forall2 (tlv_means src) os (filter (fun t => is_context t = false) ts).

Record packed (src : IpAddr) (budget : nat) (sent : list OutboundTlv) (s : PackState) : Prop := {
  pk_split : exists oss ob st,
    sent = concat oss ++ ob /\ Forall2 (datagram src (4 + budget)) oss (pk_packets s) /\
    decodes_as src (pk_body s) (ParserState_new src) (pk_context s) st ob /\
    stamps_paired false ob = true /\ hellos ob = (if pk_has_hello s then 1%nat else 0%nat);
  pk_size : (length (pk_body s) <= budget)%nat;
  pk_fresh : pk_body s = [] -> pk_context s = default_context /\ pk_has_hello s = false
}.

Lemma packed_init src budget :
  packed src budget [] {| pk_packets := []; pk_body := []; pk_context := default_context; pk_has_hello := false |}.
Proof.
  split; simpl; [|lia|done]. exists [], [], (ParserState_new src).
  split_and!; try done. apply decodes_as_nil, context_sim_new.
Qed.

Lemma packed_flush src budget sent s s' :
  packed src budget sent s -> flush s = Ok s' ->
  packed src budget sent s' /\ pk_body s' = [] /\
  exists oss, sent = concat oss /\ Forall2 (datagram src (4 + budget)) oss (pk_packets s').
Proof.
  intros [(oss & ob & st & -> & Hp & (ts & D & M & Hc) & Hs & Hh) Hl _] He.
  unfold flush in He. apply result_bind_Ok in He as (p & Hf & He). simplify_eq.
  destruct (finish_packet_decodes src _ _ _ _ Hf (tlvs_decode_body _ _ _ _ D)) as [Hlen Hd].
  assert (Forall2 (datagram src (4 + budget)) (oss ++ [ob]) (pk_packets s ++ [p])) as Hps.
  { apply Forall2_app; [done|]. constructor; [|constructor].
    split; [lia|]. split; [rewrite Hh; case_match; lia|]. eauto. }
  assert (concat oss ++ ob = concat (oss ++ [ob])) as ->
    by (rewrite concat_app; simpl; by rewrite app_nil_r).
  split; [|by eauto]. split; simpl; [|lia|done].
  exists (oss ++ [ob]), [], (ParserState_new src).
  rewrite app_nil_r. split_and!; try done. apply decodes_as_nil, context_sim_new.
Qed.

Lemma stamps_paired_mono l : stamps_paired false l = true -> stamps_paired true l = true.
Proof.
  induction l as [|t l IH]; simpl; [done|]. rewrite orb_false_r, orb_true_r.
  intros [_ H]%andb_true_iff. simpl. destruct (is_timestamped t); simpl in *; [done|].
  destruct (is_ihu t); [by apply IH | done].
Qed.

Lemma stamps_paired_app b l k :
  stamps_paired b l = true -> stamps_paired false k = true -> stamps_paired b (l ++ k) = true.
Proof.
  revert b. induction l as [|t l IH]; intros b; simpl.
  - intros _ H. destruct b; [by apply stamps_paired_mono | done].
  - intros [-> H]%andb_true_iff Hk. simpl. by apply IH.
Qed.

Lemma stamps_paired_ihus l :
  Forall (fun t => is_ihu t = true) l -> stamps_paired true l = true.
Proof.
  induction 1 as [|t l Ht _ IH]; simpl; [done|]. by rewrite Ht, orb_true_r, orb_true_r.
Qed.

Lemma hellos_app l k : hellos (l ++ k) = (hellos l + hellos k)%nat.
Proof. unfold hellos. by rewrite list.filter_app, length_app. Qed.

Lemma hellos_ihus l : Forall (fun t => is_ihu t = true) l -> hellos l = 0%nat.
Proof.
  unfold hellos. induction 1 as [|t l Ht _ IH]; [done|].
  rewrite filter_cons_False; [done|]. by destruct t.
Qed.

(** A group the packetizer keeps together: a TLV and the IHUs behind it if it is
    a timestamped Hello. *)
Record group_ok (src : IpAddr) (t : OutboundTlv) (ihus : list OutboundTlv) : Prop := {
  gr_wf : Forall (tlv_wf src) (t :: ihus);
  gr_ihus : Forall (fun t => is_ihu t = true) ihus;
  gr_stamped : is_timestamped t = true \/ ihus = [];
  gr_head : is_stamped_ihu t = false
}.

Lemma group_paired src t ihus : group_ok src t ihus -> stamps_paired false (t :: ihus) = true.
Proof.
  intros [_ Hi Hs Hh]. simpl. rewrite Hh, orb_false_r. simpl.
  destruct Hs as [-> | ->]; [|done]. by apply stamps_paired_ihus.
Qed.

Lemma packed_append src budget sent s t ihus c' out :
  packed src budget sent s -> group_ok src t ihus ->
  requires_fresh_next_hop_context t (pk_context s) = false ->
  is_hello t && pk_has_hello s = false ->
  encode_group (t :: ihus) (pk_context s) [] = Ok (c', out) ->
  (length (pk_body s) + length out <= budget)%nat ->
  packed src budget (sent ++ t :: ihus)
    {| pk_packets := pk_packets s; pk_body := pk_body s ++ out; pk_context := c';
       pk_has_hello := pk_has_hello s || is_hello t |}.
Proof.
  intros [(oss & ob & st & -> & Hp & D & Hs & Hh) Hl Hd] Hg Hf Hx He Hb.
  pose proof (gr_wf _ _ _ Hg) as [Hw1 Hw2]%Forall_cons_iff. pose proof (gr_ihus _ _ _ Hg) as Hi.
  assert (context_sim src (pk_context s) st) as Hc by (by destruct D as (? & _ & _ & ?)).
  destruct (encode_group_decodes src t ihus _ _ _ _ st Hw1 Hw2 Hf Hi Hc He) as (enc & st' & -> & Hne & D').
  split; simpl in *.
  - exists oss, (ob ++ t :: ihus), st'. rewrite app_assoc. split_and!; try done.
    + by eapply decodes_as_app.
    + apply stamps_paired_app; [done|]. by eapply group_paired.
    + change (t :: ihus) with ([t] ++ ihus). rewrite !hellos_app, Hh, (hellos_ihus _ Hi).
      unfold hellos. destruct (is_hello t) eqn:Et.
      * rewrite filter_cons_True by done. simpl in Hx. by rewrite Hx.
      * rewrite filter_cons_False by congruence. rewrite orb_false_r. simpl. lia.
  - rewrite length_app. lia.
  - intros E. by apply app_eq_nil in E as [_ ?].
Qed.

Lemma fresh_default t : requires_fresh_next_hop_context t default_context = false.
Proof. destruct t; simpl; try done. by repeat case_match. Qed.

(** With an empty body, or once neither reason to start a datagram applies, the
    group may join the current datagram. *)
Definition may_join (t : OutboundTlv) (s : PackState) : Prop :=
  requires_fresh_next_hop_context t (pk_context s) = false /\ is_hello t && pk_has_hello s = false.

Lemma may_join_empty src budget sent s t :
  packed src budget sent s -> pk_body s = [] -> may_join t s.
Proof.
  intros Hp Hb. destruct (pk_fresh _ _ _ _ Hp Hb) as [Hc Hh]. unfold may_join.
  by rewrite Hc, Hh, fresh_default, andb_false_r.
Qed.

Lemma pack_group_packed src budget sent s s' t ihus :
  packed src budget sent s -> group_ok src t ihus ->
  pack_group budget t (t :: ihus) s = Ok s' -> packed src budget (sent ++ t :: ihus) s'.
Proof.
  intros Hp Hg He. unfold pack_group in He. apply result_bind_Ok in He as (s1 & H1 & He).
  assert (packed src budget sent s1 /\ may_join t s1) as [Hp1 Hj].
  { destruct (length (pk_body s) =? 0)%nat eqn:El; simpl in H1.
    - simplify_eq. split; [done|]. eapply may_join_empty; [done|].
      apply nil_length_inv. by apply Nat.eqb_eq.
    - destruct (_ || _) eqn:E in H1.
      + eapply packed_flush in H1 as (Hp1 & Hb & _); [|done]. eauto using may_join_empty.
      + simplify_eq. split; [done|]. by apply orb_false_iff in E. }
  clear Hp H1 s. apply result_bind_Ok in He as ([c1 o1] & H1 & He). simpl in He.
  destruct (Nat.ltb_spec budget (length o1)); [done|].
  apply result_bind_Ok in He as ([s2 [c2 o2]] & H2 & He). simpl in He. simplify_eq.
  destruct (_ && _) eqn:E in H2.
  - apply result_bind_Ok in H2 as (s3 & H3 & H2). apply result_bind_Ok in H2 as ([c3 o3] & H4 & H2).
    simpl in H2. destruct (Nat.ltb_spec budget (length o3)); [done|]. simplify_eq.
    eapply packed_flush in H3 as (Hp2 & Hb & _); [|done].
    destruct (may_join_empty _ _ _ _ t Hp2 Hb) as [? ?].
    apply packed_append; try done. rewrite Hb. simpl. lia.
  - simplify_eq. destruct Hj as [? ?]. apply packed_append; try done.
    apply andb_false_iff in E as [E|E].
    + apply negb_false_iff, Nat.eqb_eq in E. lia.
    + by apply Nat.ltb_ge in E.
Qed.

Lemma span_ihus_spec l g r :
  span_ihus l = (g, r) -> l = g ++ r /\ Forall (fun t => is_ihu t = true) g.
Proof.
  revert g r. induction l as [|t l IH]; simpl; intros g r; [by intros [= <- <-]|].
  destruct (is_ihu t) eqn:E; [|by intros [= <- <-]].
  destruct (span_ihus l) as [g' r']. intros [= <- <-].
  destruct (IH _ _ eq_refl) as [-> ?]. by auto.
Qed.

Lemma pack_loop_packed src budget n l sent s s' :
  packed src budget sent s -> Forall (tlv_wf src) l ->
  pack_loop n budget l s = Ok s' -> packed src budget (sent ++ l) s'.
Proof.
  revert l sent s. induction n as [|n IH]; intros [|t l] sent s Hp Hw He; cbn [pack_loop] in He;
    try (simplify_eq; by rewrite app_nil_r).
  destruct (if is_timestamped t then span_ihus l else ([], l)) as [ihus next] eqn:Es.
  destruct (negb (is_timestamped t) && is_stamped_ihu t) eqn:Ec; [done|].
  assert (l = ihus ++ next /\ Forall (fun t => is_ihu t = true) ihus /\
          (is_timestamped t = true \/ ihus = [])) as (-> & Hi & Hst).
  { destruct (is_timestamped t); [apply span_ihus_spec in Es as [? ?]; auto|]. simplify_eq. auto. }
  rewrite app_comm_cons in Hw. apply Forall_app in Hw as [Hw1 Hw2].
  apply result_bind_Ok in He as (s1 & H1 & He).
  rewrite app_comm_cons, app_assoc. apply (IH next _ s1); [|done|done].
  eapply pack_group_packed; [done| |done]. split; try done.
  destruct (is_timestamped t) eqn:Et; [by destruct t|done].
Qed.

Lemma pack_loop_fuel n budget l s :
  (length l <= n)%nat -> pack_loop n budget l s = pack_loop (length l) budget l s.
Proof.
  remember (length l) as m eqn:Em. revert n l s Em.
  induction m as [m IH] using lt_wf_ind. intros n [|t l] s Em Hn; simpl in Em; subst m;
    [by destruct n|]. destruct n as [|n]; [lia|]. cbn [pack_loop].
  destruct (if is_timestamped t then span_ihus l else ([], l)) as [ihus next] eqn:Es.
  destruct (negb _ && _); [done|]. destruct (pack_group _ _ _ _) as [s1|e]; simpl; [|done].
  assert (length next <= length l)%nat.
  { destruct (is_timestamped t); [|by simplify_eq]. apply span_ihus_spec in Es as [-> _].
    rewrite length_app. lia. }
  rewrite (IH (length next)); [|lia|done|lia].
  by rewrite (IH (length next) ltac:(lia) (length l)).
Qed.

(** C8. Every datagram the packetizer emits fits the requested size and decodes
    on its own, from the sender's address, to the semantic TLVs it was given:
    the datagrams partition the outbound TLVs in order, and each datagram's TLVs,
    the inserted Router-ID and Next-Hop context TLVs aside, mean exactly its part
    (Updates come back with their key, metric, seqno, interval, router-id and
    next hop).  No datagram carries two Hellos, and a timestamped IHU shares its
    datagram with the timestamped Hello directly before it. *)
Theorem encode_packets_roundtrip src packet size ps :
  Forall (tlv_wf src) (out_tlvs packet) -> encode_packets packet size = Ok ps ->
  exists oss, out_tlvs packet = concat oss /\ Forall2 (datagram src size) oss ps.
Proof.
  intros Hw He. unfold encode_packets in He. destruct (Nat.ltb_spec size 4) as [|Hs]; [done|].
  apply result_bind_Ok in He as (s & H1 & He). apply result_bind_Ok in He as (s' & H2 & He).
  simplify_eq. eapply pack_loop_packed in H1; [|apply packed_init|done].
  eapply packed_flush in H2 as (_ & _ & oss & -> & Hp); [|done].
  exists oss. split; [done|]. revert Hp. apply Forall2_impl.
  intros os p (? & ? & ? & ?). split; [lia|]. done.
Qed.
End Packets.

(** * A worked datagram sequence *)

Definition demo_net : IpNetLib := ipnet_model.
#[local] Existing Instance demo_net.

Definition demo_src : IpAddr := IpV6 (ipv6 [0xfe80; 0; 0; 0; 0; 0; 0; 1]).
Definition demo_key : option RouteKey :=
  p ← v4net_new (ipv4 10 0 0 0) 8; RouteKey_new (NetV4 p) None.
Definition demo_id : option RouterId := RouterId_new (arr_of_list 8 [b8 2; b8 1]).

Definition demo_update (metric : Z) : OutboundUpdate := {|
  ou_key := demo_key; ou_router_id := demo_id; ou_next_hop := Some (IpV4 (ipv4 192 0 2 1));
  ou_interval_cs := 1600; ou_seqno := 7; ou_metric := metric; ou_v4_via_v6 := false;
  ou_sub_tlvs := [] |}.

(** Two datagrams at 80 octets: the second repeats the Router-ID and Next-Hop. *)
Definition demo_packet : OutboundPacket := MkOutboundPacket
  [OHello false 1 400 [TimestampHello 5]; OIhu None 96 1200 [TimestampIhu 1 2];
   OUpdate (demo_update 128); OUpdate (demo_update 256); OUpdate (demo_update INFINITY)].

Lemma demo_key_some :
  exists k, demo_key = Some k /\ key_wf k /\ net_is_ipv4 (destination k) = true.
Proof.
  unfold demo_key. destruct (v4net_new_total (ipv4 10 0 0 0) 8 ltac:(lia)) as [p ->]. simpl.
  eexists. split; [reflexivity|]. split; [by apply (RouteKey_new_wf (NetV4 p) None) | done].
Qed.

Lemma demo_wf : Forall (tlv_wf demo_src) (out_tlvs demo_packet).
Proof.
  destruct demo_key_some as (k & Hk & Hw & H4).
  assert (forall m, in_u16 m -> tlv_wf demo_src (OUpdate (demo_update m))) as Hu.
  { intros m Hm. unfold in_u16 in *. cbn [tlv_wf]. unfold update_wf, in_u16.
    change (ou_key (demo_update m)) with demo_key. rewrite Hk. simpl.
    split_and!; try lia; try done. intros _. unfold next_hop_wf, via_v6. simpl. by rewrite H4. }
  repeat first [apply List.Forall_nil | apply Forall_cons_iff; split]; try (apply Hu; unfold in_u16, INFINITY; lia);
    simpl; unfold in_u16, in_u32; split_and!; try lia; try done;
    apply Forall_singleton; simpl; unfold in_u32; split_and!; try done; lia.
Qed.

Lemma encode_packets_roundtrip_witness :
  exists ps oss, encode_packets demo_packet 80 = Ok ps /\ length ps = 2%nat /\
    out_tlvs demo_packet = concat oss /\ Forall2 (datagram demo_src 80) oss ps.
Proof.
  destruct (encode_packets demo_packet 80) as [ps|] eqn:E; [|vm_compute in E; discriminate E].
  destruct (encode_packets_roundtrip demo_src demo_packet 80 ps demo_wf E) as (oss & Ho & Hp).
  exists ps, oss. split; [reflexivity|]. split; [|split; assumption].
  vm_compute in E. injection E as <-. reflexivity.
Defined.
