(* ===== verification/WireSound.v ===== *)
(** What the rest of the program may assume of decoded datagrams and of the
    wire primitives: every inbound TLV is valid, and addresses survive exactly
    when the format can carry them. *)
From S2P Require Import Prelude Net Model Wire WireDecode WireEncode WirePrefix WireRoundtrip.
Local Open Scope Z_scope.

Section Sound.
Context {NL : IpNetLib}.

(** Valid inbound TLVs: non-zero intervals and hop counts, canonical keys, and
    finite routes with an origin and a next hop of the family they need. *)
Definition inbound_update_ok (u : ResolvedUpdate) : Prop :=
  in_u16 (ru_interval_cs u) /\ ru_interval_cs u <> 0 /\ in_u16 (ru_seqno u) /\ in_u16 (ru_metric u) /\
  match ru_key u with
  | None => ru_metric u = INFINITY
  | Some k =>
      key_wf k /\ (ru_v4_via_v6 u = true -> net_is_ipv4 (destination k) = true) /\
      (ru_metric u = INFINITY -> ru_next_hop u = None) /\
      (ru_metric u <> INFINITY -> is_Some (ru_router_id u) /\
         exists a, ru_next_hop u = Some a /\
           is_ipv4 a = negb (ru_v4_via_v6 u || negb (net_is_ipv4 (destination k))))
  end.

Definition inbound_ok (t : Tlv) : Prop :=
  match t with
  | TAckRequest nonce interval => in_u16 nonce /\ in_u16 interval /\ interval <> 0
  | TAck nonce => in_u16 nonce
  | THello _ seqno interval _ => in_u16 seqno /\ in_u16 interval
  | TIhu _ rxcost interval _ => in_u16 rxcost /\ in_u16 interval /\ interval <> 0
  | TUpdate u => inbound_update_ok u
  | TRouteRequest (Some k) _ => key_wf k
  | TSeqnoRequest k seqno hop _ _ => key_wf k /\ in_u16 seqno /\ 0 < hop < 256
  | TUnknown type_ _ => TLV_SEQNO_REQUEST < type_ < 256
  | _ => True
  end.

(** The next hops the parser keeps are of their slot's family. *)
Definition parser_ok (st : ParserState) : Prop :=
  (forall a, ps_next_hop_v4 st = Some a -> is_ipv4 a = true) /\
  (forall a, ps_next_hop_v6 st = Some a -> is_ipv4 a = false).

Lemma parser_ok_new src : parser_ok (ParserState_new src).
Proof. split; simpl; intros a; destruct (is_ipv4 src) eqn:E; by intros ?; simplify_eq. Qed.

Lemma parser_ok_next_hop a st : parser_ok st -> parser_ok (set_next_hop a st).
Proof.
  intros [H4 H6]. unfold set_next_hop. destruct (is_ipv4 a) eqn:E; split; simpl; naive_solver.
Qed.

Lemma be16_range l : in_u16 (be16 l).
Proof.
  unfold be16. pose proof (be_value_range (take 2 l)) as H. rewrite length_take in H.
  assert (256 ^ Z.of_nat (2 `min` length l) <= 256 ^ 2) by (apply Z.pow_le_mono_r; lia).
  unfold in_u16. lia.
Qed.

Lemma decode_prefix_family ae plen om suffix prev p :
  decode_prefix ae plen om suffix prev = Some p ->
  net_is_ipv4 p = bool_decide (ae = Ipv4 \/ ae = Ipv4ViaIpv6).
Proof.
  unfold decode_prefix. destruct (prefix_encoded_len ae plen); simpl; [|done].
  destruct (_ || _); [done|]. destruct (if (0 <? om)%nat then _ else _); simpl; [|done].
  intros H. destruct ae; try done; simpl in H; apply fmap_Some in H as (q & _ & ->); done.
Qed.

Lemma update_flags_hops flags ae p st :
  parser_ok st -> parser_ok (update_flags flags ae p st).
Proof. intros H. unfold update_flags. by repeat case_match. Qed.

Lemma finish_update_ok value ae n p i s m st r st' om suffix prev plen :
  parser_ok st -> in_u16 i -> i <> 0 -> in_u16 s -> in_u16 m -> ae <> Wildcard ->
  decode_prefix ae plen om suffix prev = Some p ->
  finish_update value ae n p i s m st = Ok (r, st') ->
  parser_ok st' /\ match r with Some t => inbound_ok t | None => True end.
Proof.
  intros Hp Hi H0 Hs Hm Hw Hd He. unfold finish_update in He.
  apply result_bind_Ok in He as (sub & _ & He). destruct (mandatory_unknown sub); [by simplify_eq|].
  apply result_bind_Ok in He as (k & Hk & He). apply ok_or_Ok in Hk.
  assert (net_is_ipv4 (destination k) = net_is_ipv4 p) as Hfam.
  { revert Hk. unfold RouteKey_new. destruct (match sub_source_prefix sub with Some _ => _ | None => _ end);
      [done|]. intros [= <-]. apply net_trunc_is_ipv4. }
  apply RouteKey_new_wf in Hk. apply decode_prefix_family in Hd.
  destruct (negb (m =? INFINITY) && bool_decide (ps_router_id st = None)) eqn:E1; [by simplify_eq|].
  destruct (negb (m =? INFINITY) && _) eqn:E2 in He; simplify_eq; [done|].
  split; [done|]. simpl. unfold inbound_update_ok. simpl. split_and!; try done.
  - intros Hv. apply bool_decide_eq_true in Hv. subst ae. by rewrite Hfam, Hd.
  - intros ->. done.
  - intros Hfin. replace (m =? INFINITY) with false in * by lia. simpl in E1, E2.
    apply bool_decide_eq_false in E1, E2. rewrite <- not_eq_None_Some. split; [done|]. clear E1.
    rewrite Hfam. destruct Hp as [P4 P6]. rewrite Hd in *.
    destruct ae; try done; simpl in *;
      match goal with H : ?o <> None |- _ => destruct o as [a|] eqn:Eo; [|done] end;
      exists a; split; auto.
Qed.

Lemma decode_update_ok value st r st' :
  parser_ok st -> decode_update value st = Ok (r, st') ->
  parser_ok st' /\ match r with Some t => inbound_ok t | None => True end.
Proof.
  intros Hp He. unfold decode_update in He.
  destruct (length value <? 10)%nat; [done|]. destruct (ae_from_u8 _) as [ae|]; [|by simplify_eq].
  destruct (Z.eqb_spec (be16 (slice 4 6 value)) 0) as [|Hi]; [done|].
  destruct (negb _ && bool_decide (ae = Wildcard)) eqn:Ew; [by simplify_eq|].
  destruct (bool_decide_reflect (ae = Wildcard)) as [Hae|Hw].
  - rewrite andb_true_r in Ew. apply negb_false_iff, Z.eqb_eq in Ew.
    destruct (negb _ || negb _); [by simplify_eq|].
    apply result_bind_Ok in He as (sub & _ & He).
    destruct (_ || _) in He; simplify_eq; [done|]. split; [done|].
    unfold inbound_ok, inbound_update_ok. simpl. auto using be16_range.
  - destruct (_ && negb _) in He; [by simplify_eq|]. apply result_bind_Ok in He as (n & _ & He).
    destruct (_ || _) in He; [done|].
    destruct (decode_prefix _ _ _ _ _) as [p|] eqn:Ed; [|by simplify_eq].
    eapply finish_update_ok in He; eauto using be16_range, update_flags_hops.
Qed.

Lemma decode_route_request_ok value t : decode_route_request value = Ok (Some t) -> inbound_ok t.
Proof.
  unfold decode_route_request. intros He. result_steps He; simplify_eq; simpl; try done.
  eapply RouteKey_new_wf, ok_or_Ok. done.
Qed.

Lemma decode_seqno_request_ok value t : decode_seqno_request value = Ok (Some t) -> inbound_ok t.
Proof.
  unfold decode_seqno_request. intros He. result_steps He; simplify_eq; simpl; try done.
  split_and!; [by eapply RouteKey_new_wf, ok_or_Ok | apply be16_range | |].
  - apply orb_false_iff in E2 as [_ E2]. unfold at_, octet in *.
    match goal with |- 0 < u8 ?b => pose proof (u8_range b) end. lia.
  - unfold at_, octet. apply u8_range.
Qed.

Lemma decode_simple_ok value t :
  decode_ack_request value = Ok (Some t) \/ decode_ack value = Ok (Some t) \/
  decode_hello value = Ok (Some t) \/ decode_ihu value = Ok (Some t) -> inbound_ok t.
Proof.
  unfold decode_ack_request, decode_ack, decode_hello, decode_ihu.
  intros [He|[He|[He|He]]]; result_steps He; simplify_eq; simpl; auto using be16_range.
  - split_and!; [apply be16_range..|lia].
  - apply orb_false_iff in E2 as [_ E2]. split_and!; [apply be16_range..|lia].
Qed.

Lemma stateless_Ok st r o st' : stateless st r = Ok (o, st') <-> r = Ok o /\ st' = st.
Proof. destruct r; simpl; naive_solver. Qed.

(** A TLV is dropped when it has an unknown mandatory sub-TLV. *)
Ltac destruct_unknown :=
  match goal with |- match (if ?b then _ else _) with _ => _ end => by destruct b end.

Lemma decode_tlv_ok type_ value st r st' :
  0 < type_ < 256 -> parser_ok st -> decode_tlv type_ value st = Ok (r, st') ->
  parser_ok st' /\ match r with Some t => inbound_ok t | None => True end.
Proof.
  intros Ht Hp He. unfold decode_tlv in He.
  repeat match type of He with
  | (if (?a =? ?b) then _ else _) = _ => destruct (Z.eqb_spec a b)
  end; try (apply stateless_Ok in He as [He ->]; split; [done|]; destruct r; [|done]);
    eauto using decode_simple_ok, decode_route_request_ok, decode_seqno_request_ok, decode_update_ok.
  - by simplify_eq.
  - unfold decode_router_id in He. result_steps He; simplify_eq. split; [done|]. destruct_unknown.
  - unfold decode_next_hop in He. result_steps He; simplify_eq; try done.
    split; [by apply parser_ok_next_hop | destruct_unknown].
  - simplify_eq. split; [done|]. simpl.
    unfold TLV_PADN, TLV_ACK_REQ, TLV_ACK, TLV_HELLO, TLV_IHU, TLV_ROUTER_ID, TLV_NEXT_HOP,
      TLV_UPDATE, TLV_ROUTE_REQUEST, TLV_SEQNO_REQUEST in *. lia.
Qed.

Lemma next_frame_type data t v rest : next_frame data = FrameTlv t v rest -> 0 < t < 256.
Proof.
  unfold next_frame. destruct data as [|b data]; [done|]. pose proof (u8_range b).
  destruct (Z.eqb_spec (u8 b) 0); [done|]. repeat case_match; intros ?; simplify_eq. lia.
Qed.

Lemma tlv_loop_ok n body st acc ts st' :
  parser_ok st -> Forall inbound_ok acc -> tlv_loop n body st acc = Ok (ts, st') ->
  Forall inbound_ok ts.
Proof.
  revert body st acc. induction n as [|n IH]; intros body st acc Hp Ha He; simpl in He;
    destruct (next_frame body) as [|rest|t|t v rest] eqn:F; try done; try by simplify_eq.
  - eapply IH; [done| |done]. apply Forall_app. by split; [|constructor].
  - apply result_bind_Ok in He as ([o st1] & Hd & He).
    eapply decode_tlv_ok in Hd as [Hp1 Ho]; [|by eapply next_frame_type|done].
    eapply IH; [done| |done]. apply Forall_app. split; [done|]. destruct o; by repeat constructor.
Qed.

(** C9. Every TLV of a datagram that decodes is valid: intervals and hop counts
    the protocol requires to be non-zero are, every number is in its width, route
    keys are canonical (truncated, families consistent), a wildcard Update is a
    retraction, and a finite Update carries a router-id and a next hop of the
    family its encoding needs. *)
Theorem decode_packet_sound data src p :
  decode_packet data src = Ok p -> Forall inbound_ok (tlvs p).
Proof.
  unfold decode_packet. intros He. result_steps He. simplify_eq.
  unfold decode_body in Hx. destruct x as [ts st']. simpl.
  eapply tlv_loop_ok; [apply parser_ok_new | constructor | done].
Qed.

End Sound.

(** C36. An address survives the wire exactly when it is encodable: IPv4 and
    global IPv6 addresses always, link-local IPv6 addresses only inside
    fe80::/64, because the encoder uses the eight-octet form for all of fe80::/10
    and the decoder restores fe80::/64. *)
Theorem address_roundtrip_iff a :
  decode_address (fst (encode_address a)) (snd (encode_address a)) = Some a <-> encodable a.
Proof. apply decode_encode_address. Qed.

(** An address of fe80::/10 outside fe80::/64 comes back as another address. *)
Example link_local_loses_bits :
  let a := IpV6 (ipv6 [0xfe80; 1; 0; 0; 0; 0; 0; 1]) in
  decode_address (fst (encode_address a)) (snd (encode_address a))
  = Some (IpV6 (ipv6 [0xfe80; 0; 0; 0; 0; 0; 0; 1])) /\ ~ encodable a.
Proof. split; [vm_compute; reflexivity | apply (bool_decide_unpack _); vm_compute; exact I]. Qed.

(** * Worked inputs *)

Definition sound_net : IpNetLib := ipnet_model.
#[local] Existing Instance sound_net.

(** A Hello, a Router-ID and an Update for 10.0.0.0/8. *)
Definition sample_datagram : list byte :=
  map b8 ([42; 2; 0; 33] ++ [4; 6; 0; 0; 0; 1; 1; 144] ++ [6; 10; 0; 0; 1; 2; 3; 4; 5; 6; 7; 8]
          ++ [8; 11; 1; 0; 8; 0; 6; 64; 0; 7; 0; 128; 10]).

Lemma decode_packet_sound_witness :
  exists p, decode_packet sample_datagram (IpV4 (ipv4 192 0 2 1)) = Ok p /\
    length (tlvs p) = 3%nat /\ Forall inbound_ok (tlvs p).
Proof.
  destruct (decode_packet sample_datagram (IpV4 (ipv4 192 0 2 1))) as [p|e] eqn:E.
  - exists p. split; [reflexivity|]. split; [|exact (decode_packet_sound _ _ _ E)].
    apply (f_equal (fun r => match r with Ok q => length (tlvs q) | Err _ => 0%nat end)) in E.
    rewrite <- E. vm_compute. reflexivity.
  - apply (f_equal (fun r => match r with Ok _ => true | Err _ => false end)) in E.
    vm_compute in E. discriminate E.
Defined.
