(* ===== verification/WireStamp.v ===== *)
(** Send-time stamping ([stamp_hello_timestamps]) rewrites Hello timestamps in
    place and nothing else: it commutes with decoding. *)
From S2P Require Import Prelude Net Model Wire WireDecode WireEncode WirePrefix WireRoundtrip WireSound.
Local Open Scope Z_scope.

Section Stamp.
Context {NL : IpNetLib} (now : Z) (now_range : in_u32 now).

(** What stamping does to the decoded TLVs. *)
Definition stamp_sub (s : SubTlv) : SubTlv :=
  match s with TimestampHello _ => TimestampHello now | _ => s end.
Definition stamp_tlv (t : Tlv) : Tlv :=
  match t with THello u s i subs => THello u s i (map stamp_sub subs) | _ => t end.
Definition stamp_result (r : DecodedSubTlvs) : DecodedSubTlvs :=
  {| sub_values := map stamp_sub (sub_values r); sub_source_prefix := sub_source_prefix r;
     mandatory_unknown := mandatory_unknown r |}.

Lemma stamp_result_push s r : stamp_result (push_sub s r) = push_sub (stamp_sub s) (stamp_result r).
Proof. unfold stamp_result, push_sub. simpl. by rewrite map_app. Qed.

(** The bytes of one framed TLV. *)
Lemma next_frame_tlv_inv data t v rest :
  next_frame data = FrameTlv t v rest ->
  data = [b8 t; b8 (Z.of_nat (length v))] ++ v ++ rest /\ 0 < t < 256 /\ (length v <= 255)%nat.
Proof.
  intros F. pose proof (next_frame_type _ _ _ _ F). pose proof (next_frame_tlv _ _ _ _ F) as (_ & _ & Hl).
  split; [|done]. revert F. unfold next_frame. destruct data as [|b [|l data]]; [done|by case_match|].
  destruct (u8 b =? 0); [done|].
  destruct (Nat.ltb_spec (length data) (Z.to_nat (u8 l))) as [|Hle]; [done|]. intros [= <- <- <-].
  rewrite take_drop, length_take, Nat.min_l by done.
  pose proof (u8_range l). rewrite Z2Nat.id by lia. by rewrite !b8_u8.
Qed.

Lemma next_frame_pad_inv data rest : next_frame data = FramePad rest -> data = b8 0 :: rest.
Proof.
  unfold next_frame. destruct data as [|b data]; [done|].
  destruct (Z.eqb_spec (u8 b) 0) as [E|]; [|by repeat case_match].
  intros [= <-]. by rewrite <- (b8_u8 b), E.
Qed.

Lemma at_pre (pre l : list byte) i : at_ (length pre + i) (pre ++ l) = at_ i l.
Proof. unfold at_, octet. rewrite app_nth2 by lia. by replace (length pre + i - length pre)%nat with i by lia. Qed.

Lemma at_pre0 (pre l : list byte) : at_ (length pre) (pre ++ l) = at_ 0 l.
Proof. rewrite <- (at_pre pre l 0). by rewrite Nat.add_0_r. Qed.

Lemma splice_pre (pre v v' l : list byte) :
  length v = length v' -> splice (length pre) v' (pre ++ v ++ l) = pre ++ v' ++ l.
Proof.
  intros H. unfold splice. rewrite take_app_length. do 2 f_equal.
  rewrite app_assoc, <- H, <- length_app. apply drop_app_length.
Qed.

(** The value of a sub-TLV after stamping. *)
Definition stamp_value (t : Z) (v : list byte) : list byte :=
  if (t =? SUBTLV_TIMESTAMP) && (4 <=? length v)%nat then to_be32 now ++ drop 4 v else v.

Lemma stamp_value_length t v : length (stamp_value t v) = length v.
Proof.
  unfold stamp_value. case_match eqn:E; [|done]. apply andb_true_iff in E as [_ E].
  apply Nat.leb_le in E. rewrite length_app, length_drop. simpl. lia.
Qed.

Lemma stamp_value_splice t v pre rest :
  (if (t =? SUBTLV_TIMESTAMP) && (4 <=? length v)%nat
   then splice (length pre) (to_be32 now) (pre ++ v ++ rest) else pre ++ v ++ rest)
  = pre ++ stamp_value t v ++ rest.
Proof.
  unfold stamp_value. case_match eqn:E; [|done]. apply andb_true_iff in E as [_ E].
  apply Nat.leb_le in E. rewrite <- (take_drop 4 v) at 1. rewrite <- !app_assoc.
  apply splice_pre. rewrite length_take. rewrite length_to_be32. lia.
Qed.

Lemma decode_stamped_sub t v r :
  decode_sub_tlv t (stamp_value t v) CtxHello None (stamp_result r)
  = stamp_result (decode_sub_tlv t v CtxHello None r).
Proof.
  unfold decode_sub_tlv. rewrite !stamp_value_length. unfold stamp_value.
  destruct (Z.eqb_spec t 1) as [->|]; [by rewrite stamp_result_push|].
  destruct (Z.eqb_spec t SUBTLV_TIMESTAMP) as [->|].
  - cbn [andb]. destruct (Nat.leb_spec 4 (length v)) as [H|H].
    + rewrite stamp_result_push. simpl. unfold to_be32. simpl. by rewrite be32_field.
    + by rewrite stamp_result_push.
  - simpl. destruct (t =? SUBTLV_SOURCE_PREFIX); [done|].
    rewrite stamp_result_push. by case_match.
Qed.

(** Stamping one sub-TLV area, between whatever precedes and follows it. *)
Lemma stamp_subs_spec n body pre post r r' :
  (length body <= n)%nat ->
  sub_loop (length body) body CtxHello None r = Ok r' ->
  exists body',
    stamp_subs n (pre ++ body ++ post) (length pre) (length pre + length body) now
    = (pre ++ body' ++ post, Ok tt) /\
    length body' = length body /\
    sub_loop (length body') body' CtxHello None (stamp_result r) = Ok (stamp_result r').
Proof.
  remember (length body) as m eqn:Em. revert n body pre r Em.
  induction m as [m IH] using lt_wf_ind. intros n body pre r Em Hn He.
  destruct (next_frame body) as [|rest|t|t v rest] eqn:F.
  - destruct body as [|b body]; [|exfalso; revert F; unfold next_frame; by repeat case_match].
    simpl in Em. subst m. simpl in He. simplify_eq. exists []. split; [|done].
    destruct n; simpl; by rewrite Nat.add_0_r, Nat.ltb_irrefl.
  - apply next_frame_pad_inv in F as ->. simpl in Em. subst m. destruct n as [|n]; [lia|].
    simpl in He. apply (IH (length rest) ltac:(lia) n rest (pre ++ [b8 0])) in He as (b' & H1 & H2 & H3);
      [|done|lia].
    exists (b8 0 :: b'). split; [|split; [simpl; lia|]].
    + cbn [stamp_subs]. replace (_ <? _)%nat with true by (symmetry; apply Nat.ltb_lt; lia).
      rewrite !at_pre0. change (at_ 0 _ =? 0) with true. cbv iota.
      rewrite length_app in H1. simpl in H1.
      replace (S (length pre)) with (length pre + 1)%nat by lia.
      replace (length pre + S (length rest))%nat with (length pre + 1 + length rest)%nat by lia.
      rewrite <- !app_assoc in H1. exact H1.
    + simpl. rewrite <- H3. by rewrite stamp_result_push.
  - exfalso. destruct m; simpl in He; by rewrite F in He.
  - destruct m as [|m]; [simpl in He; by rewrite F in He|]. simpl in He. rewrite F in He.
    apply next_frame_tlv_inv in F as (-> & Ht & Hv). rewrite !length_app in Em. simpl in Em.
    rewrite sub_loop_fuel in He by lia. destruct n as [|n]; [lia|].
    apply (IH (length rest) ltac:(lia) n rest
      (pre ++ [b8 t; b8 (Z.of_nat (length v))] ++ stamp_value t v)) in He as (b' & H1 & H2 & H3); [|done|lia].
    exists ([b8 t; b8 (Z.of_nat (length v))] ++ stamp_value t v ++ b').
    split; [|split; [rewrite !length_app, stamp_value_length; simpl; lia|]].
    + cbn [stamp_subs]. replace (_ <? _)%nat with true by (symmetry; apply Nat.ltb_lt; lia).
      rewrite !at_pre0.
      replace (S (length pre)) with (length pre + 1)%nat by lia. rewrite at_pre.
      change (at_ 0 _) with (u8 (b8 t)). change (at_ 1 _) with (u8 (b8 (Z.of_nat (length v)))).
      rewrite !u8_b8_small by lia. replace (t =? 0) with false by lia.
      replace (_ <=? _)%nat with false by (symmetry; apply Nat.leb_gt; lia). rewrite Nat2Z.id.
      replace (_ <? _)%nat with false by (symmetry; apply Nat.ltb_ge; lia).
      set (pre2 := pre ++ [b8 t; b8 (Z.of_nat (length v))]).
      replace (S (length pre + 1)) with (length pre2) by (unfold pre2; rewrite length_app; simpl; lia).
      replace (pre ++ (_ ++ v ++ rest) ++ post) with (pre2 ++ v ++ rest ++ post)
        by (unfold pre2; by rewrite <- !app_assoc).
      rewrite stamp_value_splice. revert H1. rewrite !length_app, stamp_value_length.
      unfold pre2. rewrite length_app, <- !app_assoc. simpl length. intros <-.
      f_equal; lia.
    + rewrite <- (stamp_value_length t v), app_assoc.
      rewrite (subs_decode_tlv CtxHello None t) by (rewrite ?stamp_value_length; done).
      by rewrite decode_stamped_sub.
Qed.

Lemma decode_hello_stamped v o pre post :
  decode_hello v = Ok o ->
  (6 <= length v)%nat /\ exists v', length v' = length v /\
    decode_hello v' = Ok (stamp_tlv <$> o) /\
    stamp_subs (length v) (pre ++ v ++ post) (length pre + 6) (length pre + length v) now
    = (pre ++ v' ++ post, Ok tt).
Proof.
  intros He. unfold decode_hello in He.
  destruct (Nat.ltb_spec (length v) 6) as [|Hl]; [done|]. split; [done|].
  apply result_bind_Ok in He as (sub & Hs & He). simplify_eq.
  destruct v as [|b0 [|b1 [|b2 [|b3 [|b4 [|b5 w]]]]]]; simpl in Hl; try lia. clear Hl.
  set (h := [b0; b1; b2; b3; b4; b5]). simpl drop in Hs. rewrite drop_0 in Hs.
  unfold decode_sub_tlvs in Hs.
  destruct (stamp_subs_spec (6 + length w) w (pre ++ h) post _ _ ltac:(lia) Hs) as (b & H1 & H2 & H3).
  exists (h ++ b). split; [simpl; lia|]. split.
  - unfold decode_hello. change (drop 6 (h ++ b)) with (drop 0 b). rewrite drop_0.
    unfold decode_sub_tlvs. change empty_subs with (stamp_result empty_subs). rewrite H3. simpl.
    by destruct (mandatory_unknown sub).
  - revert H1. rewrite length_app, <- !app_assoc. simpl length. intros <-. f_equal; simpl; lia.
Qed.

Lemma decode_tlv_not_hello ty v st t st' :
  ty <> TLV_HELLO -> decode_tlv ty v st = Ok (Some t, st') -> stamp_tlv t = t.
Proof.
  intros Hne He. unfold decode_tlv, decode_ack_request, decode_ack, decode_ihu, decode_router_id,
    decode_next_hop, decode_update, finish_update, decode_route_request, decode_seqno_request in He.
  repeat match type of He with
  | (if (?a =? ?b) then _ else _) = _ => destruct (Z.eqb_spec a b)
  end; try done; try (apply stateless_Ok in He as [He ->]); result_steps He; simplify_eq; try done;
    match goal with E : (if ?b then _ else _) = Some _ |- _ => destruct b; by simplify_eq end.
Qed.

(** One TLV value: rewritten if it is a Hello, untouched otherwise. *)
Lemma stamp_value_spec t v st o st1 pre post :
  decode_tlv t v st = Ok (o, st1) ->
  exists v', length v' = length v /\ decode_tlv t v' st = Ok (stamp_tlv <$> o, st1) /\
    (if (t =? TLV_HELLO) && (6 <=? length v)%nat
     then stamp_subs (length v) (pre ++ v ++ post) (length pre + 6) (length pre + length v) now
     else (pre ++ v ++ post, Ok tt)) = (pre ++ v' ++ post, Ok tt).
Proof.
  intros Hd. destruct (Z.eqb_spec t TLV_HELLO) as [->|Hne].
  - change (decode_tlv TLV_HELLO v st) with (stateless st (decode_hello v)) in Hd.
    apply stateless_Ok in Hd as [Hd ->].
    destruct (decode_hello_stamped v o pre post Hd) as (Hl6 & v' & L & Dv & Sv).
    exists v'. split; [done|]. split; [|by rewrite (proj2 (Nat.leb_le _ _) Hl6)].
    change (decode_tlv TLV_HELLO v' st) with (stateless st (decode_hello v')). by rewrite Dv.
  - exists v. split; [done|]. split; [|done]. rewrite Hd. do 2 f_equal.
    destruct o as [tl|]; [|done]. simpl. f_equal. symmetry. by eapply decode_tlv_not_hello.
Qed.

Lemma stamp_tlvs_spec n body pre post st acc ts st' :
  (length body <= n)%nat ->
  tlv_loop (length body) body st acc = Ok (ts, st') ->
  exists body',
    stamp_tlvs n (pre ++ body ++ post) (length pre) (length pre + length body) now
    = (pre ++ body' ++ post, Ok tt) /\
    length body' = length body /\
    tlv_loop (length body') body' st (map stamp_tlv acc) = Ok (map stamp_tlv ts, st').
Proof.
  remember (length body) as m eqn:Em. revert n body pre st acc Em.
  induction m as [m IH] using lt_wf_ind. intros n body pre st acc Em Hn He.
  destruct (next_frame body) as [|rest|t|t v rest] eqn:F.
  - destruct body as [|b body]; [|exfalso; revert F; unfold next_frame; by repeat case_match].
    simpl in Em. subst m. simpl in He. simplify_eq. exists []. split; [|done].
    destruct n; simpl; by rewrite Nat.add_0_r, Nat.ltb_irrefl.
  - apply next_frame_pad_inv in F as ->. simpl in Em. subst m. destruct n as [|n]; [lia|].
    simpl in He. apply (IH (length rest) ltac:(lia) n rest (pre ++ [b8 0])) in He as (b' & H1 & H2 & H3);
      [|done|lia].
    exists (b8 0 :: b'). split; [|split; [simpl; lia|]].
    + cbn [stamp_tlvs]. replace (_ <? _)%nat with true by (symmetry; apply Nat.ltb_lt; lia).
      rewrite at_pre0. change (at_ 0 _ =? TLV_PAD1) with true. cbv iota.
      rewrite length_app in H1. simpl in H1.
      replace (S (length pre)) with (length pre + 1)%nat by lia.
      replace (length pre + S (length rest))%nat with (length pre + 1 + length rest)%nat by lia.
      rewrite <- !app_assoc in H1. exact H1.
    + simpl. rewrite <- H3. by rewrite map_app.
  - exfalso. destruct m; simpl in He; by rewrite F in He.
  - destruct m as [|m]; [simpl in He; by rewrite F in He|]. simpl in He. rewrite F in He.
    apply next_frame_tlv_inv in F as (-> & Ht & Hv). rewrite !length_app in Em. simpl in Em.
    apply result_bind_Ok in He as ([o st1] & Hd & He).
    rewrite tlv_loop_fuel in He by lia. destruct n as [|n]; [lia|].
    set (pre2 := pre ++ [b8 t; b8 (Z.of_nat (length v))]).
    destruct (stamp_value_spec t v st o st1 pre2 (rest ++ post) Hd) as (v' & L & Dv & Sv).
    apply (IH (length rest) ltac:(lia) n rest (pre2 ++ v')) in He as (b' & H1 & H2 & H3); [|done|lia].
    exists ([b8 t; b8 (Z.of_nat (length v))] ++ v' ++ b').
    split; [|split; [rewrite !length_app; simpl; lia|]].
    + cbn [stamp_tlvs]. replace (_ <? _)%nat with true by (symmetry; apply Nat.ltb_lt; lia).
      rewrite !at_pre0. replace (S (length pre)) with (length pre + 1)%nat by lia. rewrite at_pre.
      change (at_ 0 _) with (u8 (b8 t)). change (at_ 1 _) with (u8 (b8 (Z.of_nat (length v)))).
      rewrite !u8_b8_small by lia. replace (t =? TLV_PAD1) with false by (unfold TLV_PAD1; lia).
      replace (_ <=? _)%nat with false by (symmetry; apply Nat.leb_gt; lia). rewrite Nat2Z.id.
      replace (_ <? _)%nat with false by (symmetry; apply Nat.ltb_ge; lia).
      replace (S (length pre + 1)) with (length pre2) by (unfold pre2; rewrite length_app; simpl; lia).
      replace (pre ++ (_ ++ v ++ rest) ++ post) with (pre2 ++ v ++ rest ++ post)
        by (unfold pre2; by rewrite <- !app_assoc).
      assert (stamp_tlvs n (pre2 ++ v' ++ rest ++ post) (length pre2 + length v)
                (length pre + S m) now = (pre ++ ([b8 t; b8 (Z.of_nat (length v))] ++ v' ++ b') ++ post, Ok tt)) as Hrec.
      { revert H1. unfold pre2. rewrite !length_app, L, <- !app_assoc. simpl length. intros <-. f_equal; lia. }
      destruct (_ && _) in *; [by rewrite Sv | injection Sv as ->; done].
    + rewrite <- L, app_assoc, (tlvs_decode_frame t v' st st1 _ ltac:(done) ltac:(lia) Dv) by done.
      rewrite <- H3, map_app. by destruct o.
Qed.

(** Stamping a datagram that decodes succeeds, keeps its length, and changes
    the decoded packet in one way: every timestamp of every Hello becomes the send
    time, in every other respect the TLVs stay the same. *)
Theorem stamping_commutes_with_decoding data src p :
  decode_packet data src = Ok p ->
  exists data', stamp_hello_timestamps data now = (data', Ok tt) /\
    length data' = length data /\
    decode_packet data' src = Ok (MkPacket (map stamp_tlv (tlvs p))).
Proof.
  intros He. unfold decode_packet in He.
  destruct (length data <? 4)%nat eqn:E4; [done|]. destruct (negb _) eqn:Em in He; [done|].
  destruct (negb _) eqn:Ev in He; [done|]. destruct (_ <? _)%nat eqn:Eb in He; [done|].
  apply Nat.ltb_ge in E4, Eb. bind_steps He. destruct x as [ts st']. simplify_eq. simpl.
  set (blen := Z.to_nat (be16 (slice 2 4 data))) in *.
  destruct data as [|h0 [|h1 [|h2 [|h3 rest]]]]; simpl in E4; try lia. clear E4.
  set (h := [h0; h1; h2; h3]). change (h0 :: h1 :: h2 :: h3 :: rest) with (h ++ rest) in *.
  unfold slice, decode_body in Hx. change (drop 4 (h ++ rest)) with (drop 0 rest) in Hx.
  rewrite drop_0 in Hx. replace (4 + blen - 4)%nat with blen in Hx by lia.
  rewrite length_app in Eb. simpl length in Eb.
  assert (length (take blen rest) = blen) as Lb by (rewrite length_take; lia).
  destruct (stamp_tlvs_spec blen (take blen rest) h (drop blen rest) _ _ _ _ ltac:(lia) Hx)
    as (b' & H1 & H2 & H3).
  rewrite take_drop, Lb in H1. exists (h ++ b' ++ drop blen rest). split; [|split].
  - unfold stamp_hello_timestamps. rewrite length_app. rewrite (proj2 (Nat.ltb_ge _ 4)) by (simpl; lia).
    rewrite Em, Ev. fold blen. rewrite (proj2 (Nat.ltb_ge _ _)) by (simpl; lia). exact H1.
  - rewrite !length_app, length_drop. lia.
  - unfold decode_packet. rewrite !length_app, length_drop. rewrite (proj2 (Nat.ltb_ge _ 4)) by (simpl; lia).
    change (at_ 0 _) with (at_ 0 (h ++ rest)). change (at_ 1 _) with (at_ 1 (h ++ rest)). rewrite Em, Ev.
    change (slice 2 4 (h ++ b' ++ _)) with (slice 2 4 (h ++ rest)). fold blen.
    rewrite (proj2 (Nat.ltb_ge _ _)) by (simpl; lia).
    replace (slice 4 (4 + blen) _) with b'; [unfold decode_body; simpl in H3; by rewrite H3|].
    symmetry. rewrite <- Lb, <- H2. by apply (slice_field 4).
Qed.
End Stamp.

(** A datagram with a timestamped Hello between other TLVs. *)
Definition stamp_net : IpNetLib := ipnet_model.
#[local] Existing Instance stamp_net.
Definition stamp_src : IpAddr := IpV4 (ipv4 192 0 2 1).
Definition stamp_demo : OutboundPacket :=
  MkOutboundPacket [OPad1; OHello false 1 400 [SubPad1; TimestampHello 5]; OAck 9].

Lemma stamping_commutes_with_decoding_witness :
  exists data data',
    encode_packet stamp_demo = Ok data /\
    stamp_hello_timestamps data 77 = (data', Ok tt) /\ length data' = length data /\
    decode_packet data' stamp_src
    = Ok (MkPacket [TPad1; THello false 1 400 [SubPad1; TimestampHello 77]; TAck 9]).
Proof.
  destruct (encode_packet stamp_demo) as [data|] eqn:E; [|vm_compute in E; discriminate E].
  assert (decode_packet data stamp_src
    = Ok (MkPacket [TPad1; THello false 1 400 [SubPad1; TimestampHello 5]; TAck 9])) as D
    by (vm_compute in E; injection E as <-; apply (bool_decide_unpack _); vm_compute; exact I).
  destruct (stamping_commutes_with_decoding 77 ltac:(unfold in_u32; lia) data stamp_src _ D)
    as (data' & H1 & H2 & H3).
  exists data, data'. split; [reflexivity|]. split; [exact H1|]. split; [exact H2|exact H3].
Defined.
