(* ===== verification/Api.v ===== *)
(** Events, actions and configuration of the engine ([engine/api.rs]) and their
    validation ([validation.rs]). *)
From S2P Require Import Prelude Net Model Metric Wire.
Local Open Scope Z_scope.

(** * Constants of engine.rs *)

Definition BABEL_MULTICAST_V6 : IpAddr := IpV6 (ipv6 [0xff02; 0; 0; 0; 0; 0; 1; 6]).
Definition SOURCE_GC_TIME_MS : Z := 180000.
Definition MAX_RTT_PROBES_PER_TICK : nat := 32.
Definition REQUEST_RETRY_INITIAL_MS : Z := 2000.
Definition REQUEST_RETRIES : Z := 3.
Definition REQUEST_HOP_COUNT : Z := 64.
Definition RECENT_REQUEST_MS : Z := 16000.
Definition URGENT_TIMEOUT_MS : Z := 200.
Definition MAX_TRIGGERED_JITTER_MS : Z := 100.

(** * Delivery constraints *)

Record SendTiming := MkSendTiming { deadline_ms : Z; max_jitter_ms : Z }.

#[global] Instance SendTiming_eq_dec : EqDecision SendTiming.
Proof. solve_decision. Defined.

Definition immediate (now_ms : Z) : SendTiming := {| deadline_ms := now_ms; max_jitter_ms := 0 |}.

Definition urgent (now_ms : Z) : SendTiming :=
  {| deadline_ms := saturating_add64 now_ms URGENT_TIMEOUT_MS; max_jitter_ms := URGENT_TIMEOUT_MS |}.

Definition triggered (now_ms hello_interval_cs : Z) : SendTiming :=
  let deadline_delta := saturating_mul64 hello_interval_cs 5 in
  {| deadline_ms := saturating_add64 now_ms deadline_delta;
     max_jitter_ms := Z.min deadline_delta MAX_TRIGGERED_JITTER_MS |}.

Definition by_deadline (now_ms deadline_ms : Z) : SendTiming :=
  {| deadline_ms := deadline_ms; max_jitter_ms := saturating_sub deadline_ms now_ms |}.

(** * Configuration *)

Record RouteSelectionConfig := MkRouteSelectionConfig {
  switch_margin_percent : Z;
  switch_margin_metric : Z;
  better_for_ms : Z
}.

Definition default_route_selection : RouteSelectionConfig :=
  {| switch_margin_percent := 5; switch_margin_metric := 8; better_for_ms := 8000 |}.

Record NeighborStatus := MkNeighborStatus {
  ns_interface : string;
  ns_address : IpAddr;
  ns_candidates : nat;
  ns_rejected_candidates : Z;
  ns_algorithm : string;
  hello_received : Z;
  hello_expected : Z;
  multicast_hello_history : Z;
  unicast_hello_history : Z;
  ns_receive_cost : Z;
  ns_transmit_cost : Z;
  ns_link_cost : Z;
  ns_last_rtt_us : option Z;
  ns_smoothed_rtt_us : option Z;
  ns_rtt_penalty : Z;
  last_hello_age_ms : Z
}.

Inductive ControlTransport := TransportIpv6 | TransportIpv4.

#[global] Instance ControlTransport_eq_dec : EqDecision ControlTransport.
Proof. solve_decision. Defined.

Definition default_transport : ControlTransport := TransportIpv6.

Definition multicast_group (self : ControlTransport) : IpAddr :=
  match self with
  | TransportIpv6 => BABEL_MULTICAST_V6
  | TransportIpv4 => IpV4 (ipv4 224 0 0 111)
  end.

Inductive Ipv4NextHop := NextHopAuto | NextHopIpv4 | NextHopIpv6.

#[global] Instance Ipv4NextHop_eq_dec : EqDecision Ipv4NextHop.
Proof. solve_decision. Defined.

(** The lowest usable IPv4 address, unless IPv6 next hops are forced. *)
Definition ipv4_address (self : Ipv4NextHop) (addresses : list IpAddr) : option Ipv4Addr :=
  if bool_decide (self = NextHopIpv6) then None
  else
    min_by cmp (omap (fun address =>
      match address with
      | IpV4 address =>
          if negb (v4_is_unspecified address) && negb (v4_is_loopback address)
             && negb (v4_is_multicast address) && negb (v4_is_broadcast address)
          then Some address else None
      | IpV6 _ => None
      end) addresses).

Section Api.
Context {NL : IpNetLib} {MI : MetricImpl}.

Record InterfacePolicy := MkInterfacePolicy {
  control_transport : ControlTransport;
  ip_ipv4_next_hop : Ipv4NextHop;
  ip_metric : MetricProfile;
  ip_hello_interval_cs : Z;
  ip_update_interval_cs : Z;
  split_horizon : bool
}.

Record EngineConfig := MkEngineConfig {
  cfg_route_policy : RoutePolicy;
  ipv4_via_ipv6 : bool;
  cfg_limits : ResourceLimits;
  cfg_router_id : RouterId;
  cfg_metric : MetricProfile;
  metric_algebra : MetricAlgebra;
  cfg_sequence_number : Z;
  cfg_hello_interval_cs : Z;
  cfg_update_interval_cs : Z;
  route_selection : RouteSelectionConfig
}.

(** [recommended], with the default wired profile as a parameter. *)
Definition recommended (wired : MetricProfile) (router_id : RouterId) : EngineConfig := {|
  cfg_route_policy := AllowAllRoutes;
  ipv4_via_ipv6 := true;
  cfg_limits := default_limits;
  cfg_router_id := router_id;
  cfg_metric := wired;
  metric_algebra := AdditiveMetric;
  cfg_sequence_number := 0;
  cfg_hello_interval_cs := 400;
  cfg_update_interval_cs := 1600;
  route_selection := default_route_selection
|}.

(** * Events and actions *)

Inductive Event :=
| ReplaceRoutePolicy (policy : RoutePolicy) (now_ms : Z)
| InterfaceUp (interface : string) (local_addresses : list IpAddr) (now_ms : Z)
| InterfaceUpWithPolicy (interface : string) (local_addresses : list IpAddr)
    (policy : InterfacePolicy) (now_ms : Z)
| InterfacePolicyChanged (interface : string) (policy : InterfacePolicy) (reset_metric : bool)
    (now_ms : Z)
| InterfaceAddressesChanged (interface : string) (local_addresses : list IpAddr) (now_ms : Z)
| InterfaceDown (interface : string) (now_ms : Z)
| PacketReceived (interface : string) (source : IpAddr) (packet : Packet) (now_ms : Z)
| PacketReceivedWithTimestamp (interface : string) (source : IpAddr) (packet : Packet)
    (now_ms received_timestamp_us : Z)
| Originate (key : RouteKey) (metric now_ms : Z)
| Withdraw (key : RouteKey) (now_ms : Z)
| ReplaceOrigins (origins : gmap RouteKey Z) (now_ms : Z)
| Tick (now_ms : Z).

Inductive Action :=
| InvalidatePendingSends
| Send (interface : string) (destination : IpAddr) (packet : OutboundPacket) (timing : SendTiming)
| RoutesChanged (generation : Z) (routes : list SelectedRoute) (unreachable : list RouteKey)
| SequenceNumberChanged (seqno : Z).

(** * Validation *)

Inductive ConfigError :=
| SwitchMarginPercent
| SwitchMarginMetric
| ZeroInterval (field : string)
| InvalidRouteKey
| InvalidOriginMetric.

#[global] Instance ConfigError_eq_dec : EqDecision ConfigError.
Proof. solve_decision. Defined.

Definition validate_selection (self : RouteSelectionConfig) : result ConfigError unit :=
  if 100 <? switch_margin_percent self then Err SwitchMarginPercent
  else if switch_margin_metric self =? INFINITY then Err SwitchMarginMetric
  else Ok tt.

Definition validate_intervals (hello_interval_cs update_interval_cs : Z) : result ConfigError unit :=
  if hello_interval_cs =? 0 then Err (ZeroInterval "hello_interval_cs")
  else if update_interval_cs =? 0 then Err (ZeroInterval "update_interval_cs")
  else Ok tt.

Definition validate_interface_policy (self : InterfacePolicy) : result ConfigError unit :=
  validate_intervals (ip_hello_interval_cs self) (ip_update_interval_cs self).

Definition validate_config (self : EngineConfig) : result ConfigError unit :=
  _ ← validate_selection (route_selection self);
  validate_intervals (cfg_hello_interval_cs self) (cfg_update_interval_cs self).

Definition validate_key (self : RouteKey) : result ConfigError unit :=
  if bool_decide (RouteKey_new (destination self) (source self) = Some self) then Ok tt
  else Err InvalidRouteKey.

Definition validate_origin (self : RouteKey) (metric : Z) : result ConfigError unit :=
  _ ← validate_key self;
  if metric =? INFINITY then Err InvalidOriginMetric else Ok tt.

Fixpoint validate_origins (origins : list (RouteKey * Z)) : result ConfigError unit :=
  match origins with
  | [] => Ok tt
  | (key, metric) :: rest => _ ← validate_origin key metric; validate_origins rest
  end.

Definition validate_event (self : Event) : result ConfigError unit :=
  match self with
  | InterfaceUpWithPolicy _ _ policy _ | InterfacePolicyChanged _ policy _ _ =>
      validate_interface_policy policy
  | Originate key metric _ => validate_origin key metric
  | Withdraw key _ => validate_key key
  | ReplaceOrigins origins _ => validate_origins (btree_iter origins)
  | _ => Ok tt
  end.
End Api.
