(* ===== verification/EngineState.v ===== *)
(** State of the engine ([engine.rs]) and the monad its methods run in. *)
From S2P Require Import Prelude Net Model Metric Wire Api.
Import Hello.
Local Open Scope Z_scope.

(** * Records *)

Record NeighborKey := MkNeighborKey { nk_interface : string; nk_address : IpAddr }.

#[global] Instance NeighborKey_eq_dec : EqDecision NeighborKey.
Proof. solve_decision. Defined.
#[global] Program Instance NeighborKey_countable : Countable NeighborKey :=
  inj_countable (fun k => (nk_interface k, nk_address k)) (fun p => Some (MkNeighborKey p.1 p.2)) _.
Next Obligation. by intros []. Qed.

Record HelloTimer := MkHelloTimer { ht_interval_cs : Z; next_expiry_ms : Z }.

Record Originated := MkOriginated { o_metric : Z; o_seqno : Z }.

Record SourceEntry := MkSourceEntry { s_distance : Distance; s_expires_ms : Z }.

Record PendingSeqnoRequest := MkPendingSeqnoRequest {
  pq_seqno : Z;
  pq_hop_count : Z;
  pq_next_hop : NeighborKey;
  pq_requester : option NeighborKey;
  retries_left : Z;
  next_retry_ms : Z
}.

Record PendingSwitch := MkPendingSwitch {
  sw_router_id : RouterId;
  sw_next_hop : IpAddr;
  sw_interface : string;
  since_ms : Z;
  current_peak_metric : Z
}.

Section State.
Context {NL : IpNetLib} {MI : MetricImpl}.

Record SeqnoRequestSpec := MkSeqnoRequestSpec {
  rq_key : RouteKey;
  rq_router_id : RouterId;
  rq_seqno : Z;
  rq_hop_count : Z;
  rq_next_hop : NeighborKey;
  rq_requester : option NeighborKey
}.

Record InterfaceState := MkInterfaceState {
  local_addresses : list IpAddr;
  ifs_policy : InterfacePolicy;
  hello_seqno : Z;
  next_hello_ms : Z;
  next_update_ms : Z;
  last_full_update_ms : option Z
}.

Record Neighbor := MkNeighbor {
  nb_candidates : nat;
  nb_rejected_candidates : Z;
  nb_last_hello_ms : Z;
  nb_histories : HelloHistories;
  nb_multicast_timer : option HelloTimer;
  nb_unicast_timer : option HelloTimer;
  nb_last_ihu_ms : option Z;
  nb_last_ihu_cost : option Z;
  nb_ihu_interval_cs : Z;
  nb_next_ihu_ms : Z;
  nb_next_rtt_probe_ms : option Z;
  nb_origin_timestamp : option Z;
  nb_receive_timestamp : option Z;
  nb_unicast_hello_seqno : Z;
  nb_metric : NeighborMetric
}.

Record Candidate := MkCandidate {
  c_key : RouteKey;
  c_router_id : RouterId;
  c_seqno : Z;
  c_advertised_metric : Z;
  c_metric : Z;
  c_next_hop : IpAddr;
  c_interface : string;
  c_interval_cs : Z;
  c_expires_ms : Z;
  c_refresh_requested : bool
}.

Record Engine := MkEngine {
  resources : ResourceStatus;
  config : EngineConfig;
  interfaces : gmap string InterfaceState;
  neighbours : gmap NeighborKey Neighbor;
  candidates : gmap (RouteKey * NeighborKey) Candidate;
  feasible : gmap (RouteKey * RouterId) SourceEntry;
  originated : gmap RouteKey Originated;
  selected : gmap RouteKey SelectedRoute;
  pending_seqno : gmap (RouteKey * RouterId) PendingSeqnoRequest;
  recent_seqno : gmap (RouteKey * RouterId) (Z * Z);
  tombstones : gmap RouteKey Z;
  advertised_until : gmap RouteKey Z;
  pending_advertisements : gmap RouteKey (Z * Z);
  pending_switches : gmap RouteKey PendingSwitch;
  settling_since : gmap RouteKey Z;
  settled_routes : gset RouteKey;
  generation : Z;
  sequence_number : Z
}.

(** ** Assignments [self.field = v] *)

Definition set_resources (v : ResourceStatus) (e : Engine) : Engine :=
  MkEngine v (config e) (interfaces e) (neighbours e) (candidates e) (feasible e) (originated e) (selected e) (pending_seqno e) (recent_seqno e) (tombstones e) (advertised_until e) (pending_advertisements e) (pending_switches e) (settling_since e) (settled_routes e) (generation e) (sequence_number e).
Definition set_config (v : EngineConfig) (e : Engine) : Engine :=
  MkEngine (resources e) v (interfaces e) (neighbours e) (candidates e) (feasible e) (originated e) (selected e) (pending_seqno e) (recent_seqno e) (tombstones e) (advertised_until e) (pending_advertisements e) (pending_switches e) (settling_since e) (settled_routes e) (generation e) (sequence_number e).
Definition set_interfaces (v : gmap string InterfaceState) (e : Engine) : Engine :=
  MkEngine (resources e) (config e) v (neighbours e) (candidates e) (feasible e) (originated e) (selected e) (pending_seqno e) (recent_seqno e) (tombstones e) (advertised_until e) (pending_advertisements e) (pending_switches e) (settling_since e) (settled_routes e) (generation e) (sequence_number e).
Definition set_neighbours (v : gmap NeighborKey Neighbor) (e : Engine) : Engine :=
  MkEngine (resources e) (config e) (interfaces e) v (candidates e) (feasible e) (originated e) (selected e) (pending_seqno e) (recent_seqno e) (tombstones e) (advertised_until e) (pending_advertisements e) (pending_switches e) (settling_since e) (settled_routes e) (generation e) (sequence_number e).
Definition set_candidates (v : gmap (RouteKey * NeighborKey) Candidate) (e : Engine) : Engine :=
  MkEngine (resources e) (config e) (interfaces e) (neighbours e) v (feasible e) (originated e) (selected e) (pending_seqno e) (recent_seqno e) (tombstones e) (advertised_until e) (pending_advertisements e) (pending_switches e) (settling_since e) (settled_routes e) (generation e) (sequence_number e).
Definition set_feasible (v : gmap (RouteKey * RouterId) SourceEntry) (e : Engine) : Engine :=
  MkEngine (resources e) (config e) (interfaces e) (neighbours e) (candidates e) v (originated e) (selected e) (pending_seqno e) (recent_seqno e) (tombstones e) (advertised_until e) (pending_advertisements e) (pending_switches e) (settling_since e) (settled_routes e) (generation e) (sequence_number e).
Definition set_originated (v : gmap RouteKey Originated) (e : Engine) : Engine :=
  MkEngine (resources e) (config e) (interfaces e) (neighbours e) (candidates e) (feasible e) v (selected e) (pending_seqno e) (recent_seqno e) (tombstones e) (advertised_until e) (pending_advertisements e) (pending_switches e) (settling_since e) (settled_routes e) (generation e) (sequence_number e).
Definition set_selected (v : gmap RouteKey SelectedRoute) (e : Engine) : Engine :=
  MkEngine (resources e) (config e) (interfaces e) (neighbours e) (candidates e) (feasible e) (originated e) v (pending_seqno e) (recent_seqno e) (tombstones e) (advertised_until e) (pending_advertisements e) (pending_switches e) (settling_since e) (settled_routes e) (generation e) (sequence_number e).
Definition set_pending_seqno (v : gmap (RouteKey * RouterId) PendingSeqnoRequest) (e : Engine) : Engine :=
  MkEngine (resources e) (config e) (interfaces e) (neighbours e) (candidates e) (feasible e) (originated e) (selected e) v (recent_seqno e) (tombstones e) (advertised_until e) (pending_advertisements e) (pending_switches e) (settling_since e) (settled_routes e) (generation e) (sequence_number e).
Definition set_recent_seqno (v : gmap (RouteKey * RouterId) (Z * Z)) (e : Engine) : Engine :=
  MkEngine (resources e) (config e) (interfaces e) (neighbours e) (candidates e) (feasible e) (originated e) (selected e) (pending_seqno e) v (tombstones e) (advertised_until e) (pending_advertisements e) (pending_switches e) (settling_since e) (settled_routes e) (generation e) (sequence_number e).
Definition set_tombstones (v : gmap RouteKey Z) (e : Engine) : Engine :=
  MkEngine (resources e) (config e) (interfaces e) (neighbours e) (candidates e) (feasible e) (originated e) (selected e) (pending_seqno e) (recent_seqno e) v (advertised_until e) (pending_advertisements e) (pending_switches e) (settling_since e) (settled_routes e) (generation e) (sequence_number e).
Definition set_advertised_until (v : gmap RouteKey Z) (e : Engine) : Engine :=
  MkEngine (resources e) (config e) (interfaces e) (neighbours e) (candidates e) (feasible e) (originated e) (selected e) (pending_seqno e) (recent_seqno e) (tombstones e) v (pending_advertisements e) (pending_switches e) (settling_since e) (settled_routes e) (generation e) (sequence_number e).
Definition set_pending_advertisements (v : gmap RouteKey (Z * Z)) (e : Engine) : Engine :=
  MkEngine (resources e) (config e) (interfaces e) (neighbours e) (candidates e) (feasible e) (originated e) (selected e) (pending_seqno e) (recent_seqno e) (tombstones e) (advertised_until e) v (pending_switches e) (settling_since e) (settled_routes e) (generation e) (sequence_number e).
Definition set_pending_switches (v : gmap RouteKey PendingSwitch) (e : Engine) : Engine :=
  MkEngine (resources e) (config e) (interfaces e) (neighbours e) (candidates e) (feasible e) (originated e) (selected e) (pending_seqno e) (recent_seqno e) (tombstones e) (advertised_until e) (pending_advertisements e) v (settling_since e) (settled_routes e) (generation e) (sequence_number e).
Definition set_settling_since (v : gmap RouteKey Z) (e : Engine) : Engine :=
  MkEngine (resources e) (config e) (interfaces e) (neighbours e) (candidates e) (feasible e) (originated e) (selected e) (pending_seqno e) (recent_seqno e) (tombstones e) (advertised_until e) (pending_advertisements e) (pending_switches e) v (settled_routes e) (generation e) (sequence_number e).
Definition set_settled_routes (v : gset RouteKey) (e : Engine) : Engine :=
  MkEngine (resources e) (config e) (interfaces e) (neighbours e) (candidates e) (feasible e) (originated e) (selected e) (pending_seqno e) (recent_seqno e) (tombstones e) (advertised_until e) (pending_advertisements e) (pending_switches e) (settling_since e) v (generation e) (sequence_number e).
Definition set_generation (v : Z) (e : Engine) : Engine :=
  MkEngine (resources e) (config e) (interfaces e) (neighbours e) (candidates e) (feasible e) (originated e) (selected e) (pending_seqno e) (recent_seqno e) (tombstones e) (advertised_until e) (pending_advertisements e) (pending_switches e) (settling_since e) (settled_routes e) v (sequence_number e).
Definition set_sequence_number (v : Z) (e : Engine) : Engine :=
  MkEngine (resources e) (config e) (interfaces e) (neighbours e) (candidates e) (feasible e) (originated e) (selected e) (pending_seqno e) (recent_seqno e) (tombstones e) (advertised_until e) (pending_advertisements e) (pending_switches e) (settling_since e) (settled_routes e) (generation e) v.

Definition set_local_addresses (v : list IpAddr) (e : InterfaceState) : InterfaceState :=
  MkInterfaceState v (ifs_policy e) (hello_seqno e) (next_hello_ms e) (next_update_ms e) (last_full_update_ms e).
Definition set_ifs_policy (v : InterfacePolicy) (e : InterfaceState) : InterfaceState :=
  MkInterfaceState (local_addresses e) v (hello_seqno e) (next_hello_ms e) (next_update_ms e) (last_full_update_ms e).
Definition set_hello_seqno (v : Z) (e : InterfaceState) : InterfaceState :=
  MkInterfaceState (local_addresses e) (ifs_policy e) v (next_hello_ms e) (next_update_ms e) (last_full_update_ms e).
Definition set_next_hello_ms (v : Z) (e : InterfaceState) : InterfaceState :=
  MkInterfaceState (local_addresses e) (ifs_policy e) (hello_seqno e) v (next_update_ms e) (last_full_update_ms e).
Definition set_next_update_ms (v : Z) (e : InterfaceState) : InterfaceState :=
  MkInterfaceState (local_addresses e) (ifs_policy e) (hello_seqno e) (next_hello_ms e) v (last_full_update_ms e).
Definition set_last_full_update_ms (v : option Z) (e : InterfaceState) : InterfaceState :=
  MkInterfaceState (local_addresses e) (ifs_policy e) (hello_seqno e) (next_hello_ms e) (next_update_ms e) v.

Definition set_nb_candidates (v : nat) (e : Neighbor) : Neighbor :=
  MkNeighbor v (nb_rejected_candidates e) (nb_last_hello_ms e) (nb_histories e) (nb_multicast_timer e) (nb_unicast_timer e) (nb_last_ihu_ms e) (nb_last_ihu_cost e) (nb_ihu_interval_cs e) (nb_next_ihu_ms e) (nb_next_rtt_probe_ms e) (nb_origin_timestamp e) (nb_receive_timestamp e) (nb_unicast_hello_seqno e) (nb_metric e).
Definition set_nb_rejected_candidates (v : Z) (e : Neighbor) : Neighbor :=
  MkNeighbor (nb_candidates e) v (nb_last_hello_ms e) (nb_histories e) (nb_multicast_timer e) (nb_unicast_timer e) (nb_last_ihu_ms e) (nb_last_ihu_cost e) (nb_ihu_interval_cs e) (nb_next_ihu_ms e) (nb_next_rtt_probe_ms e) (nb_origin_timestamp e) (nb_receive_timestamp e) (nb_unicast_hello_seqno e) (nb_metric e).
Definition set_nb_last_hello_ms (v : Z) (e : Neighbor) : Neighbor :=
  MkNeighbor (nb_candidates e) (nb_rejected_candidates e) v (nb_histories e) (nb_multicast_timer e) (nb_unicast_timer e) (nb_last_ihu_ms e) (nb_last_ihu_cost e) (nb_ihu_interval_cs e) (nb_next_ihu_ms e) (nb_next_rtt_probe_ms e) (nb_origin_timestamp e) (nb_receive_timestamp e) (nb_unicast_hello_seqno e) (nb_metric e).
Definition set_nb_histories (v : HelloHistories) (e : Neighbor) : Neighbor :=
  MkNeighbor (nb_candidates e) (nb_rejected_candidates e) (nb_last_hello_ms e) v (nb_multicast_timer e) (nb_unicast_timer e) (nb_last_ihu_ms e) (nb_last_ihu_cost e) (nb_ihu_interval_cs e) (nb_next_ihu_ms e) (nb_next_rtt_probe_ms e) (nb_origin_timestamp e) (nb_receive_timestamp e) (nb_unicast_hello_seqno e) (nb_metric e).
Definition set_nb_multicast_timer (v : option HelloTimer) (e : Neighbor) : Neighbor :=
  MkNeighbor (nb_candidates e) (nb_rejected_candidates e) (nb_last_hello_ms e) (nb_histories e) v (nb_unicast_timer e) (nb_last_ihu_ms e) (nb_last_ihu_cost e) (nb_ihu_interval_cs e) (nb_next_ihu_ms e) (nb_next_rtt_probe_ms e) (nb_origin_timestamp e) (nb_receive_timestamp e) (nb_unicast_hello_seqno e) (nb_metric e).
Definition set_nb_unicast_timer (v : option HelloTimer) (e : Neighbor) : Neighbor :=
  MkNeighbor (nb_candidates e) (nb_rejected_candidates e) (nb_last_hello_ms e) (nb_histories e) (nb_multicast_timer e) v (nb_last_ihu_ms e) (nb_last_ihu_cost e) (nb_ihu_interval_cs e) (nb_next_ihu_ms e) (nb_next_rtt_probe_ms e) (nb_origin_timestamp e) (nb_receive_timestamp e) (nb_unicast_hello_seqno e) (nb_metric e).
Definition set_nb_last_ihu_ms (v : option Z) (e : Neighbor) : Neighbor :=
  MkNeighbor (nb_candidates e) (nb_rejected_candidates e) (nb_last_hello_ms e) (nb_histories e) (nb_multicast_timer e) (nb_unicast_timer e) v (nb_last_ihu_cost e) (nb_ihu_interval_cs e) (nb_next_ihu_ms e) (nb_next_rtt_probe_ms e) (nb_origin_timestamp e) (nb_receive_timestamp e) (nb_unicast_hello_seqno e) (nb_metric e).
Definition set_nb_last_ihu_cost (v : option Z) (e : Neighbor) : Neighbor :=
  MkNeighbor (nb_candidates e) (nb_rejected_candidates e) (nb_last_hello_ms e) (nb_histories e) (nb_multicast_timer e) (nb_unicast_timer e) (nb_last_ihu_ms e) v (nb_ihu_interval_cs e) (nb_next_ihu_ms e) (nb_next_rtt_probe_ms e) (nb_origin_timestamp e) (nb_receive_timestamp e) (nb_unicast_hello_seqno e) (nb_metric e).
Definition set_nb_ihu_interval_cs (v : Z) (e : Neighbor) : Neighbor :=
  MkNeighbor (nb_candidates e) (nb_rejected_candidates e) (nb_last_hello_ms e) (nb_histories e) (nb_multicast_timer e) (nb_unicast_timer e) (nb_last_ihu_ms e) (nb_last_ihu_cost e) v (nb_next_ihu_ms e) (nb_next_rtt_probe_ms e) (nb_origin_timestamp e) (nb_receive_timestamp e) (nb_unicast_hello_seqno e) (nb_metric e).
Definition set_nb_next_ihu_ms (v : Z) (e : Neighbor) : Neighbor :=
  MkNeighbor (nb_candidates e) (nb_rejected_candidates e) (nb_last_hello_ms e) (nb_histories e) (nb_multicast_timer e) (nb_unicast_timer e) (nb_last_ihu_ms e) (nb_last_ihu_cost e) (nb_ihu_interval_cs e) v (nb_next_rtt_probe_ms e) (nb_origin_timestamp e) (nb_receive_timestamp e) (nb_unicast_hello_seqno e) (nb_metric e).
Definition set_nb_next_rtt_probe_ms (v : option Z) (e : Neighbor) : Neighbor :=
  MkNeighbor (nb_candidates e) (nb_rejected_candidates e) (nb_last_hello_ms e) (nb_histories e) (nb_multicast_timer e) (nb_unicast_timer e) (nb_last_ihu_ms e) (nb_last_ihu_cost e) (nb_ihu_interval_cs e) (nb_next_ihu_ms e) v (nb_origin_timestamp e) (nb_receive_timestamp e) (nb_unicast_hello_seqno e) (nb_metric e).
Definition set_nb_origin_timestamp (v : option Z) (e : Neighbor) : Neighbor :=
  MkNeighbor (nb_candidates e) (nb_rejected_candidates e) (nb_last_hello_ms e) (nb_histories e) (nb_multicast_timer e) (nb_unicast_timer e) (nb_last_ihu_ms e) (nb_last_ihu_cost e) (nb_ihu_interval_cs e) (nb_next_ihu_ms e) (nb_next_rtt_probe_ms e) v (nb_receive_timestamp e) (nb_unicast_hello_seqno e) (nb_metric e).
Definition set_nb_receive_timestamp (v : option Z) (e : Neighbor) : Neighbor :=
  MkNeighbor (nb_candidates e) (nb_rejected_candidates e) (nb_last_hello_ms e) (nb_histories e) (nb_multicast_timer e) (nb_unicast_timer e) (nb_last_ihu_ms e) (nb_last_ihu_cost e) (nb_ihu_interval_cs e) (nb_next_ihu_ms e) (nb_next_rtt_probe_ms e) (nb_origin_timestamp e) v (nb_unicast_hello_seqno e) (nb_metric e).
Definition set_nb_unicast_hello_seqno (v : Z) (e : Neighbor) : Neighbor :=
  MkNeighbor (nb_candidates e) (nb_rejected_candidates e) (nb_last_hello_ms e) (nb_histories e) (nb_multicast_timer e) (nb_unicast_timer e) (nb_last_ihu_ms e) (nb_last_ihu_cost e) (nb_ihu_interval_cs e) (nb_next_ihu_ms e) (nb_next_rtt_probe_ms e) (nb_origin_timestamp e) (nb_receive_timestamp e) v (nb_metric e).
Definition set_nb_metric (v : NeighborMetric) (e : Neighbor) : Neighbor :=
  MkNeighbor (nb_candidates e) (nb_rejected_candidates e) (nb_last_hello_ms e) (nb_histories e) (nb_multicast_timer e) (nb_unicast_timer e) (nb_last_ihu_ms e) (nb_last_ihu_cost e) (nb_ihu_interval_cs e) (nb_next_ihu_ms e) (nb_next_rtt_probe_ms e) (nb_origin_timestamp e) (nb_receive_timestamp e) (nb_unicast_hello_seqno e) v.

(** A retraction keeps the rest of the entry. *)
Definition retracted (c : Candidate) : Candidate :=
  MkCandidate (c_key c) (c_router_id c) (c_seqno c) INFINITY INFINITY (c_next_hop c) (c_interface c)
    (c_interval_cs c) (c_expires_ms c) (c_refresh_requested c).
Definition set_c_metric (v : Z) (e : Candidate) : Candidate :=
  MkCandidate (c_key e) (c_router_id e) (c_seqno e) (c_advertised_metric e) v (c_next_hop e) (c_interface e) (c_interval_cs e) (c_expires_ms e) (c_refresh_requested e).
Definition set_c_expires_ms (v : Z) (e : Candidate) : Candidate :=
  MkCandidate (c_key e) (c_router_id e) (c_seqno e) (c_advertised_metric e) (c_metric e) (c_next_hop e) (c_interface e) (c_interval_cs e) v (c_refresh_requested e).
Definition set_c_refresh_requested (v : bool) (e : Candidate) : Candidate :=
  MkCandidate (c_key e) (c_router_id e) (c_seqno e) (c_advertised_metric e) (c_metric e) (c_next_hop e) (c_interface e) (c_interval_cs e) (c_expires_ms e) v.

(** * The monad

    A method of [&mut self] is a function from the engine to its result and the
    next engine; [None] is a panic. *)
Definition M (A : Type) : Type := Engine -> option (A * Engine).

#[global] Instance M_ret : MRet M := fun A a e => Some (a, e).
#[global] Instance M_bind : MBind M := fun A B f m e =>
  match m e with Some (a, e') => f a e' | None => None end.

Definition gets {A} (f : Engine -> A) : M A := fun e => Some (f e, e).
Definition modify (f : Engine -> Engine) : M unit := fun e => Some (tt, f e).
Definition panic {A} : M A := fun _ => None.
(** [Option::expect] and [Option::unwrap]. *)
Definition expect {A} (o : option A) : M A :=
  match o with Some a => mret a | None => panic end.

(** A loop with an accumulator. *)
Fixpoint foldM {A B} (f : B -> A -> M B) (b : B) (l : list A) : M B :=
  match l with
  | [] => mret b
  | a :: l' => b' ← f b a; foldM f b' l'
  end.

(** A loop whose iterations append actions. *)
Definition for_actions {A B} (l : list A) (f : A -> M (list B)) : M (list B) :=
  foldM (fun acc a => more ← f a; mret (acc ++ more)) [] l.

(** A loop for its effects. *)
Definition for_each {A} (l : list A) (f : A -> M unit) : M unit :=
  foldM (fun _ a => f a) tt l.

(** ** Weakest preconditions

    [wp m Q e]: from [e], [m] does not panic and ends in a result and a state
    of [Q]. *)
Definition wp {A} (m : M A) (Q : A -> Engine -> Prop) (e : Engine) : Prop :=
  exists a e', m e = Some (a, e') /\ Q a e'.

Lemma wp_ret {A} (a : A) (Q : A -> Engine -> Prop) e : Q a e -> wp (mret a) Q e.
Proof. intros H. by exists a, e. Qed.

Lemma wp_bind {A B} (m : M A) (f : A -> M B) Q e :
  wp m (fun a e' => wp (f a) Q e') e -> wp (m ≫= f) Q e.
Proof.
  intros (a & e1 & H1 & b & e2 & H2 & HQ). exists b, e2. split; [|done].
  unfold mbind, M_bind. rewrite H1. exact H2.
Qed.

Lemma wp_gets {A} (f : Engine -> A) (Q : A -> Engine -> Prop) e : Q (f e) e -> wp (gets f) Q e.
Proof. intros H. by exists (f e), e. Qed.

Lemma wp_modify f (Q : unit -> Engine -> Prop) e : Q tt (f e) -> wp (modify f) Q e.
Proof. intros H. by exists tt, (f e). Qed.

Lemma wp_expect {A} (o : option A) (Q : A -> Engine -> Prop) e :
  (exists a, o = Some a /\ Q a e) -> wp (expect o) Q e.
Proof. intros (a & -> & H). by exists a, e. Qed.

Lemma wp_mono {A} (m : M A) (P Q : A -> Engine -> Prop) e :
  (forall a e', P a e' -> Q a e') -> wp m P e -> wp m Q e.
Proof. intros H (a & e' & Hm & HP). exists a, e'. auto. Qed.

Lemma wp_and {A} (m : M A) (P Q : A -> Engine -> Prop) e :
  wp m P e -> wp m Q e -> wp m (fun a e' => P a e' /\ Q a e') e.
Proof. intros (a & e1 & H1 & HP) (a' & e2 & H2 & HQ). exists a, e1. simplify_eq. auto. Qed.

Lemma wp_foldM {A B} (f : B -> A -> M B) (I : list A -> B -> Engine -> Prop) l b e :
  I l b e ->
  (forall a l' b' e', I (a :: l') b' e' -> wp (f b' a) (fun b'' e'' => I l' b'' e'') e') ->
  wp (foldM f b l) (fun b' e' => I [] b' e') e.
Proof.
  intros HI Hs. revert b e HI. induction l as [|a l IH]; intros b e HI; simpl.
  - by apply wp_ret.
  - apply wp_bind. eapply wp_mono; [|by apply Hs]. intros b' e' H. by apply IH.
Qed.

(** The usual loop rule, with the same invariant before every iteration. *)
Lemma wp_loop {A B} (f : B -> A -> M B) (I : B -> Engine -> Prop) l b e :
  I b e -> (forall a b' e', a ∈ l -> I b' e' -> wp (f b' a) I e') -> wp (foldM f b l) I e.
Proof.
  intros HI Hs.
  eapply wp_mono; [|apply (wp_foldM f (fun l' b' e' => I b' e' /\ Forall (fun a => a ∈ l) l'))].
  - by intros b' e' [? _].
  - split; [done|]. by apply list.Forall_forall.
  - intros a l' b' e' [H [Ha Hl]%Forall_cons_iff]. eapply wp_mono; [|by apply Hs]. done.
Qed.

(** [wp] and the partial-correctness reading of a run. *)
Lemma wp_run {A} (m : M A) Q e a e' : wp m Q e -> m e = Some (a, e') -> Q a e'.
Proof. intros (a1 & e1 & H1 & HQ) H. by simplify_eq. Qed.
End State.
