(* ===== verification/Sources.v ===== *)
(** The source table, the feasibility condition and sequence-number requests
    (the parts of [engine/sources.rs] and [engine/rib.rs] the output side
    needs). *)
From S2P Require Import Prelude Net Model Metric Wire Api EngineState.
Local Open Scope Z_scope.

Section Sources.
Context {NL : IpNetLib} {MI : MetricImpl}.

(** [self.feasible.entry(..).or_insert(..)], then improve and refresh. *)
Definition maintain_source (key : RouteKey) (router_id : RouterId) (distance : Distance) (now_ms : Z)
  : M unit :=
  modify (fun e =>
    let source := default {| s_distance := distance;
                             s_expires_ms := saturating_add64 now_ms SOURCE_GC_TIME_MS |}
                    (feasible e !! (key, router_id)) in
    let d :=
      if seqno_gt (d_seqno distance) (d_seqno (s_distance source))
         || ((d_seqno distance =? d_seqno (s_distance source))
             && (d_metric distance <? d_metric (s_distance source)))
      then distance else s_distance source in
    set_feasible
      (<[(key, router_id) := {| s_distance := d;
                                s_expires_ms := saturating_add64 now_ms SOURCE_GC_TIME_MS |}]>
         (feasible e)) e).

Definition bump_sequence_number : M unit :=
  modify (fun e =>
    let e := set_sequence_number (wrapping_add16 (sequence_number e) 1) e in
    set_originated ((fun o => MkOriginated (o_metric o) (sequence_number e)) <$> originated e) e).

Definition seqno_request_action (key : RouteKey) (router_id : RouterId) (seqno hop_count : Z)
    (next_hop : NeighborKey) (now_ms : Z) : Action :=
  Send (nk_interface next_hop) (nk_address next_hop)
    (MkOutboundPacket [OSeqnoRequest key seqno hop_count router_id []]) (urgent now_ms).

Definition originate_seqno_request (request : SeqnoRequestSpec) (now_ms : Z) : M (list Action) :=
  _ ← modify (fun e => set_pending_seqno
        (<[(rq_key request, rq_router_id request) :=
             {| pq_seqno := rq_seqno request;
                pq_hop_count := rq_hop_count request;
                pq_next_hop := rq_next_hop request;
                pq_requester := rq_requester request;
                retries_left := REQUEST_RETRIES;
                next_retry_ms := saturating_add64 now_ms REQUEST_RETRY_INITIAL_MS |}]>
           (pending_seqno e)) e);
  mret [seqno_request_action (rq_key request) (rq_router_id request) (rq_seqno request)
          (rq_hop_count request) (rq_next_hop request) now_ms].

(** Whether [selected] is the route this candidate carries. *)
Definition same_route (s : SelectedRoute) (router_id : RouterId) (interface : string)
    (next_hop : IpAddr) : bool :=
  bool_decide (sr_router_id s = router_id) && bool_decide (sr_interface s = interface)
  && bool_decide (sr_next_hop s = next_hop).

Definition retained_selected (e : Engine) (c : Candidate) : bool :=
  match selected e !! c_key c with
  | Some s => same_route s (c_router_id c) (c_interface c) (c_next_hop c)
  | None => false
  end.

Definition candidate_distance (c : Candidate) : Distance :=
  {| d_seqno := c_seqno c; d_metric := c_advertised_metric c |}.

(** The feasibility condition proper. *)
Definition meets_feasibility (e : Engine) (c : Candidate) : bool :=
  match feasible e !! (c_key c, c_router_id c) with
  | Some source => feasible_against (candidate_distance c) (s_distance source)
  | None => true
  end.

Definition candidate_is_feasible (e : Engine) (c : Candidate) : bool :=
  retained_selected e c || meets_feasibility e c.

(** A custom algebra cannot make an infinite link reachable or reduce distance. *)
Definition safe_extend (algebra : MetricAlgebra) (advertised link : Z) : Z :=
  if (advertised =? INFINITY) || (link =? INFINITY) || (link =? 0) then INFINITY
  else
    let result := extend algebra advertised link in
    if result <=? advertised then INFINITY else result.
End Sources.
