(* ===== verification/Output.v ===== *)
(** Semantic route advertisements and retractions ([engine/output.rs]). *)
From S2P Require Import Prelude Net Model Metric Wire Api EngineState Sources.
Local Open Scope Z_scope.

Section Output.
Context {NL : IpNetLib} {MI : MetricImpl}.

Definition interface_hello_interval (e : Engine) (interface : string) : Z :=
  match interfaces e !! interface with
  | Some state => ip_hello_interval_cs (ifs_policy state)
  | None => cfg_hello_interval_cs (config e)
  end.

Definition interface_update_interval (e : Engine) (interface : string) : Z :=
  match interfaces e !! interface with
  | Some state => ip_update_interval_cs (ifs_policy state)
  | None => cfg_update_interval_cs (config e)
  end.

(** The first link-local IPv6 address of an interface. *)
Definition link_local_address (addresses : list IpAddr) : option Ipv6Addr :=
  find_map (fun address =>
    match address with
    | IpV6 address => if is_unicast_link_local address then Some address else None
    | IpV4 _ => None
    end) addresses.

Definition advertisement (e : Engine) (interface : string) (key : RouteKey) (router_id : RouterId)
    (seqno metric : Z) : OutboundUpdate :=
  let state := interfaces e !! interface in
  let policy := match state with Some s => ip_ipv4_next_hop (ifs_policy s) | None => NextHopAuto end in
  let ipv4 := s ← state; ipv4_address policy (local_addresses s) in
  let transport := match state with
                   | Some s => control_transport (ifs_policy s)
                   | None => default_transport
                   end in
  let ipv6 := s ← state; link_local_address (local_addresses s) in
  let is_v4 := net_is_ipv4 (destination key) in
  let needs_v6 := negb is_v4 || bool_decide (ipv4 = None) in
  let unavailable :=
    (is_v4 && bool_decide (ipv4 = None) && negb (ipv4_via_ipv6 (config e)))
    || (is_v4 && bool_decide (policy = NextHopIpv4) && bool_decide (ipv4 = None))
    || (bool_decide (transport = TransportIpv4) && needs_v6 && bool_decide (ipv6 = None)) in
  let denied :=
    negb (metric =? INFINITY)
    && negb (announce (cfg_route_policy (config e))
               {| ex_key := key; ex_interface := interface; ex_router_id := router_id;
                  ex_locally_originated := bool_decide (router_id = cfg_router_id (config e)) |}) in
  let metric := if unavailable || denied then INFINITY else metric in
  {| ou_key := Some key;
     ou_router_id := Some router_id;
     ou_seqno := seqno;
     ou_metric := metric;
     ou_interval_cs := interface_update_interval e interface;
     ou_next_hop :=
       if metric =? INFINITY then None
       else if is_v4 && bool_decide (is_Some ipv4) then IpV4 <$> ipv4
       else if bool_decide (transport = TransportIpv4) then IpV6 <$> ipv6
       else None;
     ou_v4_via_v6 := is_v4 && negb (metric =? INFINITY) && bool_decide (ipv4 = None);
     ou_sub_tlvs := [] |}.

Definition finite (u : OutboundUpdate) : bool := negb (ou_metric u =? INFINITY).

Definition update_action_to_candidate (key : RouteKey) (router_id : RouterId) (seqno metric : Z)
    (dest : NeighborKey) (now_ms : Z) : M Action :=
  update ← gets (fun e => advertisement e (nk_interface dest) key router_id seqno metric);
  _ ← (if finite update
       then maintain_source key router_id {| d_seqno := seqno; d_metric := ou_metric update |} now_ms
       else mret tt);
  mret (Send (nk_interface dest) (nk_address dest) (MkOutboundPacket [OUpdate update])
          (urgent now_ms)).

Definition retraction_action (e : Engine) (key : RouteKey) (seqno : Z) (dest : NeighborKey)
    (now_ms : Z) : Action :=
  Send (nk_interface dest) (nk_address dest)
    (MkOutboundPacket [OUpdate {|
       ou_key := Some key; ou_router_id := None; ou_next_hop := None;
       ou_interval_cs := interface_update_interval e (nk_interface dest);
       ou_seqno := seqno; ou_metric := INFINITY; ou_v4_via_v6 := false; ou_sub_tlvs := [] |}])
    (urgent now_ms).

Definition reply_to_route_request (key : RouteKey) (dest : NeighborKey) (now_ms : Z) : M Action :=
  selected ← gets (fun e =>
    match originated e !! key with
    | Some origin => Some (cfg_router_id (config e), o_seqno origin, o_metric origin)
    | None => route ← selected e !! key; Some (sr_router_id route, sr_seqno route, sr_metric route)
    end);
  match selected with
  | Some (router_id, seqno, metric) =>
      update_action_to_candidate key router_id seqno metric dest now_ms
  | None => gets (fun e => retraction_action e key (sequence_number e) dest now_ms)
  end.

(** ** Full and partial updates *)

Definition wanted (only : option RouteKey) (key : RouteKey) : bool :=
  match only with Some k => bool_decide (k = key) | None => true end.

(** One route of [send_updates]: the update, recorded in the source table when
    finite. *)
Definition push_update (interface : string) (key : RouteKey) (router_id : RouterId)
    (seqno metric now_ms : Z) (skip : OutboundUpdate -> bool) (tlvs : list OutboundTlv)
  : M (list OutboundTlv) :=
  update ← gets (fun e => advertisement e interface key router_id seqno metric);
  if skip update then mret tlvs
  else
    _ ← (if finite update
         then maintain_source key router_id {| d_seqno := seqno; d_metric := metric |} now_ms
         else mret tt);
    mret (tlvs ++ [OUpdate update]).

Definition send_origins (interface : string) (only : option RouteKey)
    (origins : list (RouteKey * Originated)) (now_ms : Z) (tlvs : list OutboundTlv)
  : M (list OutboundTlv) :=
  foldM (fun tlvs '(key, origin) =>
    if wanted only key then
      router_id ← gets (fun e => cfg_router_id (config e));
      push_update interface key router_id (o_seqno origin) (o_metric origin) now_ms
        (fun _ => false) tlvs
    else mret tlvs) tlvs origins.

Definition send_selected (interface : string) (split_horizon : bool) (only : option RouteKey)
    (routes : list SelectedRoute) (now_ms : Z) (tlvs : list OutboundTlv) : M (list OutboundTlv) :=
  foldM (fun tlvs route =>
    if wanted only (sr_key route) then
      push_update interface (sr_key route) (sr_router_id route) (sr_seqno route) (sr_metric route)
        now_ms
        (fun update => split_horizon && bool_decide (sr_interface route = interface) && finite update)
        tlvs
    else mret tlvs) tlvs routes.

Definition send_tombstones (interface : string) (only : option RouteKey) (keys : list RouteKey)
    (tlvs : list OutboundTlv) : M (list OutboundTlv) :=
  foldM (fun tlvs key =>
    gets (fun e =>
      if bool_decide (originated e !! key = None) && bool_decide (selected e !! key = None)
         && wanted only key
      then tlvs ++ [OUpdate (advertisement e interface key (cfg_router_id (config e))
                               (sequence_number e) INFINITY)]
      else tlvs)) tlvs keys.

Definition note_full_update (interface : string) (now_ms : Z) : M unit :=
  modify (fun e => set_interfaces
    (alter (set_last_full_update_ms (Some now_ms)) interface (interfaces e)) e).

(** The closure of [send_updates] for one interface. *)
Definition interface_updates (now_ms : Z) (only : option RouteKey) (timing : option SendTiming)
    (origins : list (RouteKey * Originated)) (routes : list SelectedRoute) (keys : list RouteKey)
    (interface : string) : M (list Action) :=
  state ← gets (fun e => interfaces e !! interface);
  match state with
  | None => mret []
  | Some state =>
      let policy := ifs_policy state in
      let send_timing := default (triggered now_ms (ip_hello_interval_cs policy)) timing in
      tlvs ← send_origins interface only origins now_ms [];
      tlvs ← send_selected interface (split_horizon policy) only routes now_ms tlvs;
      tlvs ← send_tombstones interface only keys tlvs;
      _ ← (if bool_decide (only = None) && bool_decide (tlvs <> [])
           then note_full_update interface now_ms else mret tt);
      if bool_decide (tlvs <> []) then
        state ← gets (fun e => interfaces e !! interface);
        state ← expect state;
        mret [Send interface (multicast_group (control_transport (ifs_policy state)))
                (MkOutboundPacket tlvs) send_timing]
      else mret []
  end.

(** The routes [send_updates] walks, for one key or for all. *)
Definition only_entries {V} (only : option RouteKey) (m : gmap RouteKey V) : list (RouteKey * V) :=
  match only with
  | Some key => match m !! key with Some v => [(key, v)] | None => [] end
  | None => btree_iter m
  end.

Definition send_updates (now_ms : Z) (only : option RouteKey) (interface : option string)
    (timing : option SendTiming) : M (list Action) :=
  names ← gets (fun e => match interface with
                         | Some v => [v]
                         | None => btree_keys (interfaces e)
                         end);
  origins ← gets (fun e => only_entries only (originated e));
  routes ← gets (fun e => (only_entries only (selected e)).*2);
  keys ← gets (fun e => (only_entries only (tombstones e)).*1);
  for_actions names (interface_updates now_ms only timing origins routes keys).

Definition full_update_request_allowed (e : Engine) (interface : string) (now_ms : Z) : bool :=
  let suppression_ms := interface_hello_interval e interface * 10 in
  match (state ← interfaces e !! interface; last_full_update_ms state) with
  | Some last => suppression_ms <=? saturating_sub now_ms last
  | None => true
  end.

Definition send_retraction (e : Engine) (key : RouteKey) (seqno now_ms : Z) : list Action :=
  (fun '(interface, state) =>
     Send interface (multicast_group (control_transport (ifs_policy state)))
       (MkOutboundPacket [OUpdate {|
          ou_key := Some key; ou_router_id := Some (cfg_router_id (config e)); ou_next_hop := None;
          ou_interval_cs := ip_update_interval_cs (ifs_policy state);
          ou_seqno := seqno; ou_metric := INFINITY; ou_v4_via_v6 := false; ou_sub_tlvs := [] |}])
       (urgent now_ms)) <$> btree_iter (interfaces e).

Definition advertise_learned (e : Engine) (route : SelectedRoute) (metric : Z)
    (learned_interface : option string) (now_ms : Z) : list Action :=
  omap (fun '(interface, state) =>
    let update := advertisement e interface (sr_key route) (sr_router_id route) (sr_seqno route) metric in
    if split_horizon (ifs_policy state) && bool_decide (learned_interface = Some interface)
       && finite update
    then None
    else Some (Send interface (multicast_group (control_transport (ifs_policy state)))
                 (MkOutboundPacket [OUpdate update]) (urgent now_ms)))
    (btree_iter (interfaces e)).
End Output.
