(* ===== verification/Rib.v ===== *)
(** Candidate admission, feasibility and route selection ([engine/rib.rs]), with
    the advertisement bookkeeping of [engine.rs] it uses. *)
From S2P Require Import Prelude Net Model Metric Wire Api EngineState Sources Output.
Local Open Scope Z_scope.

Section Rib.
Context {NL : IpNetLib} {MI : MetricImpl} {HO : HashOrder}.

(** * Advertisement bookkeeping (engine.rs) *)

Definition repeat_advertisement (key : RouteKey) (now_ms : Z) : M unit :=
  modify (fun e => set_pending_advertisements
    (<[key := (saturating_add64 now_ms 1000, 2)]> (pending_advertisements e)) e).

Definition longest_update_interval (e : Engine) : Z :=
  default (cfg_update_interval_cs (config e))
    (max_list ((fun state => ip_update_interval_cs (ifs_policy state)) <$> btree_values (interfaces e))).

Definition hold_withdrawal (key : RouteKey) (now_ms : Z) : M unit :=
  modify (fun e => set_tombstones
    (<[key := Z.max (saturating_add64 now_ms (longest_update_interval e * 35))
                (default 0 (advertised_until e !! key))]> (tombstones e)) e).

Definition selected_routes (e : Engine) : list SelectedRoute := btree_values (selected e).
Definition unreachable_routes (e : Engine) : list RouteKey := btree_keys (tombstones e).

Definition route_snapshot : M Action :=
  _ ← modify (fun e => set_generation (wrapping_add64 (generation e) 1) e);
  gets (fun e => RoutesChanged (generation e) (selected_routes e) (unreachable_routes e)).

(** * Received updates *)

Definition forbidden_destination (destination : IpNet) : bool :=
  match destination with
  | NetV4 prefix =>
      let network := v4net_addr (v4net_trunc prefix) in
      ((v4net_plen prefix =? 32)
       && (bool_decide (network = ipv4 0 0 0 0) || bool_decide (network = ipv4 127 0 0 1)))
      || ((8 <=? v4net_plen prefix) && (octet (arr_list (v4_octets network)) 0 =? 224))
  | NetV6 prefix =>
      let octets := arr_list (v6_octets (v6net_addr (v6net_trunc prefix))) in
      ((8 <=? v6net_plen prefix) && (octet octets 0 =? 0xff))
      || ((64 <=? v6net_plen prefix)
          && bool_decide (take 8 octets = map b8 [0xfe; 0x80; 0; 0; 0; 0; 0; 0]))
  end.

Definition is_live (c : Candidate) : bool :=
  negb (c_advertised_metric c =? INFINITY) || negb (c_metric c =? INFINITY).

(** A wildcard retraction: every candidate of the neighbour. *)
Definition retract_neighbour (neighbour_key : NeighborKey) : M bool :=
  changed ← gets (fun e => existsb (fun '((_, n), c) => bool_decide (n = neighbour_key) && is_live c)
                             (hm_iter (candidates e)));
  _ ← modify (fun e => set_candidates
        (map_imap (fun k c => Some (if bool_decide (k.2 = neighbour_key) then retracted c else c))
           (candidates e)) e);
  mret changed.

Definition retract_candidate (candidate_key : RouteKey * NeighborKey) : M bool :=
  changed ← gets (fun e => match candidates e !! candidate_key with
                           | Some c => is_live c
                           | None => false
                           end);
  _ ← modify (fun e => set_candidates (alter retracted candidate_key (candidates e)) e);
  mret changed.

(** [neighbours.get_mut(key)] to update an entry known to exist. *)
Definition with_neighbour (key : NeighborKey) (f : Neighbor -> option Neighbor) : M unit :=
  neighbour ← gets (fun e => neighbours e !! key);
  neighbour ← expect neighbour;
  neighbour ← expect (f neighbour);
  modify (fun e => set_neighbours (<[key := neighbour]> (neighbours e)) e).

(** [candidates -= 1] on a [usize]. *)
Definition drop_candidate (n : Neighbor) : option Neighbor :=
  match nb_candidates n with
  | O => None
  | S k => Some (set_nb_candidates k n)
  end.

(** The import policy refused the update: forget what it replaces. *)
Definition reject_import (candidate_key : RouteKey * NeighborKey) : M bool :=
  removed ← gets (fun e => bool_decide (is_Some (candidates e !! candidate_key)));
  _ ← modify (fun e => set_candidates (delete candidate_key (candidates e)) e);
  _ ← (if removed : bool then with_neighbour candidate_key.2 drop_candidate else mret tt);
  mret removed.

(** Which limit, if any, a new candidate of [neighbour] would exceed. *)
Inductive Refusal := PerNeighbor | Global.

Definition refusal (e : Engine) (neighbour : Neighbor) : option Refusal :=
  if (max_candidates_per_neighbor (cfg_limits (config e)) <=? nb_candidates neighbour)%nat
  then Some PerNeighbor
  else if (max_candidates (cfg_limits (config e)) <=? size (candidates e))%nat then Some Global
  else None.

Definition count_refusal (r : Refusal) (s : ResourceStatus) : ResourceStatus :=
  {| rs_limits := rs_limits s; rs_candidates := rs_candidates s; rs_sources := rs_sources s;
     rs_pending_requests := rs_pending_requests s; rs_unreachable := rs_unreachable s;
     rejected_neighbors := rejected_neighbors s;
     rejected_candidates_global :=
       match r with
       | Global => saturating_add64 (rejected_candidates_global s) 1
       | PerNeighbor => rejected_candidates_global s
       end;
     rejected_candidates_per_neighbor :=
       match r with
       | PerNeighbor => saturating_add64 (rejected_candidates_per_neighbor s) 1
       | Global => rejected_candidates_per_neighbor s
       end |}.

Definition refuse_candidate (neighbour_key : NeighborKey) (r : Refusal) : M unit :=
  _ ← modify (fun e => set_resources (count_refusal r (resources e)) e);
  with_neighbour neighbour_key (fun n =>
    Some (set_nb_rejected_candidates (saturating_add64 (nb_rejected_candidates n) 1) n)).

Definition request_spec (key : RouteKey) (router_id : RouterId) (fd : Distance)
    (next_hop : NeighborKey) : SeqnoRequestSpec :=
  {| rq_key := key; rq_router_id := router_id; rq_seqno := wrapping_add16 (d_seqno fd) 1;
     rq_hop_count := REQUEST_HOP_COUNT; rq_next_hop := next_hop; rq_requester := None |}.

(** Pending requests a feasible update satisfies: answered, then remembered. *)
Definition satisfy_request (key : RouteKey) (router_id : RouterId) (seqno metric now_ms : Z)
    (actions : list Action) (pending_key : RouteKey * RouterId) : M (list Action) :=
  pending ← gets (fun e => pending_seqno e !! pending_key);
  match pending with
  | None => mret actions
  | Some pending =>
      _ ← modify (fun e => set_pending_seqno (delete pending_key (pending_seqno e)) e);
      reply ← match pq_requester pending with
              | Some requester =>
                  action ← update_action_to_candidate key router_id seqno metric requester now_ms;
                  mret [action]
              | None => mret []
              end;
      _ ← modify (fun e => set_recent_seqno
            (<[pending_key := (pq_seqno pending, saturating_add64 now_ms RECENT_REQUEST_MS)]>
               (recent_seqno e)) e);
      mret (actions ++ reply)
  end.

Definition satisfied_by (key : RouteKey) (router_id : RouterId) (seqno : Z)
    (p : (RouteKey * RouterId) * PendingSeqnoRequest) : bool :=
  let '((pending_key, pending_router), pending) := p in
  bool_decide (pending_key = key)
  && (bool_decide (pending_router <> router_id) || (pq_seqno pending =? seqno)
      || seqno_gt seqno (pq_seqno pending)).

Definition satisfy_requests (key : RouteKey) (router_id : RouterId) (seqno metric now_ms : Z)
  : M (list Action) :=
  satisfied ← gets (fun e =>
    (List.filter (satisfied_by key router_id seqno) (hm_iter (pending_seqno e))).*1);
  foldM (satisfy_request key router_id seqno metric now_ms) [] satisfied.

(** An unselected infeasible route warrants a request when it could improve the
    current path. *)
Definition request_improvement (key : RouteKey) (router_id : RouterId) (metric : Z)
    (fd : option Distance) (neighbour_key : NeighborKey) (now_ms : Z) : M (list Action) :=
  wanted ← gets (fun e =>
    bool_decide (pending_seqno e !! (key, router_id) = None)
    && match selected e !! key with Some s => metric <? sr_metric s | None => true end);
  match fd with
  | Some fd =>
      if wanted : bool
      then originate_seqno_request (request_spec key router_id fd neighbour_key) now_ms
      else mret []
  | None => mret []
  end.

(** Insert the candidate; whether a selection input changed. *)
Definition install_candidate (neighbour_key : NeighborKey) (is_new : bool) (c : Candidate) : M bool :=
  _ ← (if is_new
       then with_neighbour neighbour_key (fun n => Some (set_nb_candidates (S (nb_candidates n)) n))
       else mret tt);
  changed ← gets (fun e =>
    match candidates e !! (c_key c, neighbour_key) with
    | Some old =>
        bool_decide (c_router_id old <> c_router_id c) || negb (c_seqno old =? c_seqno c)
        || negb (c_metric old =? c_metric c)
        || negb (c_advertised_metric old =? c_advertised_metric c)
        || bool_decide (c_next_hop old <> c_next_hop c)
    | None => true
    end);
  _ ← modify (fun e => set_candidates (<[(c_key c, neighbour_key) := c]> (candidates e)) e);
  mret changed.

Definition import_context (key : RouteKey) (neighbour_key : NeighborKey) (next_hop : IpAddr)
    (router_id : RouterId) (seqno advertised_metric : Z) : ImportContext :=
  {| im_key := key; im_interface := nk_interface neighbour_key;
     im_neighbor := nk_address neighbour_key; im_next_hop := next_hop; im_router_id := router_id;
     im_seqno := seqno; im_advertised_metric := advertised_metric |}.

(** The tail of [receive_update]: an accepted update within the limits. *)
Definition admit_update (neighbour_key : NeighborKey) (key : RouteKey) (router_id : RouterId)
    (next_hop : IpAddr) (update : ResolvedUpdate) (is_new : bool) (neighbour : Neighbor) (now_ms : Z)
  : M (bool * list Action) :=
  metric ← gets (fun e => safe_extend (metric_algebra (config e)) (ru_metric update)
                            (link_cost (nb_metric neighbour)));
  if negb (metric =? INFINITY) && (metric <=? ru_metric update) then mret (false, [])
  else
    let distance := {| d_seqno := ru_seqno update; d_metric := ru_metric update |} in
    fd ← gets (fun e => s_distance <$> feasible e !! (key, router_id));
    let is_feasible := match fd with Some fd => feasible_against distance fd | None => true end in
    is_selected ← gets (fun e =>
      match selected e !! key with
      | Some s => same_route s router_id (nk_interface neighbour_key) next_hop
      | None => false
      end);
    if negb is_feasible && is_selected then
      actions ← match fd with
                | Some fd => originate_seqno_request (request_spec key router_id fd neighbour_key) now_ms
                | None => mret []
                end;
      mret (false, actions)
    else
      actions ← (if is_feasible
                 then satisfy_requests key router_id (ru_seqno update) metric now_ms
                 else request_improvement key router_id metric fd neighbour_key now_ms);
      changed ← install_candidate neighbour_key is_new
        {| c_key := key; c_router_id := router_id; c_seqno := ru_seqno update;
           c_advertised_metric := ru_metric update; c_metric := metric; c_next_hop := next_hop;
           c_interface := nk_interface neighbour_key; c_interval_cs := ru_interval_cs update;
           c_expires_ms := saturating_add64 now_ms (ru_interval_cs update * 35);
           c_refresh_requested := false |};
      mret (changed, actions).

(** A finite update with a router-id and a next hop. *)
Definition receive_route (neighbour_key : NeighborKey) (key : RouteKey) (router_id : RouterId)
    (next_hop : IpAddr) (update : ResolvedUpdate) (now_ms : Z) : M (bool * list Action) :=
  neighbour ← gets (fun e => neighbours e !! neighbour_key);
  match neighbour with
  | None => mret (false, [])
  | Some neighbour =>
      accepted ← gets (fun e => accept (cfg_route_policy (config e))
        (import_context key neighbour_key next_hop router_id (ru_seqno update) (ru_metric update)));
      if negb accepted then
        removed ← reject_import (key, neighbour_key); mret (removed, [])
      else
        is_new ← gets (fun e => bool_decide (candidates e !! (key, neighbour_key) = None));
        refused ← gets (fun e => if is_new : bool then refusal e neighbour else None);
        match refused with
        | Some r => _ ← refuse_candidate neighbour_key r; mret (false, [])
        | None => admit_update neighbour_key key router_id next_hop update is_new neighbour now_ms
        end
  end.

Definition receive_update (neighbour_key : NeighborKey) (update : ResolvedUpdate) (now_ms : Z)
  : M (bool * list Action) :=
  match ru_key update with
  | None =>
      changed ← (if ru_metric update =? INFINITY then retract_neighbour neighbour_key else mret false);
      mret (changed, [])
  | Some key =>
      if forbidden_destination (destination key) then mret (false, [])
      else if ru_metric update =? INFINITY then
        changed ← retract_candidate (key, neighbour_key); mret (changed, [])
      else
        match ru_router_id update with
        | None => mret (false, [])
        | Some router_id =>
            own ← gets (fun e => bool_decide (router_id = cfg_router_id (config e)));
            if own : bool then mret (false, [])
            else
              match ru_next_hop update with
              | None => mret (false, [])
              | Some next_hop =>
                  unusable ← gets (fun e => net_is_ipv4 (destination key) && is_ipv6 next_hop
                                            && negb (ipv4_via_ipv6 (config e)));
                  if unusable : bool then mret (false, [])
                  else receive_route neighbour_key key router_id next_hop update now_ms
              end
        end
  end.

(** * Link-cost changes *)

Definition recompute_candidate_metrics (only : option NeighborKey) : M bool :=
  algebra ← gets (fun e => metric_algebra (config e));
  costs ← gets (fun e => fun key : NeighborKey =>
    if match only with Some wanted => bool_decide (wanted = key) | None => true end
    then (fun n => link_cost (nb_metric n)) <$> neighbours e !! key else None);
  let recomputed (k : RouteKey * NeighborKey) (c : Candidate) : Candidate :=
    match costs k.2 with
    | Some cost => set_c_metric (safe_extend algebra (c_advertised_metric c) cost) c
    | None => c
    end in
  changed ← gets (fun e => existsb (fun '(k, c) => negb (c_metric c =? c_metric (recomputed k c)))
                             (hm_iter (candidates e)));
  _ ← modify (fun e => set_candidates (map_imap (fun k c => Some (recomputed k c)) (candidates e)) e);
  mret changed.

(** * Route selection *)

Definition candidate_order (left right : Candidate) : comparison :=
  cmp (c_metric left, c_router_id left, c_interface left, c_next_hop left)
      (c_metric right, c_router_id right, c_interface right, c_next_hop right).

Definition same_candidate (left right : Candidate) : bool :=
  bool_decide (c_router_id left = c_router_id right)
  && bool_decide (c_next_hop left = c_next_hop right)
  && bool_decide (c_interface left = c_interface right).

Definition metric_improvement_is_significant (better_metric worse_metric : Z)
    (policy : RouteSelectionConfig) : bool :=
  let improvement := saturating_sub worse_metric better_metric in
  let percentage := Z.min (div_ceil (worse_metric * switch_margin_percent policy) 100) u16_max in
  (Z.max (switch_margin_metric policy) percentage <=? improvement) && (0 <? improvement).

Definition sufficiently_better (candidate current : Candidate) (policy : RouteSelectionConfig) : bool :=
  metric_improvement_is_significant (c_metric candidate) (c_metric current) policy.

Definition selected_from_candidate (route : Candidate) : SelectedRoute :=
  {| sr_key := c_key route; sr_router_id := c_router_id route; sr_seqno := c_seqno route;
     sr_metric := c_metric route; sr_next_hop := c_next_hop route; sr_interface := c_interface route |}.

(** Usable candidates by destination, in the order the table is walked. *)
Definition usable (e : Engine) (c : Candidate) : bool :=
  (c_metric c <? INFINITY) && candidate_is_feasible e c.

Definition group_candidate (grouped : gmap RouteKey (list Candidate)) (c : Candidate)
  : gmap RouteKey (list Candidate) :=
  <[c_key c := default [] (grouped !! c_key c) ++ [c]]> grouped.

Definition group_candidates (e : Engine) : gmap RouteKey (list Candidate) :=
  fold_left group_candidate (List.filter (usable e) (hm_iter (candidates e)).*2) ∅.

(** The candidate that carries the route selected before. *)
Definition current_candidate (before : option SelectedRoute) (routes : list Candidate)
  : option Candidate :=
  s ← before;
  List.find (fun route => same_route s (c_router_id route) (c_interface route) (c_next_hop route)) routes.

(** Whether the destination has settled: initial discovery is over. *)
Definition check_settled (key : RouteKey) (now_ms : Z) : M bool :=
  already ← gets (fun e => bool_decide (key ∈ settled_routes e));
  if already : bool then mret true
  else
    since ← gets (fun e => default now_ms (settling_since e !! key));
    _ ← modify (fun e => set_settling_since (<[key := since]> (settling_since e)) e);
    dwell ← gets (fun e => better_for_ms (route_selection (config e)));
    if dwell <=? saturating_sub now_ms since then
      _ ← modify (fun e => set_settled_routes ({[key]} ∪ settled_routes e) e);
      mret true
    else mret false.

Definition forget_switch (key : RouteKey) : M unit :=
  modify (fun e => set_pending_switches (delete key (pending_switches e)) e).
Definition keep_switch (key : RouteKey) (p : PendingSwitch) : M unit :=
  modify (fun e => set_pending_switches (<[key := p]> (pending_switches e)) e).
Definition restart_settling (key : RouteKey) (now_ms : Z) : M unit :=
  modify (fun e => set_settling_since (<[key := now_ms]> (settling_since e)) e).

Definition switch_to (best current : Candidate) (now_ms : Z) : PendingSwitch :=
  {| sw_router_id := c_router_id best; sw_next_hop := c_next_hop best;
     sw_interface := c_interface best; since_ms := now_ms; current_peak_metric := c_metric current |}.

(** The pending switch to [best] after this observation of [current]. *)
Definition observe_switch (pending : option PendingSwitch) (best current : Candidate) (now_ms : Z)
  : PendingSwitch :=
  let p := default (switch_to best current now_ms) pending in
  let p :=
    if bool_decide (sw_router_id p <> c_router_id best)
       || bool_decide (sw_next_hop p <> c_next_hop best)
       || bool_decide (sw_interface p <> c_interface best)
    then switch_to best current now_ms else p in
  {| sw_router_id := sw_router_id p; sw_next_hop := sw_next_hop p; sw_interface := sw_interface p;
     since_ms := since_ms p;
     current_peak_metric := Z.max (current_peak_metric p) (c_metric current) |}.

(** A settled route with a sufficiently better alternative. *)
Definition dwell_on_switch (key : RouteKey) (best current : Candidate) (now_ms : Z) : M Candidate :=
  policy ← gets (fun e => route_selection (config e));
  pending ← gets (fun e => pending_switches e !! key);
  let pending := observe_switch pending best current now_ms in
  let recovered :=
    metric_improvement_is_significant (c_metric current) (current_peak_metric pending) policy in
  let ready := better_for_ms policy <=? saturating_sub now_ms (since_ms pending) in
  if recovered then
    _ ← keep_switch key {| sw_router_id := sw_router_id pending; sw_next_hop := sw_next_hop pending;
                           sw_interface := sw_interface pending; since_ms := now_ms;
                           current_peak_metric := c_metric current |};
    mret current
  else if ready then _ ← forget_switch key; mret best
  else _ ← keep_switch key pending; mret current.

(** One destination of [reselect]. *)
Definition choose_route (before : option SelectedRoute) (key : RouteKey) (routes : list Candidate)
    (now_ms : Z) : M Candidate :=
  let current := current_candidate before routes in
  settled ← check_settled key now_ms;
  best ← expect (min_by candidate_order routes);
  policy ← gets (fun e => route_selection (config e));
  match current with
  | Some current =>
      if same_candidate best current || negb (sufficiently_better best current policy) then
        _ ← forget_switch key; mret current
      else if negb settled then
        _ ← forget_switch key; _ ← restart_settling key now_ms; mret best
      else dwell_on_switch key best current now_ms
  | None =>
      _ ← forget_switch key;
      _ ← (if negb settled then restart_settling key now_ms else mret tt);
      mret best
  end.

Definition choose_routes (before : gmap RouteKey SelectedRoute)
    (grouped : list (RouteKey * list Candidate)) (now_ms : Z) : M (gmap RouteKey SelectedRoute) :=
  foldM (fun next '(key, routes) =>
    chosen ← choose_route (before !! key) key routes now_ms;
    mret (<[key := selected_from_candidate chosen]> next)) ∅ grouped.

(** Hold deadline of a destination that lost its route. *)
Definition hold_deadline (e : Engine) (key : RouteKey) (now_ms : Z) : Z :=
  let expiry := max_list (omap (fun '(_, c) => if bool_decide (c_key c = key)
                                               then Some (c_expires_ms c) else None)
                            (hm_iter (candidates e))) in
  Z.max (Z.max (default now_ms expiry)
           (saturating_add64 now_ms (longest_update_interval e * 35)))
    (default 0 (advertised_until e !! key)).

Definition lost_keys (before : gmap RouteKey SelectedRoute) (e : Engine) : list RouteKey :=
  List.filter (fun key => bool_decide (selected e !! key = None)) (btree_keys before).

(** Tombstones for lost routes, none for selected ones. *)
Definition update_tombstones (before : gmap RouteKey SelectedRoute) (now_ms : Z) : M unit :=
  modify (fun e =>
    let kept := filter (fun '(k, _) => selected e !! k = None) (tombstones e) in
    set_tombstones (fold_left (fun t key => <[key := hold_deadline e key now_ms]> t)
                      (lost_keys before e) kept) e).

(** Switch state only survives for selected destinations. *)
Definition prune_switches : M unit :=
  modify (fun e =>
    let keep {V} (m : gmap RouteKey V) : gmap RouteKey V :=
      filter (fun '(k, _) => is_Some (selected e !! k)) m in
    set_settled_routes (filter (fun k => is_Some (selected e !! k)) (settled_routes e))
      (set_settling_since (keep (settling_since e))
         (set_pending_switches (keep (pending_switches e)) e))).

(** ** Output of a selection change *)

(** An infeasible but reachable candidate to request a new sequence number
    through. *)
Definition request_target (e : Engine) (key : RouteKey) : option NeighborKey :=
  find_map (fun '((k, neighbor), c) =>
    if bool_decide (k = key) && (c_metric c <? INFINITY) && negb (candidate_is_feasible e c)
    then Some neighbor else None) (hm_iter (candidates e)).

Definition announce_loss (targets : RouteKey -> option NeighborKey) (now_ms : Z)
    (actions : list Action) (lost : RouteKey * SelectedRoute) : M (list Action) :=
  let '(key, previous) := lost in
  gone ← gets (fun e => bool_decide (selected e !! key = None));
  if gone : bool then
    _ ← repeat_advertisement key now_ms;
    retractions ← gets (fun e => send_retraction e key (sr_seqno previous) now_ms);
    requested_seqno ← gets (fun e =>
      match feasible e !! (key, sr_router_id previous) with
      | Some source => wrapping_add16 (d_seqno (s_distance source)) 1
      | None => wrapping_add16 (sr_seqno previous) 1
      end);
    idle ← gets (fun e => bool_decide (pending_seqno e !! (key, sr_router_id previous) = None));
    requests ← match targets key with
               | Some next_hop =>
                   if idle : bool then
                     originate_seqno_request
                       {| rq_key := key; rq_router_id := sr_router_id previous;
                          rq_seqno := requested_seqno; rq_hop_count := REQUEST_HOP_COUNT;
                          rq_next_hop := next_hop; rq_requester := None |} now_ms
                   else mret []
               | None => mret []
               end;
    mret (actions ++ retractions ++ requests)
  else mret actions.

(** Changes of a selected route worth a triggered update. *)
Definition significant_change (old : option SelectedRoute) (selected : SelectedRoute) : bool :=
  match old with
  | None => true
  | Some old =>
      bool_decide (sr_router_id old <> sr_router_id selected)
      || (96 <=? abs_diff (sr_metric old) (sr_metric selected))
      || (Z.max (sr_metric old) 1 <=? abs_diff (sr_metric old) (sr_metric selected) * 4)
  end.

Definition make_urgent (now_ms : Z) (action : Action) : Action :=
  match action with
  | Send interface dest packet _ => Send interface dest packet (urgent now_ms)
  | _ => action
  end.

Definition tlv_is_finite_update (tlv : OutboundTlv) : bool :=
  match tlv with OUpdate update => finite update | _ => false end.
Definition sends_finite_update (action : Action) : bool :=
  match action with
  | Send _ _ packet _ => existsb tlv_is_finite_update (out_tlvs packet)
  | _ => false
  end.

Definition announce_change (before : gmap RouteKey SelectedRoute) (now_ms : Z)
    (actions : list Action) (route : SelectedRoute) : M (list Action) :=
  _ ← repeat_advertisement (sr_key route) now_ms;
  advertisements ← gets (fun e =>
    advertise_learned e route (sr_metric route) (Some (sr_interface route)) now_ms);
  let advertisements :=
    if match before !! sr_key route with
       | Some previous => bool_decide (sr_router_id previous <> sr_router_id route)
       | None => true
       end
    then make_urgent now_ms <$> advertisements else advertisements in
  _ ← (if existsb sends_finite_update advertisements
       then maintain_source (sr_key route) (sr_router_id route)
              {| d_seqno := sr_seqno route; d_metric := sr_metric route |} now_ms
       else mret tt);
  mret (actions ++ advertisements).

Definition selected_delta (before : gmap RouteKey SelectedRoute) (now_ms : Z) : M (list Action) :=
  targets ← gets request_target;
  actions ← foldM (announce_loss targets now_ms) [] (btree_iter before);
  changed ← gets (fun e =>
    (List.filter (fun '(key, s) => significant_change (before !! key) s) (btree_iter (selected e))).*2);
  foldM (announce_change before now_ms) actions changed.

Definition reselect (now_ms : Z) : M (list Action) :=
  before ← gets selected;
  before_tombstones ← gets unreachable_routes;
  grouped ← gets (fun e => btree_iter (group_candidates e));
  next ← choose_routes before grouped now_ms;
  _ ← modify (set_selected next);
  _ ← update_tombstones before now_ms;
  _ ← prune_switches;
  changed ← gets (fun e => bool_decide (selected e <> before)
                           || bool_decide (unreachable_routes e <> before_tombstones));
  if changed : bool then
    snapshot ← route_snapshot;
    delta ← selected_delta before now_ms;
    mret (snapshot :: delta)
  else mret [].
End Rib.
