(* ===== verification/Deadlines.v ===== *)
(** Deadline arithmetic of [engine/timers.rs]: periodic windows, RTT probe
    scheduling and Hello timers, which catch up without drift. *)
From S2P Require Import Prelude Net Model Metric Wire Api EngineState.
Import Hello.
Local Open Scope Z_scope.

Definition periodic_window_open (now_ms deadline_ms : Z) : bool :=
  deadline_ms <=? saturating_add64 now_ms MAX_TRIGGERED_JITTER_MS.

Definition next_periodic_deadline (deadline_ms now_ms interval_cs : Z) : Z :=
  let interval_ms := saturating_mul64 interval_cs 10 in
  let anchored := saturating_add64 deadline_ms interval_ms in
  if now_ms <? anchored then anchored else saturating_add64 now_ms interval_ms.

(** [now_ms.wrapping_mul(1_000) as u32]. *)
Definition timestamp_us (now_ms : Z) : Z := wrapping_mul64 now_ms 1000 mod 4294967296.

Definition string_bytes (s : string) : list byte := String.list_byte_of_string s.

(** FNV-1a. *)
Definition fnv_step (value : Z) (b : byte) : Z :=
  wrapping_mul64 (Z.lxor value (u8 b)) 0x100000001b3.
Definition probe_salt (key : NeighborKey) (seqno : Z) : Z :=
  fold_left fnv_step
    (string_bytes (nk_interface key) ++ addr_to_string (nk_address key) ++ to_be16 seqno)
    0xcbf29ce484222325.

Definition initial_probe_deadline (now_ms interval_ms : Z) (key : NeighborKey) : Z :=
  let spread := Z.max 1 (Z.min interval_ms 200) in
  saturating_add64 now_ms (probe_salt key 0 mod spread).

Definition recurring_probe_deadline (now_ms interval_ms : Z) (key : NeighborKey) (seqno : Z) : Z :=
  let spread := Z.max (interval_ms / 5) 1 in
  let delay := saturating_add64 (saturating_mul64 interval_ms 9 / 10) (probe_salt key seqno mod spread) in
  saturating_add64 now_ms delay.

(** A timer past its expiry records the Hellos missed since.  The sum that
    counts them stays in range: timers are only set for announced intervals,
    which are not zero, so the quotient is at most [u64_max / 10]. *)
Definition advance_hello_timer (timer : option HelloTimer) (history : HelloHistory) (now_ms : Z)
  : option HelloTimer * HelloHistory :=
  match timer with
  | None => (None, history)
  | Some value =>
      if now_ms <? next_expiry_ms value then (Some value, history)
      else
        let interval_ms := Z.max (saturating_mul64 (ht_interval_cs value) 10) 1 in
        let missed := 1 + saturating_sub now_ms (next_expiry_ms value) / interval_ms in
        (Some {| ht_interval_cs := ht_interval_cs value;
                 next_expiry_ms := saturating_add64 (next_expiry_ms value)
                                     (saturating_mul64 missed interval_ms) |},
         missed_many history missed)
  end.

(** * Timers catch up without drift, periodic output keeps its phase, and send
    times stay within their deadline *)

(** A Hello timer that expired is advanced past the current time in whole
    intervals, so it keeps its phase, and records one miss for every expiry up
    to now: the new expiry is later than now by at most one interval.  A timer
    that has not expired is left alone. *)
Theorem hello_timer_catches_up t h now :
  in_u16 (ht_interval_cs t) -> 0 <= next_expiry_ms t -> 0 <= now ->
  now + ht_interval_cs t * 10 + 10 <= u64_max ->
  let step := Z.max (ht_interval_cs t * 10) 1 in
  (now < next_expiry_ms t -> advance_hello_timer (Some t) h now = (Some t, h)) /\
  (next_expiry_ms t <= now ->
   exists missed t', advance_hello_timer (Some t) h now = (Some t', missed_many h missed) /\
     1 <= missed /\ ht_interval_cs t' = ht_interval_cs t /\
     next_expiry_ms t' = next_expiry_ms t + missed * step /\
     now < next_expiry_ms t' <= now + step).
Proof.
  intros Hi He Hn Hb step. unfold in_u16, u64_max in *. unfold advance_hello_timer. split.
  - intros H. by rewrite (proj2 (Z.ltb_lt _ _) H).
  - intros H. rewrite (proj2 (Z.ltb_ge _ _) H).
    assert (saturating_mul64 (ht_interval_cs t) 10 = ht_interval_cs t * 10) as ->
      by (unfold saturating_mul64, u64_max; lia).
    fold step. assert (1 <= step <= ht_interval_cs t * 10 + 1) as Hs by lia.
    unfold saturating_sub. rewrite Z.max_r by lia. set (missed := 1 + (now - next_expiry_ms t) / step).
    pose proof (Z.div_mod (now - next_expiry_ms t) step ltac:(lia)) as Hd.
    pose proof (Z.mod_pos_bound (now - next_expiry_ms t) step ltac:(lia)) as Hm.
    pose proof (Z.div_pos (now - next_expiry_ms t) step ltac:(lia) ltac:(lia)) as Hp.
    assert (missed * step = now - next_expiry_ms t - (now - next_expiry_ms t) mod step + step) as Hms
      by (unfold missed; lia).
    assert (saturating_mul64 missed step = missed * step) as Hsat
      by (unfold saturating_mul64, u64_max; lia).
    eexists missed, _. split; [reflexivity|]. simpl. rewrite Hsat. split; [lia|]. split; [done|].
    unfold saturating_add64, u64_max. lia.
Qed.

(** The next periodic deadline lies after both now and the previous one; while
    the schedule is kept it is exactly one interval after the previous deadline,
    and a missed schedule restarts one interval from now. *)
Theorem periodic_deadline_keeps_phase deadline now interval_cs :
  0 <= deadline -> 0 <= now -> 1 <= interval_cs <= 65535 ->
  Z.max deadline now + interval_cs * 10 <= u64_max ->
  let next := next_periodic_deadline deadline now interval_cs in
  now < next /\ deadline < next /\ next <= Z.max deadline now + interval_cs * 10 /\
  (now < deadline + interval_cs * 10 -> next = deadline + interval_cs * 10) /\
  (deadline + interval_cs * 10 <= now -> next = now + interval_cs * 10).
Proof.
  unfold u64_max. intros Hd Hn Hi Hb. unfold next_periodic_deadline, saturating_mul64, saturating_add64, u64_max.
  rewrite !Z.min_l by lia. destruct (Z.ltb_spec now (deadline + interval_cs * 10)); lia.
Qed.

(** Delivery constraints: whatever kind of timing the engine asks for, a packet
    delayed by the whole permitted jitter is still on time, unless its deadline
    had already passed, in which case no jitter is permitted. *)
Theorem send_timing_within_deadline now deadline interval_cs t :
  in_u64 now -> now + 327675 <= u64_max -> in_u64 deadline -> in_u16 interval_cs ->
  t ∈ [immediate now; urgent now; triggered now interval_cs; by_deadline now deadline] ->
  0 <= max_jitter_ms t /\ (now + max_jitter_ms t <= deadline_ms t \/ (deadline_ms t < now /\ max_jitter_ms t = 0)).
Proof.
  unfold in_u64, in_u16, u64_max. intros Hn Hb Hd Hi.
  rewrite !elem_of_cons, elem_of_nil. intros [->|[->|[->|[->|[]]]]]; simpl;
    unfold saturating_add64, saturating_mul64, saturating_sub, URGENT_TIMEOUT_MS, MAX_TRIGGERED_JITTER_MS, u64_max; lia.
Qed.

(** * Witnesses *)

Lemma hello_timer_catches_up_witness :
  exists missed t', advance_hello_timer (Some (MkHelloTimer 400 6000)) default_history 15000
    = (Some t', missed_many default_history missed) /\ missed = 3 /\ next_expiry_ms t' = 18000.
Proof.
  destruct (hello_timer_catches_up (MkHelloTimer 400 6000) default_history 15000) as [_ H];
    [unfold in_u16; simpl; lia|simpl; lia|lia|unfold u64_max; simpl; lia|].
  destruct (H ltac:(simpl; lia)) as (missed & t' & E & H1 & H2 & H3 & H4). exists missed, t'.
  simpl in H3, H4. split; [exact E|]. lia.
Defined.

Lemma periodic_deadline_keeps_phase_witness : 1050 < next_periodic_deadline 1000 1050 400 <= 5050.
Proof.
  pose proof (periodic_deadline_keeps_phase 1000 1050 400 ltac:(lia) ltac:(lia) ltac:(lia)
    ltac:(unfold u64_max; lia)) as H. cbv zeta in H. lia.
Defined.

Lemma send_timing_within_deadline_witness :
  1000 + max_jitter_ms (triggered 1000 400) <= deadline_ms (triggered 1000 400).
Proof.
  destruct (send_timing_within_deadline 1000 5000 400 (triggered 1000 400)) as [_ [H|[H _]]];
    [unfold in_u64, u64_max; lia|unfold u64_max; lia|unfold in_u64, u64_max; lia|unfold in_u16; lia| |exact H|].
  - apply elem_of_cons. right. apply elem_of_cons. right. apply elem_of_cons. left. reflexivity.
  - vm_compute in H. discriminate H.
Defined.
