(* ===== verification/Neighbors.v ===== *)
(** Neighbour observations, received packets and IHU output
    ([engine/neighbors.rs]), and the seqno requests they answer
    ([engine/sources.rs]). *)
From S2P Require Import Prelude Net Model Metric Wire Api EngineState Deadlines Sources Output Rib.
Import Hello.
Local Open Scope Z_scope.

Section Neighbors.
Context {NL : IpNetLib} {MI : MetricImpl} {HO : HashOrder} {B : Build}.

Definition neighbour_count (e : Engine) : nat := size (neighbours e).

Definition neighbor_status (now_ms : Z) (entry : NeighborKey * Neighbor) : option NeighborStatus :=
  let '(key, n) := entry in
  let m := status (nb_metric n) in
  let h := nb_histories n in
  multicast_received ← received (multicast h) 16;
  unicast_received ← received (unicast h) 16;
  Some {|
    ns_interface := nk_interface key;
    ns_address := nk_address key;
    ns_candidates := nb_candidates n;
    ns_rejected_candidates := nb_rejected_candidates n;
    ns_algorithm := algorithm m;
    hello_received := multicast_received + unicast_received;
    hello_expected := observed (multicast h) + observed (unicast h);
    multicast_hello_history := bits (multicast h);
    unicast_hello_history := bits (unicast h);
    ns_receive_cost := ms_receive_cost m;
    ns_transmit_cost := ms_transmit_cost m;
    ns_link_cost := ms_link_cost m;
    ns_last_rtt_us := ms_last_rtt_us m;
    ns_smoothed_rtt_us := ms_smoothed_rtt_us m;
    ns_rtt_penalty := ms_rtt_penalty m;
    last_hello_age_ms := saturating_sub now_ms (nb_last_hello_ms n)
  |}.

(** [None] is the panic of [received]. *)
Definition neighbour_status (e : Engine) (now_ms : Z) : option (list NeighborStatus) :=
  result ← mapM (neighbor_status now_ms) (hm_iter (neighbours e));
  Some (merge_sort (fun left right =>
    ord_le (ns_interface left, ns_address left) (ns_interface right, ns_address right)) result).

Definition valid_cost (cost : Z) : Z := if cost =? 0 then INFINITY else cost.

Definition ihu_applies (address : option IpAddr) (local_addresses : list IpAddr) : bool :=
  match address with
  | None => true
  | Some value => bool_decide (local_addresses = []) || bool_decide (value ∈ local_addresses)
  end.

Definition timestamp_hello (sub_tlvs : list SubTlv) : option Z :=
  find_map (fun value => match value with TimestampHello t => Some t | _ => None end) sub_tlvs.

Definition timestamp_ihu (sub_tlvs : list SubTlv) : option (Z * Z) :=
  find_map (fun value => match value with
                         | TimestampIhu origin received => Some (origin, received)
                         | _ => None
                         end) sub_tlvs.

Definition MAX_SAMPLE_AGE_US : Z := 180000000.

Definition valid_rtt_sample (now origin peer_sent peer_received : Z) : option Z :=
  let elapsed := wrapping_sub32 now origin in
  let peer_delay := wrapping_sub32 peer_sent peer_received in
  if (elapsed <=? MAX_SAMPLE_AGE_US) && (peer_delay <=? MAX_SAMPLE_AGE_US) && (peer_delay <=? elapsed)
  then Some (elapsed - peer_delay) else None.

(** * IHU output *)

(** The neighbour after an IHU, and what is sent to it. *)
Definition ihu_neighbour (policy : InterfacePolicy) (key : NeighborKey) (n : Neighbor) (now_ms : Z)
    (periodic_deadline : option Z) : Neighbor * list OutboundTlv :=
  let cost := valid_cost (receive_cost (nb_metric n)) in
  let echoed :=
    origin ← nb_origin_timestamp n; received ← nb_receive_timestamp n; Some (origin, received) in
  let interval_cs := saturating_mul16 (ip_hello_interval_cs policy) 3 in
  let n := set_nb_next_ihu_ms
    (match periodic_deadline with
     | None => saturating_add64 now_ms (interval_cs * 10)
     | Some deadline => next_periodic_deadline deadline now_ms interval_cs
     end) n in
  let send_probe := match nb_next_rtt_probe_ms n with Some d => d <=? now_ms | None => false end in
  let n :=
    if send_probe then
      let seqno := wrapping_add16 (nb_unicast_hello_seqno n) 1 in
      set_nb_next_rtt_probe_ms
        ((fun interval => recurring_probe_deadline now_ms interval key seqno)
           <$> rtt_probe_interval_ms (ip_metric policy))
        (set_nb_unicast_hello_seqno seqno n)
    else n in
  let timestamps := timestamps_enabled (ip_metric policy) in
  let send_hello := send_probe || (timestamps && bool_decide (is_Some echoed)) in
  let n :=
    if send_hello && negb send_probe
    then set_nb_unicast_hello_seqno (wrapping_add16 (nb_unicast_hello_seqno n) 1) n else n in
  let hello :=
    if send_hello
    then [OHello true (nb_unicast_hello_seqno n) 0 [TimestampHello (timestamp_us now_ms)]] else [] in
  let sub_tlvs :=
    if timestamps then match echoed with
                       | Some (origin, received) => [TimestampIhu origin received]
                       | None => []
                       end
    else [] in
  (n, hello ++ [OIhu None cost interval_cs sub_tlvs]).

Definition ihu_action (key : NeighborKey) (now_ms : Z) (periodic_deadline : option Z)
  : M (option Action) :=
  state ← gets (fun e => interfaces e !! nk_interface key);
  neighbour ← gets (fun e => neighbours e !! key);
  match state, neighbour with
  | Some state, Some n =>
      let policy := ifs_policy state in
      let '(n, tlvs) := ihu_neighbour policy key n now_ms periodic_deadline in
      _ ← modify (fun e => set_neighbours (<[key := n]> (neighbours e)) e);
      mret (Some (Send (nk_interface key) (nk_address key) (MkOutboundPacket tlvs)
        (match periodic_deadline with
         | None => triggered now_ms (ip_hello_interval_cs policy)
         | Some deadline => by_deadline now_ms deadline
         end)))
  | _, _ => mret None
  end.

(** * Seqno requests *)

Definition forward_order (e : Engine) (left right : (RouteKey * NeighborKey) * Candidate) : comparison :=
  let rank c := (Z.b2z (negb (candidate_is_feasible e c)), c_metric c, c_seqno c) in
  cmp (rank left.2) (rank right.2).

(** The neighbour a request is forwarded to. *)
Definition forward_target (e : Engine) (requester : NeighborKey) (key : RouteKey)
    (router_id : RouterId) : option NeighborKey :=
  (fun entry => entry.1.2) <$>
    min_by (forward_order e)
      (List.filter (fun '((candidate_key, neighbour), candidate) =>
         bool_decide (candidate_key = key) && bool_decide (c_router_id candidate = router_id)
         && bool_decide (neighbour <> requester)) (hm_iter (candidates e))).

(** Not ours to answer: forward once, at a lower hop count. *)
Definition forward_seqno_request (requester : NeighborKey) (key : RouteKey) (seqno hop_count : Z)
    (router_id : RouterId) (now_ms : Z) : M (list Action) :=
  if hop_count <=? 1 then mret []
  else
    duplicate ← gets (fun e => match pending_seqno e !! (key, router_id) with
                               | Some p => (pq_seqno p =? seqno) || seqno_gt (pq_seqno p) seqno
                               | None => false
                               end);
    if duplicate : bool then mret []
    else
      recent ← gets (fun e => match recent_seqno e !! (key, router_id) with
                              | Some (recent, expires) =>
                                  (now_ms <=? expires) && ((recent =? seqno) || seqno_gt recent seqno)
                              | None => false
                              end);
      if recent : bool then mret []
      else
        target ← gets (fun e => forward_target e requester key router_id);
        match target with
        | None => mret []
        | Some next_hop =>
            originate_seqno_request
              {| rq_key := key; rq_router_id := router_id; rq_seqno := seqno;
                 rq_hop_count := hop_count - 1; rq_next_hop := next_hop;
                 rq_requester := Some requester |} now_ms
        end.

(** A request for a route of this router: at most one increment. *)
Definition answer_own_request (key : RouteKey) (origin : Originated) (seqno now_ms : Z)
  : M (list Action) :=
  actions ← (if seqno_gt seqno (o_seqno origin) then
               _ ← bump_sequence_number;
               gets (fun e => [SequenceNumberChanged (sequence_number e)])
             else mret []);
  updates ← send_updates now_ms (Some key) None (Some (urgent now_ms));
  mret (actions ++ updates).

Definition handle_seqno_request (requester : NeighborKey) (key : RouteKey) (seqno hop_count : Z)
    (router_id : RouterId) (now_ms : Z) : M (list Action) :=
  own ← gets (fun e => cfg_router_id (config e));
  origin ← gets (fun e => originated e !! key);
  route ← gets (fun e => selected e !! key);
  if bool_decide (is_Some origin) && bool_decide (router_id <> own) then
    reply ← reply_to_route_request key requester now_ms; mret [reply]
  else
    match match route with
          | Some route =>
              if bool_decide (sr_router_id route <> router_id) || (sr_seqno route =? seqno)
                 || seqno_gt (sr_seqno route) seqno
              then Some route else None
          | None => None
          end with
    | Some route =>
        reply ← update_action_to_candidate (sr_key route) (sr_router_id route) (sr_seqno route)
                  (sr_metric route) requester now_ms;
        mret [reply]
    | None =>
        match origin with
        | Some origin =>
            if bool_decide (router_id = own) then answer_own_request key origin seqno now_ms
            else forward_seqno_request requester key seqno hop_count router_id now_ms
        | None => forward_seqno_request requester key seqno hop_count router_id now_ms
        end
    end.

(** * Received packets *)

Definition fresh_neighbour (profile : MetricProfile) (hello_interval_cs now_ms : Z)
    (key : NeighborKey) : Neighbor := {|
  nb_candidates := 0;
  nb_rejected_candidates := 0;
  nb_last_hello_ms := now_ms;
  nb_histories := default_histories;
  nb_multicast_timer := None;
  nb_unicast_timer := None;
  nb_last_ihu_ms := None;
  nb_last_ihu_cost := None;
  nb_ihu_interval_cs := saturating_mul16 hello_interval_cs 3;
  nb_next_ihu_ms := now_ms;
  nb_next_rtt_probe_ms :=
    (fun interval => initial_probe_deadline now_ms interval key) <$> rtt_probe_interval_ms profile;
  nb_origin_timestamp := None;
  nb_receive_timestamp := None;
  nb_unicast_hello_seqno := 0;
  nb_metric := new_neighbor profile (nk_interface key)
|}.

(** [record] on the history of the Hello's kind. *)
Definition record_hello (h : HelloHistories) (is_unicast : bool) (seqno : Z)
  : option (HelloHistories * HelloHistoryUpdate) :=
  r ← record (if is_unicast then unicast h else multicast h) seqno;
  let '(h', update) := r in
  Some (if is_unicast then MkHelloHistories (multicast h) h' else MkHelloHistories h' (unicast h),
        update).

(** A neighbour that restarted: its state but the counters begins again. *)
Definition restart_neighbour (profile : MetricProfile) (now_ms : Z) (key : NeighborKey)
    (histories : HelloHistories) (n : Neighbor) : Neighbor := {|
  nb_candidates := nb_candidates n;
  nb_rejected_candidates := nb_rejected_candidates n;
  nb_last_hello_ms := nb_last_hello_ms n;
  nb_histories := histories;
  nb_multicast_timer := None;
  nb_unicast_timer := None;
  nb_last_ihu_ms := None;
  nb_last_ihu_cost := None;
  nb_ihu_interval_cs := nb_ihu_interval_cs n;
  nb_next_ihu_ms := now_ms;
  nb_next_rtt_probe_ms :=
    (fun interval => initial_probe_deadline now_ms interval key) <$> rtt_probe_interval_ms profile;
  nb_origin_timestamp := None;
  nb_receive_timestamp := None;
  nb_unicast_hello_seqno := 0;
  nb_metric := new_neighbor profile (nk_interface key)
|}.

Definition set_hello_timer (is_unicast : bool) (interval_cs now_ms : Z) (n : Neighbor) : Neighbor :=
  if interval_cs =? 0 then n
  else
    let timer := Some {| ht_interval_cs := interval_cs;
                         next_expiry_ms := saturating_add64 now_ms (saturating_mul64 interval_cs 15) |} in
    if is_unicast then set_nb_unicast_timer timer n else set_nb_multicast_timer timer n.

(** One Hello: the neighbour afterwards, and whether an IHU is due. *)
Definition process_hello (profile : MetricProfile) (now_ms receive_timestamp : Z) (key : NeighborKey)
    (is_unicast : bool) (seqno interval_cs : Z) (sub_tlvs : list SubTlv) (n : Neighbor)
  : option (Neighbor * bool) :=
  let previous_receive_cost := receive_cost (nb_metric n) in
  n ← (if interval_cs =? 0 then Some n
       else
         r ← record_hello (nb_histories n) is_unicast seqno;
         match r with
         | (_, Restarted) =>
             r ← record_hello default_histories is_unicast seqno;
             Some (restart_neighbour profile now_ms key r.1 n)
         | (histories, Recorded) => Some (set_nb_histories histories n)
         end);
  let n := set_nb_metric (on_hello (nb_metric n) (nb_histories n)) n in
  let n := set_nb_last_hello_ms now_ms n in
  let n := set_hello_timer is_unicast interval_cs now_ms n in
  let n := match timestamp_hello sub_tlvs with
           | Some timestamp => set_nb_receive_timestamp (Some receive_timestamp)
                                 (set_nb_origin_timestamp (Some timestamp) n)
           | None => n
           end in
  count ← received (multicast (nb_histories n)) 16;
  Some (n, negb (receive_cost (nb_metric n) =? previous_receive_cost)
           || (nb_next_ihu_ms n <=? now_ms)
           || (count <? observed (multicast (nb_histories n)))).

(** The Hellos of a packet, in order. *)
Definition receive_hellos (profile : MetricProfile) (hello_interval_cs now_ms receive_timestamp : Z)
    (key : NeighborKey) (tlvs : list Tlv) : M bool :=
  foldM (fun send_ihu tlv =>
    match tlv with
    | THello is_unicast seqno interval_cs sub_tlvs =>
        neighbour ← gets (fun e => default (fresh_neighbour profile hello_interval_cs now_ms key)
                                     (neighbours e !! key));
        r ← expect (process_hello profile now_ms receive_timestamp key is_unicast seqno interval_cs
                      sub_tlvs neighbour);
        _ ← modify (fun e => set_neighbours (<[key := r.1]> (neighbours e)) e);
        mret (send_ihu || r.2)
    | _ => mret send_ihu
    end) false tlvs.

Definition apply_ihu (rxcost interval_cs now_ms : Z) (n : Neighbor) : Neighbor :=
  set_nb_ihu_interval_cs interval_cs
    (set_nb_last_ihu_cost (Some rxcost)
       (set_nb_last_ihu_ms (Some now_ms) (set_nb_metric (on_ihu (nb_metric n) rxcost) n))).

(** The IHUs of a packet that are about this node. *)
Definition receive_ihus (local_addresses : list IpAddr) (now_ms : Z) (key : NeighborKey)
    (tlvs : list Tlv) : M unit :=
  for_each tlvs (fun tlv =>
    match tlv with
    | TIhu address rxcost interval_cs _ =>
        if negb (interval_cs =? 0) && ihu_applies address local_addresses
        then modify (fun e => set_neighbours (alter (apply_ihu rxcost interval_cs now_ms) key
                                                (neighbours e)) e)
        else mret tt
    | _ => mret tt
    end).

(** The RTT sample of a packet: its Hello's send time against the echo. *)
Definition rtt_sample (local_addresses : list IpAddr) (receive_timestamp : Z) (tlvs : list Tlv)
  : option Z :=
  peer_sent ← find_map (fun tlv => match tlv with
                                   | THello _ _ _ subs => timestamp_hello subs
                                   | _ => None
                                   end) tlvs;
  echoed ← find_map (fun tlv => match tlv with
                                | TIhu address _ _ subs =>
                                    if ihu_applies address local_addresses then timestamp_ihu subs
                                    else None
                                | _ => None
                                end) tlvs;
  valid_rtt_sample receive_timestamp echoed.1 peer_sent echoed.2.

Definition receive_rtt (profile : MetricProfile) (sample : option Z) (now_ms : Z) (key : NeighborKey)
  : M unit :=
  match sample with
  | Some sample =>
      if timestamps_enabled profile
      then modify (fun e => set_neighbours
             (alter (fun n => set_nb_metric (on_rtt_sample (nb_metric n) sample now_ms) n) key
                (neighbours e)) e)
      else mret tt
  | None => mret tt
  end.

(** What the TLV loop of [receive] accumulates. *)
Record Received := MkReceived {
  rc_actions : list Action;
  rc_routes_changed : bool;
  rc_router_ids : gset RouteKey
}.

Definition ack_action (interface : string) (dest : IpAddr) (nonce interval_cs now_ms : Z) : Action :=
  Send interface dest (MkOutboundPacket [OAck nonce])
    (by_deadline now_ms (saturating_add64 now_ms (interval_cs * 10))).

(** A finite update that changes the router-id of an existing candidate. *)
Definition changes_router_id (e : Engine) (neighbour_key : NeighborKey) (update : ResolvedUpdate)
  : gset RouteKey :=
  match ru_key update, ru_router_id update with
  | Some key, Some router_id =>
      if (ru_metric update <? INFINITY)
         && match candidates e !! (key, neighbour_key) with
            | Some c => bool_decide (c_router_id c <> router_id)
            | None => false
            end
      then {[key]} else ∅
  | _, _ => ∅
  end.

Definition receive_tlv (interface : string) (address : IpAddr) (neighbour_key : NeighborKey)
    (now_ms : Z) (r : Received) (tlv : Tlv) : M Received :=
  match tlv with
  | TAckRequest nonce interval_cs =>
      mret (MkReceived (rc_actions r ++ [ack_action interface address nonce interval_cs now_ms])
              (rc_routes_changed r) (rc_router_ids r))
  | TUpdate update =>
      ids ← gets (fun e => changes_router_id e neighbour_key update);
      result ← receive_update neighbour_key update now_ms;
      mret (MkReceived (rc_actions r ++ result.2) (rc_routes_changed r || result.1)
              (ids ∪ rc_router_ids r))
  | TRouteRequest key _ =>
      replies ← match key with
                | Some key => reply ← reply_to_route_request key neighbour_key now_ms; mret [reply]
                | None =>
                    allowed ← gets (fun e => full_update_request_allowed e interface now_ms);
                    if allowed : bool
                    then send_updates now_ms None (Some interface) (Some (urgent now_ms))
                    else mret []
                end;
      mret (MkReceived (rc_actions r ++ replies) true (rc_router_ids r))
  | TSeqnoRequest key seqno hop_count router_id _ =>
      replies ← handle_seqno_request neighbour_key key seqno hop_count router_id now_ms;
      mret (MkReceived (rc_actions r ++ replies) true (rc_router_ids r))
  | _ => mret r
  end.

(** Triggered updates for entries whose router-id changed. *)
Definition announce_router_id (now_ms : Z) (actions : list Action) (key : RouteKey) : M (list Action) :=
  known ← gets (fun e => bool_decide (is_Some (originated e !! key))
                         || bool_decide (is_Some (selected e !! key)));
  more ← (if known : bool
          then send_updates now_ms (Some key) None (Some (urgent now_ms))
          else gets (fun e => send_retraction e key (sequence_number e) now_ms));
  mret (actions ++ more).

Definition is_hello_tlv (tlv : Tlv) : bool := match tlv with THello _ _ _ _ => true | _ => false end.

Definition count_rejected_neighbor (s : ResourceStatus) : ResourceStatus :=
  {| rs_limits := rs_limits s; rs_candidates := rs_candidates s; rs_sources := rs_sources s;
     rs_pending_requests := rs_pending_requests s; rs_unreachable := rs_unreachable s;
     rejected_neighbors := saturating_add64 (rejected_neighbors s) 1;
     rejected_candidates_global := rejected_candidates_global s;
     rejected_candidates_per_neighbor := rejected_candidates_per_neighbor s |}.

Definition link_cost_of (e : Engine) (key : NeighborKey) : option Z :=
  (fun n => link_cost (nb_metric n)) <$> neighbours e !! key.

(** An admitted packet: observations first, then the TLVs in order. *)
Definition process_packet (interface : string) (source : IpAddr) (packet : Packet)
    (now_ms receive_timestamp : Z) (state : InterfaceState) (neighbour_key : NeighborKey)
  : M (list Action) :=
  let profile := ip_metric (ifs_policy state) in
  previous_link_cost ← gets (fun e => link_cost_of e neighbour_key);
  send_ihu ← receive_hellos profile (ip_hello_interval_cs (ifs_policy state)) now_ms
               receive_timestamp neighbour_key (tlvs packet);
  _ ← receive_rtt profile (rtt_sample (local_addresses state) receive_timestamp (tlvs packet))
        now_ms neighbour_key;
  _ ← receive_ihus (local_addresses state) now_ms neighbour_key (tlvs packet);
  link_changed ← gets (fun e => bool_decide (previous_link_cost <> link_cost_of e neighbour_key));
  routes_changed ← (if link_changed : bool
                    then recompute_candidate_metrics (Some neighbour_key) else mret false);
  ihu ← (if send_ihu : bool then ihu_action neighbour_key now_ms None else mret None);
  r ← foldM (receive_tlv interface source neighbour_key now_ms)
        (MkReceived (option_list ihu) routes_changed ∅) (tlvs packet);
  reselected ← (if rc_routes_changed r then reselect now_ms else mret []);
  foldM (announce_router_id now_ms) (rc_actions r ++ reselected) (hs_iter (rc_router_ids r)).

Definition receive (interface : string) (source : IpAddr) (packet : Packet)
    (now_ms receive_timestamp : Z) : M (list Action) :=
  state ← gets (fun e => interfaces e !! interface);
  match state with
  | None => mret []
  | Some state =>
      if negb (Bool.eqb (is_ipv4 (multicast_group (control_transport (ifs_policy state))))
                 (is_ipv4 source))
      then mret []
      else
        let neighbour_key := MkNeighborKey interface source in
        full ← gets (fun e =>
          bool_decide (neighbours e !! neighbour_key = None)
          && (max_neighbors (cfg_limits (config e)) <=? size (neighbours e))%nat
          && existsb is_hello_tlv (tlvs packet));
        if full : bool then
          _ ← modify (fun e => set_resources (count_rejected_neighbor (resources e)) e);
          mret []
        else process_packet interface source packet now_ms receive_timestamp state neighbour_key
  end.
End Neighbors.
