(* ===== verification/Timers.v ===== *)
(** Periodic output, expiration and RTT probe scheduling ([engine/timers.rs]). *)
From S2P Require Import Prelude Net Model Metric Wire Api EngineState Deadlines Sources Output Rib Neighbors.
Import Hello.
Local Open Scope Z_scope.

Section Timers.
Context {NL : IpNetLib} {MI : MetricImpl} {HO : HashOrder} {B : Build}.

(** * Expiration *)

(** Account for the Hellos a neighbour missed; whether its receive cost moved. *)
Definition age_neighbour (now_ms : Z) (n : Neighbor) : Neighbor * bool :=
  let previous_receive_cost := receive_cost (nb_metric n) in
  let m := advance_hello_timer (nb_multicast_timer n) (multicast (nb_histories n)) now_ms in
  let u := advance_hello_timer (nb_unicast_timer n) (unicast (nb_histories n)) now_ms in
  let n := set_nb_histories (MkHelloHistories m.2 u.2)
             (set_nb_unicast_timer u.1 (set_nb_multicast_timer m.1 n)) in
  let n := set_nb_metric (on_hello (nb_metric n) (nb_histories n)) n in
  if receive_cost (nb_metric n) =? previous_receive_cost then (n, false)
  else (set_nb_next_ihu_ms now_ms n, true).

Definition neighbours_where (f : Neighbor -> bool) (e : Engine) : gset NeighborKey :=
  dom (filter (fun '(_, n) => f n = true) (neighbours e)).

Definition age_neighbours (now_ms : Z) : M (gset NeighborKey) :=
  changed ← gets (neighbours_where (fun n => snd (age_neighbour now_ms n)));
  _ ← modify (fun e => set_neighbours ((fun n => fst (age_neighbour now_ms n)) <$> neighbours e) e);
  mret changed.

Definition silent (n : Neighbor) : bool :=
  is_empty (multicast (nb_histories n)) && is_empty (unicast (nb_histories n)).

Definition remove_neighbour (key : NeighborKey) : M unit :=
  modify (fun e =>
    set_candidates (filter (fun '(k, _) => snd k <> key) (candidates e))
      (set_neighbours (delete key (neighbours e)) e)).

(** Neighbours without a Hello in their window, with their candidates. *)
Definition expire_neighbours : M bool :=
  expired ← gets (fun e => (List.filter (fun '(_, n) => silent n) (hm_iter (neighbours e))).*1);
  _ ← for_each expired remove_neighbour;
  mret (bool_decide (expired <> [])).

Definition ihu_expired (now_ms : Z) (n : Neighbor) : bool :=
  match nb_last_ihu_ms n with
  | Some last => saturating_add64 last (nb_ihu_interval_cs n * 35) <? now_ms
  | None => false
  end.

Definition forget_ihu (n : Neighbor) : Neighbor :=
  set_nb_metric (on_ihu (nb_metric n) INFINITY)
    (set_nb_last_ihu_cost None (set_nb_last_ihu_ms None n)).

Definition expire_ihus (now_ms : Z) : M (gset NeighborKey) :=
  changed ← gets (neighbours_where (ihu_expired now_ms));
  _ ← modify (fun e => set_neighbours
        ((fun n => if ihu_expired now_ms n then forget_ihu n else n) <$> neighbours e) e);
  mret changed.

(** Retract an expired candidate, remove an expired retraction. *)
Definition expire_candidate (now_ms : Z) (entry : (RouteKey * NeighborKey) * bool) : M unit :=
  let '(key, was_retracted) := entry in
  if was_retracted : bool then
    _ ← modify (fun e => set_candidates (delete key (candidates e)) e);
    neighbour ← gets (fun e => neighbours e !! key.2);
    match neighbour with
    | Some _ => with_neighbour key.2 drop_candidate
    | None => mret tt
    end
  else
    modify (fun e => set_candidates
      (alter (fun route => set_c_expires_ms
                (saturating_add64 now_ms (saturating_mul64 (c_interval_cs route) 35))
                (retracted route)) key (candidates e)) e).

Definition expire_candidates (now_ms : Z) : M bool :=
  expired ← gets (fun e =>
    (fun '(key, route) => (key, c_metric route =? INFINITY)) <$>
      List.filter (fun '(_, route) => c_expires_ms route <? now_ms) (hm_iter (candidates e)));
  _ ← for_each expired (expire_candidate now_ms);
  mret (bool_decide (expired <> [])).

(** A selected route about to expire is asked for once. *)
Definition refresh_due (e : Engine) (now_ms : Z) (key : RouteKey) (c : Candidate) : bool :=
  match selected e !! key with
  | Some route => same_route route (c_router_id c) (c_interface c) (c_next_hop c)
  | None => false
  end
  && (c_metric c <? INFINITY) && negb (c_refresh_requested c)
  && (c_expires_ms c <=? saturating_add64 now_ms (saturating_mul64 (c_interval_cs c) 10)).

Definition refresh_candidates (now_ms : Z) : M (list Action) :=
  actions ← gets (fun e => omap (fun '((key, neighbour), c) =>
    if refresh_due e now_ms key c
    then Some (Send (nk_interface neighbour) (nk_address neighbour)
                 (MkOutboundPacket [ORouteRequest (Some key) []])
                 (triggered now_ms (interface_hello_interval e (nk_interface neighbour))))
    else None) (hm_iter (candidates e)));
  _ ← modify (fun e => set_candidates
        (map_imap (fun k c => Some (if refresh_due e now_ms k.1 c then set_c_refresh_requested true c else c))
           (candidates e)) e);
  mret actions.

(** Expired tombstones, advertisements, sources and recent requests; whether
    tombstones or sources were dropped. *)
Definition expire_tables (now_ms : Z) : M bool :=
  expired_tombstones ← gets (fun e => size (tombstones e));
  _ ← modify (fun e => set_tombstones (filter (fun '(_, expires) => now_ms <= expires) (tombstones e)) e);
  _ ← modify (fun e => set_advertised_until
        (filter (fun '(_, until) => now_ms <= until) (advertised_until e)) e);
  previous_sources ← gets (fun e => size (feasible e));
  _ ← modify (fun e => set_feasible
        (filter (fun '(_, source) => now_ms <= s_expires_ms source) (feasible e)) e);
  _ ← modify (fun e => set_recent_seqno
        (filter (fun '(_, recent) => now_ms <= snd recent) (recent_seqno e)) e);
  gets (fun e => negb (expired_tombstones =? size (tombstones e))%nat
                 || negb (size (feasible e) =? previous_sources)%nat).

(** * Repeated requests and advertisements *)

Definition retry_request (now_ms : Z) (actions : list Action)
    (due : (RouteKey * RouterId) * PendingSeqnoRequest) : M (list Action) :=
  let '((key, router_id), pending) := due in
  if retries_left pending =? 0 then
    _ ← modify (fun e => set_pending_seqno (delete (key, router_id) (pending_seqno e)) e);
    _ ← modify (fun e => set_recent_seqno
          (<[(key, router_id) := (pq_seqno pending, saturating_add64 now_ms RECENT_REQUEST_MS)]>
             (recent_seqno e)) e);
    mret actions
  else
    value ← gets (fun e => pending_seqno e !! (key, router_id));
    _ ← match value with
        | None => mret tt
        | Some value =>
            let attempt := saturating_sub REQUEST_RETRIES (retries_left value) in
            left ← expect (if retries_left value =? 0 then None else Some (retries_left value - 1));
            modify (fun e => set_pending_seqno
              (<[(key, router_id) :=
                   {| pq_seqno := pq_seqno value; pq_hop_count := pq_hop_count value;
                      pq_next_hop := pq_next_hop value; pq_requester := pq_requester value;
                      retries_left := left;
                      next_retry_ms := saturating_add64 now_ms
                        (saturating_mul64 REQUEST_RETRY_INITIAL_MS (Z.shiftl 1 (attempt + 1))) |}]>
                 (pending_seqno e)) e)
        end;
    mret (actions ++ [seqno_request_action key router_id (pq_seqno pending) (pq_hop_count pending)
                        (pq_next_hop pending) now_ms]).

Definition retry_requests (now_ms : Z) (actions : list Action) : M (list Action) :=
  due ← gets (fun e => List.filter (fun '(_, pending) => next_retry_ms pending <=? now_ms)
                         (hm_iter (pending_seqno e)));
  foldM (retry_request now_ms) actions due.

Definition repeat_one (now_ms : Z) (actions : list Action) (key : RouteKey) : M (list Action) :=
  entry ← gets (fun e => pending_advertisements e !! key);
  entry ← expect entry;
  _ ← modify (fun e => set_pending_advertisements (delete key (pending_advertisements e)) e);
  updates ← send_updates now_ms (Some key) None (Some (urgent now_ms));
  _ ← (if 1 <? entry.2
       then modify (fun e => set_pending_advertisements
              (<[key := (saturating_add64 now_ms 1000, entry.2 - 1)]> (pending_advertisements e)) e)
       else mret tt);
  mret (actions ++ updates).

Definition repeat_advertisements (now_ms : Z) (actions : list Action) : M (list Action) :=
  keys ← gets (fun e => (List.filter (fun '(_, (deadline, _)) => deadline <=? now_ms)
                           (btree_iter (pending_advertisements e))).*1);
  foldM (repeat_one now_ms) actions keys.

(** * Periodic output *)

Definition ihus_due (e : Engine) (now_ms : Z) : list (NeighborKey * option Z) :=
  let regular := List.filter (fun '(_, n) => periodic_window_open now_ms (nb_next_ihu_ms n))
                   (hm_iter (neighbours e)) in
  let probes := List.filter (fun '(key, n) =>
      negb (bool_decide (key ∈ regular.*1))
      && match nb_next_rtt_probe_ms n with Some deadline => deadline <=? now_ms | None => false end)
    (hm_iter (neighbours e)) in
  ((fun '(key, n) => (key, Some (nb_next_ihu_ms n))) <$> regular)
  ++ take MAX_RTT_PROBES_PER_TICK ((fun '(key, _) => (key, None)) <$> probes).

Definition send_ihus (now_ms : Z) (actions : list Action) : M (list Action) :=
  due ← gets (fun e => ihus_due e now_ms);
  foldM (fun actions '(key, deadline) =>
    action ← ihu_action key now_ms deadline;
    mret (actions ++ option_list action)) actions due.

(** Advance the Hello and Update schedules of an interface. *)
Definition advance_schedule (now_ms : Z) (state : InterfaceState)
  : InterfaceState * (option Z * option Z) :=
  let '(state, hello_deadline) :=
    if periodic_window_open now_ms (next_hello_ms state) then
      (set_next_hello_ms
         (next_periodic_deadline (next_hello_ms state) now_ms (ip_hello_interval_cs (ifs_policy state)))
         (set_hello_seqno (wrapping_add16 (hello_seqno state) 1) state),
       Some (next_hello_ms state))
    else (state, None) in
  let '(state, update_deadline) :=
    if periodic_window_open now_ms (next_update_ms state) then
      (set_next_update_ms
         (next_periodic_deadline (next_update_ms state) now_ms (ip_update_interval_cs (ifs_policy state)))
         state,
       Some (next_update_ms state))
    else (state, None) in
  (state, (hello_deadline, update_deadline)).

Definition hello_action (interface : string) (state : InterfaceState) (now_ms deadline : Z) : Action :=
  let policy := ifs_policy state in
  let sub_tlvs := if timestamps_enabled (ip_metric policy)
                  then [TimestampHello (timestamp_us now_ms)] else [] in
  Send interface (multicast_group (control_transport policy))
    (MkOutboundPacket [OHello false (hello_seqno state) (ip_hello_interval_cs policy) sub_tlvs])
    (by_deadline now_ms deadline).

Definition tick_interface (now_ms : Z) (actions : list Action) (interface : string)
  : M (list Action) :=
  state ← gets (fun e => interfaces e !! interface);
  state ← expect state;
  let '(state, (hello_deadline, update_deadline)) := advance_schedule now_ms state in
  _ ← modify (fun e => set_interfaces (<[interface := state]> (interfaces e)) e);
  let hello := match hello_deadline with
               | Some deadline => [hello_action interface state now_ms deadline]
               | None => []
               end in
  updates ← match update_deadline with
            | Some deadline =>
                send_updates now_ms None (Some interface) (Some (by_deadline now_ms deadline))
            | None => mret []
            end;
  mret (actions ++ hello ++ updates).

Definition tick_interfaces (now_ms : Z) (actions : list Action) : M (list Action) :=
  names ← gets (fun e => btree_keys (interfaces e));
  foldM (tick_interface now_ms) actions names.

(** * The tick *)

Definition is_routes_changed (a : Action) : bool :=
  match a with RoutesChanged _ _ _ => true | _ => false end.

Definition recompute_all (keys : gset NeighborKey) : M bool :=
  foldM (fun changed key =>
    c ← recompute_candidate_metrics (Some key); mret (changed || c)) false (hs_iter keys).

(** Everything that expires; whether selection inputs may have changed, and the
    requests to refresh routes. *)
Definition tick_expire (now_ms : Z) : M (bool * list Action) :=
  aged ← age_neighbours now_ms;
  neighbours_expired ← expire_neighbours;
  quiet ← expire_ihus now_ms;
  candidates_expired ← expire_candidates now_ms;
  refresh_actions ← refresh_candidates now_ms;
  dropped ← expire_tables now_ms;
  recomputed ← recompute_all (aged ∪ quiet);
  mret (neighbours_expired || candidates_expired || dropped || recomputed, refresh_actions).

(** Route selection after expiration; expired tombstones always reach the
    host. *)
Definition tick_select (now_ms : Z) (expired_tombstones : nat) (routes_may_have_changed : bool)
  : M (list Action) :=
  switching ← gets (fun e => bool_decide (pending_switches e <> ∅));
  actions ← (if routes_may_have_changed || switching then reselect now_ms else mret []);
  stale ← gets (fun e => negb (expired_tombstones =? size (tombstones e))%nat
                         && negb (existsb is_routes_changed actions));
  if stale : bool then snapshot ← route_snapshot; mret (actions ++ [snapshot])
  else mret actions.

Definition tick (now_ms : Z) : M (list Action) :=
  expired_tombstones ← gets (fun e => size (tombstones e));
  expired ← tick_expire now_ms;
  actions ← tick_select now_ms expired_tombstones expired.1;
  actions ← retry_requests now_ms (actions ++ expired.2);
  actions ← repeat_advertisements now_ms actions;
  actions ← send_ihus now_ms actions;
  tick_interfaces now_ms actions.
End Timers.
