(* ===== verification/Engine.v ===== *)
(** The engine ([engine.rs]): creation, event dispatch, interface lifecycle
    ([engine/interfaces.rs]), policy replacement ([engine/policy.rs]) and local
    origins. *)
From S2P Require Import Prelude Net Model Metric Wire Api EngineState Deadlines Sources Output Rib Neighbors Timers.
Import Hello.
Local Open Scope Z_scope.

Section Engine.
Context {NL : IpNetLib} {MI : MetricImpl} {HO : HashOrder} {B : Build}.

Definition Engine_try_new (config : EngineConfig) : result ConfigError Engine :=
  _ ← validate_config config;
  Ok {| resources := {| rs_limits := cfg_limits config; rs_candidates := 0; rs_sources := 0;
                        rs_pending_requests := 0; rs_unreachable := 0; rejected_neighbors := 0;
                        rejected_candidates_global := 0; rejected_candidates_per_neighbor := 0 |};
        config := config;
        interfaces := ∅;
        neighbours := ∅;
        candidates := ∅;
        feasible := ∅;
        originated := ∅;
        selected := ∅;
        pending_seqno := ∅;
        recent_seqno := ∅;
        tombstones := ∅;
        advertised_until := ∅;
        pending_advertisements := ∅;
        pending_switches := ∅;
        settling_since := ∅;
        settled_routes := ∅;
        generation := 0;
        sequence_number := cfg_sequence_number config |}.

Definition resource_status (e : Engine) : ResourceStatus :=
  {| rs_limits := rs_limits (resources e);
     rs_candidates := size (candidates e);
     rs_sources := size (feasible e);
     rs_pending_requests := size (pending_seqno e);
     rs_unreachable := size (tombstones e);
     rejected_neighbors := rejected_neighbors (resources e);
     rejected_candidates_global := rejected_candidates_global (resources e);
     rejected_candidates_per_neighbor := rejected_candidates_per_neighbor (resources e) |}.

(** * Interfaces *)

Definition default_interface_policy (e : Engine) : InterfacePolicy := {|
  control_transport := default_transport;
  ip_ipv4_next_hop := NextHopAuto;
  ip_metric := cfg_metric (config e);
  ip_hello_interval_cs := cfg_hello_interval_cs (config e);
  ip_update_interval_cs := cfg_update_interval_cs (config e);
  split_horizon := true
|}.

Definition full_route_request (interface : string) (transport : ControlTransport) (now_ms : Z) : Action :=
  Send interface (multicast_group transport) (MkOutboundPacket [ORouteRequest None []]) (urgent now_ms).

Definition interface_up (interface : string) (local_addresses : list IpAddr) (policy : InterfacePolicy)
    (now_ms : Z) : M (list Action) :=
  let fresh := {| local_addresses := local_addresses; ifs_policy := policy; hello_seqno := 0;
                  next_hello_ms := now_ms; next_update_ms := now_ms; last_full_update_ms := None |} in
  _ ← modify (fun e => set_interfaces
        (<[interface := default fresh (interfaces e !! interface)]> (interfaces e)) e);
  actions ← tick now_ms;
  state ← gets (fun e => interfaces e !! interface);
  state ← expect state;
  mret (actions ++ [full_route_request interface (control_transport (ifs_policy state)) now_ms]).

(** Drop the neighbours and candidates of an interface. *)
Definition clear_interface (interface : string) : M unit :=
  modify (fun e =>
    set_candidates (filter (fun '(_, c) => c_interface c <> interface) (candidates e))
      (set_neighbours (filter (fun '(k, _) => nk_interface k <> interface) (neighbours e)) e)).

(** Rebuild a neighbour's metric from its observations. *)
Definition reset_neighbour (policy : InterfacePolicy) (interface : string) (now_ms : Z)
    (key : NeighborKey) (n : Neighbor) : Neighbor :=
  let m := on_hello (new_neighbor (ip_metric policy) interface) (nb_histories n) in
  let m := match nb_last_ihu_cost n with Some cost => on_ihu m cost | None => m end in
  set_nb_receive_timestamp None
    (set_nb_origin_timestamp None
       (set_nb_next_rtt_probe_ms
          ((fun value => initial_probe_deadline now_ms value key)
             <$> rtt_probe_interval_ms (ip_metric policy))
          (set_nb_next_ihu_ms now_ms (set_nb_metric m n)))).

Definition reset_metrics (policy : InterfacePolicy) (interface : string) (now_ms : Z)
  : M (list Action) :=
  _ ← modify (fun e => set_neighbours
        (map_imap (fun key n => Some (if bool_decide (nk_interface key = interface)
                                      then reset_neighbour policy interface now_ms key n else n))
           (neighbours e)) e);
  changed ← recompute_candidate_metrics None;
  if changed : bool then reselect now_ms else mret [].

Definition interface_policy_changed (interface : string) (policy : InterfacePolicy)
    (reset_metric : bool) (now_ms : Z) : M (list Action) :=
  state ← gets (fun e => interfaces e !! interface);
  match state with
  | None => mret []
  | Some state =>
      let transport_changed :=
        bool_decide (control_transport (ifs_policy state) <> control_transport policy) in
      _ ← modify (fun e => set_interfaces
            (<[interface := set_last_full_update_ms None
                 (set_next_update_ms now_ms
                    (set_next_hello_ms now_ms (set_ifs_policy policy state)))]> (interfaces e)) e);
      cleared ← (if transport_changed
                 then _ ← clear_interface interface; reselect now_ms else mret []);
      metrics ← (if reset_metric then reset_metrics policy interface now_ms else mret []);
      updates ← send_updates now_ms None (Some interface) (Some (urgent now_ms));
      ticked ← tick now_ms;
      mret (cleared ++ metrics ++ updates ++ ticked)
  end.

Definition interface_addresses_changed (interface : string) (addresses : list IpAddr) (now_ms : Z)
  : M (list Action) :=
  state ← gets (fun e => interfaces e !! interface);
  let unchanged := match state with
                   | Some state => bool_decide (local_addresses state = addresses)
                   | None => false
                   end in
  if unchanged then mret []
  else
    _ ← modify (fun e => set_interfaces
          (alter (fun state => set_last_full_update_ms None (set_local_addresses addresses state))
             interface (interfaces e)) e);
    send_updates now_ms None (Some interface) (Some (urgent now_ms)).

Definition interface_down (interface : string) (now_ms : Z) : M (list Action) :=
  _ ← modify (fun e => set_interfaces (delete interface (interfaces e)) e);
  _ ← clear_interface interface;
  reselect now_ms.

(** * Local origins *)

Definition originate (key : RouteKey) (metric now_ms : Z) : M (list Action) :=
  origin ← gets (fun e => originated e !! key);
  let unchanged := match origin with Some o => o_metric o =? metric | None => false end in
  if unchanged then mret []
  else
    held ← gets (fun e => bool_decide (is_Some (tombstones e !! key)));
    _ ← modify (fun e => set_tombstones (delete key (tombstones e)) e);
    snapshot ← (if held : bool then s ← route_snapshot; mret [s] else mret []);
    _ ← repeat_advertisement key now_ms;
    let worse := match origin with Some o => o_metric o <? metric | None => false end in
    bumped ← (if worse then
                _ ← bump_sequence_number;
                gets (fun e => [SequenceNumberChanged (sequence_number e)])
              else mret []);
    _ ← modify (fun e => set_originated
          (<[key := {| o_metric := metric; o_seqno := sequence_number e |}]> (originated e)) e);
    reselected ← reselect now_ms;
    updates ← send_updates now_ms (Some key) None None;
    mret (snapshot ++ bumped ++ reselected ++ updates).

Definition withdraw (key : RouteKey) (now_ms : Z) : M (list Action) :=
  existed ← gets (fun e => bool_decide (is_Some (originated e !! key)));
  _ ← modify (fun e => set_originated (delete key (originated e)) e);
  reselected ← reselect now_ms;
  unrouted ← gets (fun e => existed && bool_decide (selected e !! key = None));
  snapshot ← (if unrouted : bool
              then _ ← hold_withdrawal key now_ms; s ← route_snapshot; mret [s] else mret []);
  updates ← (if existed : bool
             then _ ← repeat_advertisement key now_ms;
                  send_updates now_ms (Some key) None (Some (urgent now_ms))
             else mret []);
  mret (reselected ++ snapshot ++ updates).

Definition origins_unchanged (e : Engine) (origins : gmap RouteKey Z) : bool :=
  (size (originated e) =? size origins)%nat
  && forallb (fun '(key, metric) =>
       match originated e !! key with Some o => o_metric o =? metric | None => false end)
       (btree_iter origins).

Definition replace_origins (origins : gmap RouteKey Z) (now_ms : Z) : M (list Action) :=
  unchanged ← gets (fun e => origins_unchanged e origins);
  if unchanged : bool then mret []
  else
    removed ← gets (fun e =>
      List.filter (fun key => bool_decide (origins !! key = None)) (btree_keys (originated e)));
    changes_existing ← gets (fun e => existsb (fun '(key, o) =>
      match origins !! key with Some metric => o_metric o <? metric | None => false end)
      (btree_iter (originated e)));
    bumped ← (if changes_existing : bool then
                _ ← bump_sequence_number;
                gets (fun e => [SequenceNumberChanged (sequence_number e)])
              else mret []);
    _ ← modify (fun e => set_originated
          ((fun metric => {| o_metric := metric; o_seqno := sequence_number e |}) <$> origins) e);
    reselected ← reselect now_ms;
    withdrawals ← for_actions removed (fun key =>
      unrouted ← gets (fun e => bool_decide (selected e !! key = None));
      _ ← (if unrouted : bool then hold_withdrawal key now_ms else mret tt);
      _ ← repeat_advertisement key now_ms;
      send_updates now_ms (Some key) None (Some (urgent now_ms)));
    keys ← gets (fun e => btree_keys (originated e));
    _ ← for_each keys (fun key =>
          _ ← modify (fun e => set_tombstones (delete key (tombstones e)) e);
          repeat_advertisement key now_ms);
    snapshot ← route_snapshot;
    updates ← send_updates now_ms None None None;
    mret (bumped ++ reselected ++ withdrawals ++ [snapshot] ++ updates).

(** * Policy replacement *)

(** Whether a candidate survives under [policy]. *)
Definition candidate_accepted (policy : RoutePolicy) (neighbor : NeighborKey) (c : Candidate) : bool :=
  negb (c_advertised_metric c =? INFINITY)
  && accept policy (import_context (c_key c) neighbor (c_next_hop c) (c_router_id c) (c_seqno c)
                      (c_advertised_metric c)).

Definition set_route_policy (policy : RoutePolicy) (c : EngineConfig) : EngineConfig := {|
  cfg_route_policy := policy; ipv4_via_ipv6 := ipv4_via_ipv6 c; cfg_limits := cfg_limits c;
  cfg_router_id := cfg_router_id c; cfg_metric := cfg_metric c; metric_algebra := metric_algebra c;
  cfg_sequence_number := cfg_sequence_number c; cfg_hello_interval_cs := cfg_hello_interval_cs c;
  cfg_update_interval_cs := cfg_update_interval_cs c; route_selection := route_selection c
|}.

(** The loop that counts the surviving candidates of each neighbour again. *)
Definition recount (e : Engine) : Engine :=
  let zeroed := (fun n => set_nb_candidates 0 n) <$> neighbours e in
  set_neighbours
    (fold_left (fun m '((_, neighbor), _) => alter (fun n => set_nb_candidates (S (nb_candidates n)) n) neighbor m)
       (hm_iter (candidates e)) zeroed) e.

Definition replace_route_policy (policy : RoutePolicy) (now_ms : Z) : M (list Action) :=
  _ ← modify (fun e => set_config (set_route_policy policy (config e)) e);
  _ ← modify (fun e => set_candidates
        (filter (fun '(k, c) => candidate_accepted (cfg_route_policy (config e)) (snd k) c = true)
           (candidates e)) e);
  _ ← modify recount;
  _ ← modify (fun e => set_pending_seqno
        (filter (fun '(k, pending) => is_Some (candidates e !! (fst k, pq_next_hop pending)))
           (pending_seqno e)) e);
  reselected ← reselect now_ms;
  keys ← gets (fun e => btree_keys (originated e) ++ btree_keys (selected e) ++ btree_keys (tombstones e));
  _ ← for_each keys (fun key => repeat_advertisement key now_ms);
  updates ← send_updates now_ms None None (Some (urgent now_ms));
  requests ← gets (fun e => (fun '(interface, state) =>
    full_route_request interface (control_transport (ifs_policy state)) now_ms)
    <$> btree_iter (interfaces e));
  mret ([InvalidatePendingSends] ++ reselected ++ updates ++ requests).

(** * Events *)

Definition handle_validated (event : Event) : M (list Action) :=
  match event with
  | InterfaceUp interface local_addresses now_ms =>
      policy ← gets default_interface_policy;
      interface_up interface local_addresses policy now_ms
  | InterfaceUpWithPolicy interface local_addresses policy now_ms =>
      interface_up interface local_addresses policy now_ms
  | InterfacePolicyChanged interface policy reset_metric now_ms =>
      interface_policy_changed interface policy reset_metric now_ms
  | InterfaceAddressesChanged interface local_addresses now_ms =>
      interface_addresses_changed interface local_addresses now_ms
  | InterfaceDown interface now_ms => interface_down interface now_ms
  | PacketReceived interface source packet now_ms =>
      receive interface source packet now_ms (timestamp_us now_ms)
  | PacketReceivedWithTimestamp interface source packet now_ms received_timestamp_us =>
      receive interface source packet now_ms received_timestamp_us
  | Originate key metric now_ms => originate key metric now_ms
  | Withdraw key now_ms => withdraw key now_ms
  | ReplaceOrigins origins now_ms => replace_origins origins now_ms
  | ReplaceRoutePolicy policy now_ms => replace_route_policy policy now_ms
  | Tick now_ms => tick now_ms
  end.

(** Neighbours may hold a finite route for [until]: later withdrawals wait. *)
Definition note_advertised (timing : SendTiming) (m : gmap RouteKey Z) (tlv : OutboundTlv)
  : gmap RouteKey Z :=
  match tlv with
  | OUpdate update =>
      match ou_key update with
      | Some key =>
          if finite update then
            let until := saturating_add64 (deadline_ms timing) (ou_interval_cs update * 35) in
            <[key := Z.max (default 0 (m !! key)) until]> m
          else m
      | None => m
      end
  | _ => m
  end.

Definition note_action (m : gmap RouteKey Z) (action : Action) : gmap RouteKey Z :=
  match action with
  | Send _ _ packet timing => fold_left (note_advertised timing) (out_tlvs packet) m
  | _ => m
  end.

Definition handle (event : Event) : M (list Action) :=
  actions ← handle_validated event;
  _ ← modify (fun e => set_advertised_until (fold_left note_action actions (advertised_until e)) e);
  mret actions.

(** [None] is a panic; an error leaves the engine as it was. *)
Definition try_handle (event : Event) (e : Engine)
  : option (result ConfigError (list Action) * Engine) :=
  match validate_event event with
  | Err err => Some (Err err, e)
  | Ok _ => r ← handle event e; Some (Ok r.1, r.2)
  end.

(** ** Runs *)

(** A sequence of events from a state, with the results of each. *)
Fixpoint run (events : list Event) (e : Engine)
  : option (list (result ConfigError (list Action)) * Engine) :=
  match events with
  | [] => Some ([], e)
  | event :: rest =>
      r ← try_handle event e;
      rs ← run rest r.2;
      Some (r.1 :: rs.1, rs.2)
  end.

(** The clock an event carries, a [u64]. *)
Definition event_time (event : Event) : Z :=
  match event with
  | InterfaceUp _ _ t | InterfaceUpWithPolicy _ _ _ t | InterfacePolicyChanged _ _ _ t
  | InterfaceAddressesChanged _ _ t | InterfaceDown _ t | PacketReceived _ _ _ t
  | PacketReceivedWithTimestamp _ _ _ t _ | Originate _ _ t | Withdraw _ t | ReplaceOrigins _ t
  | ReplaceRoutePolicy _ t | Tick t => t
  end.

End Engine.

Section Reachable.
Context {NL : IpNetLib} {MI : MetricImpl} {B : Build}.

(** States an engine created by [Engine_try_new] reaches.  The iteration order of
    the hash maps is chosen anew for every event: it depends on the hasher's seed
    and on the insertions that led to a content, not on the content alone. *)
Inductive reachable : Engine -> Prop :=
| reach_new cfg e : Engine_try_new cfg = Ok e -> reachable e
| reach_step (order : HashOrder) e event r e' :
    reachable e -> in_u64 (event_time event) -> try_handle event e = Some (r, e') -> reachable e'.
End Reachable.
