(* ===== verification/OutputSpec.v ===== *)
(** Specifications of the output side: what advertisements may touch, that every
    finite update is permitted by the export policy and has an entry in the source
    table before it leaves, and that unexpired entries stay.  The distances of the
    entries are the subject of [SourceTheorems]. *)
From S2P Require Import Prelude Net Model Metric Wire Api EngineState Sources Output Rib.
Local Open Scope Z_scope.

(** * Proof automation *)

Create HintDb engine discriminated.

(** One step of a computation with a known rule. *)
Ltac wp_step :=
  lazymatch goal with
  | |- wp (mbind _ _) _ _ => apply wp_bind
  | |- wp (mret _) _ _ => apply wp_ret
  | |- wp (gets _) _ _ => apply wp_gets
  | |- wp (modify _) _ _ => apply wp_modify
  end.
Ltac wp_steps := repeat (wp_step; cbv beta).

(** Branch on the condition in front. *)
Ltac wp_if :=
  lazymatch goal with |- wp (if ?b then _ else _) _ _ => let E := fresh "E" in destruct b eqn:E end.

(** Continue with the specification [lem] of the call in front. *)
Tactic Notation "wp_call" uconstr(lem) := eapply wp_mono; [|eapply lem]; cbv beta.

(** * Sources that stay *)

Section Spec.
Context {NL : IpNetLib} {MI : MetricImpl}.

Abbreviation sources := (gmap (RouteKey * RouterId) SourceEntry).

(** At time [now] the source of (key, router-id) [k] is in the table, unexpired. *)
Definition recorded (now : Z) (f : sources) (k : RouteKey * RouterId) : Prop :=
  exists s, f !! k = Some s /\ now <= s_expires_ms s.

(** Between two source tables at time [now]: unexpired entries persist. *)
Definition sources_persist (now : Z) (f f' : sources) : Prop :=
  forall k, recorded now f k -> recorded now f' k.

#[global] Instance sources_persist_preorder now : PreOrder (sources_persist now).
Proof. split; [by intros f k|]. intros f g h H1 H2 k H. auto. Qed.

(** ** What may leave an interface *)

Definition export_context (cfg : EngineConfig) (interface : string) (key : RouteKey) (id : RouterId)
  : ExportContext :=
  {| ex_key := key; ex_interface := interface; ex_router_id := id;
     ex_locally_originated := bool_decide (id = cfg_router_id cfg) |}.

(** A finite update names its key and origin, was permitted by the export policy
    and has its source in the table. *)
Definition update_ok (now : Z) (cfg : EngineConfig) (f : sources) (interface : string)
    (u : OutboundUpdate) : Prop :=
  finite u = true ->
  exists key id, ou_key u = Some key /\ ou_router_id u = Some id /\
    announce (cfg_route_policy cfg) (export_context cfg interface key id) = true /\
    recorded now f (key, id).

Definition tlv_ok (now : Z) (cfg : EngineConfig) (f : sources) (interface : string) (t : OutboundTlv)
  : Prop :=
  match t with OUpdate u => update_ok now cfg f interface u | _ => True end.

Definition action_ok (now : Z) (cfg : EngineConfig) (f : sources) (a : Action) : Prop :=
  match a with
  | Send interface _ packet _ => Forall (tlv_ok now cfg f interface) (out_tlvs packet)
  | _ => True
  end.

Definition actions_ok (now : Z) (e : Engine) (l : list Action) : Prop :=
  Forall (action_ok now (config e) (feasible e)) l.

Lemma tlv_ok_persist now cfg f f' i t :
  sources_persist now f f' -> tlv_ok now cfg f i t -> tlv_ok now cfg f' i t.
Proof.
  intros Hi. destruct t; simpl; try done. intros H Hf.
  destruct (H Hf) as (key & id & ? & ? & ? & Hr). eauto 10.
Qed.

Lemma action_ok_persist now cfg f f' a :
  sources_persist now f f' -> action_ok now cfg f a -> action_ok now cfg f' a.
Proof.
  intros Hi. destruct a; simpl; try done. apply Forall_impl. intros t. by apply tlv_ok_persist.
Qed.

Lemma actions_ok_persist now e e' l :
  config e' = config e -> sources_persist now (feasible e) (feasible e') ->
  actions_ok now e l -> actions_ok now e' l.
Proof.
  unfold actions_ok. intros -> Hi. apply Forall_impl. intros a. by apply action_ok_persist.
Qed.

Lemma actions_ok_app now e l k : actions_ok now e (l ++ k) <-> actions_ok now e l /\ actions_ok now e k.
Proof. apply Forall_app. Qed.

(** Actions the host's view of the RIB does not depend on. *)
Definition quiet (a : Action) : Prop :=
  match a with Send _ _ _ _ | InvalidatePendingSends => True | _ => False end.

(** Output: nothing but permitted, recorded sends. *)
Definition sends_ok (now : Z) (e : Engine) (l : list Action) : Prop :=
  actions_ok now e l /\ Forall quiet l.

Lemma sends_ok_nil now e : sends_ok now e [].
Proof. split; constructor. Qed.

Lemma sends_ok_app now e l k : sends_ok now e (l ++ k) <-> sends_ok now e l /\ sends_ok now e k.
Proof. unfold sends_ok, actions_ok. rewrite !Forall_app. tauto. Qed.

Lemma sends_ok_send now e i dest packet timing :
  Forall (tlv_ok now (config e) (feasible e) i) (out_tlvs packet) ->
  sends_ok now e [Send i dest packet timing].
Proof. intros H. split; by apply Forall_singleton. Qed.

(** * Footprints

    An [erase] function blanks what an operation may change; two states with the
    same image agree on everything else. *)

Definition erase_last_full (s : InterfaceState) : InterfaceState := set_last_full_update_ms None s.

(** Sending updates: the source table and the time of the last full update. *)
Definition erase_output (e : Engine) : Engine :=
  set_feasible ∅ (set_interfaces (erase_last_full <$> interfaces e) e).

(** What an output operation guarantees. *)
Record output_step (now : Z) (e e' : Engine) : Prop := {
  os_frame : erase_output e' = erase_output e;
  os_sources : sources_persist now (feasible e) (feasible e')
}.

#[global] Instance output_step_preorder now : PreOrder (output_step now).
Proof.
  split.
  - intros e. by split.
  - intros e1 e2 e3 [H1 H2] [H3 H4]. split; [congruence|]. by etrans.
Qed.

Lemma output_step_config now e e' : output_step now e e' -> config e' = config e.
Proof. intros [H _]. by apply (f_equal config) in H. Qed.

Lemma output_step_ok now e e' l : output_step now e e' -> actions_ok now e l -> actions_ok now e' l.
Proof. intros H. apply actions_ok_persist; [by eapply output_step_config | by destruct H]. Qed.

Lemma output_step_sends now e e' l : output_step now e e' -> sends_ok now e l -> sends_ok now e' l.
Proof. intros H [H1 H2]. split; [by eapply output_step_ok | done]. Qed.

Lemma output_step_interfaces now e e' i :
  output_step now e e' -> erase_last_full <$> interfaces e' !! i = erase_last_full <$> interfaces e !! i.
Proof.
  intros [H _]. apply (f_equal (fun e => interfaces e !! i)) in H. simpl in H.
  by rewrite !lookup_fmap in H.
Qed.

Lemma output_step_dom now e e' i :
  output_step now e e' -> is_Some (interfaces e' !! i) <-> is_Some (interfaces e !! i).
Proof.
  intros H. apply (output_step_interfaces _ _ _ i) in H.
  destruct (interfaces e' !! i), (interfaces e !! i); try done; by rewrite !is_Some_alt.
Qed.

(** * The source table *)

Lemma saturating_add64_ge now d : in_u64 now -> 0 <= d -> now <= saturating_add64 now d.
Proof. unfold saturating_add64, in_u64. lia. Qed.

Lemma set_feasible_frame f e : erase_output (set_feasible f e) = erase_output e.
Proof. done. Qed.

(** Recording a distance keeps the sources and adds its own. *)
Lemma maintain_source_spec key id d now e :
  in_u64 now ->
  wp (maintain_source key id d now)
    (fun _ e' => output_step now e e' /\ recorded now (feasible e') (key, id)) e.
Proof.
  intros Hn. unfold maintain_source. wp_step. simpl.
  fold (feasible_against d (s_distance (default (MkSourceEntry d (saturating_add64 now SOURCE_GC_TIME_MS))
    (feasible e !! (key, id))))).
  set (s := default _ _). assert (now <= saturating_add64 now SOURCE_GC_TIME_MS) as Hx
    by (by apply saturating_add64_ge).
  split.
  - split; [done|]. intros k (s0 & Hk & Hk0). unfold recorded. simpl. destruct (decide (k = (key, id))) as [->|Hne].
    + rewrite lookup_insert, decide_True by done. eauto.
    + rewrite lookup_insert_ne by done. eauto.
  - eexists. simpl. rewrite lookup_insert, decide_True by done. done.
Qed.

(** * Advertisements *)

Lemma advertisement_fields e i key id seqno metric :
  let u := advertisement e i key id seqno metric in
  ou_key u = Some key /\ ou_router_id u = Some id /\ ou_seqno u = seqno /\
  ou_interval_cs u = interface_update_interval e i /\ (ou_metric u = metric \/ ou_metric u = INFINITY).
Proof. simpl. split_and!; try done. case_match; auto. Qed.

(** A finite advertisement keeps its metric and passed the export policy. *)
Lemma advertisement_finite e i key id seqno metric :
  finite (advertisement e i key id seqno metric) = true ->
  ou_metric (advertisement e i key id seqno metric) = metric /\
  announce (cfg_route_policy (config e)) (export_context (config e) i key id) = true.
Proof.
  unfold finite, advertisement. cbn [ou_metric]. destruct (_ || _) eqn:E in |- *.
  - by rewrite Z.eqb_refl.
  - intros Hm. split; [done|]. apply orb_false_iff in E as [_ E]. rewrite Hm in E. simpl in E.
    by apply negb_false_iff in E.
Qed.

Lemma tlv_ok_infinite now cfg f i u : finite u = false -> tlv_ok now cfg f i (OUpdate u).
Proof. intros H Hf. congruence. Qed.

(** An advertisement that was recorded may be sent. *)
Lemma advertisement_ok now e e' i key id seqno metric :
  output_step now e e' ->
  (finite (advertisement e i key id seqno metric) = true ->
   recorded now (feasible e') (key, id)) ->
  tlv_ok now (config e') (feasible e') i (OUpdate (advertisement e i key id seqno metric)).
Proof.
  intros Hs Hr Hf. destruct (advertisement_finite _ _ _ _ _ _ Hf) as [Hm Ha].
  exists key, id. rewrite (output_step_config _ _ _ Hs). auto.
Qed.

Lemma advertisement_infinite e i key id seqno : finite (advertisement e i key id seqno INFINITY) = false.
Proof. unfold finite. simpl. by case_match. Qed.

(** A step that records [d] if [b] holds. *)
Lemma record_if_spec (b : bool) key id d now e :
  in_u64 now ->
  wp (if b then maintain_source key id d now else mret tt)
    (fun _ e' => output_step now e e' /\ (b = true -> recorded now (feasible e') (key, id))) e.
Proof.
  intros Hn. destruct b.
  - wp_call maintain_source_spec; [|done]. intros [] e' [? ?]. done.
  - by wp_step.
Qed.

Lemma update_action_to_candidate_spec key id seqno metric dest now e :
  in_u64 now ->
  wp (update_action_to_candidate key id seqno metric dest now)
    (fun a e' => output_step now e e' /\ sends_ok now e' [a]) e.
Proof.
  intros Hn. unfold update_action_to_candidate. do 3 wp_step.
  wp_call record_if_spec; [|done]. intros [] e' [Hs Hr]. wp_step. split; [done|].
  apply sends_ok_send, Forall_singleton, advertisement_ok; [done|].
  intros Hf. by apply Hr.
Qed.

Lemma retraction_action_ok now e key seqno dest now_ms : sends_ok now e [retraction_action e key seqno dest now_ms].
Proof. by apply sends_ok_send, Forall_singleton. Qed.

Lemma reply_to_route_request_spec key dest now e :
  in_u64 now ->
  wp (reply_to_route_request key dest now) (fun a e' => output_step now e e' /\ sends_ok now e' [a]) e.
Proof.
  intros Hn. unfold reply_to_route_request. do 2 wp_step. case_match.
  - destruct p as [[id seqno] metric]. by apply update_action_to_candidate_spec.
  - wp_step. split; [done|]. apply retraction_action_ok.
Qed.

Lemma send_retraction_ok now e key seqno now_ms e' : sends_ok now e' (send_retraction e key seqno now_ms).
Proof.
  unfold sends_ok, actions_ok, send_retraction.
  split; apply Forall_fmap, Forall_true; intros [i st]; simpl; [by apply Forall_singleton | done].
Qed.

(** ** Updates *)

Definition tlvs_ok (now : Z) (e : Engine) (i : string) (l : list OutboundTlv) : Prop :=
  Forall (tlv_ok now (config e) (feasible e) i) l.

Lemma tlvs_ok_step now e e' i l : output_step now e e' -> tlvs_ok now e i l -> tlvs_ok now e' i l.
Proof.
  intros Hs. unfold tlvs_ok. rewrite (output_step_config _ _ _ Hs). apply Forall_impl.
  intros t. apply tlv_ok_persist. by destruct Hs.
Qed.

(** Loop invariant of the TLV builders: from [e0], only output, only permitted
    TLVs. *)
Definition building (now : Z) (e0 : Engine) (i : string) (l : list OutboundTlv) (e : Engine) : Prop :=
  output_step now e0 e /\ tlvs_ok now e i l.

Lemma push_update_spec now e0 i key id seqno metric skip l e :
  in_u64 now -> building now e0 i l e ->
  wp (push_update i key id seqno metric now skip l) (building now e0 i) e.
Proof.
  intros Hn [H0 Hl]. unfold push_update. do 2 wp_step. case_match.
  - by wp_step.
  - wp_step. wp_call record_if_spec; [|done]. intros [] e' [Hs Hr]. wp_step. split; [by etrans|].
    apply Forall_app. split; [by eapply tlvs_ok_step|]. apply Forall_singleton. by apply advertisement_ok.
Qed.

Lemma send_origins_spec now e0 i only origins l e :
  in_u64 now -> building now e0 i l e ->
  wp (send_origins i only origins now l) (building now e0 i) e.
Proof.
  intros Hn Hb. apply wp_loop; [done|]. intros [key o] l' e' _ Hb'. case_match; [|by wp_step].
  do 2 wp_step. by apply push_update_spec.
Qed.

Lemma send_selected_spec now e0 i sh only routes l e :
  in_u64 now -> building now e0 i l e ->
  wp (send_selected i sh only routes now l) (building now e0 i) e.
Proof.
  intros Hn Hb. apply wp_loop; [done|]. intros route l' e' _ Hb'. case_match; [|by wp_step].
  by apply push_update_spec.
Qed.

Lemma send_tombstones_spec now e0 i only keys l e :
  building now e0 i l e -> wp (send_tombstones i only keys l) (building now e0 i) e.
Proof.
  intros Hb. apply wp_loop; [done|]. intros key l' e' _ [H0 Hl]. wp_step. case_match; [|done].
  split; [done|]. apply Forall_app. split; [done|]. apply Forall_singleton, tlv_ok_infinite.
  apply advertisement_infinite.
Qed.

Lemma note_full_update_spec now i now_ms e :
  wp (note_full_update i now_ms) (fun _ e' => output_step now e e') e.
Proof.
  unfold note_full_update. wp_step. split; [|done].
  unfold erase_output. simpl.
  enough (erase_last_full <$> alter (set_last_full_update_ms (Some now_ms)) i (interfaces e)
          = erase_last_full <$> interfaces e) as -> by done.
  apply map_eq. intros j. rewrite !lookup_fmap.
  destruct (decide (i = j)) as [->|]; [|by rewrite lookup_alter_ne].
  rewrite lookup_alter. case_decide; [|done]. by destruct (interfaces e !! j).
Qed.

Lemma interface_updates_spec now only timing origins routes keys i e :
  in_u64 now ->
  wp (interface_updates now only timing origins routes keys i)
    (fun l e' => output_step now e e' /\ sends_ok now e' l) e.
Proof.
  intros Hn. unfold interface_updates. do 2 wp_step.
  destruct (interfaces e !! i) as [state|] eqn:Ei; [|wp_step; split; [done|apply sends_ok_nil]].
  wp_step. wp_call (send_origins_spec now e); [|done|split; [done|constructor]]. intros l1 e1 H1.
  wp_step. wp_call (send_selected_spec now e); [|done|done]. intros l2 e2 H2.
  wp_step. wp_call (send_tombstones_spec now e); [|done]. intros l3 e3 H3.
  wp_step.
  assert (wp (if bool_decide (only = None) && bool_decide (l3 <> []) then note_full_update i now else mret tt)
            (fun _ e' => building now e i l3 e') e3) as Hw.
  { destruct H3 as [H3 H3l]. case_match; [|by wp_step].
    wp_call (note_full_update_spec now). intros [] e' Hs. split; [by etrans | by eapply tlvs_ok_step]. }
  revert Hw. apply wp_mono. intros [] e4 [H4 Hl4]. case_bool_decide; [|wp_step; split; [done|apply sends_ok_nil]].
  do 3 wp_step. apply wp_expect. pose proof (output_step_dom _ _ _ i H4) as [_ Hd].
  destruct (Hd ltac:(by rewrite Ei)) as [state' Hst]. exists state'. split; [done|]. wp_step.
  split; [done|]. by apply sends_ok_send.
Qed.

Lemma for_sends_ok {A} now (l : list A) f e :
  (forall a e', a ∈ l -> output_step now e e' ->
     wp (f a) (fun l' e'' => output_step now e' e'' /\ sends_ok now e'' l') e') ->
  wp (for_actions l f) (fun l' e' => output_step now e e' /\ sends_ok now e' l') e.
Proof.
  intros Hf. unfold for_actions. apply wp_loop; [split; [done|apply sends_ok_nil]|].
  intros a acc e' Ha [Hs Hacc]. wp_step. wp_call Hf; [|done|done]. intros l' e'' [Hs' Hl']. wp_step.
  split; [by etrans|]. apply sends_ok_app. split; [by eapply output_step_sends | done].
Qed.

(** Sending updates never panics, touches only the source table and the time of
    the last full update, and sends only permitted, recorded routes. *)
Lemma send_updates_spec now only interface timing e :
  in_u64 now ->
  wp (send_updates now only interface timing)
    (fun l e' => output_step now e e' /\ sends_ok now e' l) e.
Proof.
  intros Hn. unfold send_updates. wp_steps. apply for_sends_ok. intros i e' _ _.
  by apply interface_updates_spec.
Qed.

Lemma advertise_learned_ok now e route metric i now_ms e' :
  output_step now e e' ->
  (existsb sends_finite_update (advertise_learned e route metric i now_ms) = true ->
   recorded now (feasible e') (sr_key route, sr_router_id route)) ->
  sends_ok now e' (advertise_learned e route metric i now_ms).
Proof.
  intros Hs Hr. unfold sends_ok, actions_ok.
  enough (forall a, a ∈ advertise_learned e route metric i now_ms ->
    action_ok now (config e') (feasible e') a /\ quiet a) as H
    by (split; apply list.Forall_forall; intros a Ha; by apply H).
  intros a Ha.
  assert (exists j st, a = Send j (multicast_group (control_transport (ifs_policy st)))
    (MkOutboundPacket [OUpdate (advertisement e j (sr_key route) (sr_router_id route) (sr_seqno route) metric)])
    (urgent now_ms)) as (j & st & ->).
  { unfold advertise_learned in Ha. apply list_elem_of_omap in Ha as ([j st] & _ & Hj).
    case_match; [done|]. simplify_eq. eauto. }
  split; [|done]. simpl. apply Forall_singleton, advertisement_ok; [done|]. intros Hf. apply Hr.
  apply existsb_exists. eexists. split; [by apply list_elem_of_In|]. simpl. by rewrite Hf.
Qed.
End Spec.
