(* ===== verification/Invariant.v ===== *)
(** The engine's invariant, and the relation every operation of the engine
    establishes between its states and its actions.

    [Inv] says what every state satisfies between (and inside) events;
    [step now e e' acts] says that going from [e] to [e'] with output [acts]
    keeps [Inv], keeps the source table improving, sends only permitted and
    recorded routes, and tells the host every change of the RIB, of the
    generation and of the sequence number.  Steps compose. *)
From S2P Require Import Prelude Net Model Metric Wire Api EngineState Sources Output Rib OutputSpec.
Local Open Scope Z_scope.

Section Invariant.
Context {NL : IpNetLib} {MI : MetricImpl}.

(** * Counting candidates *)

Definition count_for (X : gset (RouteKey * NeighborKey)) (n : NeighborKey) : nat :=
  size (filter (fun k => k.2 = n) X).
Definition candidates_of (e : Engine) (n : NeighborKey) : nat := count_for (dom (candidates e)) n.

Lemma count_insert X k n :
  k ∉ X -> count_for ({[k]} ∪ X) n = ((if decide (k.2 = n) then 1 else 0) + count_for X n)%nat.
Proof.
  intros Hk. unfold count_for. rewrite filter_union_L, filter_singleton_L by apply _.
  destruct (decide (k.2 = n)) as [H|H].
  - rewrite size_union by set_solver. by rewrite size_singleton.
  - by rewrite union_empty_l_L.
Qed.

Lemma count_delete X k n :
  k ∈ X -> count_for X n = ((if decide (k.2 = n) then 1 else 0) + count_for (X ∖ {[k]}) n)%nat.
Proof.
  intros Hk. rewrite <- count_insert by set_solver. f_equal. apply set_eq. intros x.
  destruct (decide (x = k)); set_solver.
Qed.

Lemma count_none X n : (forall k, k ∈ X -> k.2 <> n) -> count_for X n = 0%nat.
Proof.
  intros H. unfold count_for. apply size_empty_iff. intros k. set_solver.
Qed.

Lemma count_filter (P : RouteKey * NeighborKey -> Prop) `{forall k, Decision (P k)} X n :
  (forall k, k.2 = n -> P k) -> count_for (filter P X) n = count_for X n.
Proof. intros HP. unfold count_for. f_equal. set_solver. Qed.

(** * The invariant *)

(** A candidate of neighbour [n] for [k]: filed under its own key and interface,
    not originated by this router, admitted by the current import policy unless
    retracted, and strictly farther than what was advertised unless unreachable. *)
Record candidate_ok (cfg : EngineConfig) (k : RouteKey) (n : NeighborKey) (c : Candidate) : Prop := {
  co_key : c_key c = k;
  co_interface : c_interface c = nk_interface n;
  co_own : c_router_id c <> cfg_router_id cfg;
  co_accepted : c_advertised_metric c <> INFINITY ->
    accept (cfg_route_policy cfg)
      (import_context k n (c_next_hop c) (c_router_id c) (c_seqno c) (c_advertised_metric c)) = true;
  co_metric : c_metric c = INFINITY \/ (c_advertised_metric c < c_metric c /\ c_advertised_metric c <> INFINITY);
  co_range : c_metric c <= INFINITY
}.

Record neighbour_ok (e : Engine) (n : NeighborKey) (nb : Neighbor) : Prop := {
  no_count : nb_candidates nb = candidates_of e n;
  no_limit : (nb_candidates nb <= max_candidates_per_neighbor (cfg_limits (config e)))%nat;
  no_interface : is_Some (interfaces e !! nk_interface n)
}.

Record selected_ok (e : Engine) (k : RouteKey) (s : SelectedRoute) : Prop := {
  so_key : sr_key s = k;
  so_finite : sr_metric s < INFINITY;
  so_own : sr_router_id s <> cfg_router_id (config e);
  so_live : tombstones e !! k = None
}.

Record pending_ok (p : PendingSeqnoRequest) : Prop := {
  po_retries : 0 <= retries_left p <= REQUEST_RETRIES;
  po_hops : 1 <= pq_hop_count p
}.

Record Inv (e : Engine) : Prop := {
  inv_candidates : forall k n c, candidates e !! (k, n) = Some c -> candidate_ok (config e) k n c;
  inv_known : forall k n c, candidates e !! (k, n) = Some c -> is_Some (neighbours e !! n);
  inv_neighbours : forall n nb, neighbours e !! n = Some nb -> neighbour_ok e n nb;
  inv_max_neighbours : (size (neighbours e) <= max_neighbors (cfg_limits (config e)))%nat;
  inv_max_candidates : (size (candidates e) <= max_candidates (cfg_limits (config e)))%nat;
  inv_selected : forall k s, selected e !! k = Some s -> selected_ok e k s;
  inv_switches : dom (pending_switches e) ⊆ dom (selected e) /\ dom (settling_since e) ⊆ dom (selected e)
                 /\ settled_routes e ⊆ dom (selected e);
  inv_origins : forall k o, originated e !! k = Some o -> o_seqno o = sequence_number e;
  inv_pending : forall k p, pending_seqno e !! k = Some p -> pending_ok p
}.

(** Every selected route is carried by a candidate, field by field. *)
Definition backed (e : Engine) : Prop :=
  forall k s, selected e !! k = Some s ->
  exists n c, candidates e !! (k, n) = Some c /\ s = selected_from_candidate c.

(** ** The parts of the state [Inv] reads *)

Definition same_interfaces (e e' : Engine) : Prop :=
  forall i, is_Some (interfaces e' !! i) <-> is_Some (interfaces e !! i).

Lemma same_interfaces_eq e e' : interfaces e' = interfaces e -> same_interfaces e e'.
Proof. intros H i. by rewrite H. Qed.

Lemma same_interfaces_trans e1 e2 e3 :
  same_interfaces e1 e2 -> same_interfaces e2 e3 -> same_interfaces e1 e3.
Proof. intros H1 H2 i. rewrite (H2 i). apply H1. Qed.

(** A change outside the fields [Inv] is about. *)
Lemma Inv_frame e e' :
  config e' = config e -> same_interfaces e e' -> neighbours e' = neighbours e ->
  candidates e' = candidates e -> selected e' = selected e -> tombstones e' = tombstones e ->
  pending_switches e' = pending_switches e -> settling_since e' = settling_since e ->
  settled_routes e' = settled_routes e -> originated e' = originated e ->
  sequence_number e' = sequence_number e ->
  (forall k p, pending_seqno e' !! k = Some p -> pending_ok p) ->
  Inv e -> Inv e'.
Proof.
  intros Hcfg Hi Hn Hc Hs Ht Hp1 Hp2 Hp3 Ho Hq Hpq [].
  split; rewrite ?Hcfg, ?Hn, ?Hc, ?Hs, ?Hp1, ?Hp2, ?Hp3, ?Ho, ?Hq; try done.
  - intros n nb H. destruct (inv_neighbours0 n nb H).
    split; unfold candidates_of in *; rewrite ?Hc, ?Hcfg; try done. by apply Hi.
  - intros k s H. destruct (inv_selected0 k s H). split; try done; by rewrite ?Hcfg, ?Ht.
Qed.

Lemma output_step_Inv now e e' : output_step now e e' -> Inv e -> Inv e'.
Proof.
  intros H HI. assert (F := os_frame _ _ _ H).
  assert (forall A (f : Engine -> A), f (erase_output e') = f (erase_output e)) as G by (intros; by rewrite F).
  apply (Inv_frame e); [exact (G _ config)| |exact (G _ neighbours)|exact (G _ candidates)|exact (G _ selected)
    |exact (G _ tombstones)|exact (G _ pending_switches)|exact (G _ settling_since)
    |exact (G _ settled_routes)|exact (G _ originated)|exact (G _ sequence_number)| |done].
  - intros i. by eapply output_step_dom.
  - rewrite (G _ pending_seqno : pending_seqno e' = pending_seqno e). apply (inv_pending _ HI).
Qed.

(** * The host's view

    The host replaces its RIB at every [RoutesChanged] and follows the sequence
    number; generations and sequence numbers arrive one by one. *)
Record Host := MkHost {
  h_routes : list SelectedRoute;
  h_unreachable : list RouteKey;
  h_generation : Z;
  h_seqno : Z
}.

Definition host_of (e : Engine) : Host :=
  {| h_routes := selected_routes e; h_unreachable := unreachable_routes e;
     h_generation := generation e; h_seqno := sequence_number e |}.

Definition host_apply (h : Host) (a : Action) : option Host :=
  match a with
  | RoutesChanged g routes unreachable =>
      if g =? wrapping_add64 (h_generation h) 1
      then Some (MkHost routes unreachable g (h_seqno h)) else None
  | SequenceNumberChanged s =>
      if s =? wrapping_add16 (h_seqno h) 1
      then Some (MkHost (h_routes h) (h_unreachable h) (h_generation h) s) else None
  | _ => Some h
  end.

Fixpoint host_run (acts : list Action) (h : Host) : option Host :=
  match acts with
  | [] => Some h
  | a :: acts => h' ← host_apply h a; host_run acts h'
  end.

Lemma host_run_app a b h : host_run (a ++ b) h = (h' ← host_run a h; host_run b h').
Proof.
  revert h. induction a as [|x a IH]; intros h; simpl; [done|].
  destruct (host_apply h x); simpl; [apply IH | done].
Qed.

Lemma host_run_quiet acts h : Forall quiet acts -> host_run acts h = Some h.
Proof. induction 1 as [|a acts Ha _ IH]; simpl; [done|]. by destruct a. Qed.

(** * Steps *)

Record step (now : Z) (e e' : Engine) (acts : list Action) : Prop := {
  st_inv : Inv e';
  st_config : config e' = config e;
  st_interfaces : same_interfaces e e';
  st_sources : sources_persist now (feasible e) (feasible e');
  st_actions : actions_ok now e' acts;
  st_host : host_run acts (host_of e) = Some (host_of e')
}.

Lemma step_refl now e : Inv e -> step now e e [].
Proof. intros H. split; try done. constructor. Qed.

Lemma step_trans now e1 e2 e3 a b :
  step now e1 e2 a -> step now e2 e3 b -> step now e1 e3 (a ++ b).
Proof.
  intros [I1 C1 N1 S1 A1 H1] [I2 C2 N2 S2 A2 H2]. split; [done|congruence|..].
  - by eapply same_interfaces_trans.
  - by etrans.
  - apply actions_ok_app. split; [by eapply actions_ok_persist | done].
  - rewrite host_run_app, H1. done.
Qed.

Lemma step_nil_r now e1 e2 e3 a : step now e1 e2 a -> step now e2 e3 [] -> step now e1 e3 a.
Proof. intros H1 H2. rewrite <- (app_nil_r a). by eapply step_trans. Qed.

Lemma step_nil_l now e1 e2 e3 a : step now e1 e2 [] -> step now e2 e3 a -> step now e1 e3 a.
Proof. intros H1 H2. exact (step_trans _ _ _ _ [] a H1 H2). Qed.

(** A step that shows the host nothing. *)
Lemma step_quiet now e e' acts :
  Inv e' -> config e' = config e -> same_interfaces e e' ->
  sources_persist now (feasible e) (feasible e') ->
  selected e' = selected e -> tombstones e' = tombstones e -> generation e' = generation e ->
  sequence_number e' = sequence_number e ->
  actions_ok now e' acts -> Forall quiet acts -> step now e e' acts.
Proof.
  intros HI Hc Hi Hf Hs Ht Hg Hq Ha Hqt. split; try done. rewrite host_run_quiet by done.
  unfold host_of, selected_routes, unreachable_routes. by rewrite Hs, Ht, Hg, Hq.
Qed.

Lemma output_step_step now e e' acts :
  Inv e -> output_step now e e' -> sends_ok now e' acts -> step now e e' acts.
Proof.
  intros HI Ho [Ha Hq]. assert (F := os_frame _ _ _ Ho). apply step_quiet; try done.
  - by eapply output_step_Inv.
  - by eapply output_step_config.
  - intros i. by eapply output_step_dom.
  - by apply os_sources.
  - by apply (f_equal selected) in F.
  - by apply (f_equal tombstones) in F.
  - by apply (f_equal generation) in F.
  - by apply (f_equal sequence_number) in F.
Qed.
End Invariant.

(** * Changes of the neighbour and candidate tables that keep the invariant *)

Section Tables.
Context {NL : IpNetLib} {MI : MetricImpl}.

(** ** Candidates are revalued in place *)

Lemma Inv_revalue m e :
  dom m = dom (candidates e) ->
  (forall k n c, m !! (k, n) = Some c -> candidate_ok (config e) k n c) ->
  Inv e -> Inv (set_candidates m e).
Proof.
  intros Hd Hok HI. destruct HI as [IC IK IN MN MC IS IW IO IP]. split; try done; simpl.
  - intros k n c Hc. assert (is_Some (candidates e !! (k, n))) as [c0 H0].
    { apply elem_of_dom. rewrite <- Hd. apply elem_of_dom. eauto. }
    by eapply IK.
  - intros n nb Hn. destruct (IN n nb Hn). split; try done. unfold candidates_of in *. simpl. by rewrite Hd.
  - by rewrite <- size_dom, Hd, size_dom.
  - intros k s Hs. by destruct (IS k s Hs).
Qed.

(** ** Neighbours change, their candidate counters do not *)

Lemma Inv_neighbours m e :
  (forall n nb, m !! n = Some nb ->
     exists nb0, neighbours e !! n = Some nb0 /\ nb_candidates nb = nb_candidates nb0) ->
  dom m = dom (neighbours e) ->
  Inv e -> Inv (set_neighbours m e).
Proof.
  intros Hm Hd HI. destruct HI as [IC IK IN MN MC IS IW IO IP]. split; try done; simpl.
  - intros k n c Hc. apply elem_of_dom. rewrite Hd. apply elem_of_dom. by eapply IK.
  - intros n nb Hn. destruct (Hm n nb Hn) as (nb0 & H0 & Hc). destruct (IN n nb0 H0).
    split; simpl; rewrite ?Hc; done.
  - by rewrite <- size_dom, Hd, size_dom.
  - intros k s Hs. by destruct (IS k s Hs).
Qed.

Lemma Inv_neighbour_insert n nb nb' e :
  neighbours e !! n = Some nb -> nb_candidates nb' = nb_candidates nb ->
  Inv e -> Inv (set_neighbours (<[n := nb']> (neighbours e)) e).
Proof.
  intros Hn Hc. apply Inv_neighbours.
  - intros n' x. destruct (decide (n' = n)) as [->|].
    + rewrite lookup_insert. case_decide; [|done]. intros [= <-]. eauto.
    + rewrite lookup_insert_ne by done. eauto.
  - apply dom_insert_lookup_L. eauto.
Qed.

Lemma Inv_neighbour_alter f n e :
  (forall nb, nb_candidates (f nb) = nb_candidates nb) ->
  Inv e -> Inv (set_neighbours (alter f n (neighbours e)) e).
Proof.
  intros Hf. apply Inv_neighbours; [|apply dom_alter_L].
  intros n' x. destruct (decide (n' = n)) as [->|].
  - rewrite lookup_alter. case_decide; [|done]. intros (nb & Hx & ->)%fmap_Some. eauto.
  - rewrite lookup_alter_ne by done. eauto.
Qed.

Lemma Inv_neighbour_fmap f e :
  (forall nb, nb_candidates (f nb) = nb_candidates nb) ->
  Inv e -> Inv (set_neighbours (f <$> neighbours e) e).
Proof.
  intros Hf. apply Inv_neighbours; [|apply dom_fmap_L].
  intros n' x. rewrite lookup_fmap. intros (nb & Hx & ->)%fmap_Some. eauto.
Qed.

Lemma dom_imap_total {K A} `{Countable K} (f : K -> A -> A) (m : gmap K A) :
  dom (map_imap (fun k a => Some (f k a)) m) = dom m.
Proof.
  apply set_eq. intros k. rewrite !elem_of_dom, map_lookup_imap.
  destruct (m !! k); simpl; by rewrite ?is_Some_alt.
Qed.

Lemma Inv_neighbour_imap f e :
  (forall n nb, nb_candidates (f n nb) = nb_candidates nb) ->
  Inv e -> Inv (set_neighbours (map_imap (fun n nb => Some (f n nb)) (neighbours e)) e).
Proof.
  intros Hf. apply Inv_neighbours; [|apply dom_imap_total].
  intros n' x. rewrite map_lookup_imap. intros (nb & Hx & [= <-])%bind_Some. eauto.
Qed.

(** ** A candidate leaves, or a new one arrives *)

Lemma Inv_remove e k n c nb :
  Inv e -> candidates e !! (k, n) = Some c -> neighbours e !! n = Some nb ->
  exists m, nb_candidates nb = S m /\
    Inv (set_neighbours (<[n := set_nb_candidates m nb]> (neighbours e))
           (set_candidates (delete (k, n) (candidates e)) e)).
Proof.
  intros HI Hc Hn. destruct HI as [IC IK IN MN MC IS IW IO IP].
  assert ((k, n) ∈ dom (candidates e)) as Hd by (apply elem_of_dom; eauto).
  assert (forall n', candidates_of e n' = ((if decide (n = n') then 1 else 0)
            + count_for (dom (delete (k, n) (candidates e))) n')%nat) as Hcount.
  { intros n'. unfold candidates_of. rewrite dom_delete_L. by apply (count_delete _ (k, n)). }
  destruct (IN n nb Hn) as [Nc Nl Ni]. rewrite Hcount, decide_True in Nc by done.
  exists (count_for (dom (delete (k, n) (candidates e))) n). split; [lia|].
  split; try done; simpl.
  - intros k' n' c'. intros [_ H]%lookup_delete_Some. eauto.
  - intros k' n' c' [_ H]%lookup_delete_Some. apply IK in H. destruct (decide (n' = n)) as [->|].
    + rewrite lookup_insert. case_decide; [eauto|done].
    + by rewrite lookup_insert_ne.
  - intros n' x Hx. destruct (decide (n' = n)) as [->|Hne].
    + rewrite lookup_insert in Hx. case_decide; [|done]. simplify_eq. split; simpl; [done|lia|done].
    + rewrite lookup_insert_ne in Hx by done. destruct (IN n' x Hx) as [Xc Xl Xi]. split; try done.
      rewrite Hcount, decide_False in Xc by done. done.
  - rewrite <- size_dom, dom_insert_lookup_L, size_dom by eauto. done.
  - rewrite map_size_delete, Hc. lia.
  - intros k' s Hs. by destruct (IS k' s Hs).
Qed.

Lemma Inv_insert e k n c nb :
  Inv e -> candidates e !! (k, n) = None -> neighbours e !! n = Some nb ->
  candidate_ok (config e) k n c ->
  (nb_candidates nb < max_candidates_per_neighbor (cfg_limits (config e)))%nat ->
  (size (candidates e) < max_candidates (cfg_limits (config e)))%nat ->
  Inv (set_candidates (<[(k, n) := c]> (candidates e))
         (set_neighbours (<[n := set_nb_candidates (S (nb_candidates nb)) nb]> (neighbours e)) e)).
Proof.
  intros HI Hc Hn Hok Hl1 Hl2. destruct HI as [IC IK IN MN MC IS IW IO IP].
  assert ((k, n) ∉ dom (candidates e)) as Hd by (by apply not_elem_of_dom).
  assert (forall n', count_for (dom (<[(k, n) := c]> (candidates e))) n'
            = ((if decide (n = n') then 1 else 0) + candidates_of e n')%nat) as Hcount.
  { intros n'. rewrite dom_insert_L. by apply (count_insert _ (k, n)). }
  destruct (IN n nb Hn) as [Nc Nl Ni]. split; try done; simpl.
  - intros k' n' c'. destruct (decide ((k', n') = (k, n))) as [[= -> ->]|Hne].
    + rewrite lookup_insert. case_decide; [|done]. by intros [= <-].
    + rewrite lookup_insert_ne by congruence. apply IC.
  - intros k' n' c' H. destruct (decide (n' = n)) as [->|Hne].
    + rewrite lookup_insert. case_decide; [eauto|done].
    + rewrite lookup_insert_ne by done. rewrite lookup_insert_ne in H by congruence. eauto.
  - intros n' x Hx. destruct (decide (n' = n)) as [->|Hne].
    + rewrite lookup_insert in Hx. case_decide; [|done]. simplify_eq.
      split; simpl; [|lia|done]. unfold candidates_of. simpl. rewrite Hcount, decide_True by done. lia.
    + rewrite lookup_insert_ne in Hx by done. destruct (IN n' x Hx) as [Xc Xl Xi]. split; try done.
      unfold candidates_of. simpl. by rewrite Hcount, decide_False.
  - rewrite <- size_dom, dom_insert_lookup_L, size_dom by eauto. done.
  - rewrite map_size_insert, Hc. lia.
  - intros k' s Hs. by destruct (IS k' s Hs).
Qed.

(** ** Neighbours come and go *)

Lemma Inv_neighbour_new n nb e :
  neighbours e !! n = None -> (size (neighbours e) < max_neighbors (cfg_limits (config e)))%nat ->
  is_Some (interfaces e !! nk_interface n) -> nb_candidates nb = 0%nat ->
  Inv e -> Inv (set_neighbours (<[n := nb]> (neighbours e)) e).
Proof.
  intros Hn Hl Hi H0 HI. destruct HI as [IC IK IN MN MC IS IW IO IP].
  assert (candidates_of e n = 0%nat) as Hz.
  { apply count_none. intros [k n'] Hk%elem_of_dom E. simpl in E. subst n'. destruct Hk as [c Hc].
    apply IK in Hc. rewrite Hn in Hc. by destruct Hc. }
  split; try done; simpl.
  - intros k n' c Hc. apply IK in Hc. destruct (decide (n = n')) as [->|].
    + rewrite lookup_insert, decide_True by done. eauto.
    + by rewrite lookup_insert_ne.
  - intros n' x. destruct (decide (n = n')) as [<-|].
    + rewrite lookup_insert, decide_True by done. intros [= <-]. split; rewrite ?H0; [done|lia|done].
    + rewrite lookup_insert_ne by done. intros Hx. by destruct (IN n' x Hx).
  - rewrite map_size_insert, Hn. lia.
  - intros k s Hs. by destruct (IS k s Hs).
Qed.

(** Keeping the neighbours that satisfy [P], with their candidates, when the
    interfaces they need stay. *)
Lemma Inv_restrict (P : NeighborKey -> Prop) `{forall n, Decision (P n)} cs ns ifs e :
  (forall k n c, cs !! (k, n) = Some c <-> candidates e !! (k, n) = Some c /\ P n) ->
  (forall n nb, ns !! n = Some nb <-> neighbours e !! n = Some nb /\ P n) ->
  (forall n, P n -> is_Some (interfaces e !! nk_interface n) -> is_Some (ifs !! nk_interface n)) ->
  Inv e -> Inv (set_candidates cs (set_neighbours ns (set_interfaces ifs e))).
Proof.
  intros Hcs Hns Hifs HI. destruct HI as [IC IK IN MN MC IS IW IO IP]. split; try done; simpl.
  - intros k n c [Hc _]%Hcs. by apply IC.
  - intros k n c [Hc HP]%Hcs. destruct (IK k n c Hc) as [nb Hnb]. exists nb. by apply Hns.
  - intros n nb [Hn HP]%Hns. destruct (IN n nb Hn) as [A B C]. split; simpl; [|done|by apply Hifs].
    rewrite A. unfold candidates_of. simpl.
    replace (dom cs) with (filter (fun k => P k.2) (dom (candidates e)));
      [symmetry; apply count_filter; by intros [? ?] ->|].
    apply set_eq. intros [k n']. rewrite elem_of_filter, !elem_of_dom. unfold is_Some.
    setoid_rewrite Hcs. simpl. naive_solver.
  - etrans; [|exact MN]. apply map_subseteq_size, map_subseteq_spec. intros n nb Hn. by apply Hns.
  - etrans; [|exact MC]. apply map_subseteq_size, map_subseteq_spec. intros [k n] c Hc. by apply Hcs.
  - intros k s Hs. by destruct (IS k s Hs).
Qed.

Lemma Inv_interfaces ifs e :
  (forall i, is_Some (interfaces e !! i) -> is_Some (ifs !! i)) -> Inv e -> Inv (set_interfaces ifs e).
Proof.
  intros Hifs HI. destruct HI as [IC IK IN MN MC IS IW IO IP]. split; try done; simpl.
  - intros n nb Hn. destruct (IN n nb Hn) as [A B C]. split; [done|done|]. by apply Hifs.
  - intros k s Hs. by destruct (IS k s Hs).
Qed.
End Tables.
