(* ===== verification/AdmissionSpec.v ===== *)
(** Candidate admission keeps the invariant ([receive_update] and the link-cost
    changes that revalue candidates). *)
From S2P Require Import Prelude Net Model Metric Wire Api EngineState Sources Output Rib OutputSpec Invariant.
Local Open Scope Z_scope.

Section Admission.
Context {NL : IpNetLib} {MI : MetricImpl} {HO : HashOrder} (now : Z) (now_u64 : in_u64 now).

(** * Requests *)

(** Output, the tables of requests and the repeats due. *)
Definition erase_requests (e : Engine) : Engine :=
  set_pending_seqno ∅ (set_recent_seqno ∅ (set_pending_advertisements ∅ (erase_output e))).

Record request_step (e e' : Engine) : Prop := {
  rs_frame : erase_requests e' = erase_requests e;
  rs_improve : sources_persist now (feasible e) (feasible e');
  rs_pending : (forall k p, pending_seqno e !! k = Some p -> pending_ok p) ->
               forall k p, pending_seqno e' !! k = Some p -> pending_ok p
}.

#[global] Instance request_step_preorder : PreOrder request_step.
Proof.
  split.
  - intros e. split; [reflexivity|reflexivity|done].
  - intros e1 e2 e3 [H1 H2 H3] [H4 H5 H6]. split; [congruence|exact (transitivity H2 H5)|by intros ?; apply H6, H3].
Qed.

Lemma output_request e e' : output_step now e e' -> request_step e e'.
Proof.
  intros [H1 H2]. split; [|done|].
  - unfold erase_requests. by rewrite H1.
  - by rewrite (f_equal pending_seqno H1 : pending_seqno e' = pending_seqno e).
Qed.

(** Fields a request step leaves alone. *)
Lemma request_frame e e' :
  request_step e e' ->
  config e' = config e /\ neighbours e' = neighbours e /\ candidates e' = candidates e /\
  selected e' = selected e /\ originated e' = originated e /\ tombstones e' = tombstones e /\
  generation e' = generation e /\ sequence_number e' = sequence_number e /\
  resources e' = resources e.
Proof.
  intros [F _ _]. split_and!;
    [apply (f_equal config) in F|apply (f_equal neighbours) in F|apply (f_equal candidates) in F
    |apply (f_equal selected) in F|apply (f_equal originated) in F|apply (f_equal tombstones) in F
    |apply (f_equal generation) in F|apply (f_equal sequence_number) in F
    |apply (f_equal resources) in F]; exact F.
Qed.

Lemma request_interfaces e e' : request_step e e' -> same_interfaces e e'.
Proof.
  intros [F _ _] i. apply (f_equal (fun e => interfaces e !! i)) in F. simpl in F.
  rewrite !lookup_fmap in F. destruct (interfaces e' !! i), (interfaces e !! i); try done;
    by rewrite !is_Some_alt.
Qed.

Lemma request_step_Inv e e' : request_step e e' -> Inv e -> Inv e'.
Proof.
  intros H HI. assert (F := rs_frame _ _ H). destruct (request_frame _ _ H) as (?&?&?&?&?&?&?&?&?).
  apply (Inv_frame e); try done; [by apply request_interfaces|..].
  - by apply (f_equal pending_switches) in F.
  - by apply (f_equal settling_since) in F.
  - by apply (f_equal settled_routes) in F.
  - apply (rs_pending _ _ H), (inv_pending _ HI).
Qed.

Lemma request_step_step e e' acts :
  Inv e -> request_step e e' -> sends_ok now e' acts -> step now e e' acts.
Proof.
  intros HI H [Ha Hq]. destruct (request_frame _ _ H) as (?&?&?&?&?&?&?&?&?).
  apply step_quiet; try done; [by eapply request_step_Inv | by apply request_interfaces|].
  by apply rs_improve.
Qed.

Lemma originate_seqno_request_spec r e :
  1 <= rq_hop_count r ->
  wp (originate_seqno_request r now) (fun l e' => request_step e e' /\ sends_ok now e' l) e.
Proof.
  intros Hh. unfold originate_seqno_request. do 3 wp_step. split.
  - split; [done|done|]. intros Hp k p. simpl.
    destruct (decide (k = (rq_key r, rq_router_id r))) as [->|].
    + rewrite lookup_insert. case_decide; [|done]. intros [= <-]. split; simpl; [|done].
      unfold REQUEST_RETRIES. lia.
    + rewrite lookup_insert_ne by done. apply Hp.
  - by apply sends_ok_send, Forall_singleton.
Qed.

Lemma satisfy_request_spec key id seqno metric acts k e0 e :
  request_step e0 e -> sends_ok now e acts ->
  wp (satisfy_request key id seqno metric now acts k)
    (fun acts' e' => request_step e0 e' /\ sends_ok now e' acts') e.
Proof.
  intros Hs Ha. unfold satisfy_request. do 2 wp_step.
  destruct (pending_seqno e !! k) as [p|] eqn:Ep; [|by wp_step]. do 3 wp_step.
  set (e1 := set_pending_seqno _ e).
  assert (request_step e e1) as H1.
  { split; [done|done|]. intros Hp k' p' H. simpl in H. apply lookup_delete_Some in H as [_ H].
    by eapply Hp. }
  assert (wp (match pq_requester p with
              | Some requester => action ← update_action_to_candidate key id seqno metric requester now; mret [action]
              | None => mret [] end)
            (fun reply e' => request_step e1 e' /\ sends_ok now e' reply /\ sends_ok now e' acts) e1) as Hw.
  { destruct (pq_requester p).
    - wp_step. wp_call update_action_to_candidate_spec; [|done]. intros a e' [Ho Hok]. wp_step.
      split; [by apply output_request|]. split; [done|]. by eapply output_step_sends.
    - wp_step. split; [done|]. split; [apply sends_ok_nil | done]. }
  revert Hw. apply wp_mono. intros reply e2 (H2 & Hr & Ha2). do 2 wp_step. wp_step.
  split; [|by apply sends_ok_app].
  etrans; [done|]. etrans; [done|]. etrans; [done|]. split; [done|done|done].
Qed.

Lemma satisfy_requests_spec key id seqno metric e :
  wp (satisfy_requests key id seqno metric now) (fun l e' => request_step e e' /\ sends_ok now e' l) e.
Proof.
  unfold satisfy_requests. do 2 wp_step. apply wp_loop; [split; [done|apply sends_ok_nil]|].
  intros k acts e' _ [Hs Ha]. by apply satisfy_request_spec.
Qed.

Lemma request_improvement_spec key id metric fd nk e :
  wp (request_improvement key id metric fd nk now) (fun l e' => request_step e e' /\ sends_ok now e' l) e.
Proof.
  unfold request_improvement. do 2 wp_step. destruct fd; [|wp_step; split; [done|apply sends_ok_nil]].
  case_match; [|wp_step; split; [done|apply sends_ok_nil]].
  apply originate_seqno_request_spec. done.
Qed.

(** * Candidates *)

(** Extension over a link never shortens a route. *)
Lemma safe_extend_spec algebra a l :
  safe_extend algebra a l <= INFINITY /\
  (safe_extend algebra a l = INFINITY \/ (a < safe_extend algebra a l /\ a <> INFINITY)).
Proof.
  unfold safe_extend. pose proof (extend_u16 algebra a l) as H. unfold in_u16, INFINITY in *.
  destruct ((a =? 65535) || (l =? 65535) || (l =? 0)) eqn:E; [lia|].
  destruct (Z.leb_spec (extend algebra a l) a); [lia|]. lia.
Qed.

Lemma retracted_ok cfg k n c : candidate_ok cfg k n c -> candidate_ok cfg k n (retracted c).
Proof. intros []. split; try done. simpl. auto. Qed.

Lemma revalued_ok cfg k n c algebra l :
  candidate_ok cfg k n c ->
  candidate_ok cfg k n (set_c_metric (safe_extend algebra (c_advertised_metric c) l) c).
Proof.
  intros []. pose proof (safe_extend_spec algebra (c_advertised_metric c) l) as [? ?]. by split.
Qed.

(** Selected routes stay backed when the candidates that carry them do. *)
Lemma backed_kept e e' :
  selected e' = selected e ->
  (forall k n c, candidates e !! (k, n) = Some c ->
     exists c', candidates e' !! (k, n) = Some c' /\
       selected_from_candidate c' = selected_from_candidate c) ->
  backed e -> backed e'.
Proof.
  intros Hs Hc Hb k s Hk. rewrite Hs in Hk. destruct (Hb k s Hk) as (n & c & Hn & ->).
  destruct (Hc k n c Hn) as (c' & Hc' & E). exists n, c'. by rewrite E.
Qed.

Lemma request_backed e e' : request_step e e' -> backed e -> backed e'.
Proof.
  intros H. destruct (request_frame _ _ H) as (_&_&Hc&Hs&_). apply backed_kept; [done|].
  rewrite Hc. eauto.
Qed.

(** What admitting an update guarantees: the flag is raised whenever a selected
    route may have lost its candidate. *)
Record admitted (e e' : Engine) (changed : bool) (acts : list Action) : Prop := {
  ad_step : step now e e' acts;
  ad_selected : selected e' = selected e;
  ad_backed : changed = false -> backed e -> backed e'
}.

Lemma admitted_refl e : Inv e -> admitted e e false [].
Proof. intros H. split; [by apply step_refl|done|done]. Qed.

Lemma admitted_requests e e' acts :
  Inv e -> request_step e e' -> sends_ok now e' acts -> admitted e e' false acts.
Proof.
  intros HI H Ha. split; [by apply request_step_step| |intros _; by apply request_backed].
  by destruct (request_frame _ _ H) as (_&_&_&?&_).
Qed.

(** A change of tables only. *)
Lemma table_step e e' :
  Inv e' -> config e' = config e -> interfaces e' = interfaces e -> feasible e' = feasible e ->
  selected e' = selected e -> tombstones e' = tombstones e -> generation e' = generation e ->
  sequence_number e' = sequence_number e -> step now e e' [].
Proof.
  intros HI Hc Hi Hf Hs Ht Hg Hq. apply step_quiet; try done; [by apply same_interfaces_eq|by rewrite Hf|constructor].
Qed.

Lemma is_live_false c cfg k n :
  candidate_ok cfg k n c -> is_live c = false -> selected_from_candidate (retracted c) = selected_from_candidate c.
Proof.
  intros _. unfold is_live. rewrite orb_false_iff, !negb_false_iff, !Z.eqb_eq. intros [_ H].
  unfold selected_from_candidate. simpl. by rewrite H.
Qed.

Lemma retract_neighbour_spec nk e :
  Inv e -> wp (retract_neighbour nk) (fun changed e' => admitted e e' changed []) e.
Proof.
  intros HI. unfold retract_neighbour. do 4 wp_step. wp_step.
  set (f := fun (k : RouteKey * NeighborKey) c => if bool_decide (k.2 = nk) then retracted c else c).
  change (map_imap _ (candidates e)) with (map_imap (fun k c => Some (f k c)) (candidates e)).
  assert (Inv (set_candidates (map_imap (fun k c => Some (f k c)) (candidates e)) e)) as HI'.
  { apply Inv_revalue; [apply dom_imap_total| |done]. intros k n c.
    rewrite map_lookup_imap. intros (c0 & H & [= <-])%bind_Some. apply (inv_candidates _ HI) in H.
    unfold f. case_bool_decide; [by apply retracted_ok | done]. }
  split; [by apply table_step|done|]. intros Hch. rewrite existsb_hm_iter in Hch.
  apply backed_kept; [done|]. intros k n c Hc. simpl. rewrite map_lookup_imap, Hc. simpl.
  eexists. split; [done|]. specialize (Hch (k, n) c Hc). simpl in Hch. unfold f. simpl.
  case_bool_decide; [|done]. by eapply is_live_false; [apply (inv_candidates _ HI)|].
Qed.

Lemma retract_candidate_spec ck e :
  Inv e -> wp (retract_candidate ck) (fun changed e' => admitted e e' changed []) e.
Proof.
  intros HI. unfold retract_candidate. do 4 wp_step. wp_step.
  assert (Inv (set_candidates (alter retracted ck (candidates e)) e)) as HI'.
  { apply Inv_revalue; [apply dom_alter_L| |done]. intros k n c.
    destruct (decide (ck = (k, n))) as [->|]; [|rewrite lookup_alter_ne by done; by apply inv_candidates].
    rewrite lookup_alter. case_decide; [|done]. intros (c0 & Hc0 & ->)%fmap_Some.
    by apply retracted_ok, (inv_candidates _ HI). }
  split; [by apply table_step|done|]. intros Hch.
  apply backed_kept; [done|]. intros k n c Hc. simpl.
  destruct (decide (ck = (k, n))) as [->|]; [|rewrite lookup_alter_ne by done; eauto].
  rewrite lookup_alter. case_decide; [|done]. rewrite Hc in *. simpl. eexists. split; [done|].
  by eapply is_live_false; [apply (inv_candidates _ HI)|].
Qed.

Lemma with_neighbour_spec n nb nb' f (Q : unit -> Engine -> Prop) e :
  neighbours e !! n = Some nb -> f nb = Some nb' ->
  Q tt (set_neighbours (<[n := nb']> (neighbours e)) e) -> wp (with_neighbour n f) Q e.
Proof.
  intros Hn Hf HQ. unfold with_neighbour. do 2 wp_step. wp_step. apply wp_expect.
  exists nb. split; [done|]. wp_step. apply wp_expect. exists nb'. split; [done|]. by wp_step.
Qed.

Lemma reject_import_spec k n e :
  Inv e -> wp (reject_import (k, n)) (fun changed e' => admitted e e' changed []) e.
Proof.
  intros HI. unfold reject_import. do 4 wp_step.
  destruct (candidates e !! (k, n)) as [c|] eqn:Ec.
  - rewrite bool_decide_true by eauto. wp_step. destruct (inv_known _ HI _ _ _ Ec) as [nb Hn].
    destruct (Inv_remove e k n c nb HI Ec Hn) as (m & Hm & HI').
    eapply with_neighbour_spec; [exact Hn| |].
    + unfold drop_candidate. by rewrite Hm.
    + wp_step. split; [|done|done]. by apply table_step.
  - rewrite bool_decide_false by (by intros [? ?]). do 2 wp_step.
    rewrite delete_id by done.
    replace (set_candidates (candidates e) e) with e by (by destruct e).
    wp_step. by apply admitted_refl.
Qed.

Lemma refuse_candidate_spec n nb r e :
  Inv e -> neighbours e !! n = Some nb ->
  wp (refuse_candidate n r) (fun _ e' => admitted e e' false []) e.
Proof.
  intros HI Hn. unfold refuse_candidate. do 2 wp_step.
  eapply with_neighbour_spec; [exact Hn|done|]. split; [|done|done]. apply table_step; try done.
  apply (Inv_neighbour_insert n nb); [done|done|]. by apply (Inv_frame e); try done; apply HI.
Qed.

(** Replacing a candidate, or inserting one where the limits leave room. *)
Lemma install_candidate_spec n nb is_new c e :
  Inv e -> neighbours e !! n = Some nb -> candidate_ok (config e) (c_key c) n c ->
  (is_new = true -> candidates e !! (c_key c, n) = None /\ refusal e nb = None) ->
  (is_new = false -> is_Some (candidates e !! (c_key c, n))) ->
  wp (install_candidate n is_new c) (fun changed e' => admitted e e' changed []) e.
Proof.
  intros HI Hn Hok Hnew Hold. unfold install_candidate.
  assert (forall old, candidates e !! (c_key c, n) = Some old ->
            Inv (set_candidates (<[(c_key c, n) := c]> (candidates e)) e)) as Hrev.
  { intros old H. apply Inv_revalue; [by apply dom_insert_lookup_L| |done]. intros k' n' c'.
    destruct (decide ((c_key c, n) = (k', n'))) as [[= <- <-]|Hne].
    - rewrite lookup_insert. case_decide; [|done]. by intros [= <-].
    - rewrite lookup_insert_ne by done. by apply inv_candidates. }
  wp_step. destruct is_new.
  - destruct (Hnew eq_refl) as [Hnone Hr]. eapply with_neighbour_spec; [exact Hn|done|].
    do 4 wp_step. wp_step. simpl. rewrite Hnone. split; [|done|done]. apply table_step; try done.
    unfold refusal in Hr.
    destruct (Nat.leb_spec (max_candidates_per_neighbor (cfg_limits (config e))) (nb_candidates nb)); [done|].
    destruct (Nat.leb_spec (max_candidates (cfg_limits (config e))) (size (candidates e))); [done|].
    by apply Inv_insert.
  - destruct (Hold eq_refl) as [old Ho]. do 5 wp_step. wp_step. rewrite Ho. specialize (Hrev old Ho).
    split; [by apply table_step|done|]. rewrite !orb_false_iff, !negb_false_iff, !Z.eqb_eq, !bool_decide_eq_false.
    intros ((((H1 & H2) & H3) & H4) & H5).
    apply backed_kept; [done|]. intros k' n' c' Hc'. simpl.
    destruct (decide ((c_key c, n) = (k', n'))) as [[= <- <-]|Hne];
      [|rewrite lookup_insert_ne by done; eauto].
    rewrite lookup_insert. case_decide; [|done]. eexists. split; [done|]. simplify_eq.
    pose proof (inv_candidates _ HI _ _ _ Ho) as [K I _ _ _ _]. destruct Hok as [K' I' _ _ _ _].
    unfold selected_from_candidate. rewrite K, I, I'. f_equal; try done; symmetry; by apply dec_stable.
Qed.

Lemma admitted_trans e1 e2 e3 b a1 a2 :
  admitted e1 e2 false a1 -> admitted e2 e3 b a2 -> admitted e1 e3 b (a1 ++ a2).
Proof.
  intros [S1 L1 B1] [S2 L2 B2]. split; [by eapply step_trans|congruence|]. auto.
Qed.

Lemma admit_update_spec n nb key id hop u is_new e :
  Inv e -> neighbours e !! n = Some nb -> id <> cfg_router_id (config e) ->
  accept (cfg_route_policy (config e)) (import_context key n hop id (ru_seqno u) (ru_metric u)) = true ->
  ru_metric u <> INFINITY ->
  (is_new = true -> candidates e !! (key, n) = None /\ refusal e nb = None) ->
  (is_new = false -> is_Some (candidates e !! (key, n))) ->
  wp (admit_update n key id hop u is_new nb now) (fun r e' => admitted e e' r.1 r.2) e.
Proof.
  intros HI Hn Hid Hacc Hfin Hnew Hold. unfold admit_update. do 2 wp_step.
  set (metric := safe_extend _ _ _).
  destruct (negb (metric =? INFINITY) && (metric <=? ru_metric u)) eqn:Em.
  { wp_step. by apply admitted_refl. }
  do 4 wp_step. set (fd := s_distance <$> _).
  set (is_feasible := match fd with Some _ => _ | None => _ end).
  destruct (negb is_feasible && _).
  { wp_step. destruct fd.
    - wp_call originate_seqno_request_spec; [|done]. intros acts e' [? ?]. wp_step. by apply admitted_requests.
    - do 2 wp_step. by apply admitted_refl. }
  wp_step. assert (forall e', request_step e e' ->
    forall acts, sends_ok now e' acts ->
    wp (changed ← install_candidate n is_new (MkCandidate key id (ru_seqno u) (ru_metric u) metric hop
          (nk_interface n) (ru_interval_cs u) (saturating_add64 now (ru_interval_cs u * 35)) false);
        mret (changed, acts)) (fun r e'' => admitted e e'' r.1 r.2) e') as Hinst.
  { intros e' Hr acts Ha. destruct (request_frame _ _ Hr) as (Hcf&Hnb&Hcd&_&_&_&_&_&_). wp_step.
    wp_call install_candidate_spec.
    - intros changed e'' Ha'. wp_step. simpl. rewrite <- (app_nil_r acts).
      eapply admitted_trans; [by apply admitted_requests|done].
    - by eapply request_step_Inv.
    - by rewrite Hnb.
    - rewrite Hcf. split; simpl; try done.
      + pose proof (safe_extend_spec (metric_algebra (config e)) (ru_metric u) (link_cost (nb_metric nb))) as [_ ?].
        done.
      + apply safe_extend_spec.
    - simpl. unfold refusal. by rewrite Hcf, Hcd.
    - simpl. by rewrite Hcd. }
  destruct is_feasible.
  - wp_call satisfy_requests_spec. intros acts e' [? ?]. by apply Hinst.
  - wp_call request_improvement_spec. intros acts e' [? ?]. by apply Hinst.
Qed.

Lemma receive_route_spec n key id hop u e :
  Inv e -> id <> cfg_router_id (config e) -> ru_metric u <> INFINITY ->
  wp (receive_route n key id hop u now) (fun r e' => admitted e e' r.1 r.2) e.
Proof.
  intros HI Hid Hfin. unfold receive_route. do 2 wp_step.
  destruct (neighbours e !! n) as [nb|] eqn:Hn; [|wp_step; by apply admitted_refl]. do 2 wp_step.
  destruct (accept _ _) eqn:Ea; simpl.
  - do 4 wp_step. destruct (bool_decide_reflect (candidates e !! (key, n) = None)) as [Hc|Hc].
    + destruct (refusal e nb) eqn:Er.
      * wp_step. wp_call refuse_candidate_spec; [|done..]. intros [] e' H. by wp_step.
      * by apply admit_update_spec.
    + apply admit_update_spec; try done. intros _. by apply not_eq_None_Some.
  - wp_step. wp_call reject_import_spec; [|done]. intros removed e' H. by wp_step.
Qed.

Lemma receive_update_spec n u e :
  Inv e -> wp (receive_update n u now) (fun r e' => admitted e e' r.1 r.2) e.
Proof.
  intros HI. unfold receive_update.
  assert (wp (mret (false, [])) (fun r e' => admitted e e' r.1 r.2) e) as Hskip
    by (wp_step; by apply admitted_refl).
  destruct (ru_key u) as [key|].
  - destruct (forbidden_destination _); [done|]. destruct (Z.eqb_spec (ru_metric u) INFINITY) as [Hi|Hf].
    { wp_step. wp_call retract_candidate_spec; [|done]. intros b e' H. by wp_step. }
    destruct (ru_router_id u) as [id|]; [|done]. do 2 wp_step.
    case_bool_decide as Hid; [done|]. destruct (ru_next_hop u) as [hop|]; [|done]. do 2 wp_step.
    case_match; [done|]. by apply receive_route_spec.
  - wp_step. destruct (_ =? _); [wp_call retract_neighbour_spec; [|done]|];
      [intros b e' H; by wp_step|do 2 wp_step; by apply admitted_refl].
Qed.

(** Revaluing candidates over changed link costs. *)
Lemma recompute_candidate_metrics_spec only e :
  Inv e -> wp (recompute_candidate_metrics only) (fun changed e' => admitted e e' changed []) e.
Proof.
  intros HI. unfold recompute_candidate_metrics. do 8 wp_step. wp_step.
  match goal with |- context [map_imap (fun k c => Some (@?g k c)) _] => set (f := g) end.
  change (map_imap _ (candidates e)) with (map_imap (fun k c => Some (f k c)) (candidates e)).
  assert (Inv (set_candidates (map_imap (fun k c => Some (f k c)) (candidates e)) e)) as HI'.
  { apply Inv_revalue; [apply dom_imap_total| |done]. intros k n c.
    rewrite map_lookup_imap. intros (c0 & H & [= <-])%bind_Some. apply (inv_candidates _ HI) in H.
    unfold f. case_match; [by apply revalued_ok | done]. }
  split; [by apply table_step|done|]. intros Hch. rewrite existsb_hm_iter in Hch.
  apply backed_kept; [done|]. intros k n c Hc. simpl. rewrite map_lookup_imap, Hc. simpl.
  eexists. split; [done|]. specialize (Hch (k, n) c Hc). apply negb_false_iff, Z.eqb_eq in Hch.
  unfold selected_from_candidate. fold (f (k, n) c) in Hch. rewrite <- Hch. unfold f. by case_match.
Qed.
End Admission.
