(* ===== verification/SelectionSpec.v ===== *)
(** Route selection: [reselect] keeps the invariant, leaves every selected route
    backed by a usable candidate, selects a route for every destination that has
    one, and holds the destinations that lost theirs. *)
From S2P Require Import Prelude Net Model Metric Wire Api EngineState Sources Output Rib OutputSpec Invariant AdmissionSpec.
Local Open Scope Z_scope.

Section Selection.
Context {NL : IpNetLib} {MI : MetricImpl} {HO : HashOrder} (now : Z) (now_u64 : in_u64 now).

(** * Usable candidates by destination *)

Definition has_key (k : RouteKey) (c : Candidate) : bool := bool_decide (c_key c = k).

Lemma lookup_group l m k :
  fold_left group_candidate l m !! k =
  match List.filter (has_key k) l with [] => m !! k | l' => Some (default [] (m !! k) ++ l') end.
Proof.
  revert m. induction l as [|c l IH]; intros m; cbn [fold_left List.filter]; [done|].
  rewrite IH. unfold has_key at 2, group_candidate. destruct (bool_decide_reflect (c_key c = k)) as [<-|Hne].
  - rewrite lookup_insert, decide_True by done. simpl. case_match; [done|]. simpl. by rewrite <- app_assoc.
  - by rewrite lookup_insert_ne.
Qed.

Lemma lookup_group_candidates e k :
  group_candidates e !! k =
  match List.filter (has_key k) (List.filter (usable e) (hm_iter (candidates e)).*2) with
  | [] => None | l => Some l
  end.
Proof. unfold group_candidates. rewrite lookup_group. by case_match. Qed.

Lemma elem_of_table e c : c ∈ (hm_iter (candidates e)).*2 <-> exists k n, candidates e !! (k, n) = Some c.
Proof.
  rewrite list_elem_of_fmap. split.
  - intros ([[k n] c'] & -> & H%hm_iter_lookup). eauto.
  - intros (k & n & H). exists ((k, n), c). by rewrite hm_iter_lookup.
Qed.

Lemma group_sound e k routes :
  group_candidates e !! k = Some routes ->
  routes <> [] /\
  forall c, c ∈ routes <-> c_key c = k /\ usable e c = true /\ exists k' n, candidates e !! (k', n) = Some c.
Proof.
  rewrite lookup_group_candidates. set (l := List.filter _ _). intros H.
  assert (l = routes /\ l <> []) as [<- Hne] by (destruct l; by simplify_eq). split; [done|].
  intros c. unfold l, has_key. rewrite !elem_of_filter_bool, bool_decide_eq_true, elem_of_table. tauto.
Qed.

Lemma group_complete e k n c :
  candidates e !! (k, n) = Some c -> usable e c = true -> is_Some (group_candidates e !! c_key c).
Proof.
  intros Hc Hu. rewrite lookup_group_candidates. case_match eqn:E; [|eauto].
  assert (c ∈ []) as H; [|by apply elem_of_nil in H]. rewrite <- E. unfold has_key.
  rewrite !elem_of_filter_bool, bool_decide_eq_true, elem_of_table. eauto.
Qed.

(** * Choosing *)

(** Everything but the state of pending switches. *)
Definition erase_switches (e : Engine) : Engine :=
  set_pending_switches ∅ (set_settling_since ∅ (set_settled_routes ∅ e)).

Lemma candidate_order_gt x y : candidate_order x y = Gt -> c_metric y <= c_metric x.
Proof.
  cbv [candidate_order cmp pair_ord Z_ord fst snd].
  destruct (Z.compare_spec (c_metric x) (c_metric y)); [lia|done|lia].
Qed.

Lemma candidate_order_le x y : candidate_order x y <> Gt -> c_metric x <= c_metric y.
Proof.
  cbv [candidate_order cmp pair_ord Z_ord fst snd].
  destruct (Z.compare_spec (c_metric x) (c_metric y)); [lia|lia|done].
Qed.

Lemma best_spec routes best :
  min_by candidate_order routes = Some best ->
  best ∈ routes /\ forall c, c ∈ routes -> c_metric best <= c_metric c.
Proof. apply min_by_least; [apply candidate_order_gt | apply candidate_order_le]. Qed.

Lemma current_spec before routes c : current_candidate before routes = Some c -> c ∈ routes.
Proof.
  unfold current_candidate. intros (s & _ & H)%bind_Some. apply List.find_some in H as [H _].
  by apply list_elem_of_In.
Qed.

Lemma check_settled_spec key e :
  wp (check_settled key now) (fun _ e' => erase_switches e' = erase_switches e) e.
Proof.
  unfold check_settled. do 2 wp_step. case_match; [by wp_step|]. do 6 wp_step.
  case_match; [|by wp_step]. do 2 wp_step. by wp_step.
Qed.

Lemma dwell_on_switch_spec key best current e :
  wp (dwell_on_switch key best current now)
    (fun c e' => (c = best \/ c = current) /\ erase_switches e' = erase_switches e) e.
Proof.
  unfold dwell_on_switch, keep_switch, forget_switch. do 4 wp_step. case_match; [|case_match]; do 2 wp_step; wp_step; auto.
Qed.

Lemma choose_route_spec before key routes e :
  routes <> [] ->
  wp (choose_route before key routes now)
    (fun c e' => c ∈ routes /\ erase_switches e' = erase_switches e) e.
Proof.
  intros Hne. unfold choose_route, forget_switch, restart_settling. wp_step. wp_call check_settled_spec. intros settled e1 H1.
  wp_step. apply wp_expect. destruct (min_by_Some candidate_order routes Hne) as [best Hb].
  exists best. split; [done|]. destruct (best_spec _ _ Hb) as [Hbin _]. do 2 wp_step.
  destruct (current_candidate before routes) as [c|] eqn:Ec.
  - apply current_spec in Ec. case_match; [do 2 wp_step; by wp_step|].
    case_match; [do 4 wp_step; by wp_step|]. wp_call dwell_on_switch_spec.
    intros c' e' [Hc' He']. split; [by destruct Hc' as [-> | ->]|]. congruence.
  - do 3 wp_step. case_match; [wp_step|]; do 1 wp_step; by wp_step || done.
Qed.

Lemma choose_routes_spec before grouped e :
  (forall k routes, (k, routes) ∈ grouped -> routes <> []) ->
  wp (choose_routes before grouped now)
    (fun next e' => erase_switches e' = erase_switches e /\
       (forall k s, next !! k = Some s -> exists routes c, (k, routes) ∈ grouped /\ c ∈ routes /\
          s = selected_from_candidate c) /\
       (forall k, k ∈ grouped.*1 -> is_Some (next !! k))) e.
Proof.
  intros Hne. unfold choose_routes.
  set (I := fun (l : list (RouteKey * list Candidate)) (next : gmap RouteKey SelectedRoute) e' =>
    l ⊆ grouped /\ erase_switches e' = erase_switches e /\
    (forall k s, next !! k = Some s -> exists routes c, (k, routes) ∈ grouped /\ c ∈ routes /\
          s = selected_from_candidate c) /\
    (forall k, k ∈ grouped.*1 -> is_Some (next !! k) \/ k ∈ l.*1)).
  eapply wp_mono; [|apply (wp_foldM _ I)].
  - intros next e' (_ & He & Hs & Hc). split_and!; [done..|]. intros k Hk.
    destruct (Hc k Hk) as [|H]; [done|]. by apply elem_of_nil in H.
  - split_and!; [done|done|intros k s; by rewrite lookup_empty|auto].
  - intros [k routes] l next e' (Hsub & He & Hs & Hc). assert ((k, routes) ∈ grouped) as Hin by set_solver.
    wp_step. wp_call choose_route_spec; [|by eapply Hne]. intros c e'' [Hcin He'']. wp_step.
    split_and!; [set_solver|congruence|..].
    + intros k' s. destruct (decide (k = k')) as [<-|].
      * rewrite lookup_insert, decide_True by done. intros [= <-]. eauto.
      * rewrite lookup_insert_ne by done. apply Hs.
    + intros k' Hk'. destruct (decide (k = k')) as [<-|].
      * rewrite lookup_insert, decide_True by done. eauto.
      * rewrite lookup_insert_ne by done. destruct (Hc k' Hk') as [?|H]; [auto|].
        rewrite fmap_cons in H. set_solver.
Qed.

(** * The new RIB *)

(** Everything but the RIB and the state of pending switches. *)
Definition erase_rib (e : Engine) : Engine := set_selected ∅ (set_tombstones ∅ (erase_switches e)).

Lemma Inv_rib e e' :
  erase_rib e' = erase_rib e ->
  (forall k s, selected e' !! k = Some s -> selected_ok e' k s) ->
  dom (pending_switches e') ⊆ dom (selected e') -> dom (settling_since e') ⊆ dom (selected e') ->
  settled_routes e' ⊆ dom (selected e') -> Inv e -> Inv e'.
Proof.
  intros F Hs H1 H2 H3 [IC IK IN MN MC IS IW IO IP].
  assert (forall A (f : Engine -> A), f (erase_rib e') = f (erase_rib e)) as G by (intros; by rewrite F).
  pose proof (G _ config : config e' = config e) as Gc.
  pose proof (G _ candidates : candidates e' = candidates e) as Gd.
  pose proof (G _ neighbours : neighbours e' = neighbours e) as Gn.
  split; try done; rewrite ?Gc, ?Gd, ?Gn; try done.
  - intros n nb H. destruct (IN n nb H) as [A B C].
    split; unfold candidates_of in *; rewrite ?Gd, ?Gc; try done.
    by rewrite (G _ interfaces : interfaces e' = interfaces e).
  - by rewrite (G _ originated : originated e' = originated e), (G _ sequence_number : sequence_number e' = sequence_number e).
  - by rewrite (G _ pending_seqno : pending_seqno e' = pending_seqno e).
Qed.

(** Tombstones after a selection: exactly the destinations without a route that
    were held before or have just lost theirs. *)
Definition new_tombstones (before : gmap RouteKey SelectedRoute) (e : Engine) : gmap RouteKey Z :=
  fold_left (fun t key => <[key := hold_deadline e key now]> t) (lost_keys before e)
    (filter (fun '(k, _) => selected e !! k = None) (tombstones e)).

Lemma elem_of_lost before e k :
  k ∈ lost_keys before e <-> is_Some (before !! k) /\ selected e !! k = None.
Proof. unfold lost_keys. by rewrite elem_of_filter_bool, btree_keys_lookup, bool_decide_eq_true. Qed.

Lemma new_tombstones_live before e k : is_Some (selected e !! k) -> new_tombstones before e !! k = None.
Proof.
  intros [s Hs]. unfold new_tombstones. rewrite lookup_fold_insert, bool_decide_false.
  - apply map_lookup_filter_None. right. intros d _. by rewrite Hs.
  - rewrite elem_of_lost, Hs. by intros [_ ?].
Qed.

Lemma new_tombstones_lost before e k :
  is_Some (before !! k) -> selected e !! k = None ->
  new_tombstones before e !! k = Some (hold_deadline e k now).
Proof.
  intros Hb Hs. unfold new_tombstones. rewrite lookup_fold_insert, bool_decide_true; [done|].
  by apply elem_of_lost.
Qed.

Lemma new_tombstones_kept before e k :
  before !! k = None -> selected e !! k = None -> new_tombstones before e !! k = tombstones e !! k.
Proof.
  intros Hb Hs. unfold new_tombstones. rewrite lookup_fold_insert, bool_decide_false.
  - destruct (tombstones e !! k) as [d|] eqn:E.
    + by apply map_lookup_filter_Some.
    + apply map_lookup_filter_None. auto.
  - rewrite elem_of_lost, Hb. by intros [[? ?] _].
Qed.

Lemma hold_deadline_ge e k :
  saturating_add64 now (longest_update_interval e * 35) <= hold_deadline e k now /\
  default 0 (advertised_until e !! k) <= hold_deadline e k now.
Proof. unfold hold_deadline. lia. Qed.

(** The state before the changes are announced. *)
Definition rib_of (next : gmap RouteKey SelectedRoute) (before : gmap RouteKey SelectedRoute) (e : Engine)
  : Engine :=
  let e2 := set_tombstones (new_tombstones before (set_selected next e)) (set_selected next e) in
  set_settled_routes (filter (fun k => is_Some (next !! k)) (settled_routes e))
    (set_settling_since (filter (fun '(k, _) => is_Some (next !! k)) (settling_since e))
       (set_pending_switches (filter (fun '(k, _) => is_Some (next !! k)) (pending_switches e)) e2)).

Lemma dom_filter_sub {V} (m : gmap RouteKey V) (next : gmap RouteKey SelectedRoute) :
  dom (filter (fun '(k, _) => is_Some (next !! k)) m) ⊆ dom next.
Proof.
  intros k. rewrite !elem_of_dom. intros [v [_ H]%map_lookup_filter_Some]. done.
Qed.

Lemma erase_switches_rib next before e e1 :
  erase_switches e1 = erase_switches e -> erase_rib (rib_of next before e1) = erase_rib e.
Proof.
  intros H. transitivity (erase_rib e1); [done|]. unfold erase_rib. by rewrite H.
Qed.

Lemma rib_of_Inv next before e e1 :
  (forall k s, next !! k = Some s ->
     sr_key s = k /\ sr_metric s < INFINITY /\ sr_router_id s <> cfg_router_id (config e)) ->
  erase_switches e1 = erase_switches e -> Inv e -> Inv (rib_of next before e1).
Proof.
  intros Hn F. apply Inv_rib; [by apply erase_switches_rib| |apply dom_filter_sub..|].
  - simpl. intros k s Hs. destruct (Hn k s Hs) as (? & ? & Hid).
    rewrite <- (f_equal config F : config e1 = config e) in Hid. split; try done.
    apply new_tombstones_live. simpl. eauto.
  - simpl. intros k [H _]%elem_of_filter. by apply elem_of_dom.
Qed.

(** * Announcing the changes *)

Lemma repeat_advertisement_request key now_ms e :
  wp (repeat_advertisement key now_ms) (fun _ e' => request_step now e e') e.
Proof. unfold repeat_advertisement. wp_step. by split. Qed.

(** Loop invariant of the announcements. *)
Definition announcing (e0 : Engine) (acts : list Action) (e : Engine) : Prop :=
  request_step now e0 e /\ sends_ok now e acts.

Lemma request_sends e e' acts : request_step now e e' -> sends_ok now e acts -> sends_ok now e' acts.
Proof.
  intros H [Ha Hq]. split; [|done]. eapply actions_ok_persist; [|by apply rs_improve|done].
  by destruct (request_frame _ _ _ H).
Qed.

Lemma announcing_trans e0 e e' acts new :
  announcing e0 acts e -> announcing e new e' -> announcing e0 (acts ++ new) e'.
Proof.
  intros [H1 H2] [H3 H4]. split; [by etrans|]. apply sends_ok_app. split; [by eapply request_sends|done].
Qed.

Lemma announce_loss_spec targets lost e0 acts e :
  announcing e0 acts e -> wp (announce_loss targets now acts lost) (announcing e0) e.
Proof.
  intros Ha. destruct lost as [key previous]. unfold announce_loss. do 2 wp_step.
  case_bool_decide; [|by wp_step]. wp_step. wp_call repeat_advertisement_request. intros [] e1 H1.
  do 6 wp_step. wp_step. set (m := match targets key with Some _ => _ | None => _ end).
  assert (wp m (announcing e1) e1) as Hm.
  { unfold m. destruct (targets key); [|wp_step; split; [done|apply sends_ok_nil]].
    case_match; [|wp_step; split; [done|apply sends_ok_nil]]. by apply originate_seqno_request_spec. }
  revert Hm. apply wp_mono. intros reqs e2 Hm. wp_step. eapply announcing_trans; [done|].
  eapply announcing_trans; [|done]. split; [done|]. apply send_retraction_ok.
Qed.

Lemma make_urgent_sends e acts : sends_ok now e acts -> sends_ok now e (make_urgent now <$> acts).
Proof.
  unfold sends_ok, actions_ok. rewrite !Forall_fmap. intros [H1 H2]. split.
  - eapply Forall_impl; [|exact H1]. by intros [].
  - eapply Forall_impl; [|exact H2]. by intros [].
Qed.

Lemma make_urgent_finite acts :
  existsb sends_finite_update (make_urgent now <$> acts) = existsb sends_finite_update acts.
Proof. induction acts as [|a acts IH]; [done|]. simpl. f_equal; [by destruct a | exact IH]. Qed.

Lemma announce_change_spec before route e0 acts e :
  announcing e0 acts e -> wp (announce_change before now acts route) (announcing e0) e.
Proof.
  intros Ha. unfold announce_change. wp_step. wp_call repeat_advertisement_request. intros [] e1 H1.
  do 3 wp_step. set (l := advertise_learned _ _ _ _ _).
  match goal with |- wp (if existsb _ ?x then _ else _) _ _ => set (l' := x) end.
  assert (existsb sends_finite_update l' = existsb sends_finite_update l) as ->
    by (unfold l'; case_match; [apply make_urgent_finite|done]).
  wp_call record_if_spec; [|done]. intros [] e2 [Hs Hr]. wp_step.
  eapply announcing_trans; [done|]. split; [etrans; [done|by apply output_request]|].
  assert (sends_ok now e2 l) by (by apply advertise_learned_ok).
  unfold l'. case_match; [by apply make_urgent_sends|done].
Qed.

Lemma selected_delta_spec before e :
  wp (selected_delta before now) (fun acts e' => announcing e acts e') e.
Proof.
  unfold selected_delta. do 3 wp_step. eapply wp_mono; [|apply (wp_loop _ (announcing e))].
  - intros acts e1 H1. do 2 wp_step. apply wp_loop; [done|]. intros route acts' e2 _ H2.
    by apply announce_change_spec.
  - split; [done|apply sends_ok_nil].
  - intros lost acts e1 _ H1. by apply announce_loss_spec.
Qed.

(** * Selection *)

Record reselected (e e' : Engine) (acts : list Action) : Prop := {
  rl_step : step now e e' acts;
  rl_shape : acts = [] \/ exists g r u rest, acts = RoutesChanged g r u :: rest;
  rl_candidates : candidates e' = candidates e;
  rl_neighbours : neighbours e' = neighbours e;
  rl_sound : forall k s, selected e' !! k = Some s ->
    exists n c, candidates e !! (k, n) = Some c /\ usable e c = true /\ s = selected_from_candidate c;
  rl_complete : forall k n c, candidates e !! (k, n) = Some c -> usable e c = true ->
    is_Some (selected e' !! k);
  rl_lost : forall k, is_Some (selected e !! k) -> selected e' !! k = None ->
    exists d, tombstones e' !! k = Some d /\
      saturating_add64 now (longest_update_interval e * 35) <= d /\
      default 0 (advertised_until e !! k) <= d;
  rl_kept : forall k, selected e !! k = None -> selected e' !! k = None ->
    tombstones e' !! k = tombstones e !! k
}.

Lemma reselected_backed e e' acts : reselected e e' acts -> backed e'.
Proof.
  intros [_ _ Hc _ Hs _ _ _] k s Hk. destruct (Hs k s Hk) as (n & c & H & _ & E). exists n, c. by rewrite Hc.
Qed.

Lemma usable_spec e c : usable e c = true -> c_metric c < INFINITY.
Proof. unfold usable. intros [H _]%andb_true_iff. by apply Z.ltb_lt. Qed.

(** What the chosen routes satisfy, from [choose_routes_spec]. *)
Definition chosen (e : Engine) (next : gmap RouteKey SelectedRoute) : Prop :=
  (forall k s, next !! k = Some s ->
     exists n c, candidates e !! (k, n) = Some c /\ usable e c = true /\ s = selected_from_candidate c) /\
  (forall k n c, candidates e !! (k, n) = Some c -> usable e c = true -> is_Some (next !! k)).

Lemma choose_all_spec e :
  Inv e ->
  wp (choose_routes (selected e) (btree_iter (group_candidates e)) now)
    (fun next e' => erase_switches e' = erase_switches e /\ chosen e next) e.
Proof.
  intros HI. wp_call choose_routes_spec.
  - intros next e' (He & Hs & Hc). split; [done|]. split.
    + intros k s Hk. destruct (Hs k s Hk) as (routes & c & H & Hin & ->).
      apply btree_iter_lookup, group_sound in H as [_ H]. apply H in Hin as (Hkey & Hu & k' & n & Hn).
      pose proof (co_key _ _ _ _ (inv_candidates _ HI _ _ _ Hn)). exists n, c. by simplify_eq.
    + intros k n c Hn Hu. apply Hc. apply btree_keys_lookup.
      rewrite <- (co_key _ _ _ _ (inv_candidates _ HI _ _ _ Hn)). by eapply group_complete.
  - intros k routes H. apply btree_iter_lookup, group_sound in H. apply H.
Qed.

Lemma chosen_fields e next k s :
  Inv e -> chosen e next -> next !! k = Some s ->
  sr_key s = k /\ sr_metric s < INFINITY /\ sr_router_id s <> cfg_router_id (config e).
Proof.
  intros HI [Hs _] Hk. destruct (Hs k s Hk) as (n & c & Hn & Hu & ->).
  destruct (inv_candidates _ HI _ _ _ Hn). apply usable_spec in Hu. done.
Qed.

(** The new RIB is told to the host, or it is the one the host knows. *)
Lemma snapshot_host before e0 e :
  host_of e0 = MkHost (btree_values before) (unreachable_routes e0) (generation e) (sequence_number e) ->
  bool_decide (selected e <> before) || bool_decide (unreachable_routes e <> unreachable_routes e0) = false ->
  host_of e = host_of e0.
Proof.
  intros -> H. apply orb_false_iff in H as [H1%bool_decide_eq_false H2%bool_decide_eq_false].
  unfold host_of, selected_routes. f_equal; [f_equal|]; by apply dec_stable.
Qed.

(** The state in which the changes of the RIB are announced. *)
Lemma announced e e1 next e' acts changed :
  Inv e -> erase_switches e1 = erase_switches e -> chosen e next ->
  let e2 := rib_of next (selected e) e1 in
  let e3 := if changed : bool then set_generation (wrapping_add64 (generation e2) 1) e2 else e2 in
  request_step now e3 e' -> step now e e' acts ->
  acts = [] \/ (exists g r u rest, acts = RoutesChanged g r u :: rest) -> reselected e e' acts.
Proof.
  intros HI He1 [Hs Hc] e2 e3 Hr Hst Hsh.
  assert (forall A (f : Engine -> A), f (erase_switches e1) = f (erase_switches e)) as G by (intros; by rewrite He1).
  assert (candidates e3 = candidates e /\ neighbours e3 = neighbours e /\ selected e3 = next /\
          tombstones e3 = new_tombstones (selected e) (set_selected next e1)) as (E1 & E2 & E3 & E4).
  { pose proof (G _ candidates). pose proof (G _ neighbours). by unfold e3; destruct changed. }
  destruct (request_frame _ _ _ Hr) as (_ & F2 & F1 & F3 & _ & F4 & _).
  split; rewrite ?F1, ?F2, ?F3, ?F4, ?E1, ?E2, ?E3, ?E4; try done.
  - intros k Hk Hn. rewrite new_tombstones_lost by done. eexists. split; [done|].
    pose proof (hold_deadline_ge (set_selected next e1) k) as H.
    unfold longest_update_interval in *. simpl in H.
    pose proof (G _ interfaces : interfaces e1 = interfaces e) as Gi.
    pose proof (G _ config : config e1 = config e) as Gc.
    pose proof (G _ advertised_until : advertised_until e1 = advertised_until e) as Ga.
    by rewrite Gi, Gc, Ga in H.
  - intros k Hk Hn. rewrite new_tombstones_kept by done. simpl.
    by rewrite (G _ tombstones : tombstones e1 = tombstones e).
Qed.

(** The RIB is replaced, then announced. *)
Lemma reselect_spec e : Inv e -> wp (reselect now) (fun acts e' => reselected e e' acts) e.
Proof.
  intros HI. unfold reselect, update_tombstones, prune_switches. do 7 wp_step.
  wp_call choose_all_spec; [|done]. intros next e1 [He1 Hch]. do 8 wp_step.
  match goal with |- wp _ _ ?x => change x with (rib_of next (selected e) e1) end.
  set (e2 := rib_of next (selected e) e1).
  assert (forall A (f : Engine -> A), f (erase_switches e1) = f (erase_switches e)) as G by (intros; by rewrite He1).
  assert (Inv e2) as HI2 by (apply (rib_of_Inv _ _ e); [intros k s; by apply chosen_fields|done|done]).
  assert (config e2 = config e /\ interfaces e2 = interfaces e /\ feasible e2 = feasible e /\
          generation e2 = generation e /\ sequence_number e2 = sequence_number e) as (Gc & Gi & Gf & Gg & Gq)
    by (split_and!; [exact (G _ config)|exact (G _ interfaces)|exact (G _ feasible)|exact (G _ generation)
         |exact (G _ sequence_number)]).
  destruct (_ || _) eqn:Ech.
  - unfold route_snapshot. do 5 wp_step. set (e3 := set_generation _ e2).
    wp_call selected_delta_spec. intros acts e' [Hr Ha]. wp_step. eapply (announced _ e1 next _ _ true); try done.
    assert (Inv e3) by (apply (Inv_frame e2); try done; apply HI2).
    assert (step now e e3 [RoutesChanged (generation e3) (selected_routes e3) (unreachable_routes e3)]) as Hst.
    { split; try done; [by apply same_interfaces_eq|change (feasible e3) with (feasible e2); by rewrite Gf|by apply Forall_singleton|].
      simpl. rewrite <- Gg, Z.eqb_refl. simpl. unfold host_of. simpl. by rewrite <- Gq. }
    + change (?a :: acts) with ([a] ++ acts). eapply step_trans; [done|]. by apply request_step_step.
    + right. eauto.
  - wp_step. eapply (announced _ e1 next _ _ false); try done; [|by left].
    split; try done; [by apply same_interfaces_eq|by rewrite Gf|constructor|]. simpl. f_equal. symmetry.
    eapply snapshot_host; [|done]. unfold host_of, selected_routes. by rewrite Gg, Gq.
Qed.
End Selection.
