(* ===== verification/ReceiveSpec.v ===== *)
(** Received packets: [receive] never panics in a build without overflow checks,
    keeps the invariant and leaves selected routes backed. *)
From S2P Require Import Prelude Net Model Metric Wire Api EngineState Deadlines Sources Output Rib Neighbors OutputSpec Invariant AdmissionSpec SelectionSpec.
Import Hello.
Local Open Scope Z_scope.

Section Receive.
Context {NL : IpNetLib} {MI : MetricImpl} {HO : HashOrder} {B : Build}.
Context (release : overflow_checks = false) (now : Z) (now_u64 : in_u64 now).

(** * Steps that note whether selection must run again *)

Record tracked (e e' : Engine) (changed : bool) (acts : list Action) : Prop := {
  tr_step : step now e e' acts;
  tr_backed : changed = false -> backed e -> backed e'
}.

Lemma tracked_refl e : Inv e -> tracked e e false [].
Proof. intros. split; [by apply step_refl|done]. Qed.

Lemma tracked_trans e1 e2 e3 b1 b2 a1 a2 :
  tracked e1 e2 b1 a1 -> tracked e2 e3 b2 a2 -> tracked e1 e3 (b1 || b2) (a1 ++ a2).
Proof.
  intros [S1 B1] [S2 B2]. split; [by eapply step_trans|]. intros [-> ->]%orb_false_iff Hb. auto.
Qed.

Lemma tracked_nil e1 e2 e3 b1 b2 a :
  tracked e1 e2 b1 [] -> tracked e2 e3 b2 a -> tracked e1 e3 (b1 || b2) a.
Proof. exact (tracked_trans e1 e2 e3 b1 b2 [] a). Qed.

Lemma tracked_admitted e e' b acts : admitted now e e' b acts -> tracked e e' b acts.
Proof. intros []. by split. Qed.

Lemma tracked_output e e' acts :
  Inv e -> output_step now e e' -> sends_ok now e' acts -> tracked e e' false acts.
Proof. intros HI Ho Ha. apply tracked_admitted, admitted_requests; [done|by apply output_request|done]. Qed.

Lemma tracked_requests e e' acts :
  Inv e -> request_step now e e' -> sends_ok now e' acts -> tracked e e' false acts.
Proof. intros. by apply tracked_admitted, admitted_requests. Qed.

Lemma tracked_weaken e e' b acts : tracked e e' b acts -> tracked e e' true acts.
Proof. intros []. by split. Qed.

Lemma tracked_Inv e e' b acts : tracked e e' b acts -> Inv e'.
Proof. intros [[]]. done. Qed.

(** A change of the neighbour table only. *)
Lemma tracked_neighbours m e : Inv (set_neighbours m e) -> tracked e (set_neighbours m e) false [].
Proof. intros. split; [by apply table_step|done]. Qed.

(** * Sequence-number requests *)

Lemma bump_spec e :
  Inv e ->
  wp (_ ← bump_sequence_number; gets (fun e => [SequenceNumberChanged (sequence_number e)]))
    (fun acts e' => tracked e e' false acts) e.
Proof.
  intros HI. unfold bump_sequence_number. do 3 wp_step. set (e' := set_originated _ _).
  assert (Inv e') as HI'.
  { destruct HI as [IC IK IN MN MC IS IW IO IP]. split; try done.
    - intros n nb H. by destruct (IN n nb H).
    - intros k s H. by destruct (IS k s H).
    - intros k o. simpl. rewrite lookup_fmap. by intros (o' & _ & ->)%fmap_Some. }
  split; [|done]. split; try done; [by apply Forall_singleton|]. simpl. by rewrite Z.eqb_refl.
Qed.

Lemma send_updates_tracked only i timing e :
  Inv e -> wp (send_updates now only i timing) (fun acts e' => tracked e e' false acts) e.
Proof.
  intros HI. wp_call send_updates_spec; [|done]. intros acts e' [? ?]. by apply tracked_output.
Qed.

Lemma reply_tracked key n e :
  Inv e ->
  wp (reply ← reply_to_route_request key n now; mret [reply]) (fun acts e' => tracked e e' false acts) e.
Proof.
  intros HI. wp_step. wp_call reply_to_route_request_spec; [|done]. intros a e' [? ?]. wp_step.
  by apply tracked_output.
Qed.

Lemma answer_own_request_spec key o seqno e :
  Inv e -> wp (answer_own_request key o seqno now) (fun acts e' => tracked e e' false acts) e.
Proof.
  intros HI. unfold answer_own_request. wp_step.
  assert (wp (if seqno_gt seqno (o_seqno o)
              then _ ← bump_sequence_number; gets (fun e => [SequenceNumberChanged (sequence_number e)])
              else mret []) (fun acts e' => tracked e e' false acts) e) as Hw.
  { case_match; [by apply bump_spec|]. wp_step. by apply tracked_refl. }
  revert Hw. apply wp_mono. intros acts e' H. wp_step.
  wp_call send_updates_tracked; [|by eapply tracked_Inv]. intros acts' e'' H'. wp_step.
  by eapply (tracked_trans _ _ _ false false).
Qed.

Lemma forward_seqno_request_spec n key seqno hops id e :
  Inv e -> wp (forward_seqno_request n key seqno hops id now) (fun acts e' => tracked e e' false acts) e.
Proof.
  intros HI. unfold forward_seqno_request.
  assert (wp (mret []) (fun acts e' => tracked e e' false acts) e) as Hskip by (wp_step; by apply tracked_refl).
  destruct (Z.leb_spec hops 1); [done|]. do 2 wp_step. wp_if; [done|]. do 2 wp_step.
  wp_if; [done|]. do 2 wp_step. destruct (forward_target e n key id); [|done].
  wp_call originate_seqno_request_spec; [|simpl; lia]. intros acts e' [? ?]. by apply tracked_requests.
Qed.

Lemma handle_seqno_request_spec n key seqno hops id e :
  Inv e -> wp (handle_seqno_request n key seqno hops id now) (fun acts e' => tracked e e' false acts) e.
Proof.
  intros HI. unfold handle_seqno_request. do 6 wp_step. wp_if; [by apply reply_tracked|].
  match goal with |- wp (match ?o with Some _ => _ | None => _ end) _ _ => destruct o end.
  - wp_step. wp_call update_action_to_candidate_spec; [|done]. intros a e' [? ?]. wp_step.
    by apply tracked_output.
  - destruct (originated e !! key) as [o|]; [wp_if|];
      [by apply answer_own_request_spec|by apply forward_seqno_request_spec..].
Qed.

(** * Observations *)

Lemma record_release h seqno : is_Some (record h seqno).
Proof.
  unfold record, shr16. rewrite release. destruct (expected_seqno h); [|eauto].
  case_match; [eauto|]. case_match; [|eauto]. simpl. eauto.
Qed.

Lemma record_hello_release h is_unicast seqno : is_Some (record_hello h is_unicast seqno).
Proof.
  unfold record_hello. destruct (record_release (if is_unicast then unicast h else multicast h) seqno)
    as [[h' u] ->]. simpl. eauto.
Qed.

Lemma process_hello_spec profile ts n is_unicast seqno interval subs nb :
  exists nb' b, process_hello profile now ts n is_unicast seqno interval subs nb = Some (nb', b) /\
    nb_candidates nb' = nb_candidates nb.
Proof.
  unfold process_hello. set (m := if interval =? 0 then Some nb else _).
  assert (exists nb1, m = Some nb1 /\ nb_candidates nb1 = nb_candidates nb) as (nb1 & -> & H1).
  { unfold m. case_match; [eauto|]. destruct (record_hello_release (nb_histories nb) is_unicast seqno)
      as [[h []] ->]; simpl; [eauto|].
    destruct (record_hello_release default_histories is_unicast seqno) as [r ->]. simpl. eauto. }
  simpl. eexists _, _. split; [done|]. rewrite <- H1. unfold set_hello_timer.
  by repeat case_match.
Qed.

(** There is room for the sender, if the packet would introduce it. *)
Definition admissible (n : NeighborKey) (l : list Tlv) (e : Engine) : Prop :=
  is_Some (interfaces e !! nk_interface n) /\
  (neighbours e !! n = None -> existsb is_hello_tlv l = true ->
   (size (neighbours e) < max_neighbors (cfg_limits (config e)))%nat).

Lemma receive_hellos_spec profile interval ts n l e :
  Inv e -> admissible n l e ->
  wp (receive_hellos profile interval now ts n l) (fun _ e' => tracked e e' false []) e.
Proof.
  intros HI [Hif Hroom]. unfold receive_hellos.
  eapply wp_mono; [|apply (wp_loop _ (fun _ e' => tracked e e' false [] /\
    (neighbours e' !! n = None -> neighbours e' = neighbours e)))].
  - by intros b e' [? _].
  - split; [by apply tracked_refl|done].
  - intros tlv b e' Hin [Ht Hn]. destruct tlv as [| | | |uni seqno iv subs| | | | | | |]; try by wp_step.
    do 3 wp_step. apply wp_expect. set (nb := default _ _).
    destruct (process_hello_spec profile ts n uni seqno iv subs nb) as (nb' & b' & Hp & Hc).
    exists (nb', b'). split; [done|]. do 3 wp_step. simpl.
    split; [|rewrite lookup_insert, decide_True; done].
    eapply (tracked_nil _ _ _ false false); [exact Ht|]. apply tracked_neighbours.
    destruct (neighbours e' !! n) as [nb0|] eqn:E.
    + apply (Inv_neighbour_insert n nb0); [done|by rewrite Hc|by eapply tracked_Inv].
    + destruct Ht as [[Hi Hcf Hsi _ _ _] _]. apply Inv_neighbour_new; try done.
      * rewrite Hcf, (Hn eq_refl). apply Hroom; [by rewrite <- Hn|].
        apply existsb_exists. eexists. split; [by apply list_elem_of_In|done].
      * by apply Hsi.
Qed.

Lemma receive_rtt_spec profile sample n e :
  Inv e -> wp (receive_rtt profile sample now n) (fun _ e' => tracked e e' false []) e.
Proof.
  intros HI. unfold receive_rtt. destruct sample; [|wp_step; by apply tracked_refl].
  wp_if; wp_step; [|by apply tracked_refl]. by apply tracked_neighbours, Inv_neighbour_alter.
Qed.

Lemma receive_ihus_spec addrs n l e :
  Inv e -> wp (receive_ihus addrs now n l) (fun _ e' => tracked e e' false []) e.
Proof.
  intros HI. unfold receive_ihus, for_each. apply wp_loop; [by apply tracked_refl|].
  intros tlv [] e' _ Ht. destruct tlv; try by wp_step. wp_if; wp_step; [|done].
  eapply (tracked_nil _ _ _ false false); [exact Ht|].
  apply tracked_neighbours, Inv_neighbour_alter; [done|by eapply tracked_Inv].
Qed.

Lemma ihu_neighbour_spec policy n nb d :
  nb_candidates (ihu_neighbour policy n nb now d).1 = nb_candidates nb /\
  forall cfg f i, Forall (tlv_ok now cfg f i) (ihu_neighbour policy n nb now d).2.
Proof.
  unfold ihu_neighbour. simpl. split; [by repeat case_match|]. intros cfg f i. apply Forall_app.
  split; [case_match; [by apply Forall_singleton|done]|by apply Forall_singleton].
Qed.

Lemma ihu_action_spec n d e :
  Inv e -> wp (ihu_action n now d) (fun a e' => tracked e e' false (option_list a)) e.
Proof.
  intros HI. unfold ihu_action. do 4 wp_step.
  destruct (interfaces e !! nk_interface n); [|wp_step; by apply tracked_refl].
  destruct (neighbours e !! n) as [nb|] eqn:E; [|wp_step; by apply tracked_refl].
  destruct (ihu_neighbour _ n nb now d) as [nb' l] eqn:Ei.
  pose proof (ihu_neighbour_spec (ifs_policy i) n nb d) as [Hc Hl]. rewrite Ei in Hc, Hl.
  do 2 wp_step. wp_step. set (e' := set_neighbours _ e).
  assert (Inv e') by (by apply (Inv_neighbour_insert n nb)).
  eapply (tracked_nil _ _ _ false false); [by apply tracked_neighbours|].
  apply tracked_output; [done|done|]. apply sends_ok_send, Hl.
Qed.

(** * TLVs *)

Definition receiving (e0 : Engine) (r : Received) (e : Engine) : Prop :=
  tracked e0 e (rc_routes_changed r) (rc_actions r).

Lemma receive_tlv_spec i address n e0 r tlv e :
  receiving e0 r e -> wp (receive_tlv i address n now r tlv) (receiving e0) e.
Proof.
  intros Hr. pose proof (tracked_Inv _ _ _ _ Hr) as HI. unfold receive_tlv, receiving.
  destruct tlv; try by wp_step.
  - wp_step. simpl. rewrite <- (orb_false_r (rc_routes_changed r)). eapply tracked_trans; [exact Hr|].
    apply tracked_output; [done|done|]. by apply sends_ok_send, Forall_singleton.
  - do 3 wp_step. wp_call receive_update_spec; [|done|done]. intros res e' Ha. wp_step. simpl.
    eapply tracked_trans; [exact Hr|by apply tracked_admitted].
  - wp_step. match goal with |- wp ?m _ _ => assert (wp m (fun acts e' => tracked e e' false acts) e) as Hw end.
    { case_match; [by apply reply_tracked|]. do 2 wp_step. wp_if; [by apply send_updates_tracked|].
      wp_step. by apply tracked_refl. }
    revert Hw. apply wp_mono. intros acts e' Ha. wp_step. simpl.
    eapply tracked_weaken, tracked_trans; [exact Hr|exact Ha].
  - wp_step. wp_call handle_seqno_request_spec; [|done]. intros acts e' Ha. wp_step. simpl.
    eapply tracked_weaken, tracked_trans; [exact Hr|exact Ha].
Qed.

Lemma announce_router_id_spec e0 acts key e :
  tracked e0 e false acts -> wp (announce_router_id now acts key) (fun acts' e' => tracked e0 e' false acts') e.
Proof.
  intros Ht. pose proof (tracked_Inv _ _ _ _ Ht) as HI. unfold announce_router_id. do 2 wp_step. wp_step.
  match goal with |- wp ?m _ _ => assert (wp m (fun acts e' => tracked e e' false acts) e) as Hw end.
  { wp_if; [by apply send_updates_tracked|]. wp_step. apply tracked_output; [done|done|].
    apply send_retraction_ok. }
  revert Hw. apply wp_mono. intros more e' Ha. wp_step.
  by eapply (tracked_trans _ _ _ false false).
Qed.

(** Selection settles what the flag reports. *)
Lemma reselect_if_spec (changed : bool) e0 acts e :
  tracked e0 e changed acts -> 
  wp (if changed then reselect now else mret []) (fun acts' e' => tracked e0 e' false (acts ++ acts')) e.
Proof.
  intros Ht. pose proof (tracked_Inv _ _ _ _ Ht) as HI. destruct changed.
  - wp_call reselect_spec; [|done|done]. intros acts' e' Hr. split.
    + eapply step_trans; [by destruct Ht|by destruct Hr].
    + intros _ _. eapply reselected_backed. exact Hr.
  - wp_step. by rewrite app_nil_r.
Qed.

Lemma process_packet_spec i source packet ts state n e :
  Inv e -> admissible n (tlvs packet) e ->
  wp (process_packet i source packet now ts state n) (fun acts e' => tracked e e' false acts) e.
Proof.
  intros HI Ha. unfold process_packet. do 3 wp_step.
  wp_call receive_hellos_spec; [|done|done]. intros send_ihu e1 H1. wp_step.
  wp_call receive_rtt_spec; [|by eapply tracked_Inv]. intros [] e2 H2. wp_step.
  wp_call receive_ihus_spec; [|by eapply tracked_Inv]. intros [] e3 H3. do 3 wp_step.
  pose proof (tracked_trans _ _ _ _ _ _ _ H1 (tracked_trans _ _ _ _ _ _ _ H2 H3)) as H03.
  assert (forall link_changed : bool,
    wp (if link_changed then recompute_candidate_metrics (Some n) else mret false)
       (fun changed e' => tracked e e' changed []) e3) as Hw.
  { intros []; [|by wp_step]. wp_call recompute_candidate_metrics_spec; [|by eapply tracked_Inv].
    intros changed e' Hc. by eapply (tracked_nil _ _ _ false); [exact H03|apply tracked_admitted]. }
  wp_call Hw. intros changed e4 H4. wp_step.
  assert (wp (if send_ihu then ihu_action n now None else mret None)
    (fun a e' => tracked e e' changed (option_list a)) e4) as Hi.
  { wp_if; [|by wp_step]. wp_call ihu_action_spec; [|by eapply tracked_Inv]. intros a e' Hi.
    rewrite <- (orb_false_r changed). by eapply tracked_nil. }
  wp_call Hi. intros ihu e5 H5. wp_step.
  wp_call (wp_loop _ (receiving e)); [|exact H5|intros tlv r e' _ Hr; by apply receive_tlv_spec].
  intros r e6 H6. wp_step. wp_call reselect_if_spec; [|exact H6]. intros acts e7 H7.
  apply wp_loop; [done|]. intros key acts' e8 _ H8. by apply announce_router_id_spec.
Qed.

Lemma receive_spec i source packet ts e :
  Inv e -> wp (receive i source packet now ts) (fun acts e' => tracked e e' false acts) e.
Proof.
  intros HI. unfold receive. do 2 wp_step. destruct (interfaces e !! i) as [state|] eqn:Ei;
    [|wp_step; by apply tracked_refl].
  wp_if; [wp_step; by apply tracked_refl|]. do 2 wp_step. wp_if.
  - do 3 wp_step. split; [|done]. apply table_step; try done.
    apply (Inv_frame e); try done. apply HI.
  - apply process_packet_spec; [done|]. split; [eauto|]. intros Hn Hh. rewrite Hh, andb_true_r in E0.
    apply andb_false_iff in E0 as [E0|E0]; [by apply bool_decide_eq_false in E0|].
    by apply Nat.leb_gt in E0.
Qed.
End Receive.
