(* ===== verification/TimersSpec.v ===== *)
(** Time: [tick] never panics, keeps the invariant, leaves selected routes backed
    and tells the host about expired tombstones. *)
From S2P Require Import Prelude Net Model Metric Wire Api EngineState Deadlines Sources Output Rib Neighbors Timers OutputSpec Invariant AdmissionSpec SelectionSpec ReceiveSpec.
Import Hello.
Local Open Scope Z_scope.

Section Ticks.
Context {NL : IpNetLib} {MI : MetricImpl} {HO : HashOrder} {B : Build}.
Context (now : Z) (now_u64 : in_u64 now).

(** * Expiration

    Expiration drops tombstones the host still knows about: until selection has
    run, the host's view lags behind. *)
Record aged (e e' : Engine) (changed : bool) : Prop := {
  ag_inv : Inv e';
  ag_config : config e' = config e;
  ag_interfaces : same_interfaces e e';
  ag_sources : sources_persist now (feasible e) (feasible e');
  ag_selected : selected e' = selected e;
  ag_generation : generation e' = generation e;
  ag_seqno : sequence_number e' = sequence_number e;
  ag_tombstones : tombstones e' ⊆ tombstones e;
  ag_backed : changed = false -> backed e -> backed e'
}.

Lemma aged_refl e : Inv e -> aged e e false.
Proof. intros. by split. Qed.

Lemma aged_trans e1 e2 e3 b1 b2 : aged e1 e2 b1 -> aged e2 e3 b2 -> aged e1 e3 (b1 || b2).
Proof.
  intros [] []. split; try congruence; [by eapply same_interfaces_trans|by etrans|by etrans|].
  intros [-> ->]%orb_false_iff ?. auto.
Qed.

(** A change of the neighbour and candidate tables only. *)
Lemma aged_tables n c e changed :
  let e' := set_candidates c (set_neighbours n e) in
  Inv e' -> (changed = false -> backed e -> backed e') -> aged e e' changed.
Proof. intros e' HI Hb. by split. Qed.

Lemma aged_neighbours m e : Inv (set_neighbours m e) -> aged e (set_neighbours m e) false.
Proof. intros HI. by split. Qed.

Lemma age_neighbour_count nb : nb_candidates (age_neighbour now nb).1 = nb_candidates nb.
Proof. unfold age_neighbour. by case_match. Qed.

Lemma age_neighbours_spec e :
  Inv e -> wp (age_neighbours now) (fun _ e' => aged e e' false) e.
Proof.
  intros HI. unfold age_neighbours. do 4 wp_step. wp_step.
  apply aged_neighbours, Inv_neighbour_fmap; [apply age_neighbour_count|done].
Qed.

Lemma expire_ihus_spec e : Inv e -> wp (expire_ihus now) (fun _ e' => aged e e' false) e.
Proof.
  intros HI. unfold expire_ihus. do 4 wp_step. wp_step.
  apply aged_neighbours, (Inv_neighbour_fmap (fun n => if ihu_expired now n then forget_ihu n else n)); [|done].
  intros nb. by case_match.
Qed.

Lemma remove_neighbour_spec n e : Inv e -> wp (remove_neighbour n) (fun _ e' => aged e e' true) e.
Proof.
  intros HI. unfold remove_neighbour. wp_step. apply aged_tables; [|done].
  pose proof (Inv_restrict (fun m => m <> n) (filter (fun '(k, _) => snd k <> n) (candidates e))
    (delete n (neighbours e)) (interfaces e) e) as H.
  replace (set_interfaces (interfaces e) e) with e in H by (by destruct e). apply H; try done.
  - intros k m c. by rewrite map_lookup_filter_Some.
  - intros m nb. rewrite lookup_delete_Some. naive_solver.
Qed.

Lemma expire_neighbours_spec e : Inv e -> wp expire_neighbours (fun changed e' => aged e e' changed) e.
Proof.
  intros HI. unfold expire_neighbours. do 3 wp_step. set (l := (List.filter _ _).*1).
  destruct l as [|n l].
  { apply wp_ret. wp_step. by apply aged_refl. }
  eapply wp_mono; [|apply (wp_loop _ (fun _ e' => Inv e' /\ aged e e' true))].
  - intros [] e' [_ H]. wp_step. by rewrite bool_decide_true.
  - split; [done|]. split; try done.
  - intros m [] e' _ [HI' H]. wp_call remove_neighbour_spec; [|done]. intros [] e'' H'.
    split; [by destruct H'|]. exact (aged_trans _ _ _ true true H H').
Qed.

(** Candidates that wait to be expired are still in the table. *)
Lemma expire_candidate_spec k n b c e :
  Inv e -> candidates e !! (k, n) = Some c ->
  wp (expire_candidate now ((k, n), b))
    (fun _ e' => aged e e' true /\ forall k', k' <> (k, n) -> candidates e' !! k' = candidates e !! k') e.
Proof.
  intros HI Hc. unfold expire_candidate. destruct b.
  - do 4 wp_step. simpl. destruct (inv_known _ HI _ _ _ Hc) as [nb Hn]. rewrite Hn.
    destruct (Inv_remove e k n c nb HI Hc Hn) as (m & Hm & HI').
    eapply with_neighbour_spec; [exact Hn|unfold drop_candidate; by rewrite Hm|]. split.
    + by split.
    + intros k' Hk'. simpl. by rewrite lookup_delete_ne.
  - wp_step. set (f := fun route => set_c_expires_ms _ _). split.
    + split; try done. apply Inv_revalue; [apply dom_alter_L| |done]. intros k' n' c'.
      destruct (decide ((k, n) = (k', n'))) as [[= <- <-]|].
      * rewrite lookup_alter, decide_True by done. intros (c0 & Hc0 & ->)%fmap_Some.
        destruct (retracted_ok _ _ _ _ (inv_candidates _ HI _ _ _ Hc0)). unfold f. split; try done; simpl; auto.
      * rewrite lookup_alter_ne by done. by apply inv_candidates.
    + intros k' Hk'. simpl. by rewrite lookup_alter_ne.
Qed.

Lemma expire_candidates_spec e : Inv e -> wp (expire_candidates now) (fun changed e' => aged e e' changed) e.
Proof.
  intros HI. unfold expire_candidates. do 3 wp_step. set (l := _ <$> List.filter _ _).
  assert (NoDup l.*1 /\ forall x, x ∈ l -> is_Some (candidates e !! x.1)) as [Hnd Hin].
  { unfold l. split.
    - rewrite <- list_fmap_compose. erewrite (list_fmap_ext _ fst); [|by intros ? [? ?]].
      apply NoDup_filter_keys, hm_iter_NoDup.
    - intros x ([k c] & -> & [Hk _]%elem_of_filter_bool)%list_elem_of_fmap.
      apply hm_iter_lookup in Hk. simpl. eauto. }
  destruct l as [|x l].
  { apply wp_ret. wp_step. by apply aged_refl. }
  eapply wp_mono; [|apply (wp_foldM _ (fun l _ e' => aged e e' true /\ NoDup l.*1 /\
    forall x, x ∈ l -> is_Some (candidates e' !! x.1)))].
  - intros [] e' (H & _ & _). wp_step. by rewrite bool_decide_true.
  - split; [|done]. by split.
  - intros [[k n] b] l' [] e' (H & [Hni Hnd']%list.NoDup_cons & Hin').
    destruct (Hin' ((k, n), b)) as [c Hc]; [constructor|].
    wp_call expire_candidate_spec; [|by destruct H|exact Hc]. intros [] e'' [H' Hk]. split; [|split; [done|]].
    + exact (aged_trans _ _ _ true true H H').
    + intros y Hy. rewrite Hk; [apply Hin'; by constructor|]. intros E. apply Hni. rewrite <- E.
      apply (list_elem_of_fmap fst l'). by exists y.
Qed.

(** Actions that are permitted whatever the state. *)
Definition harmless (acts : list Action) : Prop := forall e, sends_ok now e acts.

Lemma refresh_candidates_spec e :
  Inv e -> wp (refresh_candidates now) (fun acts e' => aged e e' false /\ harmless acts) e.
Proof.
  intros HI. unfold refresh_candidates. do 4 wp_step. wp_step. split.
  - set (f := fun (k : RouteKey * NeighborKey) c =>
      if refresh_due e now k.1 c then set_c_refresh_requested true c else c).
    assert (forall cfg k n c, candidate_ok cfg k n c -> candidate_ok cfg k n (f (k, n) c)) as Hf.
    { intros cfg k n c []. unfold f. case_match; by split. }
    change (map_imap _ (candidates e)) with (map_imap (fun k c => Some (f k c)) (candidates e)).
    split; try done.
    + apply Inv_revalue; [apply dom_imap_total| |done]. intros k n c. rewrite map_lookup_imap.
      intros (c0 & H & [= <-])%bind_Some. by apply Hf, (inv_candidates _ HI).
    + intros _. apply backed_kept; [done|]. intros k n c Hc. simpl. rewrite map_lookup_imap, Hc. simpl.
      eexists. split; [done|]. unfold f. by case_match.
  - intros e'. unfold sends_ok, actions_ok. split; apply list.Forall_forall; intros a Ha;
      apply list_elem_of_omap in Ha as ([[k n] c] & _ & Ha); case_match; simplify_eq; [|done].
    by apply Forall_singleton.
Qed.

Lemma expire_tables_spec e : Inv e -> wp (expire_tables now) (fun changed e' => aged e e' changed) e.
Proof.
  intros HI. unfold expire_tables. wp_steps.
  set (e' := set_recent_seqno _ _). split; try done; simpl.
  - destruct HI as [IC IK IN MN MC IS IW IO IP]. split; try done.
    + intros n nb H. by destruct (IN n nb H).
    + intros k s H. destruct (IS k s H) as [A1 A2 A3 A4]. split; try done. simpl.
      apply map_lookup_filter_None. by left.
  - intros k (s & Hk & Hx). exists s. split; [|done]. by apply map_lookup_filter_Some.
  - apply map_filter_subseteq.
Qed.

Lemma recompute_frame only e :
  wp (recompute_candidate_metrics only) (fun _ e' => exists m, e' = set_candidates m e) e.
Proof. unfold recompute_candidate_metrics. do 8 wp_step. wp_step. eauto. Qed.

Lemma recompute_aged only e :
  Inv e -> wp (recompute_candidate_metrics only) (fun changed e' => aged e e' changed) e.
Proof.
  intros HI. eapply wp_mono; [|apply wp_and; [apply (recompute_candidate_metrics_spec now only e HI)|
    apply recompute_frame]].
  intros changed e' [[H _ Hb] [m ->]]. by split; try done; destruct H.
Qed.

Lemma recompute_all_spec keys e :
  Inv e -> wp (recompute_all keys) (fun changed e' => aged e e' changed) e.
Proof.
  intros HI. unfold recompute_all. apply wp_loop; [by apply aged_refl|]. intros n b e' _ H. wp_step.
  wp_call recompute_aged; [|by destruct H]. intros c e'' H'. wp_step. by eapply aged_trans.
Qed.

Lemma tick_expire_spec e :
  Inv e -> wp (tick_expire now) (fun r e' => aged e e' r.1 /\ harmless r.2) e.
Proof.
  intros HI. unfold tick_expire.
  wp_step. wp_call age_neighbours_spec; [|done]. intros aged_keys e1 H1.
  wp_step. wp_call expire_neighbours_spec; [|by destruct H1]. intros b2 e2 H2.
  wp_step. wp_call expire_ihus_spec; [|by destruct H2]. intros quiet_keys e3 H3.
  wp_step. wp_call expire_candidates_spec; [|by destruct H3]. intros b4 e4 H4.
  wp_step. wp_call refresh_candidates_spec; [|by destruct H4]. intros acts e5 [H5 Hacts].
  wp_step. wp_call expire_tables_spec; [|by destruct H5]. intros b6 e6 H6.
  wp_step. wp_call recompute_all_spec; [|by destruct H6]. intros b7 e7 H7. wp_step. split; [|done]. simpl.
  assert (b2 || b4 || b6 || b7 = (((((false || b2) || false) || b4) || false) || b6) || b7) as -> by
    (by rewrite !orb_false_r).
  repeat (eapply aged_trans; [|eassumption]). done.
Qed.

(** * Selection *)

(** A RIB change tells the host everything but the counters. *)
Lemma host_run_snapshot g r u rest h h' :
  h_generation h = h_generation h' -> h_seqno h = h_seqno h' ->
  host_run (RoutesChanged g r u :: rest) h = host_run (RoutesChanged g r u :: rest) h'.
Proof. intros Hg Hs. simpl. by rewrite Hg, Hs. Qed.

Lemma length_unreachable e : length (unreachable_routes e) = size (tombstones e).
Proof.
  unfold unreachable_routes, btree_keys. rewrite length_fmap, btree_iter_perm. apply length_map_to_list.
Qed.

Lemma subset_size_eq (m1 m2 : gmap RouteKey Z) : m1 ⊆ m2 -> size m1 = size m2 -> m1 = m2.
Proof.
  intros Hs He. apply map_subseteq_size_eq; [done|]. lia.
Qed.

Lemma aged_tracked e e' acts :
  aged e e' true -> actions_ok now e' acts -> host_run acts (host_of e) = Some (host_of e') ->
  (backed e -> backed e') -> tracked now e e' false acts.
Proof. intros [] Ha Hh Hb. split; [by split|auto]. Qed.

(** The state between expiration and the snapshot, after selection. *)
Record settled (e e' : Engine) (acts : list Action) : Prop := {
  se_inv : Inv e';
  se_config : config e' = config e;
  se_interfaces : same_interfaces e e';
  se_sources : sources_persist now (feasible e) (feasible e');
  se_actions : actions_ok now e' acts;
  se_host :
    (exists g r u rest, acts = RoutesChanged g r u :: rest /\ host_run acts (host_of e) = Some (host_of e')) \/
    (acts = [] /\ selected_routes e' = selected_routes e /\ generation e' = generation e /\
     sequence_number e' = sequence_number e /\
     (size (tombstones e) = size (tombstones e') -> unreachable_routes e' = unreachable_routes e));
  se_backed : backed e -> backed e'
}.

Lemma aged_unreachable e e' :
  tombstones e' ⊆ tombstones e -> size (tombstones e) = size (tombstones e') ->
  unreachable_routes e' = unreachable_routes e.
Proof. intros Hs He. unfold unreachable_routes. by rewrite (subset_size_eq _ _ Hs (eq_sym He)). Qed.

Lemma aged_settled e e1 : aged e e1 false -> settled e e1 [].
Proof.
  intros [I C N S L G Q T Bk]. split; try done; [constructor| |auto]. right. split_and!; try done.
  - unfold selected_routes. by rewrite L.
  - by apply aged_unreachable.
Qed.

Lemma reselected_settled e e1 e2 b acts : aged e e1 b -> reselected now e1 e2 acts -> settled e e2 acts.
Proof.
  intros [I C N S L G Q T Bk] Hr. pose proof Hr as [[I2 C2 N2 S2 A2 H2] Hshape _ _ _ _ _ _].
  split; try done; [congruence|by eapply same_interfaces_trans|by etrans| |intros _; by eapply reselected_backed].
  destruct Hshape as [->|(g & r & u & rest & ->)].
  - right. simpl in H2. injection H2 as Hs Hu Hg Hq.
    split_and!; [done| |congruence|congruence|].
    + unfold selected_routes. rewrite <- L. symmetry. exact Hs.
    + intros He. rewrite <- Hu. apply aged_unreachable; [done|].
      rewrite He, <- !length_unreachable. by rewrite Hu.
  - left. do 4 eexists. split; [done|]. rewrite <- H2. apply host_run_snapshot; simpl; congruence.
Qed.

Lemma snapshot_Inv g e : Inv e -> Inv (set_generation g e).
Proof. intros HI. apply (Inv_frame e); try done. apply HI. Qed.

Lemma tick_select_spec e e1 changed :
  aged e e1 changed ->
  wp (tick_select now (size (tombstones e)) changed) (fun acts e' => tracked now e e' false acts) e1.
Proof.
  intros Ha. unfold tick_select. do 3 wp_step.
  match goal with |- wp (if ?b then _ else _) _ _ =>
    assert (wp (if b then reselect now else mret []) (fun acts e2 => settled e e2 acts) e1) as Hw end.
  { wp_if.
    - wp_call reselect_spec; [|done|by destruct Ha]. intros acts e2 Hr. by eapply reselected_settled.
    - apply orb_false_iff in E as [-> _]. wp_step. by apply aged_settled. }
  wp_call Hw. clear Hw Ha e1 changed. intros acts e2 [I C N S A H Bk]. do 2 wp_step.
  destruct H as [(g & r & u & rest & -> & H)|(-> & Hs & Hg & Hq & Hu)].
  - simpl. rewrite andb_false_r. wp_step. split; [by split|auto].
  - rewrite andb_true_r. destruct (Nat.eqb_spec (size (tombstones e)) (size (tombstones e2))) as [He|Hne].
    + simpl. wp_step. split; [|auto]. split; try done. simpl. unfold host_of.
      by rewrite Hs, Hg, Hq, Hu.
    + simpl. unfold route_snapshot. do 5 wp_step. split; [|auto].
      split; try done; [by apply snapshot_Inv|by apply Forall_singleton|].
      simpl. rewrite Hg, Z.eqb_refl. simpl. unfold host_of. simpl. by rewrite Hq.
Qed.

(** * Repeats *)

Lemma tracked_append e0 e e' acts new :
  tracked now e0 e false acts -> tracked now e e' false new -> tracked now e0 e' false (acts ++ new).
Proof. exact (tracked_trans now e0 e e' false false acts new). Qed.

Lemma seqno_request_harmless key id seqno hops n : harmless [seqno_request_action key id seqno hops n now].
Proof. intros e. by apply sends_ok_send, Forall_singleton. Qed.

(** A change of the pending requests only. *)
Lemma request_tables p r e :
  ((forall k q, pending_seqno e !! k = Some q -> pending_ok q) -> forall k q, p !! k = Some q -> pending_ok q) ->
  request_step now e (set_recent_seqno r (set_pending_seqno p e)).
Proof. intros Hp. split; done. Qed.

Lemma retry_request_spec key id p acts e0 e :
  tracked now e0 e false acts -> pending_seqno e !! (key, id) = Some p ->
  wp (retry_request now acts ((key, id), p))
    (fun acts' e' => tracked now e0 e' false acts' /\
       forall k, k <> (key, id) -> pending_seqno e' !! k = pending_seqno e !! k) e.
Proof.
  intros Ht Hp. pose proof (tracked_Inv _ _ _ _ _ Ht) as HI. unfold retry_request.
  destruct (Z.eqb_spec (retries_left p) 0) as [H0|H0].
  - do 4 wp_step. wp_step. split; [|intros k Hk; simpl; by rewrite lookup_delete_ne].
    rewrite <- (app_nil_r acts). eapply tracked_append; [done|]. apply tracked_requests; [done| |apply sends_ok_nil].
    apply (request_tables (delete (key, id) (pending_seqno e))
             (<[(key, id) := (pq_seqno p, saturating_add64 now RECENT_REQUEST_MS)]> (recent_seqno e)) e).
    intros Hok k q [_ H]%lookup_delete_Some. by eapply Hok.
  - do 3 wp_step. rewrite Hp. wp_step. apply wp_expect. rewrite (proj2 (Z.eqb_neq _ _) H0).
    eexists. split; [done|]. do 2 wp_step. split; [|intros k Hk; simpl; by rewrite lookup_insert_ne].
    eapply tracked_append; [done|]. apply tracked_requests; [done| |apply seqno_request_harmless].
    split; [done|done|]. intros Hok k q. simpl. destruct (decide ((key, id) = k)) as [<-|].
    + rewrite lookup_insert, decide_True by done. intros [= <-]. destruct (Hok _ _ Hp). split; simpl; lia.
    + rewrite lookup_insert_ne by done. apply Hok.
Qed.

Lemma retry_requests_spec acts e0 e :
  tracked now e0 e false acts ->
  wp (retry_requests now acts) (fun acts' e' => tracked now e0 e' false acts') e.
Proof.
  intros Ht. unfold retry_requests. do 2 wp_step. set (l := List.filter _ _).
  eapply wp_mono; [|apply (wp_foldM _ (fun l acts e' => tracked now e0 e' false acts /\ NoDup l.*1 /\
    forall k p, (k, p) ∈ l -> pending_seqno e' !! k = Some p))].
  - by intros acts' e' [? _].
  - split_and!; [done|apply NoDup_filter_keys, hm_iter_NoDup|].
    intros k p [H _]%elem_of_filter_bool. by apply hm_iter_lookup in H.
  - intros [[key id] p] l' acts' e' (H & [Hni Hnd]%list.NoDup_cons & Hin).
    wp_call retry_request_spec; [|done|apply Hin; constructor]. intros acts'' e'' [H' Hk].
    split_and!; [done|done|]. intros k q Hkq. rewrite Hk; [apply Hin; by constructor|].
    intros ->. apply Hni. apply (list_elem_of_fmap fst l'). by exists ((key, id), q).
Qed.

Lemma pending_advertisements_output e e' : output_step now e e' -> pending_advertisements e' = pending_advertisements e.
Proof. intros [H _]. by apply (f_equal pending_advertisements) in H. Qed.

Lemma repeat_one_spec key acts e0 e :
  tracked now e0 e false acts -> is_Some (pending_advertisements e !! key) ->
  wp (repeat_one now acts key)
    (fun acts' e' => tracked now e0 e' false acts' /\
       forall k, k <> key -> pending_advertisements e' !! k = pending_advertisements e !! k) e.
Proof.
  intros Ht [entry Hk]. pose proof (tracked_Inv _ _ _ _ _ Ht) as HI. unfold repeat_one. do 3 wp_step.
  apply wp_expect. exists entry. split; [done|]. do 3 wp_step.
  set (e1 := set_pending_advertisements _ e). assert (request_step now e e1) as H1 by (by split).
  wp_call send_updates_spec; [|done]. intros upd e2 [Ho Hs]. wp_step.
  pose proof (pending_advertisements_output _ _ Ho) as Hp.
  assert (request_step now e e2) as H2 by (etrans; [done|by apply output_request]).
  wp_if; do 2 wp_step.
  - split.
    + eapply tracked_append; [done|]. apply tracked_requests; [done|etrans; [done|by split]|done].
    + intros k Hne. simpl. rewrite lookup_insert_ne, Hp by done. simpl. by rewrite lookup_delete_ne.
  - split.
    + eapply tracked_append; [done|]. by apply tracked_requests.
    + intros k Hne. rewrite Hp. simpl. by rewrite lookup_delete_ne.
Qed.

Lemma repeat_advertisements_spec acts e0 e :
  tracked now e0 e false acts ->
  wp (repeat_advertisements now acts) (fun acts' e' => tracked now e0 e' false acts') e.
Proof.
  intros Ht. unfold repeat_advertisements. do 2 wp_step. set (l := (List.filter _ _).*1).
  eapply wp_mono; [|apply (wp_foldM _ (fun l acts e' => tracked now e0 e' false acts /\ NoDup l /\
    forall k, k ∈ l -> is_Some (pending_advertisements e' !! k)))].
  - by intros acts' e' [? _].
  - split_and!; [done|apply NoDup_filter_keys, btree_iter_NoDup|].
    intros k ([k' v] & -> & [H _]%elem_of_filter_bool)%list_elem_of_fmap.
    apply btree_iter_lookup in H. simpl. eauto.
  - intros key l' acts' e' (H & [Hni Hnd]%list.NoDup_cons & Hin).
    wp_call repeat_one_spec; [|done|apply Hin; constructor]. intros acts'' e'' [H' Hk].
    split_and!; [done|done|]. intros k Hkl. rewrite Hk; [apply Hin; by constructor|]. by intros ->.
Qed.

(** * Periodic output *)

Lemma send_ihus_spec acts e0 e :
  tracked now e0 e false acts -> wp (send_ihus now acts) (fun acts' e' => tracked now e0 e' false acts') e.
Proof.
  intros Ht. unfold send_ihus. do 2 wp_step. apply wp_loop; [done|]. intros [n d] acts' e' _ H. wp_step.
  wp_call ihu_action_spec; [|by eapply tracked_Inv]. intros a e'' Ha. wp_step. by eapply tracked_append.
Qed.

Lemma advance_interface_spec i st st' e :
  Inv e -> interfaces e !! i = Some st ->
  tracked now e (set_interfaces (<[i := st']> (interfaces e)) e) false [].
Proof.
  intros HI Hi. assert (same_interfaces e (set_interfaces (<[i := st']> (interfaces e)) e)) as Hsi.
  { intros j. simpl. destruct (decide (i = j)) as [<-|].
    - rewrite lookup_insert, decide_True by done. rewrite Hi. by rewrite !is_Some_alt.
    - by rewrite lookup_insert_ne. }
  split; [|done]. apply step_quiet; try done; [|constructor]. apply Inv_interfaces; [|done].
  intros j. apply Hsi.
Qed.

Lemma tick_interface_spec i acts e0 e :
  tracked now e0 e false acts -> is_Some (interfaces e !! i) ->
  wp (tick_interface now acts i) (fun acts' e' => tracked now e0 e' false acts' /\ same_interfaces e e') e.
Proof.
  intros Ht [st Hi]. pose proof (tracked_Inv _ _ _ _ _ Ht) as HI. unfold tick_interface. do 3 wp_step.
  apply wp_expect. exists st. split; [done|]. destruct (advance_schedule now st) as [st' [hd ud]]. do 3 wp_step.
  set (e1 := set_interfaces _ e). pose proof (advance_interface_spec i st st' e HI Hi) as H1. fold e1 in H1.
  assert (Inv e1) as HI1 by (by eapply tracked_Inv).
  set (hello := match hd with Some _ => _ | None => _ end). assert (harmless hello) as Hh.
  { intros e'. unfold hello. destruct hd; [|apply sends_ok_nil]. by apply sends_ok_send, Forall_singleton. }
  assert (wp (match ud with
              | Some d => send_updates now None (Some i) (Some (by_deadline now d)) | None => mret [] end)
            (fun upd e' => tracked now e1 e' false upd) e1) as Hw.
  { destruct ud; [by apply send_updates_tracked|]. wp_step. by apply tracked_refl. }
  wp_call Hw. intros upd e2 H2. wp_step.
  assert (tracked now e e2 false (hello ++ upd)) as H3.
  { change (hello ++ upd) with ([] ++ (hello ++ upd)). eapply tracked_append; [exact H1|].
    eapply tracked_append; [|exact H2]. apply tracked_output; [done|done|apply Hh]. }
  split; [by eapply tracked_append|]. by destruct H3 as [[]].
Qed.

Lemma tick_interfaces_spec acts e0 e :
  tracked now e0 e false acts ->
  wp (tick_interfaces now acts) (fun acts' e' => tracked now e0 e' false acts') e.
Proof.
  intros Ht. unfold tick_interfaces. do 2 wp_step.
  eapply wp_mono; [|apply (wp_loop _ (fun acts e' => tracked now e0 e' false acts /\ same_interfaces e e'))].
  - by intros acts' e' [? _].
  - done.
  - intros i acts' e' Hi [H Hs]. wp_call tick_interface_spec; [|exact H|].
    + intros acts'' e'' [H' Hs']. split; [done|by eapply same_interfaces_trans].
    + apply Hs. by apply (btree_keys_lookup (interfaces e) i).
Qed.

(** * The tick *)

Lemma tick_spec e : Inv e -> wp (tick now) (fun acts e' => tracked now e e' false acts) e.
Proof.
  intros HI. unfold tick. do 3 wp_step. wp_call tick_expire_spec; [|done]. intros r e1 [H1 Hh]. wp_step.
  wp_call tick_select_spec; [|exact H1]. intros acts e2 H2. wp_step.
  wp_call retry_requests_spec.
  2: { eapply tracked_append; [exact H2|]. apply tracked_output; [by eapply tracked_Inv|done|apply Hh]. }
  intros acts3 e3 H3. wp_step. wp_call repeat_advertisements_spec; [|exact H3]. intros acts4 e4 H4. wp_step.
  wp_call send_ihus_spec; [|exact H4]. intros acts5 e5 H5. by apply tick_interfaces_spec.
Qed.
End Ticks.
