(* ===== verification/EngineSpec.v ===== *)
(** Every event keeps the invariant: interface lifecycle, local origins, policy
    replacement, packets and time, and so every reachable state. *)
From S2P Require Import Prelude Net Model Metric Wire Api EngineState Deadlines Sources Output Rib Neighbors Timers Engine OutputSpec Invariant AdmissionSpec SelectionSpec ReceiveSpec TimersSpec.
Import Hello.
Local Open Scope Z_scope.

Section Events.
Context {NL : IpNetLib} {MI : MetricImpl} {HO : HashOrder} {B : Build}.
Context (release : overflow_checks = false) (now : Z) (now_u64 : in_u64 now).

(** What an event guarantees. *)
Record event_ok (e e' : Engine) (acts : list Action) : Prop := {
  ev_inv : Inv e';
  ev_backed : backed e';
  ev_sources : sources_persist now (feasible e) (feasible e');
  ev_actions : actions_ok now e' acts;
  ev_host : host_run acts (host_of e) = Some (host_of e')
}.

(** Configuration and interfaces may change before anything is sent. *)
Record prepared (e e1 : Engine) : Prop := {
  pr_inv : Inv e1;
  pr_feasible : feasible e1 = feasible e;
  pr_host : host_of e1 = host_of e
}.

Lemma event_prepared e e1 e' acts :
  prepared e e1 -> tracked now e1 e' false acts -> backed e1 -> event_ok e e' acts.
Proof.
  intros [_ Hf Hh] [[] Hb] Hb1. split; try done; [by apply Hb|by rewrite <- Hf|by rewrite <- Hh].
Qed.

Lemma event_tracked e e' acts : Inv e -> backed e -> tracked now e e' false acts -> event_ok e e' acts.
Proof. intros HI Hb Ht. eapply event_prepared; [|exact Ht|exact Hb]. by split. Qed.

Lemma event_reselected e e1 e' acts : prepared e e1 -> reselected now e1 e' acts -> event_ok e e' acts.
Proof.
  intros [_ Hf Hh] Hr. pose proof (reselected_backed _ _ _ _ Hr). destruct Hr as [[] _ _ _ _ _ _ _].
  split; try done; [by rewrite <- Hf|by rewrite <- Hh].
Qed.

(** An event continues after its first part. *)
Lemma event_more e e1 e2 a b : event_ok e e1 a -> tracked now e1 e2 false b -> event_ok e e2 (a ++ b).
Proof.
  intros [I1 B1 S1 A1 H1] [[I2 C2 N2 S2 A2 H2] B2]. split; [done|by apply B2|by etrans| |].
  - apply actions_ok_app. split; [by eapply actions_ok_persist|done].
  - rewrite host_run_app, H1. done.
Qed.

Lemma harmless_tracked acts e : harmless now acts -> Inv e -> tracked now e e false acts.
Proof. intros Hh HI. apply tracked_output; [done|done|apply Hh]. Qed.

(** * Interfaces *)

Lemma full_route_request_harmless i tr : harmless now [full_route_request i tr now].
Proof. intros e. by apply sends_ok_send, Forall_singleton. Qed.

Lemma interface_up_spec i addrs policy e :
  Inv e -> backed e -> wp (interface_up i addrs policy now) (fun acts e' => event_ok e e' acts) e.
Proof.
  intros HI Hb. unfold interface_up. do 2 wp_step. set (e1 := set_interfaces _ e).
  assert (is_Some (interfaces e1 !! i)) as Hi by (simpl; rewrite lookup_insert, decide_True by done; eauto).
  assert (prepared e e1) as Hp.
  { split; [|done|done]. apply Inv_interfaces; [|done]. intros j Hj. simpl.
    destruct (decide (i = j)) as [<-|]; [done|]. by rewrite lookup_insert_ne. }
  wp_step. wp_call tick_spec; [|done|by destruct Hp]. intros acts e2 Ht. do 3 wp_step.
  apply wp_expect. destruct Ht as [Hst Hbk]. destruct (proj2 (st_interfaces _ _ _ _ Hst i) Hi) as [st Hst'].
  exists st. split; [done|]. wp_step.
  eapply event_more; [by eapply event_prepared|]. apply harmless_tracked; [apply full_route_request_harmless|].
  by destruct Hst.
Qed.

Lemma clear_interface_Inv i ifs e :
  (forall j, j <> i -> is_Some (interfaces e !! j) -> is_Some (ifs !! j)) -> Inv e ->
  Inv (set_candidates (filter (fun '(_, c) => c_interface c <> i) (candidates e))
         (set_neighbours (filter (fun '(k, _) => nk_interface k <> i) (neighbours e)) (set_interfaces ifs e))).
Proof.
  intros Hifs HI. apply (Inv_restrict (fun n => nk_interface n <> i)); [| |intros n; apply Hifs|done].
  - intros k n c. rewrite map_lookup_filter_Some. split; intros [Hc Hi]; split; try done;
      by rewrite (co_interface _ _ _ _ (inv_candidates _ HI _ _ _ Hc)) in *.
  - intros n nb. by rewrite map_lookup_filter_Some.
Qed.

Lemma clear_interface_spec i e :
  Inv e -> wp (clear_interface i) (fun _ e' => tracked now e e' true []) e.
Proof.
  intros HI. unfold clear_interface. wp_step. split; [|done]. apply table_step; try done.
  pose proof (clear_interface_Inv i (interfaces e) e ltac:(done) HI) as H. by destruct e.
Qed.

Lemma reset_metrics_spec policy i e :
  Inv e -> wp (reset_metrics policy i now) (fun acts e' => tracked now e e' false acts) e.
Proof.
  intros HI. unfold reset_metrics. do 2 wp_step. set (e1 := set_neighbours _ e).
  assert (Inv e1) as HI1.
  { apply (Inv_neighbour_imap (fun key n =>
      if bool_decide (nk_interface key = i) then reset_neighbour policy i now key n else n)); [|done].
    intros n nb. by case_match. }
  wp_step. wp_call recompute_candidate_metrics_spec; [|done]. intros changed e2 H2.
  wp_call reselect_if_spec; [|done|exact (tracked_nil _ _ _ _ false changed []
    (tracked_neighbours now _ e HI1) (tracked_admitted _ _ _ _ _ H2))]. done.
Qed.

Lemma interface_policy_changed_spec i policy reset e :
  Inv e -> backed e ->
  wp (interface_policy_changed i policy reset now) (fun acts e' => event_ok e e' acts) e.
Proof.
  intros HI Hb. unfold interface_policy_changed. do 2 wp_step.
  destruct (interfaces e !! i) as [st|] eqn:Ei; [|wp_step; apply event_tracked; [done|done|by apply tracked_refl]].
  do 2 wp_step. set (st' := set_last_full_update_ms _ _).
  pose proof (advance_interface_spec now i st st' e HI Ei) as H1. set (e1 := set_interfaces _ e) in *.
  assert (forall changed : bool,
    wp (if changed then _ ← clear_interface i; reselect now else mret [])
      (fun acts e' => tracked now e e' false acts) e1) as Hclear.
  { intros []; [|by wp_step]. wp_step. wp_call clear_interface_spec; [|by eapply tracked_Inv].
    intros [] e2 H2. exact (reselect_if_spec now now_u64 true e [] e2 (tracked_nil _ _ _ _ false true [] H1 H2)). }
  wp_step. wp_call Hclear. intros a1 e2 H2.
  assert (wp (if reset then reset_metrics policy i now else mret []) (fun acts e' => tracked now e2 e' false acts) e2)
    as Hreset.
  { destruct reset; [apply reset_metrics_spec; by eapply tracked_Inv|]. wp_step. apply tracked_refl. by eapply tracked_Inv. }
  wp_step. wp_call Hreset. intros a2 e3 H3. wp_step.
  wp_call send_updates_tracked; [|done|by eapply tracked_Inv]. intros a3 e4 H4. wp_step.
  wp_call tick_spec; [|done|by eapply tracked_Inv]. intros a4 e5 H5. wp_step.
  apply event_tracked; [done|done|]. eapply tracked_append; [exact H2|]. eapply tracked_append; [exact H3|].
  eapply tracked_append; [exact H4|exact H5].
Qed.

Lemma interface_addresses_changed_spec i addrs e :
  Inv e -> backed e ->
  wp (interface_addresses_changed i addrs now) (fun acts e' => event_ok e e' acts) e.
Proof.
  intros HI Hb. unfold interface_addresses_changed. do 2 wp_step.
  wp_if; [wp_step; apply event_tracked; [done|done|by apply tracked_refl]|]. do 2 wp_step.
  set (e1 := set_interfaces _ e). assert (same_interfaces e e1) as Hs.
  { intros j. simpl. destruct (decide (i = j)) as [<-|]; [|by rewrite lookup_alter_ne].
    rewrite lookup_alter, decide_True by done. by rewrite fmap_is_Some. }
  wp_call send_updates_tracked; [|done|apply Inv_interfaces; [intros j; apply Hs|done]].
  intros acts e2 H2. eapply event_prepared; [|exact H2|done]. split; try done.
  apply Inv_interfaces; [intros j; apply Hs|done].
Qed.

Lemma interface_down_spec i e :
  Inv e -> wp (interface_down i now) (fun acts e' => event_ok e e' acts) e.
Proof.
  intros HI. unfold interface_down, clear_interface. do 4 wp_step. set (e1 := set_candidates _ _).
  assert (prepared e e1) as Hp.
  { split; [|done|done]. apply (clear_interface_Inv i (delete i (interfaces e)) e); [|done].
    intros j Hj. by rewrite lookup_delete_ne. }
  wp_call reselect_spec; [|done|by destruct Hp]. intros acts e' Hr. by eapply event_reselected.
Qed.

(** * Local origins *)

(** The host's list of unreachable routes may lag behind. *)
Record lagging (e e' : Engine) (acts : list Action) : Prop := {
  lg_inv : Inv e';
  lg_config : config e' = config e;
  lg_interfaces : same_interfaces e e';
  lg_sources : sources_persist now (feasible e) (feasible e');
  lg_actions : actions_ok now e' acts;
  lg_host : exists u, host_run acts (host_of e)
    = Some (MkHost (selected_routes e') u (generation e') (sequence_number e'));
  lg_backed : backed e -> backed e'
}.

Lemma lagging_tracked e e' acts : tracked now e e' false acts -> lagging e e' acts.
Proof.
  intros [[I C N S A H] Bk]. split; try done; [|auto]. exists (unreachable_routes e'). exact H.
Qed.

(** Output while the host lags behind. *)
Lemma lagging_requests e e1 e2 a b :
  lagging e e1 a -> request_step now e1 e2 -> sends_ok now e2 b -> lagging e e2 (a ++ b).
Proof.
  intros [I C N S A [u H] Bk] Hr [Hb Hq]. destruct (request_frame _ _ _ Hr) as (R1&_&_&R2&_&_&R3&R4&_).
  split; [by eapply request_step_Inv|congruence|eapply same_interfaces_trans; [done|by eapply request_interfaces]|..].
  - etrans; [done|by apply rs_improve].
  - apply actions_ok_app. split; [|done]. eapply actions_ok_persist; [done|by apply rs_improve|done].
  - exists u. rewrite host_run_app, H. simpl. rewrite host_run_quiet by done.
    unfold selected_routes. by rewrite R2, R3, R4.
  - intros Hbk. eapply request_backed; [done|auto].
Qed.

(** The snapshot catches up. *)
Lemma snapshot_spec e e1 acts :
  lagging e e1 acts -> wp route_snapshot (fun s e2 => tracked now e e2 false (acts ++ [s])) e1.
Proof.
  intros [I C N S A [u H] Bk]. unfold route_snapshot. do 3 wp_step. split; [|auto].
  split; try done; [by apply snapshot_Inv| |].
  - apply actions_ok_app. split; [done|by apply Forall_singleton].
  - rewrite host_run_app, H. simpl. by rewrite Z.eqb_refl.
Qed.

(** Tombstones of destinations without a route. *)
Lemma Inv_tombstones t e :
  (forall k, is_Some (selected e !! k) -> t !! k = None) -> Inv e -> Inv (set_tombstones t e).
Proof.
  intros Ht [IC IK IN MN MC IS IW IO IP]. split; try done.
  - intros n nb H. by destruct (IN n nb H).
  - intros k s H. destruct (IS k s H). split; try done. simpl. apply Ht. eauto.
Qed.

Lemma lagging_tombstones e e1 acts t :
  (forall k, is_Some (selected e1 !! k) -> t !! k = None) ->
  lagging e e1 acts -> lagging e (set_tombstones t e1) acts.
Proof. intros Ht [I C N S A H Bk]. split; try done. by apply Inv_tombstones. Qed.

Lemma originated_spec m e :
  (forall k o, m !! k = Some o -> o_seqno o = sequence_number e) -> Inv e ->
  tracked now e (set_originated m e) false [].
Proof.
  intros Hm [IC IK IN MN MC IS IW IO IP]. split; [|done]. apply table_step; try done. split; try done.
  - intros n nb H. by destruct (IN n nb H).
  - intros k s H. by destruct (IS k s H).
Qed.

Lemma repeat_tracked key e : Inv e -> wp (repeat_advertisement key now) (fun _ e' => tracked now e e' false []) e.
Proof.
  intros HI. wp_call (repeat_advertisement_request now key now e). intros [] e' H.
  apply tracked_requests; [done|done|apply sends_ok_nil].
Qed.

(** A destination originated here is not unreachable. *)
Lemma clear_tombstone_spec key e :
  Inv e ->
  wp (if bool_decide (is_Some (tombstones e !! key)) then s ← route_snapshot; mret [s] else mret [])
    (fun acts e' => tracked now e e' false acts) (set_tombstones (delete key (tombstones e)) e).
Proof.
  intros HI. case_bool_decide as Hk.
  - wp_step. wp_call (snapshot_spec e); [|apply (lagging_tombstones e e []);
      [|by apply lagging_tracked, tracked_refl]].
    + intros a e' H. by wp_step.
    + intros k [s Hs]. apply (inv_selected _ HI) in Hs as []. apply lookup_delete_None. auto.
  - wp_step. rewrite delete_id by (by apply eq_None_not_Some).
    replace (set_tombstones (tombstones e) e) with e by (by destruct e). by apply tracked_refl.
Qed.

Lemma bump_if_spec (b : bool) e :
  Inv e ->
  wp (if b then _ ← bump_sequence_number; gets (fun e => [SequenceNumberChanged (sequence_number e)]) else mret [])
    (fun acts e' => tracked now e e' false acts) e.
Proof. intros HI. destruct b; [by apply bump_spec|]. wp_step. by apply tracked_refl. Qed.

Lemma insert_origin_spec key metric e :
  Inv e ->
  tracked now e (set_originated (<[key := MkOriginated metric (sequence_number e)]> (originated e)) e) false [].
Proof.
  intros HI. apply originated_spec; [|done]. intros k o. destruct (decide (key = k)) as [<-|].
  - rewrite lookup_insert, decide_True by done. by intros [= <-].
  - rewrite lookup_insert_ne by done. apply (inv_origins _ HI).
Qed.

Lemma reselect_tracked e : Inv e -> wp (reselect now) (fun acts e' => tracked now e e' false acts) e.
Proof.
  intros HI. wp_call reselect_spec; [|done|done]. intros acts e' Hr.
  pose proof (reselected_backed _ _ _ _ Hr). destruct Hr. by split.
Qed.

Lemma originate_spec key metric e :
  Inv e -> wp (originate key metric now) (fun acts e' => tracked now e e' false acts) e.
Proof.
  intros HI. unfold originate. do 2 wp_step. wp_if; [wp_step; by apply tracked_refl|]. do 5 wp_step.
  wp_call clear_tombstone_spec; [|done]. intros a1 e1 H1. wp_step.
  wp_call repeat_tracked; [|by eapply tracked_Inv]. intros [] e2 H2. wp_step.
  wp_call bump_if_spec; [|by eapply tracked_Inv]. intros a3 e3 H3. do 2 wp_step.
  assert (Inv e3) as HI3 by (by eapply tracked_Inv).
  pose proof (insert_origin_spec key metric e3 HI3) as H4. wp_step.
  wp_call reselect_tracked; [|by eapply tracked_Inv]. intros a5 e5 H5. wp_step.
  wp_call send_updates_tracked; [|done|by eapply tracked_Inv]. intros a6 e6 H6. wp_step.
  eapply tracked_append; [exact H1|]. eapply (tracked_nil _ _ _ _ false false); [exact H2|].
  eapply tracked_append; [exact H3|]. eapply (tracked_nil _ _ _ _ false false); [exact H4|].
  eapply tracked_append; [exact H5|exact H6].
Qed.

(** Holding a destination without a route. *)
Lemma hold_withdrawal_spec key e e1 acts :
  lagging e e1 acts -> selected e1 !! key = None ->
  wp (hold_withdrawal key now) (fun _ e2 => lagging e e2 acts) e1.
Proof.
  intros Hl Hk. unfold hold_withdrawal. wp_step. apply lagging_tombstones; [|done].
  intros k Hs. destruct (decide (key = k)) as [<-|].
  - rewrite Hk in Hs. by destruct Hs.
  - rewrite lookup_insert_ne by done. destruct Hs as [s Hs].
    by destruct (inv_selected _ (lg_inv _ _ _ Hl) _ _ Hs).
Qed.

Lemma delete_origin_spec key e :
  Inv e -> tracked now e (set_originated (delete key (originated e)) e) false [].
Proof.
  intros HI. apply originated_spec; [|done]. intros k o [_ H]%lookup_delete_Some. by eapply inv_origins.
Qed.

Lemma withdraw_spec key e :
  Inv e -> wp (withdraw key now) (fun acts e' => tracked now e e' false acts) e.
Proof.
  intros HI. unfold withdraw. do 4 wp_step. pose proof (delete_origin_spec key e HI) as H1.
  set (existed := bool_decide _). wp_step.
  wp_call reselect_tracked; [|by eapply tracked_Inv]. intros a2 e2 H2. do 3 wp_step.
  match goal with |- wp ?m _ _ => assert (wp m (fun acts e' => tracked now e2 e' false acts) e2) as Hw end.
  { assert (Inv e2) as HI2 by (by eapply tracked_Inv). wp_if; [|wp_step; by apply tracked_refl].
    apply andb_true_iff in E as [_ E%bool_decide_eq_true]. wp_step.
    wp_call (hold_withdrawal_spec key e2 e2 []); [|by apply lagging_tracked, tracked_refl|done].
    intros [] e3 H3. wp_step. wp_call snapshot_spec; [|exact H3]. intros s e4 H4. by wp_step. }
  wp_call Hw. intros a3 e3 H3. wp_step.
  match goal with |- wp ?m _ _ => assert (wp m (fun acts e' => tracked now e3 e' false acts) e3) as Hu end.
  { assert (Inv e3) as HI3 by (by eapply tracked_Inv). wp_if; [|wp_step; by apply tracked_refl].
    wp_step. wp_call repeat_tracked; [|done]. intros [] e4 H4.
    wp_call send_updates_tracked; [|done|by eapply tracked_Inv]. intros a5 e5 H5.
    by eapply (tracked_nil _ _ _ _ false false). }
  wp_call Hu. intros a4 e4 H4. wp_step. eapply (tracked_nil _ _ _ _ false false); [exact H1|].
  eapply tracked_append; [exact H2|]. eapply tracked_append; [exact H3|exact H4].
Qed.

(** * Replacing all origins *)

Lemma lagging_request_call {A} (m : M A) acts e e1 :
  wp m (fun _ e2 => request_step now e1 e2) e1 -> lagging e e1 acts ->
  wp m (fun _ e2 => lagging e e2 acts) e1.
Proof.
  intros Hm Hl. wp_call Hm. intros a e2 H2. rewrite <- (app_nil_r acts).
  eapply lagging_requests; [done|done|apply sends_ok_nil].
Qed.

Lemma lagging_updates only i timing acts e e1 :
  lagging e e1 acts ->
  wp (send_updates now only i timing) (fun upd e2 => lagging e e2 (acts ++ upd)) e1.
Proof.
  intros Hl. wp_call send_updates_spec; [|done]. intros upd e2 [Ho Hs].
  eapply lagging_requests; [done|by apply output_request|done].
Qed.

Lemma withdrawals_spec keys e e1 acts :
  lagging e e1 acts ->
  wp (for_actions keys (fun key =>
        unrouted ← gets (fun e => bool_decide (selected e !! key = None));
        _ ← (if unrouted : bool then hold_withdrawal key now else mret tt);
        _ ← repeat_advertisement key now;
        send_updates now (Some key) None (Some (urgent now))))
    (fun more e2 => lagging e e2 (acts ++ more)) e1.
Proof.
  intros Hl. unfold for_actions. apply wp_loop; [by rewrite app_nil_r|]. intros key more e2 _ H2. do 4 wp_step.
  assert (wp (if bool_decide (selected e2 !! key = None) then hold_withdrawal key now else mret tt)
            (fun _ e3 => lagging e e3 (acts ++ more)) e2) as Hw.
  { wp_if; [|by wp_step]. apply bool_decide_eq_true in E. by apply hold_withdrawal_spec. }
  wp_call Hw. intros [] e3 H3. wp_step.
  wp_call (lagging_request_call (repeat_advertisement key now)); [|apply repeat_advertisement_request|exact H3].
  intros [] e4 H4. wp_call lagging_updates; [|exact H4]. intros upd e5 H5. wp_step. by rewrite app_assoc.
Qed.

Lemma clear_tombstones_spec keys e e1 acts :
  lagging e e1 acts ->
  wp (for_each keys (fun key =>
        _ ← modify (fun e => set_tombstones (delete key (tombstones e)) e);
        repeat_advertisement key now))
    (fun _ e2 => lagging e e2 acts) e1.
Proof.
  intros Hl. unfold for_each. apply wp_loop; [done|]. intros key [] e2 _ H2. do 2 wp_step.
  apply lagging_request_call; [apply repeat_advertisement_request|].
  apply lagging_tombstones; [|done]. intros k [s Hs].
  apply (inv_selected _ (lg_inv _ _ _ H2)) in Hs as []. apply lookup_delete_None. auto.
Qed.

Lemma replaced_origins_spec (origins : gmap RouteKey Z) e :
  Inv e ->
  tracked now e (set_originated ((fun metric => MkOriginated metric (sequence_number e)) <$> origins) e) false [].
Proof.
  intros HI. apply originated_spec; [|done]. intros k o. rewrite lookup_fmap.
  by intros (metric & _ & ->)%fmap_Some.
Qed.

Lemma replace_origins_spec origins e :
  Inv e -> wp (replace_origins origins now) (fun acts e' => tracked now e e' false acts) e.
Proof.
  intros HI. unfold replace_origins. do 2 wp_step. wp_if; [wp_step; by apply tracked_refl|]. do 5 wp_step.
  wp_call bump_if_spec; [|done]. intros a1 e1 H1. do 2 wp_step.
  pose proof (replaced_origins_spec origins e1 ltac:(by eapply tracked_Inv)) as H2. wp_step.
  wp_call reselect_tracked; [|by eapply tracked_Inv]. intros a3 e3 H3.
  assert (tracked now e e3 false (a1 ++ a3)) as H03.
  { eapply tracked_append; [exact H1|]. by eapply (tracked_nil _ _ _ _ false false). }
  wp_step. wp_call withdrawals_spec; [|exact (lagging_tracked _ _ _ H03)]. intros a4 e4 H4. do 3 wp_step.
  wp_call clear_tombstones_spec; [|exact H4]. intros [] e5 H5. wp_step.
  wp_call snapshot_spec; [|exact H5]. intros s e6 H6. wp_step.
  wp_call send_updates_tracked; [|done|by eapply tracked_Inv]. intros a7 e7 H7. wp_step.
  pose proof (tracked_append _ _ _ _ _ _ H6 H7) as H. by rewrite <- !app_assoc in H.
Qed.

(** * Policy replacement *)

(** Counting again what survives. *)
Definition recount_step (m : gmap NeighborKey Neighbor) (entry : (RouteKey * NeighborKey) * Candidate)
  : gmap NeighborKey Neighbor :=
  let '((_, neighbor), _) := entry in alter (fun n => set_nb_candidates (S (nb_candidates n)) n) neighbor m.

Lemma set_nb_candidates_twice a b n : set_nb_candidates a (set_nb_candidates b n) = set_nb_candidates a n.
Proof. done. Qed.

Lemma recount_lookup l m n :
  NoDup l.*1 ->
  fold_left recount_step l m !! n =
  (fun nb => set_nb_candidates (nb_candidates nb + count_for (list_to_set l.*1) n) nb) <$> m !! n.
Proof.
  revert m. induction l as [|[[k n'] c] l IH]; intros m Hnd; cbn [fold_left].
  - assert (count_for (list_to_set [].*1) n = 0%nat) as -> by (apply count_none; set_solver).
    destruct (m !! n) as [nb|]; [|done]. simpl. rewrite Nat.add_0_r. by destruct nb.
  - rewrite fmap_cons in Hnd. apply list.NoDup_cons in Hnd as [Hni Hnd]. rewrite (IH _ Hnd).
    rewrite fmap_cons, list_to_set_cons, count_insert by (by rewrite elem_of_list_to_set). simpl.
    destruct (decide (n' = n)) as [->|].
    + rewrite lookup_alter, decide_True by done. destruct (m !! n) as [nb|]; [|done]. simpl. f_equal.
      rewrite set_nb_candidates_twice. f_equal. simpl. lia.
    + by rewrite lookup_alter_ne.
Qed.

Lemma recount_neighbours e n :
  neighbours (recount e) !! n = (fun nb => set_nb_candidates (candidates_of e n) nb) <$> neighbours e !! n.
Proof.
  unfold recount. change (fold_left _ (hm_iter (candidates e))) with (fold_left recount_step (hm_iter (candidates e))).
  cbn [neighbours set_neighbours]. rewrite recount_lookup by apply hm_iter_NoDup. rewrite lookup_fmap.
  replace (list_to_set (hm_iter (candidates e)).*1) with (dom (candidates e)).
  - by destruct (neighbours e !! n).
  - apply set_eq. intros x. rewrite elem_of_dom, elem_of_list_to_set, list_elem_of_fmap. split.
    + intros [c Hc]. exists (x, c). by rewrite hm_iter_lookup.
    + intros ([x' c] & -> & Hc%hm_iter_lookup). simpl. eauto.
Qed.

Lemma count_mono (X Y : gset (RouteKey * NeighborKey)) n : X ⊆ Y -> (count_for X n <= count_for Y n)%nat.
Proof. intros H. apply subseteq_size. set_solver. Qed.

(** The tables under a new policy, before anything is announced. *)
Lemma policy_Inv policy p e :
  (forall k q, p !! k = Some q -> pending_seqno e !! k = Some q) -> Inv e ->
  let e1 := set_config (set_route_policy policy (config e)) e in
  let e2 := set_candidates
    (filter (fun '(k, c) => candidate_accepted (cfg_route_policy (config e1)) (snd k) c = true)
       (candidates e1)) e1 in
  Inv (set_pending_seqno p (recount e2)).
Proof.
  intros Hp HI e1 e2. destruct HI as [IC IK IN MN MC IS IW IO IP].
  assert (forall k n c, candidates e2 !! (k, n) = Some c ->
    candidates e !! (k, n) = Some c /\ candidate_accepted policy n c = true) as Hc.
  { intros k n c [H1 H2]%map_lookup_filter_Some. done. }
  assert (candidates e2 ⊆ candidates e) as Hsub by apply map_filter_subseteq.
  assert (forall n, (candidates_of e2 n <= candidates_of e n)%nat) as Hle
    by (intros n; by apply count_mono, subseteq_dom).
  split; try done.
  - intros k n c [H1 H2]%Hc. destruct (IC k n c H1) as [C1 C2 C3 C4 C5 C6]. split; try done.
    intros _. unfold candidate_accepted in H2. apply andb_true_iff in H2 as [_ H2]. by rewrite C1 in H2.
  - intros k n c [H1 _]%Hc. cbn [neighbours set_pending_seqno]. rewrite recount_neighbours.
    destruct (IK k n c H1) as [nb Hn]. change (neighbours e2) with (neighbours e). rewrite Hn. simpl. eauto.
  - intros n nb. cbn [neighbours set_pending_seqno]. rewrite recount_neighbours.
    change (neighbours e2) with (neighbours e). intros (nb0 & Hn & ->)%fmap_Some.
    destruct (IN n nb0 Hn) as [N1 N2 N3]. split; simpl; [done| |done]. rewrite N1 in N2. specialize (Hle n). lia.
  - replace (size (neighbours _)) with (size (neighbours e)); [done|].
    rewrite <- !size_dom. f_equal. apply set_eq. intros n.
    cbn [neighbours set_pending_seqno]. rewrite !elem_of_dom, recount_neighbours.
    change (neighbours e2) with (neighbours e). by rewrite fmap_is_Some.
  - etrans; [|exact MC]. by apply map_subseteq_size.
  - intros k s H. by destruct (IS k s H).
  - intros k q Hq. simpl in Hq. by eapply IP, Hp.
Qed.

Lemma for_each_repeat keys e0 e acts :
  tracked now e0 e false acts ->
  wp (for_each keys (fun key => repeat_advertisement key now)) (fun _ e' => tracked now e0 e' false acts) e.
Proof.
  intros Ht. unfold for_each. apply wp_loop; [done|]. intros key [] e' _ H.
  wp_call repeat_tracked; [|by eapply tracked_Inv]. intros [] e'' H'. rewrite <- (app_nil_r acts).
  by eapply tracked_append.
Qed.

Lemma route_requests_harmless l :
  harmless now ((fun '(interface, state) =>
    full_route_request interface (control_transport (ifs_policy state)) now) <$> l).
Proof.
  intros e. induction l as [|[i st] l IH]; [apply sends_ok_nil|]. rewrite fmap_cons.
  apply (sends_ok_app now e [_]). split; [apply full_route_request_harmless|done].
Qed.

Lemma invalidate_tracked e : Inv e -> tracked now e e false [InvalidatePendingSends].
Proof. intros HI. apply tracked_output; [done|done|]. by split; apply Forall_singleton. Qed.

Lemma replace_route_policy_spec policy e :
  Inv e -> wp (replace_route_policy policy now) (fun acts e' => event_ok e e' acts) e.
Proof.
  intros HI. unfold replace_route_policy. do 8 wp_step. set (e1 := set_pending_seqno _ _).
  assert (prepared e e1) as Hp.
  { split; [|done|done]. apply policy_Inv; [|done]. by intros k q [H _]%map_lookup_filter_Some. }
  wp_step. wp_call reselect_spec; [|done|by destruct Hp]. intros a2 e2 Hr. do 2 wp_step.
  assert (event_ok e e2 ([InvalidatePendingSends] ++ a2)) as H2.
  { pose proof (event_reselected _ _ _ _ Hp Hr) as [I Bk S A H]. split; try done. by constructor. }
  wp_step. wp_call (for_each_repeat _ e2 e2 []); [|apply tracked_refl; by destruct H2]. intros [] e3 H3. wp_step.
  wp_call send_updates_tracked; [|done|by eapply tracked_Inv]. intros a4 e4 H4. do 2 wp_step. wp_step.
  rewrite app_assoc. eapply event_more; [exact H2|]. eapply (tracked_nil _ _ _ _ false false); [exact H3|].
  eapply tracked_append; [exact H4|]. apply harmless_tracked; [apply route_requests_harmless|by eapply tracked_Inv].
Qed.

(** * Dispatch *)

Lemma handle_validated_spec event e :
  event_time event = now -> Inv e -> backed e ->
  wp (handle_validated event) (fun acts e' => event_ok e e' acts) e.
Proof.
  intros Ht HI Hb. assert (forall m, wp m (fun acts e' => tracked now e e' false acts) e ->
    wp m (fun acts e' => event_ok e e' acts) e) as Htr.
  { intros m. apply wp_mono. intros acts e'. by apply event_tracked. }
  destruct event; simpl in Ht; subst; simpl.
  - by apply replace_route_policy_spec.
  - do 2 wp_step. by apply interface_up_spec.
  - by apply interface_up_spec.
  - by apply interface_policy_changed_spec.
  - by apply interface_addresses_changed_spec.
  - by apply interface_down_spec.
  - by apply Htr, receive_spec.
  - by apply Htr, receive_spec.
  - by apply Htr, originate_spec.
  - by apply Htr, withdraw_spec.
  - by apply Htr, replace_origins_spec.
  - by apply Htr, tick_spec.
Qed.

Lemma handle_spec event e :
  event_time event = now -> Inv e -> backed e ->
  wp (handle event) (fun acts e' => event_ok e e' acts) e.
Proof.
  intros Ht HI Hb. unfold handle. wp_step. wp_call handle_validated_spec; [|done..].
  intros acts e' [I Bk S A H]. do 3 wp_step. split; try done.
  apply (Inv_frame e'); try done. apply I.
Qed.
End Events.

(** * Reachable states *)

Section Reachable.
Context {NL : IpNetLib} {MI : MetricImpl} {HO : HashOrder} {B : Build}.
Context (release : overflow_checks = false).

Lemma new_Inv cfg e : Engine_try_new cfg = Ok e -> Inv e /\ backed e.
Proof.
  unfold Engine_try_new. intros (u & _ & H)%result_bind_Ok. injection H as <-. split.
  - split; simpl; try (intros *; rewrite lookup_empty; done); [rewrite map_size_empty; lia..|].
    rewrite !dom_empty_L. split_and!; set_solver.
  - intros k s. simpl. by rewrite lookup_empty.
Qed.

Lemma try_handle_spec event e :
  in_u64 (event_time event) -> Inv e -> backed e ->
  exists r e', try_handle event e = Some (r, e') /\
    match r with
    | Ok acts => validate_event event = Ok tt /\ event_ok (event_time event) e e' acts
    | Err err => validate_event event = Err err /\ e' = e
    end.
Proof.
  intros Hn HI Hb. unfold try_handle. destruct (validate_event event) as [[]|err].
  - destruct (handle_spec release (event_time event) Hn event e eq_refl HI Hb) as (acts & e' & Hh & Hok).
    rewrite Hh. by exists (Ok acts), e'.
  - by exists (Err err), e.
Qed.

End Reachable.

Section Runs.
Context {NL : IpNetLib} {MI : MetricImpl} {B : Build}.
Context (release : overflow_checks = false).

Lemma reachable_Inv e : reachable e -> Inv e /\ backed e.
Proof.
  induction 1 as [cfg e H|order e event r e' _ [HI Hb] Hn H]; [by eapply new_Inv|].
  destruct (try_handle_spec release event e Hn HI Hb) as (r1 & e1 & H1 & Hr). simplify_eq.
  destruct r; [by destruct Hr as [_ []]|by destruct Hr as [_ ->]].
Qed.

Lemma run_reachable {HO : HashOrder} events e rs e' :
  reachable e -> Forall (fun ev => in_u64 (event_time ev)) events -> run events e = Some (rs, e') -> reachable e'.
Proof.
  revert e rs. induction events as [|ev events IH]; intros e rs Hr Hev Hrun; simpl in Hrun; [by simplify_eq|].
  apply list.Forall_cons in Hev as [Hev Hevs].
  apply bind_Some in Hrun as ([r e1] & H1 & H2). apply bind_Some in H2 as ([rs' e2] & H2 & H3). simplify_eq.
  eapply IH; [|done|exact H2]. by eapply (reach_step _).
Qed.
End Runs.
