(* ===== verification/Demo.v ===== *)
(** A concrete engine: the parameters instantiated, and a short run in which a
    neighbour is met, a route learned from it and another originated. *)
From S2P Require Import Prelude Net Model Metric Wire Api EngineState Output Engine Invariant EngineSpec.
Import Hello.
Local Open Scope Z_scope.

Definition demo_net : IpNetLib := ipnet_model.
Definition demo_libm : Libm := fun a _ => a.
Definition demo_metrics : MetricImpl := @builtin_metrics demo_libm.
Definition demo_order : HashOrder := enum_order.
Definition release_build : Build := false.
Definition debug_build : Build := true.

#[local] Existing Instance demo_net.
#[local] Existing Instance demo_metrics.
#[local] Existing Instance demo_order.

Definition demo_v4_key (a b c d plen : Z) : option RouteKey :=
  p ← v4net_new (ipv4 a b c d) plen; RouteKey_new (NetV4 p) None.
(** Learned from the neighbour, and originated here. *)
Definition learned_key : option RouteKey := demo_v4_key 10 1 0 0 16.
Definition local_key : option RouteKey := demo_v4_key 10 2 0 0 16.
Definition own_id : option RouterId := RouterId_new (arr_of_list 8 [b8 1; b8 1]).
Definition peer_id : option RouterId := RouterId_new (arr_of_list 8 [b8 2; b8 2]).
Definition own_address : IpAddr := IpV6 (ipv6 [0xfe80; 0; 0; 0; 0; 0; 0; 1]).
Definition peer_address : IpAddr := IpV6 (ipv6 [0xfe80; 0; 0; 0; 0; 0; 0; 2]).
Definition demo_profile : option MetricProfile := PWired <$> WiredMetric_default.

Definition learned_update (metric : Z) : Tlv :=
  TUpdate {| ru_key := learned_key; ru_router_id := peer_id; ru_next_hop := Some peer_address;
             ru_interval_cs := 1600; ru_seqno := 7; ru_metric := metric;
             ru_v4_via_v6 := true; ru_sub_tlvs := [] |}.

Definition peer_packet (seqno metric : Z) : Packet := MkPacket
  [THello false seqno 400 []; TIhu None 96 1200 []; learned_update metric].

(** The events of the run; empty when a constant is malformed. *)
Definition demo_events : list Event :=
  match local_key with
  | Some key =>
      [InterfaceUp "eth0" [own_address] 1000;
       PacketReceived "eth0" peer_address (peer_packet 1 96) 1200;
       Originate key 0 1300;
       PacketReceived "eth0" peer_address (peer_packet 2 96) 5200;
       Tick 6000]
  | None => []
  end.

Definition demo_config : option EngineConfig :=
  id ← own_id; profile ← demo_profile; Some (recommended profile id).

Definition demo_engine : option Engine :=
  c ← demo_config; match Engine_try_new c with Ok e => Some e | Err _ => None end.

Definition demo_run (B : Build) (events : list Event)
  : option (list (result ConfigError (list Action)) * Engine) :=
  e ← demo_engine; run events e.

Lemma demo_engine_reachable (B : Build) e : demo_engine = Some e -> reachable e.
Proof.
  intros (c & _ & H)%bind_Some. destruct (Engine_try_new c) eqn:E; [|done]. simplify_eq. by eapply reach_new.
Qed.

Lemma demo_reachable (B : Build) events rs e :
  Forall (fun ev => in_u64 (event_time ev)) events -> demo_run B events = Some (rs, e) -> reachable e.
Proof.
  intros He (e0 & H0 & Hr)%bind_Some. eapply run_reachable; [|done|exact Hr].
  by eapply demo_engine_reachable.
Qed.

Lemma demo_events_typed : Forall (fun ev => in_u64 (event_time ev)) demo_events.
Proof.
  unfold demo_events. destruct local_key; [|constructor]. unfold in_u64, u64_max.
  repeat (apply Forall_cons_iff; split; [simpl; lia|]). by apply List.Forall_nil.
Qed.

(** What the run leaves behind, and that it does not panic. *)
Definition demo_state : option Engine := snd <$> demo_run release_build demo_events.

Lemma demo_state_reachable e : demo_state = Some e -> reachable (B := release_build) e.
Proof.
  intros ([rs e'] & H & ->)%fmap_Some. by eapply demo_reachable; [apply demo_events_typed|].
Qed.

(** A computation that was evaluated to a result has one. *)
Definition succeeds {A} (o : option A) : bool := match o with Some _ => true | None => false end.

Lemma succeeds_Some {A} (o : option A) : succeeds o = true -> exists a, o = Some a.
Proof. destruct o as [a|]; [by exists a|done]. Qed.

Lemma demo_state_some : exists e, demo_state = Some e.
Proof. apply succeeds_Some. vm_compute. reflexivity. Qed.

(** The state, the learned key and the route selected for it. *)
Lemma demo_route : exists e k s,
  demo_state = Some e /\ learned_key = Some k /\ selected e !! k = Some s.
Proof.
  assert (succeeds (e ← demo_state; k ← learned_key; selected e !! k) = true) as H
    by (vm_compute; reflexivity).
  apply succeeds_Some in H as (s & (e & He & (k & Hk & Hs)%bind_Some)%bind_Some).
  exists e, k, s. exact (conj He (conj Hk Hs)).
Qed.

(** One more event on top of the run. *)
Definition demo_step (event : Event) : option (Engine * list Action * Engine) :=
  e ← demo_state;
  match try_handle (B := release_build) event e with
  | Some (Ok acts, e') => Some (e, acts, e')
  | _ => None
  end.

Lemma demo_step_spec event e acts e' :
  demo_step event = Some (e, acts, e') ->
  reachable (B := release_build) e /\ try_handle (B := release_build) event e = Some (Ok acts, e').
Proof.
  unfold demo_step. destruct demo_state as [e0|] eqn:H0; simpl; [|discriminate]. intros H.
  destruct (try_handle event e0) as [[[acts0|] e1]|] eqn:E; [|discriminate H..]. apply (inj Some), pair_equal_spec in H as [[-> ->]%pair_equal_spec ->].
  split; [exact (demo_state_reachable _ H0)|exact E].
Qed.

(** The first finite update among some actions. *)
Definition finite_update (acts : list Action)
  : option (string * IpAddr * OutboundPacket * SendTiming * OutboundUpdate) :=
  find_map (fun a =>
    match a with
    | Send i dest packet timing =>
        find_map (fun tlv =>
          match tlv with
          | OUpdate u => if finite u then Some (i, dest, packet, timing, u) else None
          | _ => None
          end) (out_tlvs packet)
    | _ => None
    end) acts.

Lemma finite_update_spec acts i dest packet timing u :
  finite_update acts = Some (i, dest, packet, timing, u) ->
  Send i dest packet timing ∈ acts /\ OUpdate u ∈ out_tlvs packet /\ ou_metric u <> INFINITY.
Proof.
  intros (a & Ha & H)%find_map_Some. destruct a as [|i' dest' packet' timing'| |]; try done.
  apply find_map_Some in H as (tlv & Ht & H). destruct tlv; try done.
  destruct (finite _) eqn:E; [|done].
  apply (inj Some), pair_equal_spec in H
    as [[[[-> ->]%pair_equal_spec ->]%pair_equal_spec ->]%pair_equal_spec ->].
  split; [exact Ha|]. split; [exact Ht|].
  unfold finite in E. by apply negb_true_iff, Z.eqb_neq in E.
Qed.

Lemma tick_u64 t : 0 <= t <= u64_max -> in_u64 (event_time (Tick t)).
Proof. done. Qed.
