(* ===== verification/EngineTheorems.v ===== *)
(** What holds of every engine that was created with [try_new] and fed events:
    it does not panic, its RIB is sound, its tables stay within their limits, and the
    host that follows the actions knows the RIB. *)
From S2P Require Import Prelude Net Model Metric Wire Api EngineState Deadlines Sources Output Rib Neighbors Timers Engine OutputSpec Invariant AdmissionSpec SelectionSpec ReceiveSpec TimersSpec EngineSpec Demo.
Import Hello.
Local Open Scope Z_scope.

Section Theorems.
Context {NL : IpNetLib} {MI : MetricImpl} {HO : HashOrder} {B : Build}.

(** C2. [try_handle] never panics in a build without overflow checks: every event
    of a reachable engine has a result; a rejected event leaves the engine as it
    was, and the next state is reachable again. *)
Theorem engine_never_panics e event :
  overflow_checks = false -> reachable e -> in_u64 (event_time event) ->
  exists r e', try_handle event e = Some (r, e') /\ reachable e' /\
    forall err, (r = Err err <-> validate_event event = Err err) /\ (r = Err err -> e' = e).
Proof.
  intros Hrel Hr Hn. destruct (reachable_Inv Hrel e Hr) as [HI Hb].
  destruct (try_handle_spec Hrel event e Hn HI Hb) as (r & e' & H & Hres).
  exists r, e'. split; [done|]. split; [by eapply (reach_step _)|]. intros err.
  destruct r as [acts|err']; destruct Hres as [Hv He]; rewrite Hv; [by split; [split|]|].
  split; [split; congruence|done].
Qed.

(** C4. Every selected route of a reachable engine is carried, field by field, by a
    candidate of a known neighbour on an existing interface: its metric is finite
    and strictly larger than the metric that neighbour advertised, the import
    policy in force admits it, it does not originate here, and its destination is
    not at the same time reported unreachable. *)
Theorem selected_routes_sound e k s :
  overflow_checks = false -> reachable e -> selected e !! k = Some s ->
  exists n c, candidates e !! (k, n) = Some c /\ s = selected_from_candidate c /\
    is_Some (neighbours e !! n) /\ is_Some (interfaces e !! nk_interface n) /\
    sr_key s = k /\ sr_interface s = nk_interface n /\ sr_router_id s <> cfg_router_id (config e) /\
    c_advertised_metric c < sr_metric s < INFINITY /\
    accept (cfg_route_policy (config e))
      (import_context k n (sr_next_hop s) (sr_router_id s) (sr_seqno s) (c_advertised_metric c)) = true /\
    tombstones e !! k = None.
Proof.
  intros Hrel Hr Hs. destruct (reachable_Inv Hrel e Hr) as [HI Hb].
  destruct (Hb k s Hs) as (n & c & Hc & ->). exists n, c.
  destruct (inv_selected _ HI _ _ Hs) as [S1 S2 S3 S4]. destruct (inv_candidates _ HI _ _ _ Hc) as [C1 C2 C3 C4 C5 C6].
  destruct (inv_known _ HI _ _ _ Hc) as [nb Hn]. destruct (inv_neighbours _ HI _ _ Hn) as [_ _ N3].
  simpl in *. destruct C5 as [C5|[C5 C5']]; [lia|]. rewrite C1 in *. split_and!; try done; eauto.
Qed.

(** C10. Tables stay within the configured limits, and each neighbour's counter is the
    number of candidates it has. *)
Theorem resource_limits_hold e :
  overflow_checks = false -> reachable e ->
  (size (neighbours e) <= max_neighbors (cfg_limits (config e)))%nat /\
  (size (candidates e) <= max_candidates (cfg_limits (config e)))%nat /\
  (forall n nb, neighbours e !! n = Some nb ->
     nb_candidates nb = size (filter (fun k => k.2 = n) (dom (candidates e))) /\
     (nb_candidates nb <= max_candidates_per_neighbor (cfg_limits (config e)))%nat) /\
  (forall k n, is_Some (candidates e !! (k, n)) -> is_Some (neighbours e !! n)).
Proof.
  intros Hrel Hr. destruct (reachable_Inv Hrel e Hr) as [HI _]. destruct HI as [IC IK IN MN MC IS IW IO IP].
  split_and!; try done.
  - intros n nb Hn. by destruct (IN n nb Hn).
  - intros k n [c Hc]. eauto.
Qed.

(** ** The host *)

Definition run_actions (rs : list (result ConfigError (list Action))) : list Action :=
  concat (map (fun r => match r with Ok acts => acts | Err _ => [] end) rs).

Lemma run_host events e rs e' :
  overflow_checks = false -> Inv e -> backed e -> Forall (fun ev => in_u64 (event_time ev)) events ->
  run events e = Some (rs, e') -> host_run (run_actions rs) (host_of e) = Some (host_of e').
Proof.
  intros Hrel. revert e rs. induction events as [|ev events IH]; intros e rs HI Hb Hev Hrun; simpl in Hrun.
  { by simplify_eq. }
  apply list.Forall_cons in Hev as [Hev Hevs].
  apply bind_Some in Hrun as ([r e1] & H1 & H2). apply bind_Some in H2 as ([rs' e2] & H2 & H3). simplify_eq.
  destruct (try_handle_spec Hrel ev e Hev HI Hb) as (r1 & e1' & H & Hres). simplify_eq.
  unfold run_actions. simpl. rewrite host_run_app. destruct r as [acts|err].
  - destruct Hres as [_ [I1 B1 _ _ Hh]]. rewrite Hh. simpl. by apply IH.
  - destruct Hres as [_ ->]. simpl. by apply IH.
Qed.

(** C3. The host refinement: a host that starts empty and replaces its routes at
    every [RoutesChanged] and its sequence number at every
    [SequenceNumberChanged] always knows exactly the engine's RIB, generation
    and sequence number; the generations it is given are consecutive and the
    sequence number advances one by one, so nothing is skipped or repeated. *)
Theorem host_follows_engine cfg e0 events rs e :
  overflow_checks = false -> Engine_try_new cfg = Ok e0 ->
  Forall (fun ev => in_u64 (event_time ev)) events -> run events e0 = Some (rs, e) ->
  host_run (run_actions rs) (MkHost [] [] 0 (cfg_sequence_number cfg)) = Some (host_of e).
Proof.
  intros Hrel Hnew Hev Hrun. destruct (new_Inv cfg e0 Hnew) as [HI Hb].
  replace (MkHost [] [] 0 (cfg_sequence_number cfg)) with (host_of e0); [by eapply run_host|].
  unfold Engine_try_new in Hnew. apply result_bind_Ok in Hnew as (u & _ & H). by injection H as <-.
Qed.
End Theorems.

(** * Witnesses *)

#[local] Existing Instance demo_net.
#[local] Existing Instance demo_metrics.
#[local] Existing Instance demo_order.
#[local] Existing Instance release_build.

Lemma engine_never_panics_witness :
  exists e r e', demo_state = Some e /\ try_handle (Tick 7000) e = Some (r, e') /\ reachable e' /\
    exists acts, r = Ok acts.
Proof.
  destruct demo_state_some as [e E].
  destruct (engine_never_panics e (Tick 7000) eq_refl (demo_state_reachable e E)) as (r & e' & H & Hr & He).
  - unfold in_u64, u64_max. simpl. lia.
  - exists e, r, e'. split_and!; [exact E|exact H|exact Hr|]. destruct r as [acts|err]; [by exists acts|].
    destruct (He err) as [[H1 _] _]. discriminate (H1 eq_refl).
Defined.

Lemma selected_routes_sound_witness :
  exists e k s, demo_state = Some e /\ selected e !! k = Some s /\ s.(sr_metric) < INFINITY /\
    exists n, is_Some (candidates e !! (k, n)).
Proof.
  destruct demo_route as (e & k & s & E & _ & Hs).
  destruct (selected_routes_sound e k s eq_refl (demo_state_reachable e E) Hs)
    as (n & c & Hc & _ & _ & _ & _ & _ & _ & Hm & _).
  exists e, k, s. split_and!; [exact E|exact Hs|lia|]. exists n. by exists c.
Defined.

Lemma resource_limits_hold_witness :
  exists e, demo_state = Some e /\ (size (neighbours e) <= 256)%nat /\ size (candidates e) = 1%nat.
Proof.
  destruct demo_state_some as [e E].
  destruct (resource_limits_hold e eq_refl (demo_state_reachable e E)) as (H & _).
  exists e. split; [exact E|].
  assert ((fun e => (max_neighbors (cfg_limits (config e)), size (candidates e))) <$> demo_state
          = Some (256%nat, 1%nat)) as Hd by (vm_compute; reflexivity).
  rewrite E in Hd. simpl in Hd. injection Hd as H1 H2. rewrite H1 in H. split; [exact H|exact H2].
Defined.

Lemma host_follows_engine_witness :
  exists cfg e0 rs e, demo_config = Some cfg /\ Engine_try_new cfg = Ok e0 /\
    run demo_events e0 = Some (rs, e) /\
    host_run (run_actions rs) (MkHost [] [] 0 (cfg_sequence_number cfg)) = Some (host_of e).
Proof.
  assert (succeeds (demo_run release_build demo_events) = true) as H by (vm_compute; reflexivity).
  apply succeeds_Some in H as ([rs e] & (e0 & (cfg & Hc & H0)%bind_Some & Hr)%bind_Some).
  destruct (Engine_try_new cfg) as [e1|] eqn:En; [|discriminate H0]. apply (inj Some) in H0 as ->.
  exists cfg, e0, rs, e. split_and!; [exact Hc|exact En|exact Hr|].
  exact (host_follows_engine cfg e0 demo_events rs e eq_refl En demo_events_typed Hr).
Defined.
