(* ===== verification/SelectionTheorems.v ===== *)
(** Route selection as a whole: what [reselect] selects and when a route is
    switched; sequence-number requests, their forwarding and retries, and the
    bookkeeping of what neighbours were told. *)
From S2P Require Import Prelude Net Model Metric Wire Api EngineState Sources Output Rib Neighbors Timers Engine OutputSpec Invariant AdmissionSpec SelectionSpec ReceiveSpec EngineSpec Demo.
Import Hello.
Local Open Scope Z_scope.

(** Run a straight-line computation. *)
Ltac run_monad := cbv beta iota delta [mbind M_bind mret M_ret gets modify expect panic].

Section Selection.
Context {NL : IpNetLib} {MI : MetricImpl} {HO : HashOrder}.

(** C6. [reselect] is total and selects correctly: afterwards a destination has a
    route exactly if some candidate for it was reachable and feasible (or carried
    the route already selected), the route is such a candidate, a route that was
    not selected before satisfies the feasibility condition against the source
    table, and a destination that lost its route is held unreachable at least for
    3.5 times the longest update interval and for as long as a neighbour may
    still believe an earlier advertisement. *)
Theorem reselect_correct now e :
  in_u64 now -> Inv e ->
  exists acts e', reselect now e = Some (acts, e') /\ Inv e' /\
    (forall k, is_Some (selected e' !! k) <->
       exists n c, candidates e !! (k, n) = Some c /\ c_metric c < INFINITY /\
         candidate_is_feasible e c = true) /\
    (forall k s, selected e' !! k = Some s ->
       exists n c, candidates e !! (k, n) = Some c /\ s = selected_from_candidate c /\
         (retained_selected e c = true \/ meets_feasibility e c = true)) /\
    (forall k, is_Some (selected e !! k) -> selected e' !! k = None ->
       exists d, tombstones e' !! k = Some d /\
         saturating_add64 now (longest_update_interval e * 35) <= d /\
         default 0 (advertised_until e !! k) <= d).
Proof.
  intros Hn HI. destruct (reselect_spec now Hn e HI) as (acts & e' & H & [Hst _ _ _ Hs Hc Hl _]).
  exists acts, e'. split; [done|]. split; [by destruct Hst|]. split_and!; [| |done].
  - intros k. split.
    + intros [s Hk]. destruct (Hs k s Hk) as (n & c & Hn' & Hu & _). exists n, c. split; [done|].
      unfold usable in Hu. apply andb_true_iff in Hu as [Hu1%Z.ltb_lt Hu2]. done.
    + intros (n & c & Hn' & Hm & Hf). eapply Hc; [done|]. unfold usable. rewrite Hf, andb_true_r. by apply Z.ltb_lt.
  - intros k s Hk. destruct (Hs k s Hk) as (n & c & Hn' & Hu & ->). exists n, c. split_and!; [done..|].
    unfold usable, candidate_is_feasible in Hu. apply andb_true_iff in Hu as [_ Hu]. by apply orb_true_iff in Hu.
Qed.

(** ** Switching *)

Lemma check_settled_state key now e b e' :
  check_settled key now e = Some (b, e') ->
  pending_switches e' = pending_switches e /\ config e' = config e /\ (key ∈ settled_routes e -> b = true).
Proof.
  unfold check_settled. run_monad. case_bool_decide; [intros [= <- <-]; done|].
  case_match; intros [= <- <-]; done.
Qed.

Lemma observe_switch_target p best current now :
  let q := observe_switch p best current now in
  sw_router_id q = c_router_id best /\ sw_next_hop q = c_next_hop best /\ sw_interface q = c_interface best.
Proof.
  unfold observe_switch. cbn [sw_router_id sw_next_hop sw_interface].
  destruct (_ || _) eqn:E; [done|]. rewrite !orb_false_iff, !bool_decide_eq_false in E.
  destruct E as [[E1 E2] E3]. split_and!; by apply dec_stable.
Qed.

(** The dwell of a switch started when its target was first observed. *)
Lemma observe_switch_since p best current now :
  let q := observe_switch p best current now in
  since_ms q = now \/
  exists p0, p = Some p0 /\ since_ms q = since_ms p0 /\ sw_router_id p0 = c_router_id best /\
    sw_next_hop p0 = c_next_hop best /\ sw_interface p0 = c_interface best.
Proof.
  pose proof (observe_switch_target p best current now) as Ht. unfold observe_switch in *.
  cbn [since_ms sw_router_id sw_next_hop sw_interface] in *. destruct p as [p0|]; simpl in *.
  - destruct (_ || _); simpl in *; [by left|]. right. exists p0. naive_solver.
  - left. by case_match.
Qed.

Definition switch_ready (e : Engine) (key : RouteKey) (now : Z) (c : Candidate) : Prop :=
  better_for_ms (route_selection (config e)) <= 0 \/
  exists p, pending_switches e !! key = Some p /\ sw_router_id p = c_router_id c /\
    sw_next_hop p = c_next_hop c /\ sw_interface p = c_interface c /\
    better_for_ms (route_selection (config e)) <= saturating_sub now (since_ms p).

Lemma dwell_on_switch_ready key best current now e c e' :
  dwell_on_switch key best current now e = Some (c, e') -> c = current \/ (c = best /\ switch_ready e key now best).
Proof.
  unfold dwell_on_switch, keep_switch, forget_switch. run_monad. set (q := observe_switch _ _ _ _). case_match; [intros [= <- <-]; by left|].
  destruct (Z.leb_spec (better_for_ms (route_selection (config e))) (saturating_sub now (since_ms q))) as [Hr|_];
    intros [= <- <-]; [|by left].
  right. split; [done|].
  pose proof (observe_switch_since (pending_switches e !! key) best current now) as Hq. fold q in Hq. cbv zeta in Hq.
  destruct Hq as [E|(p0 & E1 & E2 & E3)].
  - left. rewrite E in Hr. unfold saturating_sub in Hr. lia.
  - right. exists p0. rewrite E2 in Hr. naive_solver.
Qed.

(** C7. A route is replaced only by a better one, and a settled one not before its
    time: when the current route is still usable, the choice is either that route
    or one with the least metric of all, better by both configured margins; for a
    settled destination the same switch must have been pending, uninterrupted,
    for the configured dwell time.  Without a usable current route the least
    metric wins at once. *)
Theorem route_switch_hysteresis before key routes now e c e' :
  choose_route before key routes now e = Some (c, e') ->
  c ∈ routes /\
  match current_candidate before routes with
  | None => forall r, r ∈ routes -> c_metric c <= c_metric r
  | Some current =>
      c = current \/
      ((forall r, r ∈ routes -> c_metric c <= c_metric r) /\
       metric_improvement_is_significant (c_metric c) (c_metric current) (route_selection (config e)) = true /\
       (key ∈ settled_routes e -> switch_ready e key now c))
  end.
Proof.
  unfold choose_route, forget_switch, restart_settling. run_monad. intros H.
  destruct (check_settled key now e) as [[settled e1]|] eqn:Es; [|done].
  apply check_settled_state in Es as (Hp & Hcf & Hset).
  destruct (min_by candidate_order routes) as [best|] eqn:Eb; [|done].
  apply best_spec in Eb as [Hin Hmin]. rewrite Hcf in H.
  destruct (current_candidate before routes) as [cur|] eqn:Ec.
  - apply current_spec in Ec. destruct (same_candidate best cur || _) eqn:E1.
    { injection H as <- _. auto. }
    apply orb_false_iff in E1 as [_ E1%negb_false_iff]. destruct settled; simpl in H.
    + apply dwell_on_switch_ready in H as [->|[-> Hr]]; [auto|]. split; [done|]. right. split_and!; [done..|].
      intros _. unfold switch_ready in *. by rewrite Hcf, Hp in Hr.
    + injection H as <- _. split; [done|]. right. split_and!; [done..|]. intros Hk. by specialize (Hset Hk).
  - destruct settled; injection H as <- _; auto.
Qed.

(** The two margins: an improvement is significant exactly if it is positive,
    at least the absolute margin, and at least the percentage of the worse
    metric; no 16-bit operand wraps. *)
Theorem improvement_margins better_metric worse_metric policy :
  in_u16 better_metric -> in_u16 worse_metric -> 0 <= switch_margin_percent policy <= 100 ->
  metric_improvement_is_significant better_metric worse_metric policy = true <->
  better_metric < worse_metric /\ switch_margin_metric policy <= worse_metric - better_metric /\
  worse_metric * switch_margin_percent policy <= 100 * (worse_metric - better_metric).
Proof.
  unfold in_u16, metric_improvement_is_significant, saturating_sub. intros Hb Hw Hp.
  rewrite andb_true_iff, Z.leb_le, Z.ltb_lt. set (q := div_ceil (worse_metric * switch_margin_percent policy) 100).
  assert (forall c, q <= c <-> worse_metric * switch_margin_percent policy <= c * 100) as Hq
    by (intros c; apply div_ceil_least; lia).
  assert (q <= u16_max) as Hm by (apply Hq; unfold u16_max; nia).
  rewrite (Z.min_l q) by done. specialize (Hq (worse_metric - better_metric)). lia.
Qed.
End Selection.

(** * Witnesses *)

#[local] Existing Instance demo_net.
#[local] Existing Instance demo_metrics.
#[local] Existing Instance demo_order.
#[local] Existing Instance release_build.

Lemma reselect_correct_witness :
  exists e acts e' k, demo_state = Some e /\ reselect 8000 e = Some (acts, e') /\ is_Some (selected e' !! k).
Proof.
  destruct demo_route as (e & k & s & E & _ & Hs).
  destruct (reachable_Inv eq_refl e (demo_state_reachable e E)) as [HI Hb].
  assert (in_u64 8000) as Hn by (unfold in_u64, u64_max; lia).
  destruct (reselect_correct 8000 e Hn HI) as (acts & e' & H & _ & Hiff & _).
  exists e, acts, e', k. split; [exact E|]. split; [exact H|]. apply Hiff.
  destruct (Hb k s Hs) as (n & c & Hc & Hsc). exists n, c. split; [exact Hc|].
  destruct (inv_selected _ HI _ _ Hs) as [_ Hf _ _]. rewrite Hsc in Hf. split; [exact Hf|].
  unfold candidate_is_feasible, retained_selected.
  rewrite (co_key _ _ _ _ (inv_candidates _ HI _ _ _ Hc)), Hs, Hsc. unfold same_route. simpl.
  rewrite !bool_decide_true by reflexivity. reflexivity.
Defined.

(** The demonstration's own candidate, chosen while it is the selected route. *)
Lemma route_switch_hysteresis_witness :
  exists e k c e', demo_state = Some e /\ learned_key = Some k /\
    choose_route (selected e !! k) k (hm_iter (candidates e)).*2 8000 e = Some (c, e') /\
    c ∈ (hm_iter (candidates e)).*2.
Proof.
  assert (succeeds (e ← demo_state; k ← learned_key;
    choose_route (selected e !! k) k (hm_iter (candidates e)).*2 8000 e) = true) as H by (vm_compute; reflexivity).
  apply succeeds_Some in H as ([c e'] & (e & He & (k & Hk & H)%bind_Some)%bind_Some).
  exists e, k, c, e'. split; [exact He|]. split; [exact Hk|]. split; [exact H|].
  exact (proj1 (route_switch_hysteresis (selected e !! k) k (hm_iter (candidates e)).*2 8000 e c e' H)).
Defined.

Lemma improvement_margins_witness :
  metric_improvement_is_significant 90 100 default_route_selection = true /\
  metric_improvement_is_significant 95 100 default_route_selection = false.
Proof.
  split.
  - apply (improvement_margins 90 100 default_route_selection); unfold in_u16; simpl; lia.
  - apply not_true_iff_false. intros H.
    apply (improvement_margins 95 100 default_route_selection) in H; unfold in_u16 in *; simpl in *; lia.
Defined.

(** * Sequence-number requests *)

Section Requests.
Context {NL : IpNetLib} {MI : MetricImpl} {HO : HashOrder} {B : Build}.

(** A request for a route originated here and not otherwise reachable advances
    the sequence number by exactly one if the requested number is newer, however
    far ahead it is, and by nothing otherwise; all origins then carry the current
    number, and only this number changed among the engine's own data. *)
Theorem own_request_single_increment requester key seqno hops now e o :
  in_u64 now -> Inv e -> originated e !! key = Some o -> selected e !! key = None ->
  exists acts e', handle_seqno_request requester key seqno hops (cfg_router_id (config e)) now e = Some (acts, e') /\
    sequence_number e' =
      (if seqno_gt seqno (sequence_number e) then wrapping_add16 (sequence_number e) 1 else sequence_number e) /\
    (forall k, originated e' !! k = (fun o => MkOriginated (o_metric o) (sequence_number e')) <$> originated e !! k) /\
    candidates e' = candidates e /\ selected e' = selected e /\
    (SequenceNumberChanged (sequence_number e') ∈ acts <-> sequence_number e' <> sequence_number e).
Proof.
  intros Hn HI Ho Hs. pose proof (inv_origins _ HI _ _ Ho) as Hseq.
  assert (originated e = (fun o => MkOriginated (o_metric o) (sequence_number e)) <$> originated e) as Hsame.
  { apply map_eq. intros k. rewrite lookup_fmap. destruct (originated e !! k) as [[m q]|] eqn:E; [|done].
    apply (inv_origins _ HI) in E. simpl in *. by subst. }
  enough (wp (handle_seqno_request requester key seqno hops (cfg_router_id (config e)) now)
    (fun acts e' => sequence_number e' =
      (if seqno_gt seqno (sequence_number e) then wrapping_add16 (sequence_number e) 1 else sequence_number e) /\
     originated e' = (fun o => MkOriginated (o_metric o) (sequence_number e')) <$> originated e /\
     candidates e' = candidates e /\ selected e' = selected e /\
     (SequenceNumberChanged (sequence_number e') ∈ acts <-> sequence_number e' <> sequence_number e)) e)
    as (acts & e' & H & H1 & H2 & H3).
  { exists acts, e'. split; [done|]. split; [done|]. split; [|done]. intros k. by rewrite H2, lookup_fmap. }
  unfold handle_seqno_request. do 6 wp_step. rewrite Ho, Hs.
  rewrite (bool_decide_false (_ <> _)) by (by intros []). rewrite andb_false_r.
  rewrite bool_decide_true by done. unfold answer_own_request, bump_sequence_number. rewrite Hseq. wp_step.
  assert (forall acts e' e'', output_step now e' e'' -> sends_ok now e'' acts ->
    sequence_number e'' = sequence_number e' /\ originated e'' = originated e' /\
    candidates e'' = candidates e' /\ selected e'' = selected e' /\ forall q, SequenceNumberChanged q ∉ acts) as Hout.
  { intros acts e' e'' [F _] [_ Hq]. split_and!; [exact (f_equal sequence_number F)|exact (f_equal originated F)
      |exact (f_equal candidates F)|exact (f_equal selected F)|].
    intros q Hin. rewrite list.Forall_forall in Hq. by apply Hq in Hin. }
  wp_if.
  - do 4 wp_step. wp_call send_updates_spec; [|done]. intros acts e' [Ho' Hs']. wp_step.
    destruct (Hout acts _ _ Ho' Hs') as (-> & -> & -> & -> & Hno). simpl. split_and!; try done.
    split; [|intros _; by left]. intros _. unfold wrapping_add16. Z.div_mod_to_equations. lia.
  - do 2 wp_step. wp_call send_updates_spec; [|done]. intros acts e' [Ho' Hs']. wp_step.
    destruct (Hout acts _ _ Ho' Hs') as (-> & -> & -> & -> & Hno). simpl. split_and!; try done.
    split; [|done]. intros H. by apply Hno in H.
Qed.

(** Forwarding: a request is passed on at most once, one hop shorter, to a
    neighbour other than the requester that has announced that very source, and
    only if no request at least as new is outstanding or recently satisfied; it is
    then remembered with its requester.  Otherwise nothing happens at all. *)
Theorem request_forwarding requester key seqno hops id now e acts e' :
  forward_seqno_request requester key seqno hops id now e = Some (acts, e') ->
  (acts = [] /\ e' = e) \/
  exists n c, candidates e !! (key, n) = Some c /\ c_router_id c = id /\ n <> requester /\ 1 < hops /\
    acts = [seqno_request_action key id seqno (hops - 1) n now] /\
    (forall p, pending_seqno e !! (key, id) = Some p -> pq_seqno p <> seqno /\ seqno_gt (pq_seqno p) seqno = false) /\
    (forall recent expires, recent_seqno e !! (key, id) = Some (recent, expires) -> now <= expires ->
       recent <> seqno /\ seqno_gt recent seqno = false) /\
    e' = set_pending_seqno (<[(key, id) := MkPendingSeqnoRequest seqno (hops - 1) n (Some requester)
           REQUEST_RETRIES (saturating_add64 now REQUEST_RETRY_INITIAL_MS)]> (pending_seqno e)) e.
Proof.
  unfold forward_seqno_request, originate_seqno_request. run_monad.
  destruct (Z.leb_spec hops 1) as [|Hh]; [intros [= <- <-]; auto|].
  destruct (match pending_seqno e !! (key, id) with Some _ => _ | None => _ end) eqn:Ep; [intros [= <- <-]; auto|].
  destruct (match recent_seqno e !! (key, id) with Some _ => _ | None => _ end) eqn:Er; [intros [= <- <-]; auto|].
  destruct (forward_target e requester key id) as [n|] eqn:Et; [|intros [= <- <-]; auto].
  intros [= <- <-]. right.
  unfold forward_target in Et. apply fmap_Some in Et as ([[k n'] c] & Hm & ->). simpl.
  assert (((k, n'), c) ∈ List.filter (fun '((candidate_key, neighbour), candidate) =>
         bool_decide (candidate_key = key) && bool_decide (c_router_id candidate = id)
         && bool_decide (neighbour <> requester)) (hm_iter (candidates e))) as Hin.
  { apply (min_by_least _ (fun _ => 0)) in Hm as [Hm _]; [exact Hm|done|done]. }
  apply elem_of_filter_bool in Hin as [Hin Hf]. apply hm_iter_lookup in Hin.
  rewrite !andb_true_iff, !bool_decide_eq_true in Hf. destruct Hf as [[-> Hid] Hne].
  exists n', c. split_and!; try done.
  - intros p Hp. rewrite Hp in Ep. apply orb_false_iff in Ep as [Ep1%Z.eqb_neq Ep2]. done.
  - intros recent expires Hr Hx. rewrite Hr in Er. rewrite (proj2 (Z.leb_le _ _) Hx) in Er.
    apply orb_false_iff in Er as [Er1%Z.eqb_neq Er2]. done.
Qed.

(** Retries: a due request whose retries are used up is given up and remembered
    as recent; otherwise it is repeated once, unchanged, one retry is used and
    the wait doubles (4, 8 and 16 seconds after the initial 2). *)
Theorem request_retry_backoff now acts key id p e :
  Inv e -> pending_seqno e !! (key, id) = Some p ->
  retry_request now acts ((key, id), p) e =
  Some (if retries_left p =? 0
        then (acts,
              set_recent_seqno (<[(key, id) := (pq_seqno p, saturating_add64 now RECENT_REQUEST_MS)]> (recent_seqno e))
                (set_pending_seqno (delete (key, id) (pending_seqno e)) e))
        else (acts ++ [seqno_request_action key id (pq_seqno p) (pq_hop_count p) (pq_next_hop p) now],
              set_pending_seqno (<[(key, id) := MkPendingSeqnoRequest (pq_seqno p) (pq_hop_count p) (pq_next_hop p)
                 (pq_requester p) (retries_left p - 1)
                 (saturating_add64 now (2000 * 2 ^ (4 - retries_left p)))]> (pending_seqno e)) e))
  /\ 0 <= retries_left p <= 3.
Proof.
  intros HI Hp. pose proof (inv_pending _ HI _ _ Hp) as [Hr _]. unfold REQUEST_RETRIES in Hr. split; [|lia].
  unfold retry_request. destruct (Z.eqb_spec (retries_left p) 0) as [E|E]; run_monad; [done|].
  rewrite Hp. rewrite (proj2 (Z.eqb_neq _ _) E). run_monad. do 4 f_equal.
  unfold saturating_sub, REQUEST_RETRIES, REQUEST_RETRY_INITIAL_MS, saturating_mul64.
  assert (retries_left p = 1 \/ retries_left p = 2 \/ retries_left p = 3) as [-> |[-> | ->]] by lia; done.
Qed.

(** ** What neighbours were told *)

Lemma note_advertised_ge timing m t k : default 0 (m !! k) <= default 0 (note_advertised timing m t !! k).
Proof.
  unfold note_advertised. destruct t; try done. destruct (ou_key _) as [k'|]; [|done].
  case_match; [|done]. destruct (decide (k' = k)) as [<-|].
  - rewrite lookup_insert, decide_True by done. simpl. lia.
  - by rewrite lookup_insert_ne.
Qed.

Lemma note_packet_ge timing l m k : default 0 (m !! k) <= default 0 (fold_left (note_advertised timing) l m !! k).
Proof.
  revert m. induction l as [|t l IH]; intros m; simpl; [lia|].
  etrans; [apply (note_advertised_ge timing m t k)|apply IH].
Qed.

Lemma note_action_ge m a k : default 0 (m !! k) <= default 0 (note_action m a !! k).
Proof. destruct a; simpl; try lia. apply note_packet_ge. Qed.

Lemma note_actions_ge acts m k : default 0 (m !! k) <= default 0 (fold_left note_action acts m !! k).
Proof.
  revert m. induction acts as [|a acts IH]; intros m; simpl; [lia|].
  etrans; [apply (note_action_ge m a k)|apply IH].
Qed.

Lemma note_packet_noted timing l m u k :
  OUpdate u ∈ l -> finite u = true -> ou_key u = Some k ->
  saturating_add64 (deadline_ms timing) (ou_interval_cs u * 35)
  <= default 0 (fold_left (note_advertised timing) l m !! k).
Proof.
  intros Hin Hf Hk. revert m. induction l as [|t l IH]; intros m; [by apply elem_of_nil in Hin|].
  apply elem_of_cons in Hin as [<-|Hin]; simpl; [|by apply IH].
  etrans; [|apply note_packet_ge]. rewrite Hk, Hf, lookup_insert, decide_True by done. simpl. lia.
Qed.

(** After every event, each finite update it sends is noted: for the longest
    time a neighbour may keep that route, counted from the send deadline, and
    the note never shrinks during the event's own output.  [reselect] and
    withdrawals hold a lost destination at least that long. *)
Theorem advertisements_noted event e acts e' i dest packet timing u k :
  handle event e = Some (acts, e') ->
  Send i dest packet timing ∈ acts -> OUpdate u ∈ out_tlvs packet -> ou_metric u <> INFINITY ->
  ou_key u = Some k ->
  saturating_add64 (deadline_ms timing) (ou_interval_cs u * 35) <= default 0 (advertised_until e' !! k).
Proof.
  unfold handle. run_monad. destruct (handle_validated event e) as [[acts0 e1]|]; [|done]. intros [= <- <-].
  intros Hs Hu Hf Hk. simpl. generalize (advertised_until e1). intros m. revert m.
  assert (finite u = true) as Hfin by (unfold finite; by rewrite (proj2 (Z.eqb_neq _ _) Hf)).
  induction acts0 as [|a l IH]; intros m; [by apply elem_of_nil in Hs|].
  apply elem_of_cons in Hs as [<-|Hs]; simpl; [|by apply IH]. etrans; [|apply note_actions_ge]. by apply note_packet_noted.
Qed.
End Requests.

(** * Witnesses *)

#[local] Existing Instance demo_net.
#[local] Existing Instance demo_metrics.
#[local] Existing Instance demo_order.
#[local] Existing Instance release_build.

Definition demo_peer : NeighborKey := MkNeighborKey "eth0" peer_address.
Definition demo_other : NeighborKey := MkNeighborKey "eth0" own_address.

Lemma own_request_single_increment_witness :
  exists e key o acts e', demo_state = Some e /\ local_key = Some key /\ originated e !! key = Some o /\
    handle_seqno_request demo_peer key 9 64 (cfg_router_id (config e)) 7000 e = Some (acts, e') /\
    sequence_number e' = 1.
Proof.
  assert (succeeds (e ← demo_state; k ← local_key; o ← originated e !! k;
    if bool_decide (selected e !! k = None) && (sequence_number e =? 0) then Some o else None) = true) as H
    by (vm_compute; reflexivity).
  apply succeeds_Some in H as (o' & (e & He & (k & Hk & (o & Ho & H)%bind_Some)%bind_Some)%bind_Some).
  destruct (_ && _) eqn:E in H; [|discriminate H].
  apply andb_true_iff in E as [Hs%bool_decide_eq_true Hq%Z.eqb_eq].
  destruct (reachable_Inv eq_refl e (demo_state_reachable e He)) as [HI _].
  assert (in_u64 7000) as Hn by (unfold in_u64, u64_max; lia).
  destruct (own_request_single_increment demo_peer k 9 64 7000 e o Hn HI Ho Hs) as (acts & e' & Hh & H1 & _).
  exists e, k, o, acts, e'. rewrite Hq in H1.
  split; [exact He|]. split; [exact Hk|]. split; [exact Ho|]. split; [exact Hh|exact H1].
Defined.

Lemma request_forwarding_witness :
  exists e key id acts e', demo_state = Some e /\
    forward_seqno_request demo_other key 9 64 id 7000 e = Some (acts, e') /\ 
    exists n c, candidates e !! (key, n) = Some c /\ n <> demo_other /\
      acts = [seqno_request_action key id 9 63 n 7000].
Proof.
  assert (succeeds (e ← demo_state; k ← learned_key; id ← peer_id;
    r ← forward_seqno_request demo_other k 9 64 id 7000 e; head r.1) = true) as H
    by (vm_compute; reflexivity).
  apply succeeds_Some in H
    as (a & (e & He & (k & Hk & (id & Hi & ([acts e'] & Hf & Ha)%bind_Some)%bind_Some)%bind_Some)%bind_Some).
  destruct (request_forwarding demo_other k 9 64 id 7000 e acts e' Hf) as [[-> _]|(n & c & Hc & _ & Hne & _ & Hacts & _)].
  - discriminate Ha.
  - exists e, k, id, acts, e'. split; [exact He|]. split; [exact Hf|]. exists n, c.
    split; [exact Hc|]. split; [exact Hne|exact Hacts].
Defined.

(** The request the engine forwarded in the previous example, when it is due. *)
Lemma request_retry_backoff_witness :
  exists e e1 key id p, demo_state = Some e /\ pending_seqno e1 !! (key, id) = Some p /\ retries_left p = 3 /\
    retry_request 9000 [] ((key, id), p) e1 =
    Some ([seqno_request_action key id (pq_seqno p) (pq_hop_count p) (pq_next_hop p) 9000],
          set_pending_seqno (<[(key, id) := MkPendingSeqnoRequest (pq_seqno p) (pq_hop_count p) (pq_next_hop p)
             (pq_requester p) 2 13000]> (pending_seqno e1)) e1).
Proof.
  assert (succeeds (e ← demo_state; k ← learned_key; id ← peer_id;
    r ← forward_seqno_request demo_other k 9 64 id 7000 e;
    p ← pending_seqno r.2 !! (k, id); if retries_left p =? 3 then Some p else None) = true) as H
    by (vm_compute; reflexivity).
  apply succeeds_Some in H as (p' & (e & He & (k & Hk & (id & Hi & ([acts e1] & Hf &
    (p & Hp & Hr)%bind_Some)%bind_Some)%bind_Some)%bind_Some)%bind_Some).
  destruct (Z.eqb_spec (retries_left p) 3) as [E|]; [|discriminate Hr].
  destruct (reachable_Inv eq_refl e (demo_state_reachable e He)) as [HI _].
  assert (in_u64 7000) as Hn by (unfold in_u64, u64_max; lia).
  pose proof (wp_run _ _ _ _ _ (forward_seqno_request_spec 7000 demo_other k 9 64 id e HI) Hf) as Ht.
  destruct (request_retry_backoff 9000 [] k id p e1 (tracked_Inv _ _ _ _ _ Ht) Hp) as [Hb _].
  exists e, e1, k, id, p. split; [exact He|]. split; [exact Hp|]. split; [exact E|]. rewrite Hb, E. reflexivity.
Defined.

Lemma advertisements_noted_witness :
  exists e acts e' u k, demo_step (Tick 20000) = Some (e, acts, e') /\ ou_key u = Some k /\
    20000 <= default 0 (advertised_until e' !! k).
Proof.
  assert (succeeds (r ← demo_step (Tick 20000); f ← finite_update r.1.2;
    k ← ou_key f.2; if 20000 <=? saturating_add64 (deadline_ms f.1.2) (ou_interval_cs f.2 * 35) then Some k else None)
    = true) as H by (vm_compute; reflexivity).
  apply succeeds_Some in H as (k' & ([[e acts] e'] & Hd & ([[[[i dest] packet] timing] u] & Hf &
    (k & Hk & Hle)%bind_Some)%bind_Some)%bind_Some).
  simpl in Hk, Hle. destruct (Z.leb_spec 20000 (saturating_add64 (deadline_ms timing) (ou_interval_cs u * 35)))
    as [Hl|]; [|discriminate Hle].
  destruct (demo_step_spec _ _ _ _ Hd) as [_ Ht]. apply finite_update_spec in Hf as (H1 & H2 & H3).
  assert (handle (Tick 20000) e = Some (acts, e')) as Hh.
  { unfold try_handle in Ht. simpl validate_event in Ht. cbv iota in Ht.
    apply bind_Some in Ht as ([acts' e''] & Hh & Heq). rewrite Hh.
    apply (inj Some), pair_equal_spec in Heq as [Heq1 Heq2]. simpl in Heq1, Heq2.
    injection Heq1 as ->. rewrite Heq2. reflexivity. }
  exists e, acts, e', u, k. split; [exact Hd|]. split; [exact Hk|].
  etrans; [exact Hl|].
  exact (advertisements_noted (Tick 20000) e acts e' i dest packet timing u k Hh H1 H2 H3 Hk).
Defined.
