(* ===== verification/LoopSpec.v ===== *)
(** Loop avoidance inside one router: the relation between the route an engine
    has selected, the distance it has recorded for it, and the distances recorded
    by the routers it learned from.  Every operation of the engine keeps it.

    The statements are about one destination [k] and one router-id [r] of another
    router.  [F i h] is the value of the distance recorded by the router that
    owns the next hop [h] behind interface [i], fixed while this engine handles an
    event; [P i h v x] is what is known of an update of value [v] received from
    there whose candidate expires at [x]. *)
From S2P Require Import Prelude Net Model Metric Wire Api EngineState Deadlines Sources Output Rib Neighbors Timers Engine OutputSpec Invariant AdmissionSpec SelectionSpec.
Import Hello.
Local Open Scope Z_scope.

(** * Distances of one origin, in a window of sequence numbers

    Comparing sequence numbers modulo 2^16 is no order.  It is one among the
    numbers less than 2^15 after a base [w], and a distance is then a number. *)

Definition rank (w seqno : Z) : Z := wrapping_sub16 seqno w.
Definition value (w : Z) (d : Distance) : Z := d_metric d - 65536 * rank w (d_seqno d).

Definition in_window (w : Z) (d : Distance) : bool :=
  (0 <=? d_seqno d) && (d_seqno d <=? u16_max) && (rank w (d_seqno d) <? 0x8000)
  && (0 <=? d_metric d) && (d_metric d <=? INFINITY).

Lemma in_window_spec w d :
  in_window w d = true <->
  0 <= d_seqno d <= 65535 /\ 0 <= rank w (d_seqno d) < 32768 /\ 0 <= d_metric d <= 65535.
Proof.
  unfold in_window, u16_max, INFINITY. rewrite !andb_true_iff, !Z.leb_le, Z.ltb_lt.
  pose proof (Z.mod_pos_bound (d_seqno d - w) 65536 ltac:(lia)). unfold rank, wrapping_sub16. lia.
Qed.

(** In the window the feasibility condition compares values. *)
Lemma feasible_value w d fd :
  in_window w d = true -> in_window w fd = true -> feasible_against d fd = (value w d <? value w fd).
Proof.
  rewrite !in_window_spec. intros (Hs & Hr & Hm) (Hs' & Hr' & Hm').
  apply eq_true_iff_eq. unfold feasible_against, value, rank, seqno_gt, wrapping_sub16 in *.
  rewrite orb_true_iff, !andb_true_iff, negb_true_iff, Z.eqb_neq, Z.eqb_eq, !Z.ltb_lt.
  Z.div_mod_to_equations. lia.
Qed.

Lemma value_lower w d : in_window w d = true -> - 2 ^ 32 < value w d.
Proof. rewrite in_window_spec. unfold value. lia. Qed.

(** * Computations that keep a predicate of the state *)

Section Keeps.
Context {NL : IpNetLib} {MI : MetricImpl}.

Definition keeps {A} (I : Engine -> Prop) (m : M A) : Prop :=
  forall e a e', I e -> m e = Some (a, e') -> I e'.

(** From one predicate to another. *)
Definition leads {A} (I J : Engine -> Prop) (m : M A) : Prop :=
  forall e a e', I e -> m e = Some (a, e') -> J e'.

Lemma keeps_ret {A} I (a : A) : keeps I (mret a).
Proof. intros e b e' H [= _ <-]. done. Qed.

Lemma keeps_gets {A} I (f : Engine -> A) : keeps I (gets f).
Proof. intros e b e' H [= _ <-]. done. Qed.

Lemma keeps_modify I f : (forall e, I e -> I (f e)) -> keeps I (modify f).
Proof. intros Hf e b e' H [= _ <-]. auto. Qed.

Lemma keeps_expect {A} I (o : option A) : keeps I (expect o).
Proof. intros e b e' H. destruct o; [|done]. intros [= _ <-]. done. Qed.

Lemma bind_inv {A B} (m : M A) (f : A -> M B) e b e' :
  (m ≫= f) e = Some (b, e') -> exists a e1, m e = Some (a, e1) /\ f a e1 = Some (b, e').
Proof. unfold mbind, M_bind. destruct (m e) as [[a e1]|]; [|done]. eauto. Qed.

Lemma keeps_bind {A B} I (m : M A) (f : A -> M B) :
  keeps I m -> (forall a, keeps I (f a)) -> keeps I (m ≫= f).
Proof.
  intros Hm Hf e b e' H (a & e1 & H1 & H2)%bind_inv. eapply Hf; [|exact H2]. by eapply Hm.
Qed.

Lemma leads_bind {A B} I J (m : M A) (f : A -> M B) :
  keeps I m -> (forall a, leads I J (f a)) -> leads I J (m ≫= f).
Proof.
  intros Hm Hf e b e' H (a & e1 & H1 & H2)%bind_inv. eapply Hf; [|exact H2]. by eapply Hm.
Qed.

Lemma leads_keeps {A} I J (m : M A) : (forall e, I e -> J e) -> keeps J m -> leads I J m.
Proof. intros HIJ Hm e a e' H E. eapply Hm; [|exact E]. auto. Qed.

(** The continuation may use what the state it read satisfies. *)
Lemma keeps_read {A B} I (g : Engine -> A) (f : A -> M B) :
  (forall e, I e -> keeps I (f (g e))) -> keeps I (gets g ≫= f).
Proof. intros Hf e b e' H E. eapply (Hf e H); eassumption. Qed.

Lemma keeps_foldM {A B} I (f : B -> A -> M B) l :
  (forall a b, a ∈ l -> keeps I (f b a)) -> forall b, keeps I (foldM f b l).
Proof.
  induction l as [|a l IH]; intros Hf b; simpl; [apply keeps_ret|].
  apply keeps_bind; [apply Hf; set_solver|]. intros b'. apply IH. intros. apply Hf. set_solver.
Qed.

Lemma keeps_for_each {A} I (f : A -> M unit) l :
  (forall a, a ∈ l -> keeps I (f a)) -> keeps I (for_each l f).
Proof. intros Hf. apply keeps_foldM. auto. Qed.

Lemma keeps_for_actions {A B} I (f : A -> M (list B)) l :
  (forall a, a ∈ l -> keeps I (f a)) -> keeps I (for_actions l f).
Proof. intros Hf. apply keeps_foldM. intros a b Ha. apply keeps_bind; [auto|]. intros. apply keeps_ret. Qed.

(** From a total specification of the computation. *)
Lemma keeps_wp {A} (I : Engine -> Prop) (m : M A) :
  (forall e, I e -> wp m (fun _ e' => I e') e) -> keeps I m.
Proof. intros H e a e' HI E. exact (wp_run _ _ _ _ _ (H e HI) E). Qed.
End Keeps.

Create HintDb keeps discriminated.

(** Walk through a computation, leaving its calls and state changes. *)
Ltac keeps_step :=
  first
    [ progress intros
    | assumption
    | solve [eauto 3 with keeps]
    | lazymatch goal with
      | |- keeps _ (mret _) => apply keeps_ret
      | |- keeps _ (gets _) => apply keeps_gets
      | |- keeps _ (expect _) => apply keeps_expect
      | |- keeps _ (modify _) =>
          apply keeps_modify; let e := fresh "e" in let H := fresh "HI" in intros e H; (exact H || idtac)
      | |- keeps _ (mbind _ _) => apply keeps_bind
      | |- keeps _ (if ?b then _ else _) => destruct b eqn:?
      | |- keeps _ (match ?b with _ => _ end) => destruct b eqn:?
      | |- keeps _ (let '(_, _) := ?b in _) => destruct b eqn:?
      end ].
Ltac keeps_walk := repeat keeps_step.

(** * The invariant *)

(** What is assumed of requests that are held on behalf of other routers: there is
    none for the destination, or no route of the origin is selected, or nothing is
    claimed of the distances that other routers have recorded. *)
Inductive Requests := Quiet | Unrouted | Free | Alone.

Section Loop.
Context {NL : IpNetLib} {MI : MetricImpl} {HO : HashOrder} {B : Build}.
Context (k : RouteKey) (r : RouterId) (w now : Z).
(** What is fixed while the event is handled. *)
Context (F : string -> IpAddr -> Z).
(** Recorded distances that last: value at most [v], until [x] at least. *)
Context (held : Z -> Z -> Prop).
Context (held_time : forall v x, held v x -> now <= x <= now + SOURCE_GC_TIME_MS).
Context (now_u64 : in_u64 now) (now_gc : now + SOURCE_GC_TIME_MS <= u64_max).

Abbreviation known := (string -> IpAddr -> Z -> Z -> Prop).
Abbreviation val d := (value w d).

Definition route_distance (s : SelectedRoute) : Distance :=
  {| d_seqno := sr_seqno s; d_metric := sr_metric s |}.

Record candidate_safe (P : known) (c : Candidate) : Prop := {
  cs_metric : c_metric c < INFINITY ->
    c_advertised_metric c <> INFINITY /\ c_advertised_metric c < c_metric c;
  cs_known : c_router_id c = r -> c_advertised_metric c <> INFINITY ->
    in_window w (candidate_distance c) = true /\
    P (c_interface c) (c_next_hop c) (val (candidate_distance c)) (c_expires_ms c)
}.

Record route_safe (s : SelectedRoute) : Prop := {
  rt_window : in_window w (route_distance s) = true;
  rt_farther : F (sr_interface s) (sr_next_hop s) < val (route_distance s)
}.

(** No route of [r] is selected. *)
Definition unrouted (sel : gmap RouteKey SelectedRoute) : Prop :=
  forall s, sel !! k = Some s -> sr_router_id s <> r.

(** The parts of the state the invariant is about. *)
Record safe_tables (q : Requests) (P : known) (own : RouterId) (cands : gmap (RouteKey * NeighborKey) Candidate)
    (sel : gmap RouteKey SelectedRoute) (sources : gmap (RouteKey * RouterId) SourceEntry)
    (pending : gmap (RouteKey * RouterId) PendingSeqnoRequest) : Prop := {
  sf_own : own <> r;
  sf_keys : forall key n c, cands !! (key, n) = Some c -> c_key c = key;
  sf_candidates : forall n c, cands !! (k, n) = Some c -> candidate_safe P c;
  sf_selected : forall key s, sel !! key = Some s -> sr_key s = key;
  sf_route : forall s, sel !! k = Some s -> sr_router_id s = r -> route_safe s;
  sf_feasible : forall s src, sel !! k = Some s -> sr_router_id s = r -> sources !! (k, r) = Some src ->
    F (sr_interface s) (sr_next_hop s) < val (s_distance src);
  sf_sources : forall src, sources !! (k, r) = Some src -> in_window w (s_distance src) = true;
  sf_held : forall v x, held v x -> exists src, sources !! (k, r) = Some src /\
    val (s_distance src) <= v /\ x <= s_expires_ms src;
  sf_requests : match q with
    | Quiet => forall r' p, pending !! (k, r') = Some p -> pq_requester p = None
    | Unrouted => unrouted sel
    | Free => True
    | Alone => forall i h, F i h <= - 2 ^ 32
    end
}.

Arguments sf_own {q P own cands sel sources pending} _.
Arguments sf_keys {q P own cands sel sources pending} _.
Arguments sf_candidates {q P own cands sel sources pending} _.
Arguments sf_selected {q P own cands sel sources pending} _.
Arguments sf_route {q P own cands sel sources pending} _.
Arguments sf_feasible {q P own cands sel sources pending} _.
Arguments sf_sources {q P own cands sel sources pending} _.
Arguments sf_held {q P own cands sel sources pending} _.
Arguments sf_requests {q P own cands sel sources pending} _.

Definition safe (q : Requests) (P : known) (e : Engine) : Prop :=
  safe_tables q P (cfg_router_id (config e)) (candidates e) (selected e) (feasible e) (pending_seqno e).

(** During output the selection is fixed. *)
Definition safe_at (q : Requests) (P : known) (sel : gmap RouteKey SelectedRoute) (e : Engine) : Prop :=
  safe q P e /\ selected e = sel.

Lemma keeps_at {A} q P (m : M A) : (forall sel, keeps (safe_at q P sel) m) -> keeps (safe q P) m.
Proof. intros H e a e' HI E. by destruct (H (selected e) e a e' (conj HI eq_refl) E). Qed.

(** ** Output *)

(** A distance that may be announced: another origin's, the selected route's, or
    any when no route of [r] is selected or other routers do not matter. *)
Definition announceable (sel : gmap RouteKey SelectedRoute) (key : RouteKey) (id : RouterId) (d : Distance)
  : Prop :=
  key = k -> id = r ->
  (exists s, sel !! k = Some s /\ sr_router_id s = r /\ route_distance s = d) \/
  (unrouted sel /\ in_window w d = true) \/
  ((forall i h, F i h <= - 2 ^ 32) /\ in_window w d = true).

(** Such a distance is farther than the router the selected route leads to. *)
Lemma announceable_farther q P sel d e :
  safe_at q P sel e -> announceable sel k r d ->
  in_window w d = true /\
  forall s, selected e !! k = Some s -> sr_router_id s = r -> F (sr_interface s) (sr_next_hop s) < val d.
Proof.
  intros [HI <-] Ha. destruct (Ha eq_refl eq_refl) as [(s & Hs & Hid & <-)|[[Hu Hw]|[HF Hw]]].
  - destruct (sf_route HI s Hs Hid) as [W1 W2]. split; [done|]. intros s' Hs' _. by simplify_eq.
  - split; [done|]. intros s Hs Hid. by destruct (Hu s Hs).
  - split; [done|]. intros s _ _. specialize (HF (sr_interface s) (sr_next_hop s)).
    apply value_lower in Hw. lia.
Qed.

Lemma maintain_source_keeps q P sel key rid d :
  announceable sel key rid d -> keeps (safe_at q P sel) (maintain_source key rid d now).
Proof.
  intros Ha. apply keeps_modify. intros e HI0. split; [|by destruct HI0].
  destruct (decide ((key, rid) = (k, r))) as [[= -> ->]|Hne].
  - destruct (announceable_farther _ _ _ _ _ HI0 Ha) as [W1 W2].
    destruct HI0 as [[I1 I2 I3 I4 I5 I6 I7 I8 I9] _]. cbv beta zeta.
    fold (feasible_against d (s_distance (default (MkSourceEntry d (saturating_add64 now SOURCE_GC_TIME_MS))
      (feasible e !! (k, r))))).
    set (old := default _ _). set (d' := if feasible_against d (s_distance old) then d else s_distance old).
    assert (in_window w d' = true /\
      (forall s, selected e !! k = Some s -> sr_router_id s = r -> F (sr_interface s) (sr_next_hop s) < val d') /\
      forall src, feasible e !! (k, r) = Some src -> val d' <= val (s_distance src)) as (D1 & D2 & D3).
    { unfold d', old. destruct (feasible e !! (k, r)) as [src|] eqn:E; cbn [default from_option id].
      - rewrite (feasible_value w) by auto. destruct (Z.ltb_spec (val d) (val (s_distance src))).
        + split_and!; [done|done|]. intros ? [= <-]. lia.
        + split_and!; [auto|auto|]. by intros ? [= <-].
      - cbn [s_distance]. by destruct (feasible_against _ _). }
    split; try done; cbn [feasible set_feasible].
    + intros s src Hs Hid. rewrite lookup_insert, decide_True by done. intros [= <-]. by apply D2.
    + intros src. rewrite lookup_insert, decide_True by done. by intros [= <-].
    + intros v x Hv. rewrite lookup_insert, decide_True by done. eexists. split; [done|]. cbn.
      destruct (I8 v x Hv) as (src & E & L1 & L2). specialize (D3 src E). apply held_time in Hv.
      unfold saturating_add64, SOURCE_GC_TIME_MS in *. lia.
  - destruct HI0 as [[I1 I2 I3 I4 I5 I6 I7 I8 I9] _]. split; try done; cbn [feasible set_feasible].
    + intros s' src Hs' Hid. rewrite lookup_insert_ne by done. eauto.
    + intros src. rewrite lookup_insert_ne by done. eauto.
    + intros v x. rewrite lookup_insert_ne by done. eauto.
Qed.

Lemma announceable_own q P sel key e d : safe_at q P sel e -> announceable sel key (cfg_router_id (config e)) d.
Proof. intros [HI _] _ H. by destruct (sf_own HI). Qed.

Lemma announceable_selected q P sel key s e :
  safe_at q P sel e -> sel !! key = Some s -> announceable sel (sr_key s) (sr_router_id s) (route_distance s).
Proof.
  intros [HI <-] Hs Hk Hid. rewrite (sf_selected HI _ _ Hs) in Hk. subst key. eauto.
Qed.

Lemma record_if_keeps q P sel (b : bool) key id d :
  announceable sel key id d -> keeps (safe_at q P sel) (if b then maintain_source key id d now else mret tt).
Proof. intros H. destruct b; [by apply maintain_source_keeps|apply keeps_ret]. Qed.

Lemma update_action_to_candidate_keeps q P sel key id seqno metric dest :
  announceable sel key id {| d_seqno := seqno; d_metric := metric |} ->
  keeps (safe_at q P sel) (update_action_to_candidate key id seqno metric dest now).
Proof.
  intros Ha. unfold update_action_to_candidate. apply keeps_read. intros e _.
  destruct (finite _) eqn:E; [|keeps_walk]. destruct (advertisement_finite _ _ _ _ _ _ E) as [-> _].
  apply keeps_bind; [by apply maintain_source_keeps|]. keeps_walk.
Qed.

Lemma reply_to_route_request_keeps q P sel key dest :
  keeps (safe_at q P sel) (reply_to_route_request key dest now).
Proof.
  unfold reply_to_route_request. apply keeps_read. intros e He. destruct (originated e !! key) as [o|].
  - apply update_action_to_candidate_keeps. by eapply announceable_own.
  - destruct (selected e !! key) as [s|] eqn:Es; [|apply keeps_gets]. simpl.
    apply update_action_to_candidate_keeps. pose proof He as [HI <-].
    pose proof (announceable_selected _ _ _ _ _ _ He Es) as H.
    by rewrite (sf_selected HI _ _ Es) in H.
Qed.

Lemma push_update_keeps q P sel i key id seqno metric skip l :
  announceable sel key id {| d_seqno := seqno; d_metric := metric |} ->
  keeps (safe_at q P sel) (push_update i key id seqno metric now skip l).
Proof.
  intros Ha. unfold push_update. apply keeps_read. intros e _. destruct (skip _); [apply keeps_ret|].
  apply keeps_bind; [by apply record_if_keeps|]. keeps_walk.
Qed.

Lemma note_full_update_keeps q P sel i : keeps (safe_at q P sel) (note_full_update i now).
Proof. by apply keeps_modify. Qed.

Lemma interface_updates_keeps q P sel only timing origins routes keys i :
  (forall e s, safe_at q P sel e -> s ∈ routes -> announceable sel (sr_key s) (sr_router_id s) (route_distance s)) ->
  keeps (safe_at q P sel) (interface_updates now only timing origins routes keys i).
Proof.
  intros Hr. unfold interface_updates. apply keeps_read. intros e0 He0. destruct (interfaces e0 !! i); [|apply keeps_ret].
  apply keeps_bind; [|intros l1; apply keeps_bind; [|intros l2; apply keeps_bind; [|intros l3; apply keeps_bind]]].
  - apply keeps_foldM. intros [key o] l _. destruct (wanted only key); [|apply keeps_ret].
    apply keeps_read. intros e He. apply push_update_keeps. by eapply announceable_own.
  - apply keeps_foldM. intros s l Hs. destruct (wanted only _); [|apply keeps_ret].
    apply push_update_keeps. by eapply Hr.
  - apply keeps_foldM. intros. apply keeps_gets.
  - destruct (_ && _); [apply note_full_update_keeps|apply keeps_ret].
  - keeps_walk.
Qed.

Lemma send_updates_keeps q P sel only interface timing :
  keeps (safe_at q P sel) (send_updates now only interface timing).
Proof.
  unfold send_updates. apply keeps_read. intros e1 _. apply keeps_read. intros e2 _. apply keeps_read.
  intros e He. apply keeps_read. intros e3 _. apply keeps_for_actions. intros i _.
  apply interface_updates_keeps. intros e' s He' (p & -> & Hp)%list_elem_of_fmap. destruct p as [key s].
  eapply announceable_selected; [exact He'|]. destruct He as [_ <-]. unfold only_entries in Hp.
  destruct only as [key'|]; [|by apply btree_iter_lookup in Hp].
  destruct (selected e !! key') eqn:E; [|by apply elem_of_nil in Hp].
  apply list_elem_of_singleton in Hp. by simplify_eq.
Qed.
#[local] Hint Resolve send_updates_keeps reply_to_route_request_keeps update_action_to_candidate_keeps : keeps.

(** ** Requests *)

Lemma pending_insert_keeps q P sel key id p e :
  (q = Quiet -> key = k -> pq_requester p = None) -> safe_at q P sel e ->
  safe_at q P sel (set_pending_seqno (<[(key, id) := p]> (pending_seqno e)) e).
Proof.
  intros Hq [HI Hs]. split; [|done]. destruct HI as [I1 I2 I3 I4 I5 I6 I7 I8 I9]. split; try done.
  destruct q; [|done..]. intros r' p'. cbn. rewrite lookup_insert_Some.
  intros [[[= -> ->] <-]|[_ H]]; [auto|by eapply I9].
Qed.

Lemma pending_sub_keeps q P sel m e :
  m ⊆ pending_seqno e -> safe_at q P sel e -> safe_at q P sel (set_pending_seqno m e).
Proof.
  intros Hm [HI Hs]. split; [|done]. destruct HI as [I1 I2 I3 I4 I5 I6 I7 I8 I9]. split; try done.
  destruct q; [|done..]. intros r' p' H. eapply I9. by eapply lookup_weaken.
Qed.

Lemma originate_seqno_request_keeps q P sel request :
  (q = Quiet -> rq_key request = k -> rq_requester request = None) ->
  keeps (safe_at q P sel) (originate_seqno_request request now).
Proof.
  intros Hq. unfold originate_seqno_request. apply keeps_bind; [|keeps_walk]. apply keeps_modify.
  intros e. by apply pending_insert_keeps.
Qed.

(** ** Route selection *)

Lemma repeat_advertisement_keeps q P sel key : keeps (safe_at q P sel) (repeat_advertisement key now).
Proof. by apply keeps_modify. Qed.
#[local] Hint Resolve repeat_advertisement_keeps originate_seqno_request_keeps : keeps.

Lemma announce_loss_keeps q P sel targets acts lost :
  keeps (safe_at q P sel) (announce_loss targets now acts lost).
Proof.
  destruct lost as [key s]. unfold announce_loss. keeps_walk.
Qed.

Lemma announce_change_keeps q P sel before acts key s :
  sel !! key = Some s -> keeps (safe_at q P sel) (announce_change before now acts s).
Proof.
  intros Hs. unfold announce_change. apply keeps_bind; [apply repeat_advertisement_keeps|intros _].
  apply keeps_read. intros e He. apply keeps_bind; [|keeps_walk].
  apply record_if_keeps. by eapply announceable_selected.
Qed.

Lemma selected_delta_keeps q P sel before : keeps (safe_at q P sel) (selected_delta before now).
Proof.
  unfold selected_delta. apply keeps_bind; [apply keeps_gets|intros targets].
  apply keeps_bind; [apply keeps_foldM; intros; apply announce_loss_keeps|intros acts].
  apply keeps_read. intros e He. apply keeps_foldM. intros s l Hs.
  apply list_elem_of_fmap in Hs as ([key s'] & -> & Hs). apply elem_of_filter_bool in Hs as [Hs _].
  apply btree_iter_lookup in Hs. destruct He as [_ <-]. by eapply announce_change_keeps.
Qed.

Lemma switches_safe q P e e' : erase_switches e' = erase_switches e -> safe q P e -> safe q P e'.
Proof.
  intros E. unfold safe.
  rewrite (f_equal config E : config e' = config e), (f_equal candidates E : candidates e' = candidates e),
    (f_equal selected E : selected e' = selected e), (f_equal feasible E : feasible e' = feasible e),
    (f_equal pending_seqno E : pending_seqno e' = pending_seqno e). done.
Qed.

(** What is known of an update bounds the recorded distance of its sender. *)
Definition bounding (P : known) : Prop := forall i h v x, P i h v x -> F i h <= v.

(** A usable candidate makes a safe route. *)
Lemma usable_safe q P e n c :
  bounding P -> safe q P e -> candidates e !! (k, n) = Some c -> usable e c = true -> c_router_id c = r ->
  route_safe (selected_from_candidate c) /\
  forall src, feasible e !! (k, r) = Some src -> F (c_interface c) (c_next_hop c) < val (s_distance src).
Proof.
  intros HP [I1 I2 I3 I4 I5 I6 I7 I8 I9] Hc [Hm Hf]%andb_true_iff Hr. apply Z.ltb_lt in Hm.
  pose proof (I2 _ _ _ Hc) as Hk. destruct (I3 _ _ Hc) as [C1 C2]. destruct (C1 Hm) as [Ha Hlt].
  destruct (C2 Hr Ha) as [W Hp]. apply HP in Hp. split.
  - assert (in_window w (route_distance (selected_from_candidate c)) = true) as W'.
    { revert W. rewrite !in_window_spec. cbn. unfold INFINITY in *. lia. }
    split; [exact W'|]. cbn. unfold value, candidate_distance, route_distance in *. cbn in *. lia.
  - intros src Hs. unfold candidate_is_feasible in Hf. apply orb_true_iff in Hf as [Hf|Hf].
    + unfold retained_selected in Hf. rewrite Hk in Hf. destruct (selected e !! k) as [s|] eqn:Es; [|done].
      unfold same_route in Hf. rewrite !andb_true_iff, !bool_decide_eq_true in Hf.
      destruct Hf as [[E1 <-] <-]. apply I6; [done|congruence|done].
    + unfold meets_feasibility in Hf. rewrite Hk, Hr, Hs in Hf.
      rewrite (feasible_value w) in Hf by auto. apply Z.ltb_lt in Hf. lia.
Qed.

Lemma select_safe q P e next :
  q <> Unrouted -> bounding P -> safe q P e ->
  (forall key s, next !! key = Some s -> exists routes c, group_candidates e !! key = Some routes /\
     c ∈ routes /\ s = selected_from_candidate c) ->
  safe q P (set_selected next e).
Proof.
  intros Hmode HP HI Hn.
  assert (forall key s, next !! key = Some s -> exists c n, candidates e !! (key, n) = Some c /\
    usable e c = true /\ c_key c = key /\ s = selected_from_candidate c) as Hc.
  { intros key s Hs. destruct (Hn key s Hs) as (routes & c & Hg & Hin & ->).
    apply group_sound in Hg as [_ Hg]. apply Hg in Hin as (<- & Hu & key' & n & Hc). exists c, n.
    by rewrite (sf_keys HI _ _ _ Hc). }
  pose proof HI as [I1 I2 I3 I4 I5 I6 I7 I8 I9].
  split; try done; cbn [selected set_selected].
  - intros key s Hs. by destruct (Hc key s Hs) as (c & n & _ & _ & Hk & ->).
  - intros s Hs Hr. destruct (Hc k s Hs) as (c & n & Hl & Hu & _ & ->). by eapply usable_safe.
  - intros s src Hs Hr Hsrc. destruct (Hc k s Hs) as (c & n & Hl & Hu & _ & ->).
    by eapply (usable_safe q P e n c).
  - by destruct q.
Qed.

(** [reselect] once the new selection is in place. *)
Definition announce_selection (before : gmap RouteKey SelectedRoute) (before_tombstones : list RouteKey)
  : M (list Action) :=
  _ ← update_tombstones before now;
  _ ← prune_switches;
  changed ← gets (fun e => bool_decide (selected e <> before)
                           || bool_decide (unreachable_routes e <> before_tombstones));
  if changed : bool then
    snapshot ← route_snapshot;
    delta ← selected_delta before now;
    mret (snapshot :: delta)
  else mret [].

Lemma reselect_inv q P e acts e' :
  q <> Unrouted -> bounding P -> safe q P e -> reselect now e = Some (acts, e') ->
  exists e1, safe q P e1 /\ announce_selection (selected e) (unreachable_routes e) e1 = Some (acts, e').
Proof.
  intros Hmode HP HI E. unfold reselect in E.
  apply bind_inv in E as (before & e0 & [= <- <-] & E).
  apply bind_inv in E as (dead & e0 & [= <- <-] & E).
  apply bind_inv in E as (grouped & e0 & [= <- <-] & E).
  apply bind_inv in E as (next & e1 & Hnext & E).
  assert (forall key routes, (key, routes) ∈ btree_iter (group_candidates e) -> routes <> []) as Hne.
  { intros key routes Hr%btree_iter_lookup. apply group_sound in Hr. by destruct Hr. }
  pose proof (choose_routes_spec now ltac:(done) (selected e) _ e Hne) as Hspec.
  apply (wp_run _ _ _ _ _ Hspec) in Hnext. destruct Hnext as (Hf & Hs & _).
  apply bind_inv in E as ([] & e2 & [= <-] & E). exists (set_selected next e1). split; [|exact E].
  apply select_safe; [done|done|by eapply switches_safe|]. intros key s H.
  destruct (Hs key s H) as (routes & c & Hr & Hc & ->). apply btree_iter_lookup in Hr.
  exists routes, c. split; [|done]. revert Hr.
  unfold group_candidates, usable, candidate_is_feasible, retained_selected, meets_feasibility.
  by rewrite (f_equal candidates Hf : candidates e1 = candidates e),
    (f_equal selected Hf : selected e1 = selected e), (f_equal feasible Hf : feasible e1 = feasible e).
Qed.

Lemma route_snapshot_keeps q P : keeps (safe q P) route_snapshot.
Proof. unfold route_snapshot. by keeps_walk. Qed.

Lemma reselect_keeps q P : q <> Unrouted -> bounding P -> keeps (safe q P) (reselect now).
Proof.
  intros Hmode HP e acts e' HI E. destruct (reselect_inv q P e acts e' Hmode HP HI E) as (e1 & H1 & E1).
  revert H1 E1. generalize (selected e), (unreachable_routes e). clear E HI. intros before dead H1 E1.
  revert e1 acts e' H1 E1. change (keeps (safe q P) (announce_selection before dead)).
  unfold announce_selection, update_tombstones, prune_switches. keeps_walk; [apply route_snapshot_keeps|].
  apply keeps_at. intros sel. apply selected_delta_keeps.
Qed.

(** ** The candidate table *)

Lemma candidates_safe q P e m :
  (forall key n c, m !! (key, n) = Some c -> c_key c = key) ->
  (forall n c, m !! (k, n) = Some c -> candidate_safe P c) ->
  safe q P e -> safe q P (set_candidates m e).
Proof. intros Hk Hs [I1 I2 I3 I4 I5 I6 I7 I8 I9]. by split. Qed.

Lemma candidates_sub_safe q P e m : m ⊆ candidates e -> safe q P e -> safe q P (set_candidates m e).
Proof.
  intros Hm HI. assert (forall i c, m !! i = Some c -> candidates e !! i = Some c) as H.
  { intros i c Hc. by eapply lookup_weaken. }
  apply candidates_safe; [| |done].
  - intros key n c Hc%H. by eapply (sf_keys HI).
  - intros n c Hc%H. by eapply (sf_candidates HI).
Qed.

(** Entries revalued in place. *)
Lemma candidates_map_safe q P e f :
  (forall i c, c_key (f i c) = c_key c) -> (forall i c, candidate_safe P c -> candidate_safe P (f i c)) ->
  safe q P e -> safe q P (set_candidates (map_imap (fun i c => Some (f i c)) (candidates e)) e).
Proof.
  intros Hk Hf HI. apply candidates_safe; [| |done].
  - intros key n c. rewrite map_lookup_imap. intros (c0 & H & [= <-])%bind_Some. rewrite Hk.
    by eapply (sf_keys HI).
  - intros n c. rewrite map_lookup_imap. intros (c0 & H & [= <-])%bind_Some. apply Hf.
    by eapply (sf_candidates HI).
Qed.

Lemma candidates_alter_safe q P e i f :
  (forall c, c_key (f c) = c_key c) -> (forall c, candidate_safe P c -> candidate_safe P (f c)) ->
  safe q P e -> safe q P (set_candidates (alter f i (candidates e)) e).
Proof.
  intros Hk Hf HI. apply candidates_safe; [| |done].
  - intros key n c. rewrite lookup_alter_Some. intros [(-> & c0 & H & ->)|[_ H]]; rewrite ?Hk;
      by eapply (sf_keys HI).
  - intros n c. rewrite lookup_alter_Some. intros [(-> & c0 & H & ->)|[_ H]]; [apply Hf|];
      by eapply (sf_candidates HI).
Qed.

Lemma retracted_safe P c : candidate_safe P (retracted c).
Proof. split; [|by intros]. simpl. unfold INFINITY. lia. Qed.

Lemma revalued_safe P algebra l c :
  candidate_safe P c -> candidate_safe P (set_c_metric (safe_extend algebra (c_advertised_metric c) l) c).
Proof.
  intros [C1 C2]. pose proof (safe_extend_spec algebra (c_advertised_metric c) l) as [? ?].
  split; [cbn; lia|done].
Qed.

(** ** Received updates *)

(** What is known of a finite update for [k] from [r]. *)
Definition update_known (P : known) (i : string) (u : ResolvedUpdate) : Prop :=
  forall h, ru_key u = Some k -> ru_router_id u = Some r -> ru_metric u <> INFINITY ->
  ru_next_hop u = Some h ->
  let d := {| d_seqno := ru_seqno u; d_metric := ru_metric u |} in
  in_window w d = true /\ P i h (val d) (saturating_add64 now (ru_interval_cs u * 35)).

(** The candidate an admitted update becomes. *)
Lemma received_safe P i u id hop algebra cost :
  update_known P i u -> ru_key u = Some k -> ru_router_id u = Some id -> ru_metric u <> INFINITY ->
  ru_next_hop u = Some hop ->
  candidate_safe P (MkCandidate k id (ru_seqno u) (ru_metric u) (safe_extend algebra (ru_metric u) cost)
    hop i (ru_interval_cs u) (saturating_add64 now (ru_interval_cs u * 35)) false).
Proof.
  intros Hu Hk Hid Hm Hh. pose proof (safe_extend_spec algebra (ru_metric u) cost). split; cbn; [lia|].
  intros -> _. by apply Hu.
Qed.

Lemma with_neighbour_keeps q P n f : keeps (safe q P) (with_neighbour n f).
Proof. unfold with_neighbour. by keeps_walk. Qed.

#[local] Hint Resolve with_neighbour_keeps : keeps.

Lemma retract_neighbour_keeps q P n : keeps (safe q P) (retract_neighbour n).
Proof.
  unfold retract_neighbour. keeps_walk. apply candidates_map_safe; [| |done].
  - intros i c. by case_bool_decide.
  - intros i c Hc. case_bool_decide; [apply retracted_safe|done].
Qed.

Lemma retract_candidate_keeps q P i : keeps (safe q P) (retract_candidate i).
Proof.
  unfold retract_candidate. keeps_walk. apply candidates_alter_safe; [done| |done].
  intros c _. apply retracted_safe.
Qed.

Lemma reject_import_keeps q P i : keeps (safe q P) (reject_import i).
Proof.
  unfold reject_import. keeps_walk.
  apply candidates_sub_safe; [apply delete_subseteq|done].
Qed.

Lemma refuse_candidate_keeps q P n x : keeps (safe q P) (refuse_candidate n x).
Proof. unfold refuse_candidate. by keeps_walk. Qed.

Lemma install_candidate_keeps q P n is_new c :
  (c_key c = k -> candidate_safe P c) -> keeps (safe q P) (install_candidate n is_new c).
Proof.
  intros Hc. unfold install_candidate. keeps_walk.
  apply candidates_safe; [| |done].
  - intros key n' c'. rewrite lookup_insert_Some. intros [[[= <- <-] <-]|[_ H]]; [done|].
    by eapply (sf_keys HI).
  - intros n' c'. rewrite lookup_insert_Some. intros [[[= Hk <-] <-]|[_ H]]; [auto|].
    by eapply (sf_candidates HI).
Qed.

(** Answered requests: none was made on behalf of another router, or the answer
    contradicts no selected route. *)
Lemma answer_announceable q P sel key id seqno metric e id' p n :
  safe_at q P sel e -> (key = k -> q <> Free) ->
  (key = k -> id = r -> in_window w {| d_seqno := seqno; d_metric := metric |} = true) ->
  pending_seqno e !! (key, id') = Some p -> pq_requester p = Some n ->
  announceable sel key id {| d_seqno := seqno; d_metric := metric |}.
Proof.
  intros [HI <-] Hq Hw Hp Hn -> ->. pose proof (sf_requests HI) as Hr. destruct q.
  - rewrite (Hr _ _ Hp) in Hn. done.
  - right. auto.
  - by destruct (Hq eq_refl).
  - right. right. auto.
Qed.

Lemma satisfy_requests_keeps q P key id seqno metric :
  (key = k -> q <> Free) ->
  (key = k -> id = r -> in_window w {| d_seqno := seqno; d_metric := metric |} = true) ->
  keeps (safe q P) (satisfy_requests key id seqno metric now).
Proof.
  intros Hq Hw. apply keeps_at. intros sel. unfold satisfy_requests. apply keeps_read. intros e0 _.
  apply keeps_foldM. intros [key' id'] acts Hin.
  apply list_elem_of_fmap in Hin as ([pk p0] & Ep & Hin). simpl in Ep. subst pk.
  apply elem_of_filter_bool in Hin as [_ Hsat]. unfold satisfied_by in Hsat.
  rewrite !andb_true_iff, bool_decide_eq_true in Hsat. destruct Hsat as [-> _].
  unfold satisfy_request. apply keeps_read. intros e He.
  destruct (pending_seqno e !! (key, id')) as [p|] eqn:Ep; [|apply keeps_ret].
  apply keeps_bind.
  { apply keeps_modify. intros e' He'. by apply pending_sub_keeps; [apply delete_subseteq|]. }
  intros _. apply keeps_bind; [|keeps_walk]. destruct (pq_requester p) eqn:Er; [|apply keeps_ret].
  apply keeps_bind; [|keeps_walk]. apply update_action_to_candidate_keeps. by eapply answer_announceable.
Qed.

Lemma request_improvement_keeps q P key id metric fd n :
  keeps (safe q P) (request_improvement key id metric fd n now).
Proof.
  apply keeps_at. intros sel. unfold request_improvement. keeps_walk.
Qed.

(** The distance of the extended route. *)
Lemma extended_window P i u hop algebra cost :
  update_known P i u -> ru_key u = Some k -> ru_router_id u = Some r -> ru_metric u <> INFINITY ->
  ru_next_hop u = Some hop ->
  in_window w {| d_seqno := ru_seqno u; d_metric := safe_extend algebra (ru_metric u) cost |} = true.
Proof.
  intros Hu Hk Hr Hm Hh. destruct (Hu hop Hk Hr Hm Hh) as [Hw _].
  pose proof (safe_extend_spec algebra (ru_metric u) cost). revert Hw. rewrite !in_window_spec. cbn.
  unfold INFINITY in *. lia.
Qed.

Lemma admit_update_keeps q P n key id hop u is_new nb :
  update_known P (nk_interface n) u -> ru_key u = Some key -> ru_router_id u = Some id ->
  ru_metric u <> INFINITY -> ru_next_hop u = Some hop -> (key = k -> q <> Free) ->
  keeps (safe q P) (admit_update n key id hop u is_new nb now).
Proof.
  intros Hu Hk Hid Hm Hh Hq. unfold admit_update. apply keeps_read. intros e0 _.
  set (metric := safe_extend _ _ _). destruct (_ && _); [apply keeps_ret|].
  apply keeps_bind; [apply keeps_gets|intros fd]. apply keeps_bind; [apply keeps_gets|intros sel].
  set (is_feasible := match fd with Some _ => _ | None => _ end). clearbody is_feasible.
  destruct (_ && _).
  { apply keeps_bind; [|keeps_walk]. apply keeps_at. intros. destruct fd; [|apply keeps_ret].
    by apply originate_seqno_request_keeps. }
  apply keeps_bind; [destruct is_feasible; [|apply request_improvement_keeps]|].
  { apply satisfy_requests_keeps; [done|]. intros -> ->. by eapply extended_window. }
  intros acts. apply keeps_bind; [|keeps_walk]. apply install_candidate_keeps. cbn [c_key]. intros ->. by apply received_safe.
Qed.

Lemma receive_update_keeps q P n u :
  update_known P (nk_interface n) u -> (ru_key u = Some k -> q <> Free) ->
  keeps (safe q P) (receive_update n u now).
Proof.
  intros Hu Hq. unfold receive_update. destruct (ru_key u) as [key|] eqn:Ek.
  - destruct (forbidden_destination _); [apply keeps_ret|]. destruct (Z.eqb_spec (ru_metric u) INFINITY) as [|Hm].
    { apply keeps_bind; [apply retract_candidate_keeps|keeps_walk]. }
    destruct (ru_router_id u) as [id|] eqn:Ei; [|apply keeps_ret]. apply keeps_bind; [apply keeps_gets|intros own].
    destruct own; [apply keeps_ret|]. destruct (ru_next_hop u) as [hop|] eqn:Eh; [|apply keeps_ret].
    apply keeps_bind; [apply keeps_gets|intros bad]. destruct bad; [apply keeps_ret|].
    unfold receive_route. apply keeps_bind; [apply keeps_gets|intros [nb|]]; [|apply keeps_ret].
    apply keeps_bind; [apply keeps_gets|intros accepted]. destruct accepted; simpl.
    + apply keeps_bind; [apply keeps_gets|intros is_new]. apply keeps_bind; [apply keeps_gets|intros [x|]].
      * apply keeps_bind; [apply refuse_candidate_keeps|keeps_walk].
      * apply admit_update_keeps; try done. intros ->. auto.
    + apply keeps_bind; [apply reject_import_keeps|keeps_walk].
  - apply keeps_bind; [|keeps_walk]. destruct (_ =? _); [apply retract_neighbour_keeps|apply keeps_ret].
Qed.

Lemma recompute_candidate_metrics_keeps q P only : keeps (safe q P) (recompute_candidate_metrics only).
Proof.
  unfold recompute_candidate_metrics. keeps_walk. 
  match goal with |- context [map_imap (fun i c => Some (@?g i c)) _] => set (f := g) end.
  change (map_imap _ (candidates e)) with (map_imap (fun i c => Some (f i c)) (candidates e)).
  apply candidates_map_safe; [| |done]; intros i c; unfold f; [by case_match|].
  case_match; [apply revalued_safe|done].
Qed.

(** ** Received packets *)

Lemma handle_seqno_request_keeps q P requester key seqno hops id :
  (q = Quiet -> key <> k) ->
  keeps (safe q P) (handle_seqno_request requester key seqno hops id now).
Proof.
  intros Hq. apply keeps_at. intros sel.
  assert (keeps (safe_at q P sel) (forward_seqno_request requester key seqno hops id now)) as Hfwd.
  { unfold forward_seqno_request. keeps_walk. apply originate_seqno_request_keeps. intros Ht E. by destruct (Hq Ht). }
  unfold handle_seqno_request. apply keeps_bind; [apply keeps_gets|intros own].
  apply keeps_bind; [apply keeps_gets|intros origin]. apply keeps_read. intros e He.
  destruct (_ && _); [keeps_walk|].
  set (found := match selected e !! key with Some _ => _ | None => _ end).
  destruct found as [s|] eqn:Ef.
  - apply keeps_bind; [|keeps_walk]. apply update_action_to_candidate_keeps.
    assert (selected e !! key = Some s) as Es
      by (unfold found in Ef; destruct (selected e !! key); [|done]; case_match; congruence).
    eapply announceable_selected; [exact He|]. destruct He as [_ <-]. exact Es.
  - destruct origin; [|done]. case_bool_decide; [|done]. unfold answer_own_request, bump_sequence_number.
    keeps_walk.
Qed.

(** A received packet about which enough is known. *)
Definition tlv_known (q : Requests) (P : known) (i : string) (t : Tlv) : Prop :=
  match t with
  | TUpdate u => update_known P i u /\ (ru_key u = Some k -> q <> Free)
  | TSeqnoRequest key _ _ _ _ => q = Quiet -> key <> k
  | _ => True
  end.

Lemma send_updates_safe q P only interface timing : keeps (safe q P) (send_updates now only interface timing).
Proof. apply keeps_at. intros. apply send_updates_keeps. Qed.

Lemma receive_tlv_keeps q P i address n acc t :
  tlv_known q P (nk_interface n) t -> keeps (safe q P) (receive_tlv i address n now acc t).
Proof.
  intros Hk. destruct t; try apply keeps_ret; simpl in Hk; unfold receive_tlv.
  - apply keeps_bind; [apply keeps_gets|intros ids]. apply keeps_bind; [|keeps_walk].
    destruct Hk. by apply receive_update_keeps.
  - apply keeps_bind; [|keeps_walk]. match goal with |- context [match ?o with _ => _ end] => destruct o end.
    + apply keeps_bind; [|keeps_walk]. apply keeps_at. intros. apply reply_to_route_request_keeps.
    + apply keeps_bind; [apply keeps_gets|intros []]; [apply send_updates_safe|apply keeps_ret].
  - apply keeps_bind; [by apply handle_seqno_request_keeps|keeps_walk].
Qed.

Lemma ihu_action_keeps q P key deadline : keeps (safe q P) (ihu_action key now deadline).
Proof. unfold ihu_action. by keeps_walk. Qed.

Lemma receive_hellos_keeps q P profile interval ts key l :
  keeps (safe q P) (receive_hellos profile interval now ts key l).
Proof. apply keeps_foldM. intros t b _. destruct t; by keeps_walk. Qed.

Lemma receive_ihus_keeps q P addrs key l : keeps (safe q P) (receive_ihus addrs now key l).
Proof. apply keeps_for_each. intros t _. destruct t; by keeps_walk. Qed.

Lemma receive_rtt_keeps q P profile sample key : keeps (safe q P) (receive_rtt profile sample now key).
Proof. unfold receive_rtt. by keeps_walk. Qed.

Lemma announce_router_id_keeps q P acts key : keeps (safe q P) (announce_router_id now acts key).
Proof. unfold announce_router_id. keeps_walk. apply send_updates_safe. Qed.

(** Once routes are selected again, nothing is known of what was not selected. *)
Definition after (q : Requests) : Requests := match q with Unrouted => Free | _ => q end.

Lemma safe_after q P e : safe q P e -> safe (after q) P e.
Proof. intros [I1 I2 I3 I4 I5 I6 I7 I8 I9]. split; try done. by destruct q. Qed.

Lemma receive_keeps q P i source packet ts :
  bounding P -> (forall t, t ∈ tlvs packet -> tlv_known q P i t) ->
  leads (safe q P) (safe (after q) P) (receive i source packet now ts).
Proof.
  intros HP Hk. pose proof (safe_after q P) as Hafter. unfold receive.
  apply leads_bind; [apply keeps_gets|intros [state|]]; [|by apply leads_keeps; [|apply keeps_ret]].
  destruct (negb _); [by apply leads_keeps; [|apply keeps_ret]|].
  apply leads_bind; [apply keeps_gets|intros [|]]; [by apply leads_keeps; [|keeps_walk]|].
  unfold process_packet. apply leads_bind; [apply keeps_gets|intros cost].
  apply leads_bind; [apply receive_hellos_keeps|intros ihu].
  apply leads_bind; [apply receive_rtt_keeps|intros _]. apply leads_bind; [apply receive_ihus_keeps|intros _].
  apply leads_bind; [apply keeps_gets|intros changed].
  apply leads_bind; [destruct changed; [apply recompute_candidate_metrics_keeps|apply keeps_ret]|intros routes].
  apply leads_bind; [destruct ihu; [apply ihu_action_keeps|apply keeps_ret]|intros ihu_sent].
  apply leads_bind; [apply keeps_foldM; intros t acc Ht; by apply receive_tlv_keeps, Hk|intros acc].
  apply leads_keeps; [done|].
  apply keeps_bind; [destruct (rc_routes_changed acc); [|apply keeps_ret]|intros acts].
  { apply reselect_keeps; [by destruct q|done]. }
  apply keeps_foldM. intros. apply announce_router_id_keeps.
Qed.

(** ** The tick *)

Lemma age_neighbours_keeps q P : keeps (safe q P) (age_neighbours now).
Proof. unfold age_neighbours. by keeps_walk. Qed.

Lemma expire_ihus_keeps q P : keeps (safe q P) (expire_ihus now).
Proof. unfold expire_ihus. by keeps_walk. Qed.

Lemma expire_neighbours_keeps q P : keeps (safe q P) expire_neighbours.
Proof.
  unfold expire_neighbours. apply keeps_bind; [apply keeps_gets|intros l]. apply keeps_bind; [|keeps_walk].
  apply keeps_for_each. intros n _. apply keeps_modify. intros e HI.
  apply (candidates_sub_safe q P (set_neighbours (delete n (neighbours e)) e)); [apply map_filter_subseteq|done].
Qed.

(** Live candidates of an engine that has just expired its tables last. *)
Definition fresh (P : known) : known := fun i h v x => P i h v x /\ now <= x.

Lemma candidate_fresh P c :
  candidate_safe P c -> c_advertised_metric c = INFINITY \/ now <= c_expires_ms c -> candidate_safe (fresh P) c.
Proof.
  intros [C1 C2] Hx. split; [done|]. intros Hr Ha. destruct (C2 Hr Ha). destruct Hx; [done|]. by split_and!.
Qed.

Lemma fresh_safe q P e : safe q (fresh P) e -> safe q P e.
Proof.
  intros [I1 I2 I3 I4 I5 I6 I7 I8 I9]. split; try done. intros n c Hc. destruct (I3 n c Hc) as [C1 C2].
  split; [done|]. intros Hr Ha. destruct (C2 Hr Ha) as [? []]. done.
Qed.

Lemma safe_fresh q P e :
  safe q P e ->
  (forall n c, candidates e !! (k, n) = Some c -> c_advertised_metric c = INFINITY \/ now <= c_expires_ms c) ->
  safe q (fresh P) e.
Proof. intros [I1 I2 I3 I4 I5 I6 I7 I8 I9] Hx. split; try done. intros n c Hc. apply candidate_fresh; eauto. Qed.

Lemma bounding_fresh P : bounding P -> bounding (fresh P).
Proof. intros HP i h v x [H _]. by eapply HP. Qed.

Lemma expire_candidate_keeps q P x : keeps (safe q P) (expire_candidate now x).
Proof.
  destruct x as [[key n] was]. unfold expire_candidate. destruct was.
  - keeps_walk. apply candidates_sub_safe; [apply delete_subseteq|done].
  - apply keeps_modify. intros e HI. apply candidates_alter_safe; [done| |done].
    intros c _. split; [cbn; unfold INFINITY; lia|done].
Qed.

(** A neighbour's counters change, the candidates do not. *)
Lemma with_neighbour_candidates n f e e' :
  with_neighbour n f e = Some (tt, e') -> candidates e' = candidates e.
Proof.
  unfold with_neighbour. intros (nb & e1 & [= <- <-] & E)%bind_inv. apply bind_inv in E as (nb' & e2 & H2 & E).
  apply bind_inv in E as (nb'' & e3 & H3 & E). unfold expect in *.
  destruct (neighbours e !! n) as [nb0|]; [|done]. injection H2 as <- <-.
  destruct (f nb0); [|done]. injection H3 as <- <-. injection E as <-. done.
Qed.

(** A candidate that is handled is gone or retracted, the others are untouched. *)
Lemma expire_candidate_effect key n was e e' key' n' c :
  expire_candidate now ((key, n), was) e = Some (tt, e') -> candidates e' !! (key', n') = Some c ->
  c_advertised_metric c = INFINITY \/ (candidates e !! (key', n') = Some c /\ (key', n') <> (key, n)).
Proof.
  unfold expire_candidate. destruct was.
  - intros ([] & e1 & [= <-] & E)%bind_inv. apply bind_inv in E as (o & e2 & [= <- <-] & E).
    assert (candidates e' = delete (key, n) (candidates e)) as ->.
    { destruct (neighbours _ !! _); [by apply with_neighbour_candidates in E|]. by injection E as <-. }
    rewrite lookup_delete_Some. intros [Hne H]. right. split; [done|congruence].
  - intros [= <-]. cbn [candidates set_candidates]. rewrite lookup_alter_Some.
    intros [(_ & c0 & _ & ->)|[Hne H]]; [by left|]. right. split; [done|congruence].
Qed.

Lemma expire_candidates_fresh q P e changed e' :
  safe q P e -> expire_candidates now e = Some (changed, e') -> safe q (fresh P) e'.
Proof.
  intros HI E. unfold expire_candidates in E. apply bind_inv in E as (l & e0 & [= <- <-] & E).
  apply bind_inv in E as ([] & e1 & E & [= _ <-]).
  set (l := _ <$> _) in E.
  assert (safe q P e1) as H1 by (by eapply (keeps_for_each _ _ l (fun x _ => expire_candidate_keeps q P x))).
  apply safe_fresh; [done|].
  assert (forall n c, candidates e !! (k, n) = Some c ->
    c_advertised_metric c = INFINITY \/ now <= c_expires_ms c \/ (k, n) ∈ l.*1) as H0.
  { intros n c Hc. destruct (Z.ltb_spec (c_expires_ms c) now) as [Hx|]; [|auto]. right. right.
    unfold l. rewrite <- list_fmap_compose. apply list_elem_of_fmap. exists ((k, n), c). split; [done|].
    apply elem_of_filter_bool. rewrite hm_iter_lookup. split; [done|]. lia. }
  clearbody l. unfold for_each in E. revert e E HI H0. induction l as [|[[key n] was] l IH]; intros e E HI H0.
  - injection E as <-. intros n c Hc. destruct (H0 n c Hc) as [?|[?|H]]; [auto..|]. by apply elem_of_nil in H.
  - cbn [foldM] in E. apply bind_inv in E as ([] & e2 & Hx & E).
    apply (IH e2); [exact E|by eapply expire_candidate_keeps|]. intros n' c Hc.
    destruct (expire_candidate_effect _ _ _ _ _ _ _ _ Hx Hc) as [?|[Hc' Hne]]; [auto|].
    destruct (H0 n' c Hc') as [?|[?|H]]; [auto..|]. cbn in H. apply elem_of_cons in H as [H|H]; [by simplify_eq|auto].
Qed.

Lemma refresh_candidates_keeps q P : keeps (safe q P) (refresh_candidates now).
Proof.
  unfold refresh_candidates. apply keeps_bind; [apply keeps_gets|intros acts].
  apply keeps_bind; [|keeps_walk]. apply keeps_modify. intros e HI. apply (candidates_map_safe q P e
    (fun i c => if refresh_due e now i.1 c then set_c_refresh_requested true c else c)); [| |done].
  - intros i c. by case_match.
  - intros i c Hc. case_match; [|done]. destruct Hc. by split.
Qed.

Lemma expire_tables_keeps q P : keeps (safe q P) (expire_tables now).
Proof.
  unfold expire_tables. keeps_walk. destruct HI as [I1 I2 I3 I4 I5 I6 I7 I8 I9].
  assert (forall src, filter (fun '(_, source) => now <= s_expires_ms source) (feasible e) !! (k, r) = Some src ->
    feasible e !! (k, r) = Some src) as Hs by (by intros src [? _]%map_lookup_filter_Some).
  split; try done; cbn [feasible set_feasible]; [eauto..|].
  intros v x Hv. destruct (I8 v x Hv) as (src & E & L1 & L2). exists src. split; [|done].
  apply map_lookup_filter_Some. split; [done|]. apply held_time in Hv. lia.
Qed.

Lemma recompute_all_keeps q P keys : keeps (safe q P) (recompute_all keys).
Proof.
  apply keeps_foldM. intros n b _. apply keeps_bind; [apply recompute_candidate_metrics_keeps|keeps_walk].
Qed.

Lemma tick_expire_fresh q P e a e' : safe q P e -> tick_expire now e = Some (a, e') -> safe q (fresh P) e'.
Proof.
  intros HI E. unfold tick_expire in E. apply bind_inv in E as (aged & e1 & H1 & E).
  apply bind_inv in E as (gone & e2 & H2 & E). apply bind_inv in E as (silent & e3 & H3 & E).
  apply bind_inv in E as (expired & e4 & H4 & E).
  apply (age_neighbours_keeps q P) in H1; [|exact HI]. apply (expire_neighbours_keeps q P) in H2; [|exact H1].
  apply (expire_ihus_keeps q P) in H3; [|exact H2]. eapply expire_candidates_fresh in H4; [|exact H3].
  revert e4 a e' H4 E. apply keeps_bind; [apply refresh_candidates_keeps|intros acts].
  apply keeps_bind; [apply expire_tables_keeps|intros dropped].
  apply keeps_bind; [apply recompute_all_keeps|keeps_walk].
Qed.

Lemma tick_select_keeps q P n b : q <> Unrouted -> bounding P -> keeps (safe q P) (tick_select now n b).
Proof.
  intros Hmode HP. unfold tick_select, route_snapshot. apply keeps_bind; [apply keeps_gets|intros sw].
  apply keeps_bind; [destruct (_ || _); [by apply reselect_keeps|apply keeps_ret]|intros acts]. by keeps_walk.
Qed.

Lemma retry_request_keeps q P acts x : keeps (safe q P) (retry_request now acts x).
Proof.
  apply keeps_at. intros sel. destruct x as [[key id] p]. unfold retry_request. destruct (_ =? 0).
  - apply keeps_bind; [|keeps_walk]. apply keeps_modify. intros e He. by apply pending_sub_keeps; [apply delete_subseteq|].
  - apply keeps_read. intros e He. apply keeps_bind; [|keeps_walk].
    destruct (pending_seqno e !! (key, id)) as [old|] eqn:Eq; [|apply keeps_ret].
    apply keeps_bind; [apply keeps_expect|intros left]. apply keeps_modify. intros e' He'.
    apply pending_insert_keeps; [|done]. intros -> ->. destruct He as [HI _].
    exact (sf_requests HI _ _ Eq).
Qed.

Lemma repeat_one_keeps q P acts key : keeps (safe q P) (repeat_one now acts key).
Proof. unfold repeat_one. keeps_walk. apply send_updates_safe. Qed.

Lemma tick_interface_keeps q P acts i : keeps (safe q P) (tick_interface now acts i).
Proof. unfold tick_interface. keeps_walk; apply send_updates_safe. Qed.

Lemma tick_fresh q P e acts e' : q <> Unrouted -> bounding P -> safe q P e -> tick now e = Some (acts, e') -> safe q (fresh P) e'.
Proof.
  intros Hmode HP HI E. unfold tick in E. apply bind_inv in E as (n & e0 & [= <- <-] & E).
  apply bind_inv in E as (expired & e1 & H1 & E). eapply tick_expire_fresh in H1; [|exact HI].
  revert e1 acts e' H1 E. apply keeps_bind; [by apply tick_select_keeps, bounding_fresh|intros l1].
  apply keeps_bind; [|intros l2; apply keeps_bind; [|intros l3; apply keeps_bind; [|intros l4]]].
  - apply keeps_bind; [apply keeps_gets|intros due]. apply keeps_foldM. intros. apply retry_request_keeps.
  - apply keeps_bind; [apply keeps_gets|intros keys]. apply keeps_foldM. intros. apply repeat_one_keeps.
  - apply keeps_bind; [apply keeps_gets|intros due]. apply keeps_foldM. intros [n' deadline] l _.
    apply keeps_bind; [apply ihu_action_keeps|keeps_walk].
  - apply keeps_bind; [apply keeps_gets|intros names]. apply keeps_foldM. intros. apply tick_interface_keeps.
Qed.

Lemma tick_keeps q P : q <> Unrouted -> bounding P -> keeps (safe q P) (tick now).
Proof. intros Hmode HP e a e' HI E. apply fresh_safe. by eapply tick_fresh. Qed.

(** ** Events *)

Lemma clear_interface_keeps q P i : keeps (safe q P) (clear_interface i).
Proof.
  apply keeps_modify. intros e HI.
  apply (candidates_sub_safe q P (set_neighbours (filter (fun '(n, _) => nk_interface n <> i) (neighbours e)) e));
    [apply map_filter_subseteq|done].
Qed.

Lemma interface_up_keeps q P i addresses policy : q <> Unrouted -> bounding P -> keeps (safe q P) (interface_up i addresses policy now).
Proof.
  intros Hmode HP. unfold interface_up. apply keeps_bind; [by apply keeps_modify|intros _].
  apply keeps_bind; [by apply tick_keeps|keeps_walk].
Qed.

Lemma reset_metrics_keeps q P policy i : q <> Unrouted -> bounding P -> keeps (safe q P) (reset_metrics policy i now).
Proof.
  intros Hmode HP. unfold reset_metrics. apply keeps_bind; [by apply keeps_modify|intros _].
  apply keeps_bind; [apply recompute_candidate_metrics_keeps|intros []]; [by apply reselect_keeps|apply keeps_ret].
Qed.

Lemma interface_policy_changed_keeps q P i policy reset :
  q <> Unrouted -> bounding P -> keeps (safe q P) (interface_policy_changed i policy reset now).
Proof.
  intros Hmode HP. unfold interface_policy_changed. apply keeps_bind; [apply keeps_gets|intros [state|]]; [|apply keeps_ret].
  apply keeps_bind; [by apply keeps_modify|intros _].
  apply keeps_bind; [destruct (bool_decide _); [|apply keeps_ret]|intros l1].
  { apply keeps_bind; [apply clear_interface_keeps|intros _]. by apply reselect_keeps. }
  apply keeps_bind; [destruct reset; [by apply reset_metrics_keeps|apply keeps_ret]|intros l2].
  apply keeps_bind; [apply send_updates_safe|intros l3]. apply keeps_bind; [by apply tick_keeps|keeps_walk].
Qed.

Lemma interface_addresses_changed_keeps q P i addresses :
  keeps (safe q P) (interface_addresses_changed i addresses now).
Proof. unfold interface_addresses_changed. keeps_walk; apply send_updates_safe. Qed.

Lemma interface_down_keeps q P i : q <> Unrouted -> bounding P -> keeps (safe q P) (interface_down i now).
Proof.
  intros Hmode HP. unfold interface_down. apply keeps_bind; [by apply keeps_modify|intros _].
  apply keeps_bind; [apply clear_interface_keeps|intros _]. by apply reselect_keeps.
Qed.

Lemma hold_withdrawal_keeps q P key : keeps (safe q P) (hold_withdrawal key now).
Proof. by apply keeps_modify. Qed.
Lemma repeat_advertisement_safe q P key : keeps (safe q P) (repeat_advertisement key now).
Proof. by apply keeps_modify. Qed.
Lemma bump_sequence_number_keeps q P : keeps (safe q P) bump_sequence_number.
Proof. by apply keeps_modify. Qed.

#[local] Hint Resolve reselect_keeps send_updates_safe hold_withdrawal_keeps repeat_advertisement_safe
  route_snapshot_keeps bump_sequence_number_keeps : keeps.

Lemma originate_keeps q P key metric : q <> Unrouted -> bounding P -> keeps (safe q P) (originate key metric now).
Proof. intros Hmode HP. unfold originate. keeps_walk. Qed.

Lemma withdraw_keeps q P key : q <> Unrouted -> bounding P -> keeps (safe q P) (withdraw key now).
Proof. intros Hmode HP. unfold withdraw. keeps_walk. Qed.

Lemma replace_origins_keeps q P origins : q <> Unrouted -> bounding P -> keeps (safe q P) (replace_origins origins now).
Proof.
  intros Hmode HP. unfold replace_origins. keeps_walk.
  - apply keeps_for_actions. intros. keeps_walk.
  - apply keeps_for_each. intros. keeps_walk.
Qed.

Lemma replace_route_policy_keeps q P policy : q <> Unrouted -> bounding P -> keeps (safe q P) (replace_route_policy policy now).
Proof.
  intros Hmode HP. unfold replace_route_policy. apply keeps_bind; [by apply keeps_modify|intros _].
  apply keeps_bind; [|intros _; apply keeps_bind; [|intros _; apply keeps_bind; [|intros _]]].
  - apply keeps_modify. intros e HI. apply candidates_sub_safe; [apply map_filter_subseteq|done].
  - by apply keeps_modify.
  - apply keeps_at. intros sel. apply keeps_modify. intros e HI.
    apply pending_sub_keeps; [apply map_filter_subseteq|done].
  - keeps_walk. apply keeps_for_each. intros. keeps_walk.
Qed.

(** What has to be known of an event. *)
Definition event_known (q : Requests) (P : known) (event : Event) : Prop :=
  match event with
  | PacketReceived i _ packet _ | PacketReceivedWithTimestamp i _ packet _ _ =>
      forall t, t ∈ tlvs packet -> tlv_known q P i t
  | _ => True
  end.

(** Every event keeps the invariant. *)
Lemma handle_keeps q P event :
  bounding P -> event_time event = now -> event_known q P event ->
  leads (safe q P) (safe (after q) P) (handle event).
Proof.
  intros HP Ht Hk.
  assert (leads (safe q P) (safe (after q) P) (handle_validated event)) as Hv.
  { assert (after q <> Unrouted) as Hmode by (by destruct q). pose proof (safe_after q P) as Hafter.
    destruct event; cbn in Ht; rewrite Ht; cbn in Hk; unfold handle_validated; try (by apply receive_keeps);
      (apply leads_keeps; [done|]).
    - by apply replace_route_policy_keeps.
    - apply keeps_bind; [apply keeps_gets|intros policy]. by apply interface_up_keeps.
    - by apply interface_up_keeps.
    - by apply interface_policy_changed_keeps.
    - apply interface_addresses_changed_keeps.
    - by apply interface_down_keeps.
    - by apply originate_keeps.
    - by apply withdraw_keeps.
    - by apply replace_origins_keeps.
    - by apply tick_keeps. }
  intros e a e' HI E. unfold handle in E. apply bind_inv in E as (l & e1 & H1 & E).
  apply bind_inv in E as ([] & e2 & [= <-] & [= _ <-]). exact (Hv _ _ _ HI H1).
Qed.

(** A tick leaves no live candidate past its time. *)
Lemma handle_tick_fresh q P e acts e' :
  q <> Unrouted -> bounding P -> safe q P e -> handle (Tick now) e = Some (acts, e') -> safe q (fresh P) e'.
Proof.
  intros Hmode HP HI E. unfold handle in E. apply bind_inv in E as (l & e1 & H1 & E).
  apply (tick_fresh q P) in H1; [|done|done|exact HI]. apply bind_inv in E as ([] & e2 & [= <-] & [= _ <-]). exact H1.
Qed.
End Loop.

Arguments sf_own {NL k r w F held q P own cands sel sources pending} _.
Arguments sf_keys {NL k r w F held q P own cands sel sources pending} _.
Arguments sf_candidates {NL k r w F held q P own cands sel sources pending} _.
Arguments sf_selected {NL k r w F held q P own cands sel sources pending} _.
Arguments sf_route {NL k r w F held q P own cands sel sources pending} _.
Arguments sf_feasible {NL k r w F held q P own cands sel sources pending} _.
Arguments sf_sources {NL k r w F held q P own cands sel sources pending} _.
Arguments sf_held {NL k r w F held q P own cands sel sources pending} _.
Arguments sf_requests {NL k r w F held q P own cands sel sources pending} _.

(** * The router-id never changes *)

(** Walk through a computation into everything it calls. *)
Ltac call_of m := lazymatch m with ?f _ => call_of f | _ => m end.
Ltac keeps_deep :=
  repeat first
    [ keeps_step
    | lazymatch goal with
      | |- keeps _ (foldM _ _ _) => apply keeps_foldM
      | |- keeps _ (for_each _ _) => apply keeps_for_each
      | |- keeps _ (for_actions _ _) => apply keeps_for_actions
      | |- keeps _ ?m => let f := call_of m in unfold f
      end ].

Section Identity.
Context {NL : IpNetLib} {MI : MetricImpl} {HO : HashOrder} {B : Build} (id : RouterId).

Definition named (e : Engine) : Prop := cfg_router_id (config e) = id.

Lemma send_updates_named now only i t : keeps named (send_updates now only i t).
Proof. keeps_deep. Qed.
#[local] Hint Resolve send_updates_named : keeps.
Lemma reselect_named now : keeps named (reselect now).
Proof. keeps_deep. Qed.
#[local] Hint Resolve reselect_named : keeps.
Lemma tick_named now : keeps named (tick now).
Proof. keeps_deep. Qed.
#[local] Hint Resolve tick_named : keeps.
Lemma receive_named i source packet now ts : keeps named (receive i source packet now ts).
Proof. keeps_deep. Qed.
#[local] Hint Resolve receive_named : keeps.
Lemma handle_named event : keeps named (handle event).
Proof. keeps_deep. Qed.
End Identity.
