(* ===== verification/SourceTheorems.v ===== *)
(** The source table as the memory of what was announced: the distance that an
    event announces is recorded, with a distance that is no worse, for the full
    time of a source, and a recorded distance never gets worse before it expires.

    Sequence numbers are compared modulo 2^16, which orders the distances of one
    destination and origin only while they lie in a window of 2^15 numbers.  In
    such a window a distance is a number ([LoopSpec.value]), smaller is better,
    and the statements compare these numbers. *)
From S2P Require Import Prelude Net Model Metric Wire Api EngineState Deadlines Sources Output Rib Neighbors Timers Engine OutputSpec Invariant AdmissionSpec SelectionSpec ReceiveSpec TimersSpec EngineSpec Demo LoopSpec.
Import Hello.
Local Open Scope Z_scope.

(** * Computations that go from one claim to another

    [I G] is a predicate of the state that includes the claim [G]; a computation
    yields [V] if the claim [V a] is justified after it returned [a]. *)

Section Yields.
Context {NL : IpNetLib} {MI : MetricImpl} (I : Prop -> Engine -> Prop).
Context (I_weaken : forall (G G' : Prop) e, (G' -> G) -> I G e -> I G' e).

Definition yields {A} (G : Prop) (m : M A) (V : A -> Prop) : Prop :=
  forall e a e', I G e -> m e = Some (a, e') -> I (V a) e'.

Lemma yields_ret {A} (G : Prop) (a : A) (V : A -> Prop) : (V a -> G) -> yields G (mret a) V.
Proof. intros H e b e' HI [= <- <-]. by eapply I_weaken. Qed.

Lemma yields_gets {A} (G : Prop) (f : Engine -> A) (V : A -> Prop) :
  (forall e, V (f e) -> G) -> yields G (gets f) V.
Proof. intros H e b e' HI [= <- <-]. eapply I_weaken; [apply H|done]. Qed.

Lemma yields_keeps {A} (G : Prop) (m : M A) : keeps (I G) m -> yields G m (fun _ => G).
Proof. intros H e a e'. apply H. Qed.

Lemma yields_bind {A B} (G : Prop) (m : M A) V (f : A -> M B) W :
  yields G m V -> (forall a, yields (V a) (f a) W) -> yields G (m ≫= f) W.
Proof. intros Hm Hf e b e' HI (a & e1 & H1 & H2)%bind_inv. eapply Hf; [|exact H2]. by eapply Hm. Qed.

(** A step that keeps every claim. *)
Lemma yields_pass {A B} (G : Prop) (m : M A) (f : A -> M B) W :
  keeps (I G) m -> (forall a, yields G (f a) W) -> yields G (m ≫= f) W.
Proof. intros Hm Hf. by eapply yields_bind; [apply yields_keeps|]. Qed.

Lemma yields_read {A B} (G : Prop) (g : Engine -> A) (f : A -> M B) W :
  (forall e, I G e -> yields G (f (g e)) W) -> yields G (gets g ≫= f) W.
Proof. intros Hf e b e' HI E. eapply (Hf e HI); eassumption. Qed.

Lemma yields_foldM {A B} (f : B -> A -> M B) (V : B -> Prop) l :
  (forall a b, a ∈ l -> yields (V b) (f b a) V) -> forall b, yields (V b) (foldM f b l) V.
Proof.
  induction l as [|a l IH]; intros Hf b; simpl; [by apply yields_ret|].
  eapply yields_bind; [apply Hf; set_solver|]. intros b'. apply IH. intros. apply Hf. set_solver.
Qed.

Lemma yields_mono {A} (G : Prop) (m : M A) (V W : A -> Prop) :
  (forall a, W a -> V a) -> yields G m V -> yields G m W.
Proof. intros H Hm e a e' HI E. eapply I_weaken; [apply H|]. by eapply Hm. Qed.

Lemma yields_from {A} (G G' : Prop) (m : M A) (V : A -> Prop) :
  (G -> G') -> yields G m V -> yields G' m V.
Proof. intros H Hm e a e' HI E. eapply Hm; [|exact E]. by eapply I_weaken. Qed.
End Yields.

(** * Announcements *)

Section Sent.
Context {NL : IpNetLib} {MI : MetricImpl} {HO : HashOrder} {B : Build}.
Context (k : RouteKey) (r : RouterId) (w now : Z).
Context (F : string -> IpAddr -> Z) (P : string -> IpAddr -> Z -> Z -> Prop) (v : Z) (q : Requests).
Context (now_u64 : in_u64 now) (now_gc : now + SOURCE_GC_TIME_MS <= u64_max) (HP : bounding F P).

(** A finite update for [k] of origin [r] with a distance of value [v]. *)
Definition announces (u : OutboundUpdate) : Prop :=
  ou_key u = Some k /\ ou_router_id u = Some r /\ finite u = true /\
  value w {| d_seqno := ou_seqno u; d_metric := ou_metric u |} = v.

Definition tlv_has (t : OutboundTlv) : Prop := match t with OUpdate u => announces u | _ => False end.
Definition tlvs_have (l : list OutboundTlv) : Prop := Exists tlv_has l.
Definition action_has (a : Action) : Prop :=
  match a with Send _ _ packet _ => tlvs_have (out_tlvs packet) | _ => False end.
Definition has (l : list Action) : Prop := Exists action_has l.

Lemma has_app l l' : has (l ++ l') <-> has l \/ has l'.
Proof. apply Exists_app. Qed.
Lemma has_cons a l : has (a :: l) <-> action_has a \/ has l.
Proof. apply Exists_cons. Qed.
Lemma has_nil : has [] <-> False.
Proof. apply Exists_nil. Qed.
Lemma tlvs_have_app l l' : tlvs_have (l ++ l') <-> tlvs_have l \/ tlvs_have l'.
Proof. apply Exists_app. Qed.
Lemma tlvs_have_one t : tlvs_have [t] <-> tlv_has t.
Proof. unfold tlvs_have. rewrite Exists_cons, Exists_nil. tauto. Qed.
Lemma tlvs_have_nil : tlvs_have [] <-> False.
Proof. apply Exists_nil. Qed.

(** The recorded distance is as good as [v] and lasts, provided [G] holds. *)
Definition lasting (G : Prop) : Z -> Z -> Prop := fun v' x => G /\ v' = v /\ x = now + SOURCE_GC_TIME_MS.

Lemma lasting_time G v' x : lasting G v' x -> now <= x <= now + SOURCE_GC_TIME_MS.
Proof. intros (_ & _ & ->). unfold SOURCE_GC_TIME_MS. lia. Qed.

Abbreviation good := (fun G : Prop => safe k r w F (lasting G) q P).
Abbreviation good_at sel := (fun G : Prop => safe_at k r w F (lasting G) q P sel).

Lemma good_weaken (G G' : Prop) e : (G' -> G) -> good G e -> good G' e.
Proof.
  intros H [I1 I2 I3 I4 I5 I6 I7 I8 I9]. split; try done. intros v' x (HG & ? & ?). apply I8. by split; [apply H|].
Qed.
Lemma good_at_weaken sel (G G' : Prop) e : (G' -> G) -> good_at sel G e -> good_at sel G' e.
Proof. intros H [HI Hs]. split; [by eapply good_weaken|done]. Qed.

Lemma yields_at {A} (G : Prop) (m : M A) V : (forall sel, yields (good_at sel) G m V) -> yields good G m V.
Proof. intros H e a e' HI E. by destruct (H (selected e) e a e' (conj HI eq_refl) E). Qed.

(** Recording the announced distance justifies the claim. *)
Lemma maintain_source_records G sel key id d :
  announceable k r w F sel key id d ->
  yields (good_at sel) G (maintain_source key id d now) (fun _ => G \/ (key = k /\ id = r /\ value w d = v)).
Proof.
  intros Ha e [] e' HI E.
  assert (good_at sel G e') as HI'
    by (eapply (maintain_source_keeps k r w now F); try eassumption; apply lasting_time).
  destruct (decide ((key, id) = (k, r))) as [[= -> ->]|Hne]; [|eapply good_at_weaken; [|exact HI']; intros [?|(-> & -> & _)]; done].
  destruct (announceable_farther _ _ _ _ _ _ _ _ _ _ HI Ha) as [Wd _]. destruct HI as [HI Hsel].
  assert (exists src, feasible e' !! (k, r) = Some src /\ value w (s_distance src) <= value w d /\
    now + SOURCE_GC_TIME_MS <= s_expires_ms src) as (src & Es & L1 & L2).
  { injection E as <-. cbn [feasible set_feasible]. rewrite lookup_insert, decide_True by done.
    eexists. split; [done|]. cbn. fold (feasible_against d (s_distance (default
      (MkSourceEntry d (saturating_add64 now SOURCE_GC_TIME_MS)) (feasible e !! (k, r))))).
    split; [|unfold saturating_add64; lia].
    destruct (feasible e !! (k, r)) as [src|] eqn:Ef; simpl.
    - rewrite (feasible_value w) by (done || by eapply (sf_sources HI)).
      destruct (Z.ltb_spec (value w d) (value w (s_distance src))); lia.
    - destruct (feasible_against d d); lia. }
  destruct HI' as [[I1 I2 I3 I4 I5 I6 I7 I8 I9] Hsel']. split; [|done]. split; try done.
  intros v' x ([HG|(_ & _ & Hv)] & -> & ->); [by apply I8|]. exists src. split; [done|]. lia.
Qed.

Lemma record_if_records G sel (b : bool) key id d :
  announceable k r w F sel key id d ->
  yields (good_at sel) G (if b then maintain_source key id d now else mret tt)
    (fun _ => G \/ (b = true /\ key = k /\ id = r /\ value w d = v)).
Proof.
  intros Ha. destruct b.
  - eapply yields_mono; [apply good_at_weaken| |by apply maintain_source_records]. tauto.
  - apply yields_ret; [apply good_at_weaken|]. by intros [?|[? _]].
Qed.

(** What a finite advertisement says. *)
Lemma advertisement_announces e i key id seqno metric :
  announces (advertisement e i key id seqno metric) ->
  finite (advertisement e i key id seqno metric) = true /\ key = k /\ id = r /\
  value w {| d_seqno := seqno; d_metric := metric |} = v.
Proof.
  intros (H1 & H2 & H3 & H4). split; [done|]. destruct (advertisement_finite _ _ _ _ _ _ H3) as [Hm _].
  rewrite Hm in H4. cbn in H1, H2. split_and!; [congruence..|exact H4].
Qed.

Definition emits_at (sel : gmap RouteKey SelectedRoute) (m : M (list Action)) : Prop :=
  forall G, yields (good_at sel) G m (fun l => G \/ has l).
Definition emits (m : M (list Action)) : Prop := forall G, yields good G m (fun l => G \/ has l).

Lemma update_action_to_candidate_emits G sel key id seqno metric dest :
  announceable k r w F sel key id {| d_seqno := seqno; d_metric := metric |} ->
  yields (good_at sel) G (update_action_to_candidate key id seqno metric dest now) (fun a => G \/ action_has a).
Proof.
  intros Ha. unfold update_action_to_candidate. apply yields_read. intros e _. set (u := advertisement _ _ _ _ _ _).
  destruct (finite u) eqn:E.
  - destruct (advertisement_finite _ _ _ _ _ _ E) as [Hm _]. fold u in Hm. rewrite Hm.
    eapply yields_bind; [by apply maintain_source_records|]. intros []. apply yields_ret; [apply good_at_weaken|].
    intros [?|H]; [auto|]. apply tlvs_have_one, advertisement_announces in H. tauto.
  - apply yields_pass; [apply keeps_ret|]. intros []. apply yields_ret; [apply good_at_weaken|].
    intros [?|H]; [done|]. apply tlvs_have_one in H. destruct H as (_ & _ & H & _). fold u in H. congruence.
Qed.

Lemma reply_to_route_request_emits G sel key dest :
  yields (good_at sel) G (reply_to_route_request key dest now) (fun a => G \/ action_has a).
Proof.
  unfold reply_to_route_request. apply yields_read. intros e He. destruct (originated e !! key) as [o|].
  - apply update_action_to_candidate_emits. by eapply announceable_own.
  - destruct (selected e !! key) as [s|] eqn:Es; simpl.
    + apply update_action_to_candidate_emits. pose proof He as [HI Hs]. rewrite Hs in Es.
      pose proof (announceable_selected _ _ _ _ _ _ _ _ _ _ _ He Es) as H.
      rewrite <- Hs in Es. by rewrite (sf_selected HI _ _ Es) in H.
    + apply yields_gets; [apply good_at_weaken|]. intros e' [?|H]; [done|]. apply tlvs_have_one in H. destruct H as (_ & H & _). done.
Qed.

Lemma push_update_emits G sel i key id seqno metric skip l :
  announceable k r w F sel key id {| d_seqno := seqno; d_metric := metric |} ->
  yields (good_at sel) (G \/ tlvs_have l) (push_update i key id seqno metric now skip l)
    (fun l => G \/ tlvs_have l).
Proof.
  intros Ha. unfold push_update. apply yields_read. intros e _.
  destruct (skip _); [by apply yields_ret; [apply good_at_weaken|]|].
  eapply yields_bind; [by apply record_if_records|]. intros []. apply yields_ret; [apply good_at_weaken|].
  rewrite tlvs_have_app, tlvs_have_one. intros [?|[?|H%advertisement_announces]]; tauto.
Qed.

Lemma interface_updates_emits sel only timing origins routes keys i :
  (forall s, s ∈ routes -> announceable k r w F sel (sr_key s) (sr_router_id s) (route_distance s)) ->
  emits_at sel (interface_updates now only timing origins routes keys i).
Proof.
  intros Hr G. unfold interface_updates. apply yields_read. intros e0 He0.
  destruct (interfaces e0 !! i); [|apply yields_ret; [apply good_at_weaken|by rewrite has_nil; intros [|]]].
  pose (V := fun l => G \/ tlvs_have l).
  apply (yields_bind _ G _ V); [|intros l1; apply (yields_bind _ _ _ V); [|intros l2; apply (yields_bind _ _ _ V); [|intros l3]]].
  - apply (yields_from _ (good_at_weaken sel) (V [])); [unfold V; rewrite tlvs_have_nil; tauto|].
    apply yields_foldM; [apply good_at_weaken|]. intros [key o] l _.
    destruct (wanted only key); [|by apply yields_ret; [apply good_at_weaken|]].
    apply yields_read. intros e He. apply push_update_emits. by eapply announceable_own.
  - apply yields_foldM; [apply good_at_weaken|]. intros s l Hs.
    destruct (wanted only _); [|by apply yields_ret; [apply good_at_weaken|]]. by apply push_update_emits, Hr.
  - apply yields_foldM; [apply good_at_weaken|]. intros key l Hs. apply yields_gets; [apply good_at_weaken|].
    intros e. case_match; [|done]. unfold V. rewrite tlvs_have_app, tlvs_have_one.
    intros [?|[?|[Hf _]%advertisement_announces]]; [auto..|]. by rewrite advertisement_infinite in Hf.
  - apply yields_pass.
    { destruct (_ && _); [apply note_full_update_keeps|apply keeps_ret]. }
    intros []. case_bool_decide; [|apply yields_ret; [apply good_at_weaken|unfold V; rewrite has_nil; tauto]].
    apply yields_pass; [apply keeps_gets|]. intros st. apply yields_pass; [apply keeps_expect|]. intros st'.
    apply yields_ret; [apply good_at_weaken|]. unfold V. rewrite has_cons, has_nil. simpl. tauto.
Qed.

Lemma for_actions_emits {A} sel (f : A -> M (list Action)) l :
  (forall a, a ∈ l -> emits_at sel (f a)) -> emits_at sel (for_actions l f).
Proof.
  intros Hf G. unfold for_actions. apply (yields_from _ (good_at_weaken sel) (G \/ has [])); [rewrite has_nil; tauto|].
  apply (yields_foldM _ (good_at_weaken sel) _ (fun l => G \/ has l)). intros a acts Ha.
  eapply yields_bind; [by apply Hf|]. intros more. apply yields_ret; [apply good_at_weaken|].
  rewrite has_app. tauto.
Qed.

Lemma send_updates_emits sel only interface timing : emits_at sel (send_updates now only interface timing).
Proof.
  intros G. unfold send_updates. apply yields_read. intros e1 _. apply yields_read. intros e2 _.
  apply yields_read. intros e He. apply yields_read. intros e3 _. apply for_actions_emits. intros i _.
  apply interface_updates_emits. intros s (p & -> & Hp)%list_elem_of_fmap. destruct p as [key s].
  eapply announceable_selected; [exact He|]. destruct He as [_ <-]. unfold only_entries in Hp.
  destruct only as [key'|]; [|by apply btree_iter_lookup in Hp].
  destruct (selected e !! key') eqn:E; [|by apply elem_of_nil in Hp].
  apply list_elem_of_singleton in Hp. by simplify_eq.
Qed.

(** ** Lists of actions *)

(** Close [V a -> G] goals over concatenated action lists. *)
Ltac has_simpl := cbv beta; rewrite ?has_app, ?has_cons, ?has_nil.

Lemma request_harmless key id seqno hops n t : ~ action_has (seqno_request_action key id seqno hops n t).
Proof. unfold action_has. simpl. rewrite tlvs_have_one. by intros []. Qed.

Lemma retraction_harmless e key seqno t : ~ has (send_retraction e key seqno t).
Proof.
  unfold has, send_retraction. rewrite list.Exists_exists. intros (a & Ha & H).
  apply list_elem_of_fmap in Ha as ([i st] & -> & _). apply tlvs_have_one in H. by destruct H as (_ & _ & H & _).
Qed.

Lemma originate_seqno_request_emits sel request :
  (q = Quiet -> rq_key request = k -> rq_requester request = None) ->
  emits_at sel (originate_seqno_request request now).
Proof.
  intros Hq G. unfold originate_seqno_request. apply yields_pass.
  { apply keeps_modify. intros e. by apply pending_insert_keeps. }
  intros []. apply yields_ret; [apply good_at_weaken|]. has_simpl. intros [?|[H|[]]]; [done|]. by apply request_harmless in H.
Qed.

(** ** Route selection *)

Lemma repeat_keeps G sel key : keeps (good_at sel G) (repeat_advertisement key now).
Proof. by apply keeps_modify. Qed.

Lemma announce_loss_emits sel targets acts lost G :
  yields (good_at sel) (G \/ has acts) (announce_loss targets now acts lost) (fun l => G \/ has l).
Proof.
  destruct lost as [key s]. unfold announce_loss. apply yields_pass; [apply keeps_gets|]. intros [];
    [|by apply yields_ret; [apply good_at_weaken|]].
  apply yields_pass; [apply repeat_keeps|]. intros [].
  apply yields_read. intros e _. apply yields_pass; [apply keeps_gets|]. intros wanted_seqno.
  apply yields_pass; [apply keeps_gets|]. intros idle.
  eapply (yields_bind _ _ _ (fun l => (G \/ has acts) \/ has l)).
  - destruct (targets key); [destruct idle|]; [by apply originate_seqno_request_emits|..];
      (apply yields_ret; [apply good_at_weaken|]; has_simpl; tauto).
  - intros reqs. apply yields_ret; [apply good_at_weaken|]. has_simpl.
    pose proof (retraction_harmless e key (sr_seqno s) now). tauto.
Qed.

Lemma make_urgent_has l : has (make_urgent now <$> l) <-> has l.
Proof.
  induction l as [|a l IH]; [done|]. rewrite fmap_cons, !has_cons, IH. by destruct a.
Qed.

Lemma advertise_learned_has e s metric i :
  has (advertise_learned e s metric i now) ->
  existsb sends_finite_update (advertise_learned e s metric i now) = true /\
  sr_key s = k /\ sr_router_id s = r /\ value w {| d_seqno := sr_seqno s; d_metric := metric |} = v.
Proof.
  unfold has. rewrite list.Exists_exists. intros (a & Ha & H). pose proof Ha as Hin.
  unfold advertise_learned in Ha. apply list_elem_of_omap in Ha as ([j st] & _ & Hj).
  case_match; [done|]. injection Hj as <-. apply tlvs_have_one in H.
  apply advertisement_announces in H as (Hf & ? & ? & ?). split_and!; try done.
  apply existsb_exists. eexists. split; [by apply list_elem_of_In|]. simpl. by rewrite Hf.
Qed.

Lemma announce_change_emits sel before acts key s G :
  sel !! key = Some s ->
  yields (good_at sel) (G \/ has acts) (announce_change before now acts s) (fun l => G \/ has l).
Proof.
  intros Hs. unfold announce_change. apply yields_pass; [apply repeat_keeps|]. intros [].
  apply yields_read. intros e He.
  set (l := advertise_learned _ _ _ _ _).
  match goal with |- context [existsb sends_finite_update ?x] => set (l' := x) end.
  assert (has l' <-> has l) as Hl by (unfold l'; case_match; [apply make_urgent_has|done]).
  assert (existsb sends_finite_update l' = existsb sends_finite_update l) as ->
    by (unfold l'; case_match; [apply make_urgent_finite|done]).
  eapply yields_bind; [apply record_if_records; by eapply announceable_selected|]. intros [].
  apply yields_ret; [apply good_at_weaken|]. has_simpl. rewrite Hl.
  intros [?|[?|H%advertise_learned_has]]; [tauto..|]. fold l in H. unfold route_distance. tauto.
Qed.

Lemma selected_delta_emits sel before : emits_at sel (selected_delta before now).
Proof.
  intros G. unfold selected_delta. apply yields_pass; [apply keeps_gets|]. intros targets.
  apply (yields_bind _ _ _ (fun l => G \/ has l)).
  { apply (yields_from _ (good_at_weaken sel) (G \/ has [])); [rewrite has_nil; tauto|].
    apply (yields_foldM _ (good_at_weaken sel) _ (fun l => G \/ has l)). intros lost acts _. apply announce_loss_emits. }
  intros acts. apply yields_read. intros e He. apply (yields_foldM _ (good_at_weaken sel) _ (fun l => G \/ has l)). intros s l Hs.
  apply list_elem_of_fmap in Hs as ([key s'] & -> & Hs). apply elem_of_filter_bool in Hs as [Hs _].
  apply btree_iter_lookup in Hs. destruct He as [_ <-]. by eapply announce_change_emits.
Qed.

(** A call that keeps the invariant and sends nothing. *)
Ltac kept lem := eapply lem; first [apply lasting_time | eassumption | done | idtac].
(** Return at the end of a computation that sends. *)
Ltac sent_ret := apply yields_ret; [apply good_weaken|]; has_simpl; cbn [fst snd]; tauto.

Lemma send_updates_sent only interface timing : emits (send_updates now only interface timing).
Proof. intros G. apply yields_at. intros sel. apply send_updates_emits. Qed.

(** A call whose actions are the result. *)
Lemma emits_bind {A} G (m : M (list Action)) (f : list Action -> M A) V :
  emits m -> (forall l, yields good (G \/ has l) (f l) V) -> yields good G (m ≫= f) V.
Proof. intros Hm Hf. eapply yields_bind; [apply Hm|exact Hf]. Qed.

Lemma emits_nil : emits (mret []).
Proof. intros G. sent_ret. Qed.

Lemma emits_if (b : bool) m : emits m -> emits (if b then m else mret []).
Proof. destruct b; [done|intros _; apply emits_nil]. Qed.

Lemma emits_from G (m : M (list Action)) : emits m -> yields good G m (fun l => G \/ has l).
Proof. auto. Qed.

Lemma reselect_sent : q <> Unrouted -> emits (reselect now).
Proof.
  intros Hmode G e acts e' HI E.
  destruct (reselect_inv k r w now F (lasting G) now_u64 q P e acts e' Hmode HP HI E) as (e1 & H1 & E1).
  revert H1 E1. generalize (selected e), (unreachable_routes e). clear E HI. intros before dead H1 E1.
  revert e1 acts e' H1 E1. change (yields good G (announce_selection now before dead) (fun l => G \/ has l)).
  unfold announce_selection, update_tombstones, prune_switches, route_snapshot.
  apply yields_pass; [by apply keeps_modify|]. intros []. apply yields_pass; [by apply keeps_modify|]. intros [].
  apply yields_pass; [apply keeps_gets|]. intros []; [|apply emits_nil].
  apply yields_bind with (V := fun a => G \/ action_has a).
  { apply yields_pass; [by apply keeps_modify|]. intros []. apply yields_gets; [apply good_weaken|]. simpl. tauto. }
  intros a. apply emits_bind; [intros G'; apply yields_at; intros sel; apply selected_delta_emits|].
  intros l. sent_ret.
Qed.

(** ** Received packets *)

Lemma satisfy_requests_sent key id seqno metric :
  (key = k -> q <> Free) ->
  (key = k -> id = r -> in_window w {| d_seqno := seqno; d_metric := metric |} = true) ->
  emits (satisfy_requests key id seqno metric now).
Proof.
  intros Hq Hw G. apply yields_at. intros sel. unfold satisfy_requests. apply yields_read. intros e0 _.
  apply (yields_from _ (good_at_weaken sel) (G \/ has [])); [rewrite has_nil; tauto|].
  apply (yields_foldM _ (good_at_weaken sel) _ (fun l => G \/ has l)). intros [key' id'] acts Hin.
  apply list_elem_of_fmap in Hin as ([pk p0] & Ep & Hin). simpl in Ep. subst pk.
  apply elem_of_filter_bool in Hin as [_ Hsat]. unfold satisfied_by in Hsat.
  rewrite !andb_true_iff, bool_decide_eq_true in Hsat. destruct Hsat as [-> _].
  unfold satisfy_request. apply yields_read. intros e He.
  destruct (pending_seqno e !! (key, id')) as [p|] eqn:Ep; [|by apply yields_ret; [apply good_at_weaken|]].
  apply yields_pass.
  { apply keeps_modify. intros e' He'. by apply pending_sub_keeps; [apply delete_subseteq|]. }
  intros []. apply (yields_bind _ _ _ (fun l => (G \/ has acts) \/ has l)).
  - destruct (pq_requester p) eqn:Er; [|apply yields_ret; [apply good_at_weaken|]; has_simpl; tauto].
    eapply yields_bind; [apply update_action_to_candidate_emits|].
    + by eapply answer_announceable.
    + intros a. apply yields_ret; [apply good_at_weaken|]. has_simpl. tauto.
  - intros l. apply yields_pass; [by apply keeps_modify|]. intros [].
    apply yields_ret; [apply good_at_weaken|]. has_simpl. tauto.
Qed.

Lemma request_sent request :
  (q = Quiet -> rq_key request = k -> rq_requester request = None) -> emits (originate_seqno_request request now).
Proof. intros Hq G. apply yields_at. intros sel. by apply originate_seqno_request_emits. Qed.

Lemma receive_update_sent n u G :
  update_known k r w now P (nk_interface n) u -> (ru_key u = Some k -> q <> Free) ->
  yields good G (receive_update n u now) (fun x => G \/ has x.2).
Proof.
  intros Hu Hq. unfold receive_update.
  assert (forall b, yields good G (mret (b, [])) (fun x : bool * list Action => G \/ has x.2)) as Hskip
    by (intros b; sent_ret).
  destruct (ru_key u) as [key|] eqn:Ek.
  - destruct (forbidden_destination _); [done|]. destruct (Z.eqb_spec (ru_metric u) INFINITY) as [|Hm].
    { apply yields_pass; [kept (retract_candidate_keeps k r w)|done]. }
    destruct (ru_router_id u) as [id|] eqn:Ei; [|done]. apply yields_pass; [apply keeps_gets|]. intros own.
    destruct own; [done|]. destruct (ru_next_hop u) as [hop|] eqn:Eh; [|done].
    apply yields_pass; [apply keeps_gets|]. intros bad. destruct bad; [done|].
    unfold receive_route. apply yields_pass; [apply keeps_gets|]. intros [nb|]; [|done].
    apply yields_pass; [apply keeps_gets|]. intros accepted. destruct accepted; simpl.
    + apply yields_pass; [apply keeps_gets|]. intros is_new. apply yields_pass; [apply keeps_gets|]. intros [x|].
      * apply yields_pass; [kept (refuse_candidate_keeps k r w)|done].
      * unfold admit_update. apply yields_read. intros e0 _. set (metric := safe_extend _ _ _).
        destruct (_ && _); [done|]. apply yields_pass; [apply keeps_gets|]. intros fd.
        apply yields_pass; [apply keeps_gets|]. intros sel.
        set (is_feasible := match fd with Some _ => _ | None => _ end). clearbody is_feasible.
        destruct (_ && _).
        { apply emits_bind; [|intros l; sent_ret]. destruct fd; [by apply request_sent|apply emits_nil]. }
        apply emits_bind.
        { destruct is_feasible.
          { apply satisfy_requests_sent; [intros ->; auto|]. intros -> ->. by eapply extended_window. }
          intros G'. unfold request_improvement.
          apply yields_pass; [apply keeps_gets|]. intros b. destruct fd; [|apply emits_nil].
          apply (emits_if b). by apply request_sent. }
        intros l. apply yields_pass; [|intros; sent_ret]. kept (install_candidate_keeps k r w). cbn [c_key]. intros ->. by apply received_safe.
    + apply yields_pass; [kept (reject_import_keeps k r w)|done].
  - apply yields_pass; [|done]. destruct (_ =? _); [kept (retract_neighbour_keeps k r w)|apply keeps_ret].
Qed.

Lemma handle_seqno_request_sent requester key seqno hops id :
  (q = Quiet -> key <> k) -> emits (handle_seqno_request requester key seqno hops id now).
Proof.
  intros Hq.
  intros G. apply yields_at. intros sel.
  assert (forall l : M (list Action), l = mret [] -> yields (good_at sel) G l (fun l => G \/ has l)) as Hnil
    by (intros ? ->; apply yields_ret; [apply good_at_weaken|]; has_simpl; tauto).
  assert (yields (good_at sel) G (forward_seqno_request requester key seqno hops id now) (fun l => G \/ has l)) as Hfwd.
  { unfold forward_seqno_request. destruct (_ <=? 1); [by apply Hnil|].
    apply yields_pass; [apply keeps_gets|]. intros []; [by apply Hnil|].
    apply yields_pass; [apply keeps_gets|]. intros []; [by apply Hnil|].
    apply yields_pass; [apply keeps_gets|]. intros [next|]; [|by apply Hnil].
    apply originate_seqno_request_emits. intros Ht E. by destruct (Hq Ht). }
  unfold handle_seqno_request. apply yields_pass; [apply keeps_gets|]. intros own.
  apply yields_pass; [apply keeps_gets|]. intros origin. apply yields_read. intros e He.
  destruct (_ && _).
  { eapply yields_bind; [apply reply_to_route_request_emits|]. intros a.
    apply yields_ret; [apply good_at_weaken|]. has_simpl. tauto. }
  set (found := match selected e !! key with Some _ => _ | None => _ end).
  destruct found as [s|] eqn:Ef.
  - eapply yields_bind; [apply update_action_to_candidate_emits|].
    + assert (selected e !! key = Some s) as Es
        by (unfold found in Ef; destruct (selected e !! key); [|done]; case_match; congruence).
      eapply announceable_selected; [exact He|]. destruct He as [_ <-]. exact Es.
    + intros a. apply yields_ret; [apply good_at_weaken|]. has_simpl. tauto.
  - destruct origin; [|done]. case_bool_decide; [|done]. unfold answer_own_request, bump_sequence_number.
    apply (yields_bind _ _ _ (fun l => G \/ has l)).
    { destruct (seqno_gt _ _); [|by apply Hnil].
      apply yields_pass; [by apply keeps_modify|]. intros []. apply yields_gets; [apply good_at_weaken|].
      intros e1. has_simpl. simpl. tauto. }
    intros l. eapply yields_bind; [apply send_updates_emits|]. intros l'. apply yields_ret; [apply good_at_weaken|]. has_simpl. tauto.
Qed.

Lemma receive_tlv_sent i address n acc t G :
  tlv_known k r w now q P (nk_interface n) t ->
  yields good (G \/ has (rc_actions acc)) (receive_tlv i address n now acc t) (fun x => G \/ has (rc_actions x)).
Proof.
  intros Hk. destruct t; try (by apply yields_ret; [apply good_weaken|]); simpl in Hk; unfold receive_tlv.
  - apply yields_ret; [apply good_weaken|]. cbn [rc_actions]. has_simpl. unfold action_has, ack_action. cbn [out_tlvs].
    rewrite tlvs_have_one. simpl. tauto.
  - apply yields_pass; [apply keeps_gets|]. intros ids. destruct Hk as [Hk1 Hk2].
    eapply yields_bind; [by apply receive_update_sent|]. intros x.
    apply yields_ret; [apply good_weaken|]. cbn [rc_actions]. has_simpl. tauto.
  - apply (emits_bind _ _ _ (fun x => G \/ has (rc_actions x))).
    + intros G'. match goal with |- context [match ?o with _ => _ end] => destruct o end.
      * apply yields_at. intros sel. eapply yields_bind; [apply reply_to_route_request_emits|].
        intros a. apply yields_ret; [apply good_at_weaken|]. has_simpl. tauto.
      * apply yields_pass; [apply keeps_gets|]. intros []; [apply send_updates_sent|apply emits_nil].
    + intros l. apply yields_ret; [apply good_weaken|]. cbn [rc_actions]. has_simpl. tauto.
  - apply (emits_bind _ _ _ (fun x => G \/ has (rc_actions x))); [by apply handle_seqno_request_sent|].
    intros l. apply yields_ret; [apply good_weaken|]. cbn [rc_actions]. has_simpl. tauto.
Qed.

Lemma ihu_tlvs_harmless policy key nb t deadline nb' l :
  ihu_neighbour policy key nb t deadline = (nb', l) -> ~ tlvs_have l.
Proof.
  unfold ihu_neighbour. intros E. repeat (case_match; simplify_eq; try done);
    unfold tlvs_have; rewrite ?Exists_app, ?Exists_cons, ?Exists_nil; simpl; tauto.
Qed.

Lemma ihu_action_sent key deadline G :
  yields good G (ihu_action key now deadline) (fun o => G \/ has (option_list o)).
Proof.
  unfold ihu_action. apply yields_pass; [apply keeps_gets|]. intros st. apply yields_pass; [apply keeps_gets|].
  intros nb. destruct st as [st|]; [destruct nb as [nb|]|]; [|sent_ret..].
  destruct (ihu_neighbour _ _ _ _ _) as [nb' l] eqn:E. apply yields_pass; [by apply keeps_modify|]. intros [].
  apply yields_ret; [apply good_weaken|]. apply ihu_tlvs_harmless in E.
  intros [?|H]; [done|]. apply (has_cons _ []) in H as [H|H%has_nil]; [by apply E in H|done].
Qed.

Lemma announce_router_id_sent acts key G :
  yields good (G \/ has acts) (announce_router_id now acts key) (fun l => G \/ has l).
Proof.
  unfold announce_router_id. apply yields_pass; [apply keeps_gets|]. intros known.
  apply (emits_bind _ _ _ (fun l => G \/ has l)); [|intros l; sent_ret].
  destruct known; [apply send_updates_sent|]. intros G'. apply yields_gets; [apply good_weaken|].
  intros e. pose proof (retraction_harmless e key (sequence_number e) now). tauto.
Qed.

Context (Hmode : q <> Unrouted).

(** ** The tick *)

Lemma refresh_harmless e :
  ~ has (omap (fun '((key, neighbour), c) =>
    if refresh_due e now key c
    then Some (Send (nk_interface neighbour) (nk_address neighbour)
                 (MkOutboundPacket [ORouteRequest (Some key) []])
                 (triggered now (interface_hello_interval e (nk_interface neighbour))))
    else None) (hm_iter (candidates e))).
Proof.
  unfold has. rewrite list.Exists_exists. intros (a & Ha & H).
  apply list_elem_of_omap in Ha as ([[key n] c] & _ & Ha). case_match; [|done]. injection Ha as <-.
  by apply tlvs_have_one in H.
Qed.

Lemma tick_expire_sent G : yields good G (tick_expire now) (fun x => G \/ has x.2).
Proof.
  unfold tick_expire. apply yields_pass; [kept (age_neighbours_keeps k r w)|]. intros aged.
  apply yields_pass; [kept (expire_neighbours_keeps k r w)|]. intros gone.
  apply yields_pass; [kept (expire_ihus_keeps k r w)|]. intros silent.
  apply yields_pass.
  { intros e b e' HI E. eapply fresh_safe, (expire_candidates_fresh k r w now); try eassumption. }
  intros expired. apply (yields_bind _ _ _ (fun l => G \/ has l)).
  { intros e l e' HI E. eapply good_weaken; [|eapply (refresh_candidates_keeps k r w); [exact HI|exact E]].
    unfold refresh_candidates in E. apply bind_inv in E as (l' & e1 & [= <- <-] & E).
    apply bind_inv in E as ([] & e2 & _ & [= <- _]). pose proof (refresh_harmless e). tauto. }
  intros l. apply yields_pass; [kept (expire_tables_keeps k r w now)|]. intros dropped.
  apply yields_pass; [kept (recompute_all_keeps k r w)|]. intros again. sent_ret.
Qed.

Lemma tick_select_sent n b : emits (tick_select now n b).
Proof.
  intros G. unfold tick_select, route_snapshot. apply yields_pass; [apply keeps_gets|]. intros sw.
  apply emits_bind; [by apply emits_if, reselect_sent|]. intros l. apply yields_pass; [apply keeps_gets|].
  intros []; [|sent_ret]. apply (yields_bind _ _ _ (fun a => (G \/ has l) \/ action_has a)).
  { apply yields_pass; [by apply keeps_modify|]. intros []. apply yields_gets; [apply good_weaken|]. simpl. tauto. }
  intros a. sent_ret.
Qed.

(** A loop that appends actions. *)
Definition appends {A} (f : list Action -> A -> M (list Action)) : Prop :=
  forall G acts a, yields good (G \/ has acts) (f acts a) (fun l => G \/ has l).

Lemma appends_foldM {A} (f : list Action -> A -> M (list Action)) (l : Engine -> list A) acts G :
  appends f -> yields good (G \/ has acts) (x ← gets l; foldM f acts x) (fun l => G \/ has l).
Proof.
  intros Hf. apply yields_pass; [apply keeps_gets|]. intros x.
  apply (yields_foldM _ good_weaken _ (fun l => G \/ has l)). intros a acts' _. apply Hf.
Qed.

Lemma retry_request_sent : appends (retry_request now).
Proof.
  intros G acts x e l e' HI E. eapply good_weaken; [|kept (retry_request_keeps k r w)].
  destruct x as [[key id] p]. unfold retry_request in E. destruct (_ =? 0).
  - apply bind_inv in E as ([] & e1 & _ & E). apply bind_inv in E as ([] & e2 & _ & [= <- _]). done.
  - apply bind_inv in E as (o & e1 & _ & E). apply bind_inv in E as ([] & e2 & _ & [= <- _]).
    has_simpl. pose proof request_harmless as Hh. intros [?|[?|[H|[]]]]; [auto..|]. by apply Hh in H.
Qed.

Lemma repeat_one_sent : appends (repeat_one now).
Proof.
  intros G acts key. unfold repeat_one. apply yields_pass; [apply keeps_gets|]. intros o.
  apply yields_pass; [apply keeps_expect|]. intros x. apply yields_pass; [by apply keeps_modify|]. intros [].
  apply (emits_bind _ _ _ (fun l => G \/ has l)); [apply send_updates_sent|]. intros l.
  apply yields_pass; [case_match; [by apply keeps_modify|apply keeps_ret]|]. intros []. sent_ret.
Qed.

Lemma tick_interface_sent : appends (tick_interface now).
Proof.
  intros G acts i. unfold tick_interface. apply yields_pass; [apply keeps_gets|]. intros o.
  apply yields_pass; [apply keeps_expect|]. intros st. destruct (advance_schedule _ _) as [st' [hello update]].
  apply yields_pass; [by apply keeps_modify|]. intros [].
  apply (emits_bind _ _ _ (fun l => G \/ has l)); [destruct update; [apply send_updates_sent|apply emits_nil]|].
  intros l. apply yields_ret; [apply good_weaken|].
  destruct hello; has_simpl; [unfold action_has, hello_action; cbn [out_tlvs]; rewrite tlvs_have_one; simpl|]; tauto.
Qed.

Lemma send_ihus_sent acts G : yields good (G \/ has acts) (send_ihus now acts) (fun l => G \/ has l).
Proof.
  apply (appends_foldM (fun acts '(key, deadline) =>
    action ← ihu_action key now deadline; mret (acts ++ option_list action))).
  intros G' l [key deadline]. eapply yields_bind; [apply ihu_action_sent|]. intros o. sent_ret.
Qed.

Lemma tick_sent : emits (tick now).
Proof.
  intros G. unfold tick. apply yields_pass; [apply keeps_gets|]. intros n.
  eapply yields_bind; [apply tick_expire_sent|]. intros x.
  apply (emits_bind _ _ _ (fun l => G \/ has l)); [apply tick_select_sent|]. intros l.
  apply (yields_from _ good_weaken (G \/ has (l ++ x.2))); [has_simpl; tauto|].
  eapply yields_bind; [apply appends_foldM, retry_request_sent|]. intros l2.
  eapply yields_bind; [apply appends_foldM, repeat_one_sent|]. intros l3.
  eapply yields_bind; [apply send_ihus_sent|]. intros l4. apply appends_foldM, tick_interface_sent.
Qed.

(** ** Events *)

Lemma route_request_harmless i transport : ~ action_has (full_route_request i transport now).
Proof. unfold action_has. simpl. rewrite tlvs_have_one. by intros []. Qed.

Lemma interface_up_sent i addresses policy : emits (interface_up i addresses policy now).
Proof.
  intros G. unfold interface_up. apply yields_pass; [by apply keeps_modify|]. intros [].
  apply emits_bind; [apply tick_sent|]. intros l. apply yields_pass; [apply keeps_gets|]. intros o.
  apply yields_pass; [apply keeps_expect|]. intros st. apply yields_ret; [apply good_weaken|]. has_simpl.
  intros [?|[?|[H|[]]]]; [tauto..|]. by apply route_request_harmless in H.
Qed.

Lemma clear_interface_then i m : emits m -> emits (_ ← clear_interface i; m).
Proof. intros Hm G. apply yields_pass; [kept (clear_interface_keeps k r w)|]. intros []. apply Hm. Qed.

Lemma reset_metrics_sent policy i : emits (reset_metrics policy i now).
Proof.
  intros G. unfold reset_metrics. apply yields_pass; [by apply keeps_modify|]. intros [].
  apply yields_pass; [kept (recompute_candidate_metrics_keeps k r w)|]. intros b. by apply (emits_if b), reselect_sent.
Qed.

Lemma interface_policy_changed_sent i policy reset : emits (interface_policy_changed i policy reset now).
Proof.
  intros G. unfold interface_policy_changed. apply yields_pass; [apply keeps_gets|]. intros [st|]; [|apply emits_nil].
  apply yields_pass; [by apply keeps_modify|]. intros [].
  apply emits_bind; [by apply emits_if, clear_interface_then, reselect_sent|]. intros l1.
  apply emits_bind; [apply emits_if, reset_metrics_sent|]. intros l2.
  apply emits_bind; [apply send_updates_sent|]. intros l3. apply emits_bind; [apply tick_sent|]. intros l4. sent_ret.
Qed.

Lemma interface_addresses_changed_sent i addresses : emits (interface_addresses_changed i addresses now).
Proof.
  intros G. unfold interface_addresses_changed. apply yields_pass; [apply keeps_gets|]. intros st.
  set (unchanged := match st with Some _ => _ | None => _ end). destruct unchanged; [apply emits_nil|].
  apply yields_pass; [by apply keeps_modify|]. intros []. apply send_updates_sent.
Qed.

Lemma interface_down_sent i : emits (interface_down i now).
Proof.
  intros G. unfold interface_down. apply yields_pass; [by apply keeps_modify|]. intros [].
  by apply clear_interface_then, reselect_sent.
Qed.

(** The snapshot and sequence-number actions carry no update. *)
Lemma snapshot_sent : emits (s ← route_snapshot; mret [s]).
Proof.
  intros G. unfold route_snapshot. apply (yields_bind _ _ _ (fun a => G \/ action_has a)).
  { apply yields_pass; [by apply keeps_modify|]. intros []. apply yields_gets; [apply good_weaken|]. simpl. tauto. }
  intros a. sent_ret.
Qed.

Lemma bump_sent : emits (_ ← bump_sequence_number; gets (fun e => [SequenceNumberChanged (sequence_number e)])).
Proof.
  intros G. apply yields_pass; [kept (bump_sequence_number_keeps k r w)|]. intros [].
  apply yields_gets; [apply good_weaken|]. intros e. has_simpl. simpl. tauto.
Qed.

Lemma repeat_then key m : emits m -> emits (_ ← repeat_advertisement key now; m).
Proof. intros Hm G. apply yields_pass; [by apply keeps_modify|]. intros []. apply Hm. Qed.

Lemma originate_sent key metric : emits (originate key metric now).
Proof.
  intros G. unfold originate. apply yields_pass; [apply keeps_gets|]. intros o.
  set (unchanged := match o with Some _ => _ | None => _ end). destruct unchanged; [apply emits_nil|].
  apply yields_pass; [apply keeps_gets|]. intros dead. apply yields_pass; [by apply keeps_modify|]. intros [].
  apply emits_bind; [apply emits_if, snapshot_sent|]. intros l1. apply yields_pass; [by apply keeps_modify|]. intros [].
  apply emits_bind; [apply emits_if, bump_sent|]. intros l2. apply yields_pass; [by apply keeps_modify|]. intros [].
  apply emits_bind; [by apply reselect_sent|]. intros l3. apply emits_bind; [apply send_updates_sent|]. intros l4. sent_ret.
Qed.

Lemma withdraw_sent key : emits (withdraw key now).
Proof.
  intros G. unfold withdraw. apply yields_pass; [apply keeps_gets|]. intros existed.
  apply yields_pass; [by apply keeps_modify|]. intros []. apply emits_bind; [by apply reselect_sent|]. intros l1.
  apply yields_pass; [apply keeps_gets|]. intros unrouted. apply emits_bind; [apply emits_if|].
  { intros G'. apply yields_pass; [by apply keeps_modify|]. intros []. apply snapshot_sent. }
  intros l2. apply emits_bind; [apply emits_if, repeat_then, send_updates_sent|]. intros l3. sent_ret.
Qed.

Lemma replace_origins_sent origins : emits (replace_origins origins now).
Proof.
  intros G. unfold replace_origins. apply yields_pass; [apply keeps_gets|]. intros []; [apply emits_nil|].
  apply yields_pass; [apply keeps_gets|]. intros removed. apply yields_pass; [apply keeps_gets|]. intros worse.
  apply emits_bind; [apply emits_if, bump_sent|]. intros l1. apply yields_pass; [by apply keeps_modify|]. intros [].
  apply emits_bind; [by apply reselect_sent|]. intros l2. apply emits_bind.
  { intros G'. unfold for_actions. apply (yields_from _ good_weaken (G' \/ has [])); [rewrite has_nil; tauto|].
    apply (yields_foldM _ good_weaken _ (fun l => G' \/ has l)). intros key acts _.
    apply (emits_bind _ _ _ (fun l => G' \/ has l)); [|intros l; sent_ret]. intros G''.
    apply yields_pass; [apply keeps_gets|]. intros b.
    apply yields_pass; [destruct b; [by apply keeps_modify|apply keeps_ret]|]. intros [].
    apply repeat_then, send_updates_sent. }
  intros l3. apply yields_pass; [apply keeps_gets|]. intros keys. apply yields_pass.
  { apply keeps_for_each. intros key _. apply keeps_bind; [by apply keeps_modify|intros _; by apply keeps_modify]. }
  intros []. apply (yields_bind _ _ _ (fun a => (((G \/ has l1) \/ has l2) \/ has l3) \/ action_has a)).
  { unfold route_snapshot. apply yields_pass; [by apply keeps_modify|]. intros [].
    apply yields_gets; [apply good_weaken|]. simpl. tauto. }
  intros a. apply emits_bind; [apply send_updates_sent|]. intros l4. sent_ret.
Qed.

Lemma replace_route_policy_sent policy : emits (replace_route_policy policy now).
Proof.
  intros G. unfold replace_route_policy. apply yields_pass; [by apply keeps_modify|]. intros [].
  apply yields_pass.
  { apply keeps_modify. intros e HI. apply candidates_sub_safe; [apply map_filter_subseteq|done]. }
  intros []. apply yields_pass; [by apply keeps_modify|]. intros []. apply yields_pass.
  { apply keeps_at. intros sel. apply keeps_modify. intros e HI.
    apply pending_sub_keeps; [apply map_filter_subseteq|done]. }
  intros []. apply emits_bind; [by apply reselect_sent|]. intros l1. apply yields_pass; [apply keeps_gets|]. intros keys.
  apply yields_pass; [apply keeps_for_each; intros key _; by apply keeps_modify|]. intros [].
  apply emits_bind; [apply send_updates_sent|]. intros l2.
  apply (yields_bind _ _ _ (fun l => ((G \/ has l1) \/ has l2) \/ has l)); [|intros l3; apply yields_ret; [apply good_weaken|]].
  - apply yields_gets; [apply good_weaken|]. intros e. unfold has at 3. rewrite list.Exists_exists.
    intros [?|(a & Ha & H)]; [done|]. apply list_elem_of_fmap in Ha as ([i st] & -> & _).
    by apply route_request_harmless in H.
  - has_simpl. simpl. tauto.
Qed.

End Sent.

(** ** Packets and events *)

Section Event.
Context {NL : IpNetLib} {MI : MetricImpl} {HO : HashOrder} {B : Build}.
Context (k : RouteKey) (r : RouterId) (w now : Z).
Context (F : string -> IpAddr -> Z) (P : string -> IpAddr -> Z -> Z -> Prop) (v : Z) (q : Requests).
Context (now_u64 : in_u64 now) (now_gc : now + SOURCE_GC_TIME_MS <= u64_max) (HP : bounding F P).

Abbreviation good q G := (safe k r w F (lasting now v G) q P).
Abbreviation has l := (has k r w v l).

(** What was announced while the TLVs of a packet were handled. *)
Definition announced_by (m : M (list Action)) : Prop :=
  forall G e l e', good q G e -> m e = Some (l, e') -> good (after q) (G \/ has l) e'.

Lemma announced_settled m :
  emits k r w now F P v (after q) m -> announced_by m.
Proof. intros Hm G e l e' HI E. eapply Hm; [|exact E]. by apply safe_after. Qed.

Lemma after_settled : after q <> Unrouted.
Proof. by destruct q. Qed.

Lemma announced_skip {A} (m : M A) f :
  (forall G, keeps (safe k r w F (lasting now v G) q P) m) -> (forall a, announced_by (f a)) -> announced_by (m ≫= f).
Proof. intros Hm Hf G e l e' HI (a & e1 & H1 & H2)%bind_inv. eapply Hf; [|exact H2]. by eapply Hm. Qed.

Lemma receive_sent i source packet ts :
  (forall t, t ∈ tlvs packet -> tlv_known k r w now q P i t) ->
  announced_by (receive i source packet now ts).
Proof.
  intros Hk. pose proof after_settled as Hmode.
  assert (announced_by (mret [])) as Hnil by (apply announced_settled, emits_nil).
  unfold receive. apply announced_skip; [intros; apply keeps_gets|]. intros [state|]; [|done].
  destruct (negb _); [done|]. apply announced_skip; [intros; apply keeps_gets|]. intros [].
  { apply announced_skip; [by intros; apply keeps_modify|done]. }
  unfold process_packet. apply announced_skip; [intros; apply keeps_gets|]. intros cost.
  apply announced_skip; [intros; apply receive_hellos_keeps|]. intros ihu.
  apply announced_skip; [intros; apply receive_rtt_keeps|]. intros [].
  apply announced_skip; [intros; apply receive_ihus_keeps|]. intros [].
  apply announced_skip; [intros; apply keeps_gets|]. intros changed.
  apply announced_skip; [intros; destruct changed; [apply recompute_candidate_metrics_keeps|apply keeps_ret]|]. intros routes.
  intros G e l e' HI (o & e1 & H1 & E)%bind_inv.
  assert (good q (G \/ has (option_list o)) e1) as HI1.
  { destruct ihu; [by eapply ihu_action_sent|]. injection H1 as <- <-. eapply good_weaken; [|exact HI].
    intros [?|H%has_nil]; done. }
  apply bind_inv in E as (acc & e2 & H2 & E).
  assert (good q (G \/ has (rc_actions acc)) e2) as HI2.
  { refine (yields_foldM (fun G' => good q G') (good_weaken k r w now F P v q)
      (receive_tlv i source (MkNeighborKey i source) now) (fun x => G \/ has (rc_actions x)) _ _
      (MkReceived (option_list o) routes ∅) _ _ _ HI1 H2).
    intros t acc' Ht. by apply receive_tlv_sent, Hk. }
  apply safe_after in HI2.
  assert (yields (fun G' => good (after q) G') (G \/ has (rc_actions acc))
    (reselected ← (if rc_routes_changed acc then reselect now else mret []);
     foldM (announce_router_id now) (rc_actions acc ++ reselected) (hs_iter (rc_router_ids acc)))
    (fun l => G \/ has l)) as Hy; [|exact (Hy _ _ _ HI2 E)].
  eapply yields_bind; [by apply emits_if, reselect_sent|]. intros l2. cbv beta.
  apply (yields_from _ (good_weaken k r w now F P v (after q)) (G \/ has (rc_actions acc ++ l2))).
  { rewrite has_app. tauto. }
  apply (yields_foldM _ (good_weaken k r w now F P v (after q)) _ (fun x => G \/ has x)). intros key acts _.
  by apply announce_router_id_sent.
Qed.

(** What an event announced is recorded when it is over. *)
Lemma handle_sent event :
  event_time event = now -> event_known k r w now q P event -> announced_by (handle event).
Proof.
  intros Ht Hk. pose proof after_settled as Hmode.
  assert (announced_by (handle_validated event)) as Hv.
  { destruct event; cbn in Ht; rewrite Ht; cbn in Hk; unfold handle_validated; try (by apply receive_sent);
      apply announced_settled.
    - by apply replace_route_policy_sent.
    - intros G. apply yields_pass; [apply keeps_gets|]. intros policy. by apply interface_up_sent.
    - by apply interface_up_sent.
    - by apply interface_policy_changed_sent.
    - by apply interface_addresses_changed_sent.
    - by apply interface_down_sent.
    - by apply originate_sent.
    - by apply withdraw_sent.
    - by apply replace_origins_sent.
    - by apply tick_sent. }
  intros G e l e' HI E. unfold handle in E. apply bind_inv in E as (l' & e1 & H1 & E).
  apply bind_inv in E as ([] & e2 & [= <-] & [= <- <-]). exact (Hv _ _ _ _ HI H1).
Qed.
End Event.
Import Hello.
Local Open Scope Z_scope.

Section Sources.
Context {NL : IpNetLib} {MI : MetricImpl} {HO : HashOrder} {B : Build}.
Context (k : RouteKey) (r : RouterId) (w : Z).

(** What the engine knows of [k] from the origin [r] lies in the window. *)
Record known_within (e : Engine) : Prop := {
  kw_candidates : forall n c, candidates e !! (k, n) = Some c -> c_router_id c = r ->
    c_advertised_metric c <> INFINITY -> in_window w (candidate_distance c) = true;
  kw_source : forall s, feasible e !! (k, r) = Some s -> in_window w (s_distance s) = true
}.

(** And so does what an event brings. *)
Definition received_within (event : Event) : Prop :=
  match event with
  | PacketReceived _ _ packet _ | PacketReceivedWithTimestamp _ _ packet _ _ =>
      forall u, TUpdate u ∈ tlvs packet -> ru_key u = Some k -> ru_router_id u = Some r ->
      ru_metric u <> INFINITY -> in_window w {| d_seqno := ru_seqno u; d_metric := ru_metric u |} = true
  | _ => True
  end.

(** Nothing is claimed of the distances other routers have recorded. *)
Definition nowhere : string -> IpAddr -> Z := fun _ _ => - 2 ^ 32.
Definition lower_bounded : string -> IpAddr -> Z -> Z -> Prop := fun _ _ v _ => - 2 ^ 32 < v.

Lemma lower_bounding : bounding nowhere lower_bounded.
Proof. intros i h v x. unfold lower_bounded, nowhere. lia. Qed.

Lemma candidate_known cfg e n c :
  known_within e -> candidates e !! (k, n) = Some c -> candidate_ok cfg k n c ->
  candidate_safe r w lower_bounded c.
Proof.
  intros Hw Hc [C1 C2 C3 C4 C5 C6]. split.
  - intros Hm. destruct C5; [lia|]. tauto.
  - intros Hr Ha. pose proof (kw_candidates _ Hw n c Hc Hr Ha) as W. split; [done|]. by apply value_lower.
Qed.

Lemma selected_known e n c :
  Inv e -> known_within e -> candidates e !! (k, n) = Some c -> c_router_id c = r -> c_metric c < INFINITY ->
  route_safe w nowhere (selected_from_candidate c).
Proof.
  intros HI Hw Hc Hr Hm. destruct (inv_candidates _ HI _ _ _ Hc) as [_ _ _ _ C5 _].
  destruct C5 as [C5|[C5 C5']]; [lia|]. pose proof (kw_candidates _ Hw n c Hc Hr C5') as W.
  assert (in_window w (route_distance (selected_from_candidate c)) = true) as W'.
  { revert W. rewrite !in_window_spec. cbn. unfold INFINITY in *. lia. }
  split; [done|]. by apply value_lower.
Qed.

(** The invariant of [LoopSpec] with nothing claimed of others. *)
Lemma known_safe (held : Z -> Z -> Prop) e :
  Inv e -> backed e -> known_within e -> cfg_router_id (config e) <> r ->
  (forall v x, held v x -> exists s, feasible e !! (k, r) = Some s /\
     value w (s_distance s) <= v /\ x <= s_expires_ms s) ->
  safe k r w nowhere held Alone lower_bounded e.
Proof.
  intros HI Hb Hw Hown Hh. split; try done.
  - intros key n c Hc. by destruct (inv_candidates _ HI _ _ _ Hc).
  - intros n c Hc. eapply candidate_known; [done..|]. by apply (inv_candidates _ HI).
  - intros key s Hs. by destruct (inv_selected _ HI _ _ Hs).
  - intros s Hs Hr. destruct (Hb k s Hs) as (n & c & Hc & ->).
    destruct (inv_selected _ HI _ _ Hs) as [_ Hf _ _]. by eapply selected_known.
  - intros s src Hs Hr Hsrc. apply value_lower. by eapply kw_source.
  - by apply kw_source.
Qed.

Lemma received_known now event :
  received_within event -> event_known k r w now Alone lower_bounded event.
Proof.
  assert (forall i packet, (forall u, TUpdate u ∈ tlvs packet -> ru_key u = Some k -> ru_router_id u = Some r ->
      ru_metric u <> INFINITY -> in_window w {| d_seqno := ru_seqno u; d_metric := ru_metric u |} = true) ->
    forall t, t ∈ tlvs packet -> tlv_known k r w now Alone lower_bounded i t) as H.
  { intros i packet Hp t Ht. destruct t; try done. match goal with H : TUpdate ?x ∈ _ |- _ => rename x into u end.
    split; [|done]. intros h K1 K2 K3 _.
    assert (in_window w {| d_seqno := ru_seqno u; d_metric := ru_metric u |} = true) as W by auto.
    split; [exact W|]. by apply value_lower. }
  intros He. destruct event; try done; exact (H _ _ He).
Qed.

(** What the source table holds after an event, if [held] was what it held. *)
Lemma handle_holds event e acts e' (held : Z -> Z -> Prop) :
  in_u64 (event_time event) -> event_time event + SOURCE_GC_TIME_MS <= u64_max ->
  (forall v x, held v x -> event_time event <= x <= event_time event + SOURCE_GC_TIME_MS) ->
  safe k r w nowhere held Alone lower_bounded e -> received_within event ->
  handle event e = Some (acts, e') -> safe k r w nowhere held Alone lower_bounded e'.
Proof.
  intros Hn Hg Hh Hs Hr E.
  eapply (handle_keeps k r w (event_time event) nowhere held Hh Hn Hg Alone lower_bounded event lower_bounding
    eq_refl (received_known _ _ Hr)); eassumption.
Qed.

(** What it announced is recorded for the time of a source. *)
Lemma handle_records event e acts e' i dest packet timing u :
  in_u64 (event_time event) -> event_time event + SOURCE_GC_TIME_MS <= u64_max ->
  Inv e -> backed e -> known_within e -> cfg_router_id (config e) <> r -> received_within event ->
  handle event e = Some (acts, e') ->
  Send i dest packet timing ∈ acts -> OUpdate u ∈ out_tlvs packet ->
  ou_key u = Some k -> ou_router_id u = Some r -> ou_metric u <> INFINITY ->
  exists s, feasible e' !! (k, r) = Some s /\
    value w (s_distance s) <= value w {| d_seqno := ou_seqno u; d_metric := ou_metric u |} /\
    event_time event + SOURCE_GC_TIME_MS <= s_expires_ms s.
Proof.
  intros Hn Hg HI Hb Hw Hown Hr E Hs Hu U1 U2 U3.
  set (v := value w {| d_seqno := ou_seqno u; d_metric := ou_metric u |}).
  pose proof (handle_sent k r w (event_time event) nowhere lower_bounded v Alone Hn Hg lower_bounding event eq_refl
    (received_known _ _ Hr) False e acts e') as H.
  assert (safe k r w nowhere (lasting (event_time event) v False) Alone lower_bounded e) as H0
    by (apply known_safe; try done; by intros ? ? [[] _]).
  specialize (H H0 E). apply (sf_held H v (event_time event + SOURCE_GC_TIME_MS)).
  split; [|done]. right. apply list.Exists_exists. eexists. split; [exact Hs|]. simpl.
  apply list.Exists_exists. eexists. split; [exact Hu|]. split_and!; try done.
  unfold finite. by rewrite (proj2 (Z.eqb_neq _ _) U3).
Qed.
End Sources.

Section Theorems.
Context {NL : IpNetLib} {MI : MetricImpl} {HO : HashOrder} {B : Build}.

(** C5. Whatever an event sends: a finite update names its destination and origin,
    the export policy in force permits it on that interface, and its source is in
    the source table, unexpired.  For a route of another router whose known and
    received distances lie in one window of sequence numbers, the recorded
    distance is then at least as good as the announced one, and it is kept for the
    full time of a source. *)
Theorem updates_permitted_and_recorded e event acts e' i dest packet timing u :
  overflow_checks = false -> reachable e -> in_u64 (event_time event) ->
  try_handle event e = Some (Ok acts, e') ->
  Send i dest packet timing ∈ acts -> OUpdate u ∈ out_tlvs packet -> ou_metric u <> INFINITY ->
  exists key id s, ou_key u = Some key /\ ou_router_id u = Some id /\
    announce (cfg_route_policy (config e')) (export_context (config e') i key id) = true /\
    feasible e' !! (key, id) = Some s /\ event_time event <= s_expires_ms s /\
    forall w, id <> cfg_router_id (config e) -> event_time event + SOURCE_GC_TIME_MS <= u64_max ->
      known_within key id w e -> received_within key id w event ->
      value w (s_distance s) <= value w {| d_seqno := ou_seqno u; d_metric := ou_metric u |} /\
      event_time event + SOURCE_GC_TIME_MS <= s_expires_ms s.
Proof.
  intros Hrel Hr Hn Ht Hs Hu Hf. destruct (reachable_Inv Hrel e Hr) as [HI Hb].
  destruct (try_handle_spec Hrel event e Hn HI Hb) as (r & e1 & H & Hres). simplify_eq.
  destruct Hres as [Hv [_ _ _ Ha _]]. unfold actions_ok in Ha. rewrite list.Forall_forall in Ha.
  specialize (Ha _ Hs). simpl in Ha. rewrite list.Forall_forall in Ha. specialize (Ha _ Hu). simpl in Ha.
  destruct Ha as (key & id & H1 & H2 & H3 & s & H4 & H5).
  { unfold finite. by rewrite (proj2 (Z.eqb_neq _ _) Hf). }
  exists key, id, s. split_and!; try done. intros w Hid Hg Hw Hp.
  unfold try_handle in Ht. rewrite Hv in Ht. apply bind_Some in Ht as ([l e2] & Eh & [= -> ->]).
  destruct (handle_records key id w event e acts e' i dest packet timing u) as (s' & Es & L1 & L2); try done.
  by simplify_eq.
Qed.

(** C37. Recorded distances never get worse: an entry of the source table for a
    route of another router that has not expired at the time of an event is still
    there afterwards, its distance is the same or a better one, and its time has
    not been cut short (a source is kept for three minutes at most after it was
    last announced). *)
Theorem feasibility_distances_improve e event r e' key id s w :
  overflow_checks = false -> reachable e -> in_u64 (event_time event) ->
  event_time event + SOURCE_GC_TIME_MS <= u64_max ->
  try_handle event e = Some (r, e') -> id <> cfg_router_id (config e) ->
  known_within key id w e -> received_within key id w event ->
  feasible e !! (key, id) = Some s -> event_time event <= s_expires_ms s ->
  exists s', feasible e' !! (key, id) = Some s' /\
    in_window w (s_distance s') = true /\ value w (s_distance s') <= value w (s_distance s) /\
    Z.min (s_expires_ms s) (event_time event + SOURCE_GC_TIME_MS) <= s_expires_ms s'.
Proof.
  intros Hrel Hr Hn Hg Ht Hid Hw Hp Hk Hx. destruct (reachable_Inv Hrel e Hr) as [HI Hb].
  unfold try_handle in Ht. destruct (validate_event event); [|injection Ht as <- <-].
  - apply bind_Some in Ht as ([l e2] & Eh & [= <- ->]).
    set (held := fun v x => v = value w (s_distance s) /\
      x = Z.min (s_expires_ms s) (event_time event + SOURCE_GC_TIME_MS)).
    assert (safe key id w nowhere held Alone lower_bounded e') as Hs.
    { eapply (handle_holds key id w event e l e' held); try done.
      - intros v x [_ ->]. unfold SOURCE_GC_TIME_MS. lia.
      - apply known_safe; try done. intros v x [-> ->]. exists s. split; [done|]. lia. }
    destruct (sf_held Hs _ _ (conj eq_refl eq_refl)) as (s' & E1 & E2 & E3).
    exists s'. split_and!; try done. by apply (sf_sources Hs).
  - exists s. split_and!; try done; [by eapply kw_source|lia].
Qed.
End Theorems.

(** * Witnesses *)

#[local] Existing Instance demo_net.
#[local] Existing Instance demo_metrics.
#[local] Existing Instance demo_order.
#[local] Existing Instance release_build.

Definition known_withinb (k : RouteKey) (r : RouterId) (w : Z) (e : Engine) : bool :=
  forallb (fun '((key, _), c) => negb (bool_decide (key = k)) || negb (bool_decide (c_router_id c = r)) ||
    in_window w (candidate_distance c)) (map_to_list (candidates e)) &&
  from_option (fun s => in_window w (s_distance s)) true (feasible e !! (k, r)).

Lemma known_withinb_spec k r w e : known_withinb k r w e = true -> known_within k r w e.
Proof.
  intros [H1 H2]%andb_true_iff. rewrite forallb_forall in H1. split.
  - intros n c Hc Hr _. specialize (H1 ((k, n), c)). rewrite <- list_elem_of_In, elem_of_map_to_list in H1.
    specialize (H1 Hc). simpl in H1. by rewrite !bool_decide_true in H1.
  - intros s Hs. by rewrite Hs in H2.
Qed.

(** The run of [Demo] with a second interface, on which the learned route is
    announced, and one more tick. *)
Definition relay_events : list Event := demo_events ++ [InterfaceUp "eth1" [own_address] 6100].
Definition relay_event : Event := Tick 6200.
Definition relay_state : option Engine := snd <$> demo_run release_build relay_events.

Lemma relay_reachable e : relay_state = Some e -> reachable e.
Proof.
  intros ([rs e'] & H & ->)%fmap_Some. eapply demo_reachable; [|exact H].
  apply Forall_app. split; [apply demo_events_typed|]. apply Forall_singleton.
  unfold in_u64, u64_max. simpl. lia.
Qed.

(** What the tick sends, and what is known of the learned route before it. *)
Definition relay_check : option (Engine * list Action * Engine *
    (string * IpAddr * OutboundPacket * SendTiming * OutboundUpdate) * RouteKey * RouterId * SourceEntry) :=
  e ← relay_state; k ← learned_key; r ← peer_id; s ← feasible e !! (k, r);
  match try_handle relay_event e with
  | Some (Ok acts, e') =>
      x ← finite_update acts;
      if known_withinb k r 0 e && bool_decide (ou_key x.2 = Some k) && bool_decide (ou_router_id x.2 = Some r)
         && bool_decide (r <> cfg_router_id (config e)) && (6200 <=? s_expires_ms s)
         && bool_decide (ou_seqno x.2 = 7 /\ ou_metric x.2 = 192)
      then Some (e, acts, e', x, k, r, s) else None
  | _ => None
  end.

Record relayed (e : Engine) (acts : list Action) (e' : Engine) (i : string) (dest : IpAddr)
    (packet : OutboundPacket) (timing : SendTiming) (u : OutboundUpdate) (k : RouteKey) (r : RouterId)
    (s : SourceEntry) : Prop := {
  rl_reachable : reachable e;
  rl_handled : try_handle relay_event e = Some (Ok acts, e');
  rl_sent : Send i dest packet timing ∈ acts /\ OUpdate u ∈ out_tlvs packet /\ ou_metric u <> INFINITY;
  rl_known : known_within k r 0 e;
  rl_named : ou_key u = Some k /\ ou_router_id u = Some r;
  rl_other : r <> cfg_router_id (config e);
  rl_source : feasible e !! (k, r) = Some s /\ 6200 <= s_expires_ms s;
  rl_distance : ou_seqno u = 7 /\ ou_metric u = 192
}.

Lemma relay_relayed : exists e acts e' i dest packet timing u k r s,
  relayed e acts e' i dest packet timing u k r s.
Proof.
  assert (succeeds relay_check = true) as H by (vm_compute; reflexivity).
  apply succeeds_Some in H as (y & H). unfold relay_check in H.
  apply bind_Some in H as (e & He & H). apply bind_Some in H as (k & Hk & H).
  apply bind_Some in H as (r & Hr & H). apply bind_Some in H as (s & Hs & H).
  destruct (try_handle relay_event e) as [[[acts|] e']|] eqn:Et; [|discriminate H..].
  apply bind_Some in H as ([[[[i dest] packet] timing] u] & Hf & H). apply finite_update_spec in Hf.
  destruct (_ && _) eqn:E in H; [|discriminate H]. clear H.
  rewrite !andb_true_iff, !bool_decide_eq_true, Z.leb_le in E. destruct E as [[[[[E1 E2] E3] E4] E5] E6].
  exists e, acts, e', i, dest, packet, timing, u, k, r, s.
  exact (Build_relayed _ _ _ _ _ _ _ _ _ _ _ (relay_reachable _ He) Et Hf (known_withinb_spec _ _ _ _ E1)
    (conj E2 E3) E4 (conj Hs E5) E6).
Qed.

Lemma relay_times : in_u64 (event_time relay_event) /\ event_time relay_event + SOURCE_GC_TIME_MS <= u64_max.
Proof. unfold in_u64, SOURCE_GC_TIME_MS, u64_max. simpl. lia. Qed.

Lemma updates_permitted_and_recorded_witness :
  exists e acts e' i dest packet timing u k r s s', relayed e acts e' i dest packet timing u k r s /\
    feasible e' !! (k, r) = Some s' /\
    value 0 (s_distance s') <= value 0 {| d_seqno := 7; d_metric := 192 |} /\ 186200 <= s_expires_ms s'.
Proof.
  destruct relay_relayed as (e & acts & e' & i & dest & packet & timing & u & k & r & s & H).
  pose proof H as [R1 R2 (R3 & R4 & R5) R6 [R7 R8] R9 R10 [R11 R12]]. destruct relay_times as [T1 T2].
  destruct (updates_permitted_and_recorded e relay_event acts e' i dest packet timing u eq_refl R1 T1 R2 R3 R4 R5)
    as (key & id & s' & K1 & K2 & _ & K3 & _ & K4).
  rewrite R7 in K1. injection K1 as <-. rewrite R8 in K2. injection K2 as <-.
  destruct (K4 0 R9 T2 R6 I) as [K5 K6]. rewrite R11, R12 in K5.
  exists e, acts, e', i, dest, packet, timing, u, k, r, s, s'. exact (conj H (conj K3 (conj K5 K6))).
Defined.

Lemma feasibility_distances_improve_witness :
  exists e acts e' i dest packet timing u k r s s', relayed e acts e' i dest packet timing u k r s /\
    feasible e' !! (k, r) = Some s' /\ value 0 (s_distance s') <= value 0 (s_distance s).
Proof.
  destruct relay_relayed as (e & acts & e' & i & dest & packet & timing & u & k & r & s & H).
  pose proof H as [R1 R2 _ R6 _ R9 [R10 R11] _]. destruct relay_times as [T1 T2].
  destruct (feasibility_distances_improve e relay_event (Ok acts) e' k r s 0 eq_refl R1 T1 T2 R2 R9 R6 I R10 R11)
    as (s' & K1 & _ & K2 & _).
  exists e, acts, e', i, dest, packet, timing, u, k, r, s, s'. exact (conj H (conj K1 K2)).
Defined.
