(* ===== verification/Hops.v ===== *)
(** Next hops: every update an engine sends names an address of the interface it
    leaves by, or none. *)
From S2P Require Import Prelude Net Model Metric Wire Api EngineState Deadlines Sources Output Rib Neighbors Timers Engine OutputSpec LoopSpec.
Import Hello.
Local Open Scope Z_scope.

(** What is claimed of a result, by its type; nothing unless it holds actions. *)
Class Judge (A : Type) := judge : A -> Prop.
#[global] Hint Mode Judge + : typeclass_instances.

Section Hops.
Context {NL : IpNetLib} {MI : MetricImpl} {HO : HashOrder} {B : Build}.
Context (own : string -> IpAddr -> Prop).

(** The addresses given to the interfaces are the router's own. *)
Definition addressed (e : Engine) : Prop :=
  forall i st a, interfaces e !! i = Some st -> a ∈ local_addresses st -> own i a.

Definition hop_ok (i : string) (t : OutboundTlv) : Prop :=
  match t with OUpdate u => forall h, ou_next_hop u = Some h -> own i h | _ => True end.
Definition hops_ok (a : Action) : Prop :=
  match a with Send i _ packet _ => Forall (hop_ok i) (out_tlvs packet) | _ => True end.

#[local] Instance judge_any A : Judge A | 100 := fun _ => True.
#[local] Instance judge_action : Judge Action := hops_ok.
#[local] Instance judge_actions : Judge (list Action) := Forall hops_ok.
#[local] Instance judge_option : Judge (option Action) := fun o => Forall hops_ok (option_list o).
#[local] Instance judge_pair A C `{Judge A, Judge C} : Judge (A * C) := fun x => judge x.1 /\ judge x.2.
#[local] Instance judge_received : Judge Received := fun x => Forall hops_ok (rc_actions x).

Definition tells {A} `{Judge A} (m : M A) : Prop :=
  forall e a e', addressed e -> m e = Some (a, e') -> addressed e' /\ judge a.

Lemma tells_ret {A} `{Judge A} (a : A) : judge a -> tells (mret a).
Proof. intros Hj e b e' HI [= <- <-]. done. Qed.
Lemma tells_gets {A} `{Judge A} (f : Engine -> A) : (forall e, addressed e -> judge (f e)) -> tells (gets f).
Proof. intros Hj e b e' HI [= <- <-]. auto. Qed.
Lemma tells_modify f : (forall e, addressed e -> addressed (f e)) -> tells (modify f).
Proof. intros Hf e b e' HI [= <- <-]. split; [auto|done]. Qed.
Lemma tells_expect {A} `{Judge A} (o : option A) : (forall a : A, judge a) -> tells (expect o).
Proof. intros Hj e b e' HI. destruct o; [|done]. intros [= <- <-]. done. Qed.
Lemma tells_bind {A C} `{Judge A, Judge C} (m : M A) (f : A -> M C) :
  tells m -> (forall a, judge a -> tells (f a)) -> tells (m ≫= f).
Proof.
  intros Hm Hf e b e' HI (a & e1 & H1 & H2)%bind_inv. destruct (Hm _ _ _ HI H1) as [HI1 Ha].
  by eapply Hf.
Qed.
(** The continuation may use the state that was read. *)
Lemma tells_read {A C} `{Judge C} (g : Engine -> A) (f : A -> M C) :
  (forall e, addressed e -> tells (f (g e))) -> tells (gets g ≫= f).
Proof. intros Hf e b e' HI E. by eapply (Hf e HI). Qed.
Lemma tells_foldM {A C} `{Judge C} (f : C -> A -> M C) l :
  (forall a c, a ∈ l -> judge c -> tells (f c a)) -> forall c, judge c -> tells (foldM f c l).
Proof.
  induction l as [|a l IH]; intros Hf c Hc; simpl; [by apply tells_ret|].
  apply tells_bind; [apply Hf; [set_solver|done]|]. intros c' Hc'. apply IH; [|done]. intros. apply Hf; [set_solver|done].
Qed.
Lemma tells_for_actions {A} (f : A -> M (list Action)) l :
  (forall a, a ∈ l -> tells (f a)) -> tells (for_actions l f).
Proof.
  intros Hf. apply tells_foldM; [|constructor]. intros a acts Ha Hacts. apply tells_bind; [auto|].
  intros more Hmore. apply tells_ret. by apply Forall_app.
Qed.
Lemma tells_for_each {A} (f : A -> M unit) l : (forall a, a ∈ l -> tells (f a)) -> tells (for_each l f).
Proof. intros Hf. by apply tells_foldM; [auto|]. Qed.

(** ** Advertisements *)

(** The next hops an advertisement chooses from. *)
Lemma ipv4_address_in policy l x : ipv4_address policy l = Some x -> IpV4 x ∈ l.
Proof.
  unfold ipv4_address. case_bool_decide; [done|]. intros Hm.
  apply (min_by_least _ (fun _ => 0)) in Hm as [Hm _]; [|done..].
  apply list_elem_of_omap in Hm as (y & Hy & E). destruct y; [|done]. case_match; by simplify_eq.
Qed.
Lemma link_local_address_in l x : link_local_address l = Some x -> IpV6 x ∈ l.
Proof.
  unfold link_local_address. intros (y & Hy & E)%find_map_Some. destruct y; [done|]. case_match; by simplify_eq.
Qed.

Lemma advertisement_hop e i key id seqno metric :
  addressed e -> hop_ok i (OUpdate (advertisement e i key id seqno metric)).
Proof.
  intros HA h. unfold advertisement. cbn [ou_next_hop]. destruct (_ =? INFINITY); [done|].
  destruct (interfaces e !! i) as [st|] eqn:Ei; simpl.
  - destruct (_ && _); [|destruct (bool_decide (control_transport _ = _)); [|done]]; intros (x & Hx & ->)%fmap_Some;
      (eapply HA; [exact Ei|]); [by eapply ipv4_address_in|by apply link_local_address_in].
  - by repeat case_match.
Qed.

Lemma update_action_to_candidate_tells key id seqno metric dest now :
  tells (update_action_to_candidate key id seqno metric dest now).
Proof.
  unfold update_action_to_candidate, maintain_source. apply tells_read. intros e He.
  apply (tells_bind (H := judge_any unit)); [destruct (finite _); [by apply tells_modify|by apply tells_ret]|].
  intros _ _. apply tells_ret. apply Forall_singleton. by apply advertisement_hop.
Qed.

Lemma push_update_hops i key id seqno metric now skip l e l' e' :
  addressed e -> Forall (hop_ok i) l -> push_update i key id seqno metric now skip l e = Some (l', e') ->
  addressed e' /\ Forall (hop_ok i) l'.
Proof.
  intros HA Hl E. unfold push_update, maintain_source in E. apply bind_inv in E as (u & e1 & [= <- <-] & E).
  destruct (skip _); [by injection E as <- <-|]. apply bind_inv in E as ([] & e2 & H2 & E). injection E as <- <-.
  split; [|apply Forall_app; split; [done|]; apply Forall_singleton; by apply advertisement_hop].
  destruct (finite _); by injection H2 as <-.
Qed.

(** A loop that builds the TLVs of interface [i]. *)
Lemma foldM_hops {A} i (f : list OutboundTlv -> A -> M (list OutboundTlv)) l acc e acc' e' :
  (forall a acc e acc' e', addressed e -> Forall (hop_ok i) acc -> f acc a e = Some (acc', e') ->
     addressed e' /\ Forall (hop_ok i) acc') ->
  addressed e -> Forall (hop_ok i) acc -> foldM f acc l e = Some (acc', e') ->
  addressed e' /\ Forall (hop_ok i) acc'.
Proof.
  intros Hf. revert acc e. induction l as [|a l IH]; intros acc e HA Hacc E; cbn [foldM] in E; [by injection E as <- <-|].
  apply bind_inv in E as (acc1 & e1 & H1 & E). destruct (Hf _ _ _ _ _ HA Hacc H1). by eapply IH.
Qed.

Lemma interface_updates_tells now only timing origins routes keys i :
  tells (interface_updates now only timing origins routes keys i).
Proof.
  intros e acts e' HA E. unfold interface_updates in E. apply bind_inv in E as (st & e0 & [= <- <-] & E).
  destruct (interfaces e !! i) as [st|]; [|injection E as <- <-; split; [done|constructor]].
  apply bind_inv in E as (l1 & e1 & H1 & E). eapply (foldM_hops i) in H1 as [HA1 Hl1]; [| |exact HA|constructor].
  2: { intros [key o] acc e2 acc' e2' HA2 Hacc Ef. destruct (wanted only key); [|by injection Ef as <- <-].
       apply bind_inv in Ef as (id & e3 & [= <- <-] & Ef). by eapply push_update_hops. }
  apply bind_inv in E as (l2 & e2 & H2 & E). eapply (foldM_hops i) in H2 as [HA2 Hl2]; [| |exact HA1|exact Hl1].
  2: { intros s acc e3 acc' e3' HA3 Hacc Ef. destruct (wanted only _); [|by injection Ef as <- <-].
       by eapply push_update_hops. }
  apply bind_inv in E as (l3 & e3 & H3 & E). eapply (foldM_hops i) in H3 as [HA3 Hl3]; [| |exact HA2|exact Hl2].
  2: { intros key acc e4 acc' e4' HA4 Hacc [= <- <-]. split; [done|]. destruct (_ && wanted only key); [|done].
       apply Forall_app. split; [done|]. apply Forall_singleton. by apply advertisement_hop. }
  apply bind_inv in E as ([] & e4 & H4 & E).
  assert (addressed e4) as HA4.
  { destruct (_ && _); [|by injection H4 as <-]. injection H4 as <-. intros j st' a Hj. revert Hj. cbn.
    rewrite lookup_alter_Some. intros [(-> & st0 & Hj & ->)|[_ Hj]] Ha; by eapply HA3. }
  case_bool_decide; [|injection E as <- <-; split; [done|constructor]]. apply bind_inv in E as (o & e5 & [= <- <-] & E).
  apply bind_inv in E as (st' & e6 & H6 & E). unfold expect in H6. destruct (interfaces e4 !! i); [|done].
  injection H6 as <- <-. injection E as <- <-. split; [done|]. by apply Forall_singleton.
Qed.

Lemma send_updates_tells now only i timing : tells (send_updates now only i timing).
Proof.
  unfold send_updates. do 4 (apply tells_read; intros ? ?). apply tells_for_actions. intros j _.
  apply interface_updates_tells.
Qed.

(** ** Everything else *)

Lemma hops_app l l' : Forall hops_ok l -> Forall hops_ok l' -> Forall hops_ok (l ++ l').
Proof. intros. by apply Forall_app. Qed.
Lemma hops_cons a l : hops_ok a -> Forall hops_ok l -> Forall hops_ok (a :: l).
Proof. by constructor. Qed.
Lemma hops_nil : Forall hops_ok [].
Proof. constructor. Qed.
Lemma hops_one i dest t timing : hop_ok i t -> hops_ok (Send i dest (MkOutboundPacket [t]) timing).
Proof. intros. by apply Forall_singleton. Qed.

Lemma send_retraction_hops e key seqno t : Forall hops_ok (send_retraction e key seqno t).
Proof. unfold send_retraction. apply Forall_fmap, Forall_true. intros [i st]. by apply Forall_singleton. Qed.

Lemma advertise_learned_hops e s metric i t : addressed e -> Forall hops_ok (advertise_learned e s metric i t).
Proof.
  intros HA. apply list.Forall_forall. intros a Ha. unfold advertise_learned in Ha.
  apply list_elem_of_omap in Ha as ([j st] & _ & Hj). case_match; [done|]. injection Hj as <-.
  apply hops_one. by apply advertisement_hop.
Qed.

Lemma make_urgent_hops now l : Forall hops_ok l -> Forall hops_ok (make_urgent now <$> l).
Proof. rewrite Forall_fmap. apply Forall_impl. by intros []. Qed.

Lemma ihu_hops policy key nb t deadline nb' l i :
  ihu_neighbour policy key nb t deadline = (nb', l) -> Forall (hop_ok i) l.
Proof.
  unfold ihu_neighbour. intros E. repeat (case_match; simplify_eq; try done);
    repeat first [apply Forall_app; split | apply List.Forall_cons | apply List.Forall_nil]; done.
Qed.

Ltac judged :=
  cbv [judge judge_any judge_action judge_actions judge_option judge_pair judge_received] in *;
  cbn [fst snd rc_actions] in *;
  repeat first
    [ done | assumption | exact I | apply hops_app | apply hops_cons | apply hops_nil | apply hops_one
    | apply send_retraction_hops | by apply advertise_learned_hops | split
    | match goal with H : _ /\ _ |- _ => destruct H end ].

Ltac tells_step :=
  first
    [ progress intros
    | assumption
    | solve [eauto 3 with keeps]
    | lazymatch goal with
      | |- tells (mret _) => apply tells_ret; judged
      | |- tells (gets _) => apply tells_gets; intros; judged
      | |- tells (expect _) => apply tells_expect; intros; judged
      | |- tells (modify _) => apply tells_modify; (done || idtac)
      | |- tells (mbind _ _) => apply tells_bind
      | |- tells (foldM _ _ _) => apply tells_foldM; [|judged]
      | |- tells (for_each _ _) => apply tells_for_each
      | |- tells (for_actions _ _) => apply tells_for_actions
      | |- tells (if ?b then _ else _) => destruct b eqn:?
      | |- tells (match ?b with _ => _ end) => destruct b eqn:?
      | |- tells ?m => let f := call_of m in unfold f
      end ].
Ltac tells_deep := repeat tells_step.

#[local] Hint Resolve send_updates_tells update_action_to_candidate_tells : keeps.

Lemma reselect_tells now : tells (reselect now).
Proof.
  assert (forall before acts s, Forall hops_ok acts -> tells (announce_change before now acts s)) as Hc.
  { intros before acts s Ha. unfold announce_change, repeat_advertisement, maintain_source.
    apply (tells_bind (H := judge_any unit)); [by apply tells_modify|intros _ _].
    apply tells_read. intros e He.
    apply (tells_bind (H := judge_any unit)); [case_match; [by apply tells_modify|by apply tells_ret]|intros _ _].
    apply tells_ret, hops_app; [done|]. case_match; [apply make_urgent_hops|]; by apply advertise_learned_hops. }
  unfold reselect. tells_deep.
Qed.
#[local] Hint Resolve reselect_tells : keeps.

Lemma ihu_action_tells key now deadline : tells (ihu_action key now deadline).
Proof.
  unfold ihu_action. apply tells_read. intros e _. apply tells_read. intros e1 _.
  destruct (interfaces e !! _) as [st|]; [|by apply tells_ret, hops_nil].
  destruct (neighbours e1 !! _) as [nb|]; [|by apply tells_ret, hops_nil].
  destruct (ihu_neighbour _ _ _ _ _) as [nb' l] eqn:E.
  apply (tells_bind (H := judge_any unit)); [by apply tells_modify|intros _ _]. apply tells_ret, hops_cons; [|apply hops_nil].
  by eapply ihu_hops.
Qed.

Lemma refresh_candidates_tells now : tells (refresh_candidates now).
Proof.
  unfold refresh_candidates. apply tells_bind.
  - apply tells_gets. intros e _. apply list.Forall_forall. intros a Ha.
    apply list_elem_of_omap in Ha as ([[key n] c] & _ & Ha). case_match; [|done]. injection Ha as <-. by apply hops_one.
  - intros l Hl. apply (tells_bind (H := judge_any unit)); [by apply tells_modify|intros _ _]. by apply tells_ret.
Qed.

(** The addresses stay what they are through the schedules. *)
Lemma advance_schedule_addresses now st : local_addresses (advance_schedule now st).1 = local_addresses st.
Proof.
  unfold advance_schedule. destruct (periodic_window_open now (next_hello_ms st));
    cbn [next_update_ms set_next_hello_ms set_hello_seqno]; by destruct (periodic_window_open now _).
Qed.

Lemma addressed_insert i st e :
  (forall a, a ∈ local_addresses st -> own i a) -> addressed e ->
  addressed (set_interfaces (<[i := st]> (interfaces e)) e).
Proof.
  intros Hs HA j st' a. cbn. rewrite lookup_insert_Some. intros [[-> <-]|[_ H]]; [auto|by eapply HA].
Qed.

Lemma tick_interface_tells now acts i : Forall hops_ok acts -> tells (tick_interface now acts i).
Proof.
  intros Ha e l e' HA E. unfold tick_interface in E. apply bind_inv in E as (o & e0 & [= <- <-] & E).
  destruct (interfaces e !! i) as [st|] eqn:Ei; [|done]. apply bind_inv in E as (st0 & e0 & [= <- <-] & E).
  pose proof (advance_schedule_addresses now st) as Hst.
  destruct (advance_schedule now st) as [st' [hello update]]. cbn [fst] in Hst.
  apply bind_inv in E as ([] & e1 & [= <-] & E).
  assert (addressed (set_interfaces (<[i := st']> (interfaces e)) e)) as HA1.
  { apply addressed_insert; [|done]. rewrite Hst. intros a. by apply HA. }
  apply bind_inv in E as (ups & e2 & H2 & E). injection E as <- <-.
  assert (addressed e2 /\ Forall hops_ok ups) as [HA2 Hups].
  { destruct update; [by eapply send_updates_tells|]. injection H2 as <- <-. split; [done|apply hops_nil]. }
  split; [done|]. apply hops_app; [done|]. apply hops_app; [|done].
  destruct hello; [|apply hops_nil]. apply hops_cons; [by apply hops_one|apply hops_nil].
Qed.
#[local] Hint Resolve ihu_action_tells refresh_candidates_tells tick_interface_tells : keeps.

Lemma tick_tells now : tells (tick now).
Proof. tells_deep. Qed.
#[local] Hint Resolve tick_tells : keeps.

Lemma receive_tells i source packet now ts : tells (receive i source packet now ts).
Proof. tells_deep. Qed.
#[local] Hint Resolve receive_tells : keeps.

(** Addresses come from the events. *)
Definition event_addresses (event : Event) : Prop :=
  match event with
  | InterfaceUp i addresses _ | InterfaceUpWithPolicy i addresses _ _ | InterfaceAddressesChanged i addresses _ =>
      forall a, a ∈ addresses -> own i a
  | _ => True
  end.

Lemma addressed_sub m e : m ⊆ interfaces e -> addressed e -> addressed (set_interfaces m e).
Proof. intros Hm HA i st a Hi. eapply HA. by eapply lookup_weaken. Qed.

Lemma interface_up_tells i addresses policy now :
  (forall a, a ∈ addresses -> own i a) -> tells (interface_up i addresses policy now).
Proof.
  intros Ho. unfold interface_up. apply (tells_bind (H := judge_any unit)); [|tells_deep].
  apply tells_modify. intros e HA. apply addressed_insert; [|done].
  destruct (interfaces e !! i) as [st|] eqn:Ei; [|done]. intros a. exact (HA _ _ _ Ei).
Qed.

Lemma interface_policy_changed_tells i policy reset now : tells (interface_policy_changed i policy reset now).
Proof.
  unfold interface_policy_changed. apply tells_read. intros e HA.
  destruct (interfaces e !! i) as [st|] eqn:Ei; [|tells_deep].
  apply (tells_bind (H := judge_any unit)); [|tells_deep].
  apply tells_modify. intros e' HA'. apply addressed_insert; [|done]. intros a. exact (HA _ _ _ Ei).
Qed.

Lemma interface_addresses_changed_tells i addresses now :
  (forall a, a ∈ addresses -> own i a) -> tells (interface_addresses_changed i addresses now).
Proof.
  intros Ho. unfold interface_addresses_changed. apply tells_read. intros e HA.
  set (unchanged := match interfaces e !! i with Some _ => _ | None => _ end).
  destruct unchanged; [tells_deep|]. apply (tells_bind (H := judge_any unit)); [|tells_deep].
  apply tells_modify. intros e' HA' j st a. cbn. rewrite lookup_alter_Some.
  intros [(-> & st0 & Hj & ->)|[_ Hj]]; [apply Ho|exact (HA' _ _ _ Hj)].
Qed.

(** Every update of an event names an address of the interface it leaves by. *)
Lemma handle_tells event : event_addresses event -> tells (handle event).
Proof.
  intros Ho. unfold handle. apply tells_bind; [|tells_deep].
  destruct event; simpl in Ho; unfold handle_validated.
  2: { apply tells_read. intros e _. by apply interface_up_tells. }
  2: by apply interface_up_tells.
  2: apply interface_policy_changed_tells.
  2: by apply interface_addresses_changed_tells.
  2: { unfold interface_down. apply (tells_bind (H := judge_any unit)); [|tells_deep].
       apply tells_modify. intros e HA. apply addressed_sub; [apply delete_subseteq|done]. }
  all: tells_deep. apply Forall_fmap, Forall_true. intros [i st]. by apply hops_one.
Qed.
End Hops.
