(* ===== verification/Network.v ===== *)
(** A network of engines.

    Routers run the engine and exchange its updates over shared links.  Messages
    may be lost, delayed, repeated, reordered, split and merged, and every router
    is given any other event at any time: interfaces come and go, routes are
    originated and withdrawn, policies are replaced.  The network is loop free,
    at every moment and for every origin, as long as the bounds of [step_ok]
    hold. *)
From S2P Require Import Prelude Net Model Metric Wire WireRoundtrip Api EngineState Deadlines Sources Output Rib Neighbors Timers Engine OutputSpec Invariant AdmissionSpec SelectionSpec ReceiveSpec TimersSpec EngineSpec LoopSpec SourceTheorems Hops.
Import Hello.
Local Open Scope Z_scope.

Section Network.
Context {NL : IpNetLib} {MI : MetricImpl} {HO : HashOrder} {B : Build}.

(** Where the interfaces of the routers are attached and who owns the addresses
    there; how long a message may take and how often every router ticks. *)
Record Topology := {
  segment : string -> string -> positive;
  owner : positive -> IpAddr -> option string;
  max_delay_ms : Z;
  tick_ms : Z
}.

Record Router := MkRouter { r_engine : Engine; r_ticked : Z }.

(** A TLV that left a router. *)
Record Message := MkMessage {
  m_from : string;
  m_interface : string;
  m_tlv : OutboundTlv;
  m_time : Z
}.

Record Network := MkNetwork {
  routers : gmap string Router;
  messages : list Message;
  clock : Z
}.

Definition router_id_of (x : Router) : RouterId := cfg_router_id (config (r_engine x)).

(** ** One event of one router *)

Definition sent_by (name : string) (time : Z) (action : Action) : list Message :=
  match action with
  | Send interface _ packet _ =>
      (fun tlv => MkMessage name interface tlv time) <$> out_tlvs packet
  | _ => []
  end.

(** The receiver's reading of an update. *)
Definition carries (source : IpAddr) (o : OutboundUpdate) (u : ResolvedUpdate) : bool :=
  bool_decide (ru_key u = ou_key o) && bool_decide (ru_router_id u = ou_router_id o)
  && (ru_seqno u =? ou_seqno o) && (ru_metric u =? ou_metric o) && (ru_interval_cs u =? ou_interval_cs o)
  && bool_decide (ru_next_hop u = Some (default source (ou_next_hop o))).

(** It is what the codec makes of a finite update. *)
Lemma update_means_carries source o u : update_means source o u -> ou_metric o <> INFINITY -> carries source o u = true.
Proof.
  intros (Hk & Hi & Hs & Hm & _ & _ & _ & Hf) Hinf. destruct (Hf Hinf) as (Hr & _ & Hn). unfold carries.
  by rewrite Hk, Hi, Hs, Hm, Hr, Hn, !bool_decide_true, !Z.eqb_refl by done.
Qed.

Section Destination.
Context (T : Topology) (k : RouteKey) (r : RouterId) (w : Z).

(** [m] brings the update [u] in time, in a datagram from its sender's address. *)
Definition brings (name interface : string) (source : IpAddr) (time : Z) (u : ResolvedUpdate) (m : Message)
  : bool :=
  let s := segment T name interface in
  match m_tlv m with
  | OUpdate o =>
      negb (bool_decide (m_from m = name)) && bool_decide (segment T (m_from m) (m_interface m) = s)
      && carries source o u && (time <=? m_time m + max_delay_ms T)
      && bool_decide (owner T s source = Some (m_from m))
  | _ => false
  end.

(** A finite update for [k] of origin [r] was sent by a router; its lifetime and
    the delays are within the lifetime of a source. *)
Definition delivered (messages : list Message) (name interface : string) (source : IpAddr) (time : Z)
    (u : ResolvedUpdate) : bool :=
  negb (bool_decide (ru_key u = Some k) && bool_decide (ru_router_id u = Some r) && negb (ru_metric u =? INFINITY))
  || (existsb (brings name interface source time u) messages && (0 <=? ru_interval_cs u)
      && (max_delay_ms T + ru_interval_cs u * 35 + tick_ms T <=? SOURCE_GC_TIME_MS)).

Definition tlv_delivered (messages : list Message) (name interface : string) (source : IpAddr) (time : Z)
    (tlv : Tlv) : bool :=
  match tlv with TUpdate u => delivered messages name interface source time u | _ => true end.

Definition event_delivered (messages : list Message) (name : string) (event : Event) : bool :=
  match event with
  | PacketReceived interface source packet time
  | PacketReceivedWithTimestamp interface source packet time _ =>
      forallb (tlv_delivered messages name interface source time) (tlvs packet)
  | _ => true
  end.

(** Interfaces are given addresses of their router. *)
Definition addresses_own (name interface : string) (addresses : list IpAddr) : bool :=
  forallb (fun a => bool_decide (owner T (segment T name interface) a = Some name)) addresses.
Definition event_addressed (name : string) (event : Event) : bool :=
  match event with
  | InterfaceUp interface addresses _ | InterfaceUpWithPolicy interface addresses _ _
  | InterfaceAddressesChanged interface addresses _ => addresses_own name interface addresses
  | _ => true
  end.

(** Every router ticks often enough, and time is below its bound. *)
Definition timely (N : Network) (time : Z) : bool :=
  (clock N <=? time) && (time + SOURCE_GC_TIME_MS <=? u64_max)
  && forallb (fun '(_, x) => time <=? r_ticked x + tick_ms T) (map_to_list (routers N)).

(** The sequence numbers of [r] stay in half of their space. *)
Definition message_in_window (m : Message) : bool :=
  match m_tlv m with
  | OUpdate u =>
      negb (bool_decide (ou_key u = Some k) && bool_decide (ou_router_id u = Some r) && finite u)
      || in_window w {| d_seqno := ou_seqno u; d_metric := ou_metric u |}
  | _ => true
  end.

(** While a route of [r] is selected for [k], no request for [k] is held for
    another router, and requests and updates for [k] come in different packets. *)
Definition routed (e : Engine) : bool :=
  match selected e !! k with Some s => bool_decide (sr_router_id s = r) | None => false end.
Definition updates_key (tlv : Tlv) : bool :=
  match tlv with TUpdate u => bool_decide (ru_key u = Some k) | _ => false end.
Definition requests_key (tlv : Tlv) : bool :=
  match tlv with TSeqnoRequest key _ _ _ _ => bool_decide (key = k) | _ => false end.
Definition event_packet (event : Event) : list Tlv :=
  match event with
  | PacketReceived _ _ packet _ | PacketReceivedWithTimestamp _ _ packet _ _ => tlvs packet
  | _ => []
  end.
Definition requests_apart (e : Engine) (event : Event) : bool :=
  negb (routed e)
  || negb (existsb updates_key (event_packet event) && existsb requests_key (event_packet event)).
Definition no_relay (e : Engine) : bool :=
  negb (routed e)
  || forallb (fun '((key, _), p) => negb (bool_decide (key = k)) || bool_decide (pq_requester p = None))
       (map_to_list (pending_seqno e)).

Definition is_tick (event : Event) : bool := match event with Tick _ => true | _ => false end.

(** One step; [relays] lifts the conditions on requests for other routers. *)
Definition net_step (relays : bool) (step : string * Event) (N : Network) : option Network :=
  let '(name, event) := step in
  let time := event_time event in
  x ← routers N !! name;
  if timely N time && event_delivered (messages N) name event && event_addressed name event
     && (relays || requests_apart (r_engine x) event) then
    match try_handle event (r_engine x) with
    | Some (Ok actions, e) =>
        let sent := concat (sent_by name time <$> actions) in
        if forallb message_in_window sent && (relays || no_relay e) then
          Some (MkNetwork
            (<[name := MkRouter e (if is_tick event then time else r_ticked x)]> (routers N))
            (messages N ++ sent) time)
        else None
    | _ => None
    end
  else None.

Fixpoint net_run (relays : bool) (steps : list (string * Event)) (N : Network) : option Network :=
  match steps with
  | [] => Some N
  | step :: rest => N' ← net_step relays step N; net_run relays rest N'
  end.

(** Routers as [Engine_try_new] makes them. *)
Record initial (N : Network) : Prop := {
  in_new : forall name x, routers N !! name = Some x ->
    r_ticked x <= clock N /\ exists cfg, Engine_try_new cfg = Ok (r_engine x);
  in_messages : messages N = [];
  in_clock : in_u64 (clock N)
}.

(** [a] sends packets for [k] that it learned from [r] to [b]. *)
Definition forwards (N : Network) (a b : string) : Prop :=
  exists x s, routers N !! a = Some x /\ selected (r_engine x) !! k = Some s /\ sr_router_id s = r /\
    owner T (segment T a (sr_interface s)) (sr_next_hop s) = Some b.
End Destination.
End Network.

(** * The invariant of the network *)

Section Safe.
Context {NL : IpNetLib} {MI : MetricImpl} {HO : HashOrder} {B : Build}.
Context (release : overflow_checks = false).
Context (T : Topology) (k : RouteKey) (r : RouterId) (w : Z).
Context (delays : 0 <= max_delay_ms T <= SOURCE_GC_TIME_MS) (ticks : 0 <= tick_ms T).

(** An engine's recorded distance has value at most [v], until [x] at least. *)
Definition holds (e : Engine) (v x : Z) : Prop :=
  exists src, feasible e !! (k, r) = Some src /\ value w (s_distance src) <= v /\ x <= s_expires_ms src.

(** The value of the recorded distance, [bottom] for the origin itself. *)
Definition bottom : Z := - 2 ^ 32.
Definition recorded_value (x : Router) : Z :=
  if bool_decide (router_id_of x = r) then bottom
  else match feasible (r_engine x) !! (k, r) with Some src => value w (s_distance src) | None => bottom end.

(** Seen from router [a]. *)
Definition behind (N : Network) (a i : string) (h : IpAddr) : option Router :=
  b ← owner T (segment T a i) h; if bool_decide (b = a) then None else routers N !! b.
Definition F (N : Network) (a i : string) (h : IpAddr) : Z :=
  match behind N a i h with Some x => recorded_value x | None => bottom end.

(** What is known of a candidate of router [a], last ticked at [ticked]. *)
Definition P (N : Network) (a : string) (ticked : Z) (i : string) (h : IpAddr) (v x : Z) : Prop :=
  bottom <= v /\ ticked <= x /\ owner T (segment T a i) h <> Some a /\
  forall y, behind N a i h = Some y -> router_id_of y <> r ->
  exists x', x + tick_ms T <= x' <= clock N + SOURCE_GC_TIME_MS /\ holds (r_engine y) v x'.

Lemma bounding_P N a ticked : bounding (F N a) (P N a ticked).
Proof.
  intros i h v x (Hb & _ & _ & Hy). unfold F, recorded_value. destruct (behind N a i h) as [y|] eqn:E; [|done].
  case_bool_decide as Hid; [done|]. destruct (Hy y eq_refl Hid) as (x' & _ & src & -> & Hv & _). done.
Qed.

(** ** The invariant *)

Definition none_held : Z -> Z -> Prop := fun _ _ => False.

(** What is known of requests between events. *)
Definition mode (e : Engine) : Requests := if routed k r e then Quiet else Unrouted.

Lemma routed_false e : routed k r e = false -> unrouted k r (selected e).
Proof.
  unfold routed. intros H s Hs. rewrite Hs in H. by apply bool_decide_eq_false in H.
Qed.

(** The addresses of router [a]. *)
Definition own (a i : string) (h : IpAddr) : Prop := owner T (segment T a i) h = Some a.

Record router_safe (N : Network) (a : string) (x : Router) : Prop := {
  rs_reachable : reachable (r_engine x);
  rs_addressed : addressed (own a) (r_engine x);
  rs_ticked : r_ticked x <= clock N;
  rs_safe : router_id_of x <> r -> safe k r w (F N a) none_held (mode (r_engine x)) (P N a (r_ticked x)) (r_engine x)
}.

(** A message is too old to arrive, or still covered by its sender's table. *)
Definition message_safe (N : Network) (m : Message) : Prop :=
  m_time m <= clock N /\ hop_ok (own (m_from m)) (m_interface m) (m_tlv m) /\
  forall u, m_tlv m = OUpdate u -> ou_key u = Some k -> ou_router_id u = Some r -> finite u = true ->
    let d := {| d_seqno := ou_seqno u; d_metric := ou_metric u |} in
    in_window w d = true /\
    forall x, routers N !! m_from m = Some x -> router_id_of x <> r ->
      m_time m + max_delay_ms T < clock N \/
      holds (r_engine x) (value w d) (m_time m + SOURCE_GC_TIME_MS).

Record network_safe (N : Network) : Prop := {
  ns_clock : in_u64 (clock N);
  ns_routers : forall a x, routers N !! a = Some x -> router_safe N a x;
  ns_messages : forall m, m ∈ messages N -> message_safe N m
}.

(** ** One step *)

Record stepped (N N' : Network) (a : string) (event : Event) (x : Router) (acts : list Action) (e : Engine)
  : Prop := {
  sp_router : routers N !! a = Some x;
  sp_clock : clock N <= event_time event;
  sp_bound : event_time event + SOURCE_GC_TIME_MS <= u64_max;
  sp_ticks : forall b y, routers N !! b = Some y -> event_time event <= r_ticked y + tick_ms T;
  sp_delivered : event_delivered T k r (messages N) a event = true;
  sp_addressed : event_addressed T a event = true;
  sp_apart : requests_apart k r (r_engine x) event = true;
  sp_try : try_handle event (r_engine x) = Some (Ok acts, e);
  sp_handle : handle event (r_engine x) = Some (acts, e);
  sp_window : forall m, m ∈ concat (sent_by a (event_time event) <$> acts) -> message_in_window k r w m = true;
  sp_quiet : no_relay k r e = true;
  sp_next : N' = MkNetwork (<[a := MkRouter e (if is_tick event then event_time event else r_ticked x)]> (routers N))
              (messages N ++ concat (sent_by a (event_time event) <$> acts)) (event_time event)
}.

Lemma net_step_inv a event N N' :
  net_step T k r w false (a, event) N = Some N' -> exists x acts e, stepped N N' a event x acts e.
Proof.
  unfold net_step. intros (x & Hx & E)%bind_Some.
  destruct (timely T N _ && _ && _ && _) eqn:Eg; [|done]. rewrite !andb_true_iff in Eg.
  destruct Eg as [[[Et Ed] Eo] Ea].
  destruct (try_handle event (r_engine x)) as [[[acts|err] e]|] eqn:Eh; try done.
  destruct (forallb _ _ && _) eqn:Ew; [|done]. rewrite andb_true_iff, forallb_forall in Ew. destruct Ew as [Ew Eq].
  unfold timely in Et. rewrite !andb_true_iff, !Z.leb_le, forallb_forall in Et. destruct Et as [[T1 T2] T3].
  exists x, acts, e. split; try done.
  - intros b y Hy. specialize (T3 (b, y)). apply Z.leb_le, T3, list_elem_of_In, elem_of_map_to_list. done.
  - unfold try_handle in Eh. destruct (validate_event event); [|done].
    apply bind_Some in Eh as ([l e1] & Eh & [= -> ->]). exact Eh.
  - intros m Hm. by apply Ew, list_elem_of_In.
  - by injection E as <-.
Qed.

(** What is known of requests while a packet is handled. *)
Definition packet_mode (e : Engine) (event : Event) : Requests :=
  if routed k r e then (if existsb (requests_key k) (event_packet event) then Free else Quiet) else Unrouted.

(** What the receiver may conclude from a packet. *)
Lemma update_known_P N N' a event x acts e i source u :
  network_safe N -> stepped N N' a event x acts e ->
  delivered T k r (messages N) a i source (event_time event) u = true ->
  update_known k r w (event_time event) (P N a (r_ticked x)) i u.
Proof.
  intros [HC HR HM] St Hd h Hk Hr Hm Hh d. set (t := event_time event) in *.
  unfold delivered in Hd. rewrite !bool_decide_true, (proj2 (Z.eqb_neq _ _) Hm) in Hd by done. simpl in Hd.
  rewrite !andb_true_iff, existsb_exists, !Z.leb_le in Hd. destruct Hd as [[(m & Hin & Hb) Hi] Hl].
  unfold brings in Hb. destruct (m_tlv m) as [| | | | | |o| | |] eqn:Em; try done.
  rewrite !andb_true_iff, negb_true_iff, bool_decide_eq_false, !bool_decide_eq_true, Z.leb_le in Hb.
  destruct Hb as [[[[Hne Hseg] Hc] Hdelay] Hown].
  unfold carries in Hc. rewrite !andb_true_iff, !bool_decide_eq_true, !Z.eqb_eq in Hc.
  destruct Hc as [[[[[Ck Cr] Cs] Cm] Ci] Ch]. rewrite Hh in Ch. injection Ch as Ch.
  apply list_elem_of_In, HM in Hin. destruct Hin as (Ht & Hhop & Hsafe).
  assert (owner T (segment T a i) h = Some (m_from m)) as Hown'.
  { rewrite Ch. destruct (ou_next_hop o) as [h'|] eqn:Eh; [|exact Hown]. rewrite Em in Hhop. simpl.
    rewrite <- Hseg. by apply Hhop. }
  clear Hown. rename Hown' into Hown. pose proof (sp_clock _ _ _ _ _ _ _ St) as Hclk. fold t in Hclk.
  assert (finite o = true) as Hf by (unfold finite; apply negb_true_iff, Z.eqb_neq; congruence).
  pose proof (sp_bound _ _ _ _ _ _ _ St) as Hbnd. fold t in Hbnd.
  assert (saturating_add64 t (ru_interval_cs u * 35) = t + ru_interval_cs u * 35) as ->
    by (unfold saturating_add64; lia).
  destruct (HR a x (sp_router _ _ _ _ _ _ _ St)) as [_ _ Htick _].
  destruct (Hsafe o Em) as [Hw Hy]; [congruence..|done|]. rewrite <- Cs, <- Cm in Hw, Hy. fold d in Hw, Hy.
  split; [exact Hw|]. pose proof (value_lower w d Hw). split_and!.
  - unfold bottom. lia.
  - lia.
  - rewrite Hown. congruence.
  - intros y Hb Hid. unfold behind in Hb. rewrite Hown in Hb. simpl in Hb.
    rewrite bool_decide_false in Hb by done. destruct (Hy y Hb Hid) as [?|Hh']; [lia|].
    exists (m_time m + SOURCE_GC_TIME_MS). split; [lia|exact Hh'].
Qed.

Lemma event_known_P N N' a event x acts e :
  network_safe N -> stepped N N' a event x acts e ->
  event_known k r w (event_time event) (packet_mode (r_engine x) event) (P N a (r_ticked x)) event.
Proof.
  intros HN St. pose proof (sp_delivered _ _ _ _ _ _ _ St) as Hd. pose proof (sp_apart _ _ _ _ _ _ _ St) as Ha.
  assert (forall i source packet, event_packet event = tlvs packet ->
    forallb (tlv_delivered T k r (messages N) a i source (event_time event)) (tlvs packet) = true ->
    forall t, t ∈ tlvs packet ->
    tlv_known k r w (event_time event) (packet_mode (r_engine x) event) (P N a (r_ticked x)) i t) as Hp.
  { intros i source packet Ep Hf t Ht. rewrite forallb_forall in Hf. specialize (Hf t ltac:(by apply list_elem_of_In)).
    unfold requests_apart in Ha. unfold packet_mode. rewrite Ep in *.
    destruct (routed k r (r_engine x)); [|destruct t; try done; simpl in *; split; [by eapply update_known_P|done]].
    destruct t; try done; simpl in *.
    - split; [by eapply update_known_P|]. intros Hk.
      assert (existsb (updates_key k) (tlvs packet) = true) as E.
      { apply existsb_exists. eexists. split; [by apply list_elem_of_In|]. simpl. by apply bool_decide_eq_true. }
      rewrite E in Ha. simpl in Ha. apply negb_true_iff in Ha. by rewrite Ha.
    - destruct (existsb (requests_key k) (tlvs packet)) eqn:E; [done|]. intros _ ->.
      rewrite <- not_true_iff_false, existsb_exists in E. apply E.
      eexists. split; [by apply list_elem_of_In|]. simpl. by apply bool_decide_eq_true. }
  destruct event; try done; simpl in *; eapply Hp; done.
Qed.

Lemma safe_adapt F' held q P1 held' q' P2 e :
  safe k r w F' held q P1 e -> (forall i h v x, P1 i h v x -> P2 i h v x) ->
  (forall v x, held' v x -> holds e v x) ->
  match q' with
  | Quiet => forall r' p, pending_seqno e !! (k, r') = Some p -> pq_requester p = None
  | Unrouted => unrouted k r (selected e)
  | Free => True
  | Alone => forall i h, F' i h <= - 2 ^ 32
  end ->
  safe k r w F' held' q' P2 e.
Proof.
  intros [I1 I2 I3 I4 I5 I6 I7 I8 I9] HP Hh Hq. split; try done. intros n c Hc. destruct (I3 n c Hc) as [C1 C2].
  split; [done|]. intros H1 H2. destruct (C2 H1 H2). auto.
Qed.

Lemma no_relay_mode (F' : string -> IpAddr -> Z) e :
  no_relay k r e = true ->
  match mode e with
  | Quiet => forall r' p, pending_seqno e !! (k, r') = Some p -> pq_requester p = None
  | Unrouted => unrouted k r (selected e)
  | Free => True
  | Alone => forall i h, F' i h <= - 2 ^ 32
  end.
Proof.
  unfold no_relay, mode. destruct (routed k r e) eqn:E; [|intros _; by apply routed_false].
  simpl. rewrite forallb_forall. intros H r' p Hp. specialize (H ((k, r'), p)).
  rewrite <- list_elem_of_In, elem_of_map_to_list in H. specialize (H Hp). simpl in H.
  rewrite bool_decide_true in H by done. by apply bool_decide_eq_true in H.
Qed.

(** Distances recorded at the time of the event last through it. *)
Definition kept (e : Engine) (t v x : Z) : Prop := holds e v x /\ t <= x <= t + SOURCE_GC_TIME_MS.

(** The router that is given the event. *)
Record router_step (N : Network) (a : string) (event : Event) (x : Router) (acts : list Action) (e : Engine)
  : Prop := {
  st_safe : safe k r w (F N a) none_held (mode e)
    (fun i h v y => P N a (r_ticked x) i h v y /\ (is_tick event = true -> event_time event <= y)) e;
  st_kept : forall v y, kept (r_engine x) (event_time event) v y -> holds e v y;
  st_sent : forall i dest packet timing u, Send i dest packet timing ∈ acts -> OUpdate u ∈ out_tlvs packet ->
    ou_key u = Some k -> ou_router_id u = Some r -> finite u = true ->
    holds e (value w {| d_seqno := ou_seqno u; d_metric := ou_metric u |}) (event_time event + SOURCE_GC_TIME_MS)
}.

Lemma router_stepped N N' a event x acts e :
  network_safe N -> stepped N N' a event x acts e -> router_id_of x <> r -> router_step N a event x acts e.
Proof.
  intros HN St Hid. set (t := event_time event). pose proof HN as [HC HR HM].
  destruct (HR a x (sp_router _ _ _ _ _ _ _ St)) as [Hreach Haddr Htick Hsafe]. specialize (Hsafe Hid).
  pose proof (sp_clock _ _ _ _ _ _ _ St) as Hclk. pose proof (sp_bound _ _ _ _ _ _ _ St) as Hbnd. fold t in Hclk, Hbnd.
  assert (in_u64 t) as Hu by (unfold in_u64, SOURCE_GC_TIME_MS in *; lia).
  pose proof (event_known_P _ _ _ _ _ _ _ HN St) as Hknown. fold t in Hknown.
  pose proof (bounding_P N a (r_ticked x)) as HB. pose proof (sp_handle _ _ _ _ _ _ _ St) as Hh.
  assert (forall v y, kept (r_engine x) t v y -> t <= y <= t + SOURCE_GC_TIME_MS) as Hkt by (by intros v y [_ ?]).
  set (q := packet_mode (r_engine x) event) in *.
  assert (safe k r w (F N a) (kept (r_engine x) t) q (P N a (r_ticked x)) (r_engine x)) as H0.
  { eapply safe_adapt; [exact Hsafe|done|by intros v y [? _]|].
    pose proof (sf_requests Hsafe) as Hr. unfold mode in Hr. unfold q, packet_mode.
    destruct (routed k r (r_engine x)); [|done]. by destruct (existsb _ _). }
  assert (safe k r w (F N a) (kept (r_engine x) t) (after q) (P N a (r_ticked x)) e) as H1
    by (by eapply (handle_keeps k r w t)).
  split.
  - assert (safe k r w (F N a) (kept (r_engine x) t) Free
      (fun i h v y => P N a (r_ticked x) i h v y /\ (is_tick event = true -> t <= y)) e) as H2.
    { destruct (is_tick event) eqn:Et.
      - assert (handle (Tick t) (r_engine x) = Some (acts, e)) as Ht by (by destruct event).
        assert (safe k r w (F N a) (kept (r_engine x) t) Free (P N a (r_ticked x)) (r_engine x)) as H0'
          by (by eapply safe_adapt; [exact H0|done|apply (sf_held H0)|]).
        assert (Free <> Unrouted) as Hfree by done.
        pose proof (handle_tick_fresh k r w t (F N a) _ Hkt Hu Hbnd Free _ _ _ _ Hfree HB H0' Ht) as H2.
        eapply safe_adapt; [exact H2| |apply (sf_held H1)|done]. by intros i h v y [? ?].
      - by eapply safe_adapt; [exact H1|done|apply (sf_held H1)|]. }
    eapply safe_adapt; [exact H2|done|done|]. apply no_relay_mode, (sp_quiet _ _ _ _ _ _ _ St).
  - apply (sf_held H1).
  - intros i dest packet timing u Ha Hp Hk Hr Hf. set (v := value w _).
    assert (safe k r w (F N a) (lasting t v False) q (P N a (r_ticked x)) (r_engine x)) as H3.
    { eapply safe_adapt; [exact H0|done|by intros ?? [[] _]|apply (sf_requests H0)]. }
    pose proof (handle_sent k r w t (F N a) (P N a (r_ticked x)) v q Hu Hbnd HB event
      eq_refl Hknown False _ _ _ H3 Hh) as H4.
    apply (sf_held H4). split; [|done]. right. apply list.Exists_exists. eexists. split; [exact Ha|].
    apply list.Exists_exists. eexists. split; [exact Hp|]. done.
Qed.

(** ** The other routers *)

(** Selected routes rest on candidates, so what is known of the candidates may be
    brought up to date. *)
Lemma safe_refresh F1 P1 F2 P2 held q e :
  q <> Alone -> Inv e -> backed e -> safe k r w F1 held q P1 e ->
  (forall i h v x, P1 i h v x -> P2 i h v x /\ F2 i h <= F1 i h) -> safe k r w F2 held q P2 e.
Proof.
  intros Hq HI Hb [I1 I2 I3 I4 I5 I6 I7 I8 I9] HP.
  assert (forall s, selected e !! k = Some s -> sr_router_id s = r ->
    F2 (sr_interface s) (sr_next_hop s) <= F1 (sr_interface s) (sr_next_hop s)) as HF.
  { intros s Hs Hr. destruct (Hb k s Hs) as (n & c & Hc & ->). destruct (I3 n c Hc) as [C1 C2].
    destruct (C1 (so_finite _ _ _ (inv_selected _ HI _ _ Hs))) as [Ha _]. destruct (C2 Hr Ha) as [_ Hp].
    by apply HP in Hp as [_ ?]. }
  split; try done.
  - intros n c Hc. destruct (I3 n c Hc) as [C1 C2]. split; [done|]. intros H1 H2.
    destruct (C2 H1 H2) as [? Hp]. split; [done|]. by apply HP.
  - intros s Hs Hr. destruct (I5 s Hs Hr) as [R1 R2]. split; [done|]. specialize (HF s Hs Hr). lia.
  - intros s src Hs Hr Hsrc. specialize (HF s Hs Hr). specialize (I6 s src Hs Hr Hsrc). lia.
  - by destruct q.
Qed.

Lemma mode_not_alone e : mode e <> Alone.
Proof. unfold mode. by destruct (routed k r e). Qed.

Section Step.
Context (N N' : Network) (a : string) (event : Event) (x : Router) (acts : list Action) (e : Engine).
Context (HN : network_safe N) (St : stepped N N' a event x acts e).

Abbreviation t := (event_time event).
Definition next_router : Router := MkRouter e (if is_tick event then event_time event else r_ticked x).

Lemma next_routers : routers N' = <[a := next_router]> (routers N).
Proof. by rewrite (sp_next _ _ _ _ _ _ _ St). Qed.
Lemma next_clock : clock N' = t.
Proof. by rewrite (sp_next _ _ _ _ _ _ _ St). Qed.

Lemma next_id : router_id_of next_router = router_id_of x.
Proof. exact (handle_named (router_id_of x) event _ _ _ eq_refl (sp_handle _ _ _ _ _ _ _ St)). Qed.

Lemma next_engine : router_id_of x <> r -> router_step N a event x acts e.
Proof. by eapply router_stepped. Qed.

Lemma behind_next c i h y' :
  behind N' c i h = Some y' ->
  behind N c i h = Some y' \/ (behind N c i h = Some x /\ y' = next_router).
Proof.
  unfold behind. destruct (owner T _ h) as [b|]; simpl; [|done]. case_bool_decide; [done|].
  rewrite next_routers. destruct (decide (b = a)) as [->|].
  - rewrite lookup_insert, decide_True by done. intros [= <-]. right. by rewrite (sp_router _ _ _ _ _ _ _ St).
  - rewrite lookup_insert_ne by done. auto.
Qed.

Lemma P_next c tick tick' i h v y :
  P N c tick i h v y -> t <= y + tick_ms T -> tick' <= y -> P N' c tick' i h v y.
Proof.
  intros (H1 & H2 & H3 & H4) Ht Hy. split_and!; [done..|]. intros z Hz Hid. rewrite next_clock.
  pose proof (sp_clock _ _ _ _ _ _ _ St) as Hclk.
  destruct (behind_next _ _ _ _ Hz) as [Hb|[Hb ->]].
  - destruct (H4 z Hb Hid) as (x' & Hx' & Hh). exists x'. split; [lia|done].
  - rewrite next_id in Hid. destruct (H4 x Hb Hid) as (x' & Hx' & Hh). exists x'. split; [lia|].
    apply (st_kept _ _ _ _ _ _ (next_engine Hid)). split; [done|lia].
Qed.

Lemma F_next c tick i h v y : P N c tick i h v y -> t <= y + tick_ms T -> F N' c i h <= F N c i h.
Proof.
  intros (H1 & H2 & H3 & H4) Ht. unfold F. pose proof (sp_clock _ _ _ _ _ _ _ St) as Hclk.
  destruct (behind N' c i h) as [z|] eqn:Hz.
  - destruct (behind_next _ _ _ _ Hz) as [->|[Hb ->]]; [done|]. rewrite Hb. unfold recorded_value. rewrite next_id.
    case_bool_decide as Hid; [done|]. destruct (H4 x Hb Hid) as (x' & Hx' & src & E & _ & Hexp). rewrite E.
    destruct (st_kept _ _ _ _ _ _ (next_engine Hid) (value w (s_distance src)) x') as (src' & E' & Hv & _).
    { split; [by exists src|lia]. }
    cbn [r_engine next_router]. by rewrite E'.
  - unfold behind in *. destruct (owner T _ h) as [b|]; simpl in *; [|done]. case_bool_decide; [done|].
    rewrite next_routers in Hz. destruct (decide (b = a)) as [->|].
    + rewrite lookup_insert, decide_True in Hz by done. done.
    + rewrite lookup_insert_ne in Hz by done. by rewrite Hz.
Qed.

Lemma next_reachable : reachable e.
Proof.
  destruct HN as [HC HR _]. destruct (HR a x (sp_router _ _ _ _ _ _ _ St)) as [Hreach _ _ _].
  eapply (reach_step _); [exact Hreach| |exact (sp_try _ _ _ _ _ _ _ St)].
  pose proof (sp_clock _ _ _ _ _ _ _ St). pose proof (sp_bound _ _ _ _ _ _ _ St).
  unfold in_u64, SOURCE_GC_TIME_MS in *. lia.
Qed.

(** What the event sends names addresses of this router. *)
Lemma next_hops : addressed (own a) e /\ Forall (hops_ok (own a)) acts.
Proof.
  pose proof HN as [_ HR _]. destruct (HR a x (sp_router _ _ _ _ _ _ _ St)) as [_ Haddr _ _].
  refine (handle_tells (own a) event _ _ _ _ Haddr (sp_handle _ _ _ _ _ _ _ St)).
  pose proof (sp_addressed _ _ _ _ _ _ _ St) as Ha.
  destruct event; try done; simpl in *; unfold addresses_own in Ha; rewrite forallb_forall in Ha;
    intros h Hh; specialize (Ha h ltac:(by apply list_elem_of_In)); by apply bool_decide_eq_true in Ha.
Qed.

Lemma next_self : router_safe N' a next_router.
Proof.
  pose proof HN as [HC HR _]. destruct (HR a x (sp_router _ _ _ _ _ _ _ St)) as [Hreach Haddr Htick _].
  pose proof (sp_clock _ _ _ _ _ _ _ St) as Hclk. pose proof (sp_ticks _ _ _ _ _ _ _ St _ _ (sp_router _ _ _ _ _ _ _ St)) as Hg.
  split; [apply next_reachable|apply next_hops| |].
  - rewrite next_clock. cbn. destruct (is_tick event); lia.
  - rewrite next_id. intros Hid. destruct (reachable_Inv release e next_reachable) as [HI Hb].
    eapply safe_refresh; [apply mode_not_alone|exact HI|exact Hb|exact (st_safe _ _ _ _ _ _ (next_engine Hid))|].
    intros i h v y [Hp Hy]. pose proof Hp as (_ & Hty & _). split.
    + eapply P_next; [exact Hp|lia|]. cbn. destruct (is_tick event); [by apply Hy|done].
    + eapply F_next; [exact Hp|lia].
Qed.

Lemma next_other c y : c <> a -> routers N !! c = Some y -> router_safe N' c y.
Proof.
  intros Hne Hy. pose proof HN as [HC HR _]. destruct (HR c y Hy) as [Hreach Haddr Htick Hsafe].
  pose proof (sp_clock _ _ _ _ _ _ _ St) as Hclk. pose proof (sp_ticks _ _ _ _ _ _ _ St _ _ Hy) as Hg.
  split; [done|done|rewrite next_clock; lia|]. intros Hid. destruct (reachable_Inv release _ Hreach) as [HI Hb].
  eapply safe_refresh; [apply mode_not_alone|exact HI|exact Hb|exact (Hsafe Hid)|].
  intros i h v z Hp. pose proof Hp as (_ & Hty & _). split.
  - eapply P_next; [exact Hp|lia|done].
  - eapply F_next; [exact Hp|lia].
Qed.

Lemma next_message m : m ∈ messages N' -> message_safe N' m.
Proof.
  rewrite (sp_next _ _ _ _ _ _ _ St). cbn [messages]. rewrite elem_of_app.
  pose proof (sp_clock _ _ _ _ _ _ _ St) as Hclk. intros [Hm|Hm].
  - pose proof HN as [HC HR HM]. destruct (HM m Hm) as (Ht & Hhop & Hs).
    split; [rewrite <- (sp_next _ _ _ _ _ _ _ St), next_clock; lia|]. split; [exact Hhop|].
    rewrite <- (sp_next _ _ _ _ _ _ _ St). intros u Eu Hk Hr Hf. destruct (Hs u Eu Hk Hr Hf) as [Hw Hy].
    split; [exact Hw|]. intros y. rewrite next_routers, next_clock. destruct (decide (m_from m = a)) as [Ea|Hne].
    + rewrite Ea in Hy |- *. rewrite lookup_insert, decide_True by done. intros [= <-]. rewrite next_id. intros Hid.
      destruct (Z.ltb_spec (m_time m + max_delay_ms T) t); [auto|]. right.
      destruct (Hy x (sp_router _ _ _ _ _ _ _ St) Hid) as [?|Hh]; [lia|].
      apply (st_kept _ _ _ _ _ _ (next_engine Hid)). split; [done|lia].
    + rewrite lookup_insert_ne by done. intros Hl Hid. destruct (Hy y Hl Hid) as [?|?]; [left; lia|auto].
  - pose proof (sp_window _ _ _ _ _ _ _ St m Hm) as Hw. rewrite <- (sp_next _ _ _ _ _ _ _ St).
    apply list_elem_of_In, in_concat in Hm as (l & Hl & Hm).
    apply list_elem_of_In, list_elem_of_fmap in Hl as (act & -> & Hact). apply list_elem_of_In in Hm.
    destruct act as [|i dest packet timing| |]; try by apply elem_of_nil in Hm.
    apply list_elem_of_fmap in Hm as (tlv & -> & Htlv). split; [by rewrite next_clock|].
    pose proof next_hops as [_ Hhops]. rewrite list.Forall_forall in Hhops. specialize (Hhops _ Hact).
    cbn [hops_ok] in Hhops. rewrite list.Forall_forall in Hhops. split; [exact (Hhops _ Htlv)|].
    cbn [m_tlv m_from m_time]. intros u -> Hk Hr Hf. unfold message_in_window in Hw. cbn [m_tlv] in Hw.
    rewrite Hf, !bool_decide_true in Hw by done. simpl in Hw. split; [exact Hw|].
    intros y. rewrite next_routers, lookup_insert, decide_True by done. intros [= <-]. rewrite next_id. intros Hid.
    right. by eapply (st_sent _ _ _ _ _ _ (next_engine Hid)).
Qed.

Lemma step_network_safe : network_safe N'.
Proof.
  split.
  - rewrite next_clock. destruct HN as [HC _ _]. pose proof (sp_clock _ _ _ _ _ _ _ St).
    pose proof (sp_bound _ _ _ _ _ _ _ St). unfold in_u64, SOURCE_GC_TIME_MS in *. lia.
  - intros c y. rewrite next_routers. destruct (decide (c = a)) as [->|Hne].
    + rewrite lookup_insert, decide_True by done. intros [= <-]. apply next_self.
    + rewrite lookup_insert_ne by done. by apply next_other.
  - apply next_message.
Qed.
End Step.

(** ** Runs *)

Lemma initial_safe N : initial N -> network_safe N.
Proof.
  intros [In Im Ic]. split; [done| |].
  - intros a x Hx. destruct (In a x Hx) as [Ht [cfg Hcfg]]. pose proof Hcfg as E. unfold Engine_try_new in E.
    destruct (validate_config cfg); [|done]. injection E as E.
    split; [by eapply reach_new|rewrite <- E; intros i st h; cbn; by rewrite lookup_empty|done|].
    intros Hid. unfold router_id_of, safe in *. rewrite <- E in *. cbn in *. unfold mode, routed. cbn.
    rewrite lookup_empty. split; try done; intros *; rewrite lookup_empty; done.
  - intros m. rewrite Im. intros H. by apply elem_of_nil in H.
Qed.

Lemma run_safe steps N N' : network_safe N -> net_run T k r w false steps N = Some N' -> network_safe N'.
Proof.
  revert N. induction steps as [|[a event] steps IH]; intros N HN E; cbn [net_run] in E; [by injection E as <-|].
  apply bind_Some in E as (N1 & H1 & E). apply net_step_inv in H1 as (x & acts & e & St).
  eapply IH; [|exact E]. by eapply step_network_safe.
Qed.

(** Along a hop the recorded distance decreases. *)
Definition fd (N : Network) (a : string) : option Z :=
  x ← routers N !! a; src ← feasible (r_engine x) !! (k, r); Some (value w (s_distance src)).

Lemma forwards_id N a b x : network_safe N -> forwards T k r N a b -> routers N !! a = Some x -> router_id_of x <> r.
Proof.
  intros [_ HR _] (x' & s & Hx' & Hs & Hr & _) Hx. assert (x' = x) as -> by congruence.
  destruct (reachable_Inv release _ (rs_reachable _ _ _ (HR _ _ Hx))) as [HI _].
  intros Hid. destruct (inv_selected _ HI _ _ Hs) as [_ _ Hown _]. unfold router_id_of in Hid. congruence.
Qed.

Lemma forwards_decreases N a b :
  network_safe N -> forwards T k r N a b -> (exists c, forwards T k r N b c) ->
  exists vb, fd N b = Some vb /\ forall va, fd N a = Some va -> vb < va.
Proof.
  intros HN Hab [c Hbc]. pose proof Hab as (x & s & Hx & Hs & Hr & Ho). pose proof Hbc as (y & _ & Hy & _).
  pose proof (forwards_id _ _ _ _ HN Hab Hx) as Hidx. pose proof (forwards_id _ _ _ _ HN Hbc Hy) as Hidy.
  pose proof HN as [_ HR _]. destruct (HR a x Hx) as [Hreach _ _ Hsafe]. specialize (Hsafe Hidx).
  destruct (reachable_Inv release _ Hreach) as [HI Hb]. destruct (Hb k s Hs) as (n & cand & Hc & ->).
  destruct (sf_candidates Hsafe n cand Hc) as [C1 C2].
  destruct (C1 (so_finite _ _ _ (inv_selected _ HI _ _ Hs))) as [Ha _].
  destruct (C2 Hr Ha) as [_ (_ & _ & Hself & Hp)]. cbn in Ho.
  assert (behind N a (c_interface cand) (c_next_hop cand) = Some y) as Hbeh.
  { unfold behind. rewrite Ho. simpl. rewrite bool_decide_false by congruence. done. }
  destruct (Hp y Hbeh Hidy) as (x' & _ & src & E & _). exists (value w (s_distance src)). split.
  - unfold fd. rewrite Hy. simpl. by rewrite E.
  - intros va Hva. unfold fd in Hva. rewrite Hx in Hva. simpl in Hva.
    apply bind_Some in Hva as (srca & Ea & [= <-]).
    pose proof (sf_feasible Hsafe _ _ Hs Hr Ea) as Hlt. cbn in Hlt. unfold F in Hlt. rewrite Hbeh in Hlt.
    unfold recorded_value in Hlt. rewrite bool_decide_false, E in Hlt by done. exact Hlt.
Qed.

Lemma chain_decreases N a b :
  network_safe N -> tc (forwards T k r N) a b -> (exists c, forwards T k r N b c) ->
  exists vb, fd N b = Some vb /\ forall va, fd N a = Some va -> vb < va.
Proof.
  intros HN H Hb. induction H as [a b H|a c b H Hcb IH]; [by apply forwards_decreases|].
  destruct (IH Hb) as (vb & Eb & Hvb).
  destruct (forwards_decreases N a c HN H) as (vc & Ec & Hvc).
  { inversion Hcb; subst; eauto. }
  exists vb. split; [done|]. intros va Ha. specialize (Hvb vc Ec). specialize (Hvc va Ha). lia.
Qed.
End Safe.

(** C1. Routers that run the engine and exchange its updates never forward in a
    circle: at every moment of every run, whatever is lost, delayed, repeated or
    reordered and whatever else happens to the routers, no sequence of next hops
    selected for a destination and an origin leads back to where it began.  The
    run keeps the bounds of [net_step]: messages arrive in time and from their
    sender's address, interfaces are given addresses of their router, routers
    tick, the origin's sequence numbers stay in half of their space, and a router
    with a route of the origin holds no request for the destination on behalf of
    another router. *)
Theorem network_loop_free {NL : IpNetLib} {MI : MetricImpl} {HO : HashOrder} {B : Build}
    (T : Topology) (k : RouteKey) (r : RouterId) (w : Z) steps N0 N a :
  overflow_checks = false -> 0 <= max_delay_ms T <= SOURCE_GC_TIME_MS -> 0 <= tick_ms T ->
  initial N0 -> net_run T k r w false steps N0 = Some N -> ~ tc (forwards T k r N) a a.
Proof.
  intros Hrel Hd Ht H0 Hrun Hc.
  assert (network_safe T k r w N) as HN by (eapply run_safe; [done..|by apply initial_safe|exact Hrun]).
  assert (exists c, forwards T k r N a c) as Hf by (inversion Hc; subst; eauto).
  destruct (chain_decreases Hrel T k r w N a a HN Hc Hf) as (v & E & H). specialize (H v E). lia.
Qed.
