(* ===== verification/EngineTraces.v ===== *)
(** The engine at its edges, for every engine that gets there and on concrete runs
    that reach them: a received Hello sixteen behind the expected one, which panics
    a checked build; a destination that is originated here and learned from a
    neighbour at the same time; and a request that is answered for another router,
    with a network of four routers, with and without such requests. *)
From S2P Require Import Prelude Net Model Metric Wire Api EngineState Sources Output Rib Deadlines Neighbors Timers Engine OutputSpec Invariant AdmissionSpec SelectionSpec ReceiveSpec TimersSpec EngineSpec Demo LoopSpec Network.
Import Hello.
Local Open Scope Z_scope.

(** * Sixteen Hellos behind *)

Section Hellos.
Context {NL : IpNetLib} {MI : MetricImpl} {HO : HashOrder} {B : Build}.

Lemma gets_bind {A C} (g : Engine -> A) (f : A -> M C) e : (gets g ≫= f) e = f (g e) e.
Proof. done. Qed.
Lemma bind_none {A C} (m : M A) (f : A -> M C) e : m e = None -> (m ≫= f) e = None.
Proof. unfold mbind, M_bind. by intros ->. Qed.

(** The history of Hellos of the kind of the received one. *)
Definition history_of (nb : Neighbor) (is_unicast : bool) : HelloHistory :=
  if is_unicast then unicast (nb_histories nb) else multicast (nb_histories nb).

Lemma process_hello_sixteen profile now ts key is_unicast seqno interval subs nb expected :
  overflow_checks = true -> interval <> 0 -> expected_seqno (history_of nb is_unicast) = Some expected ->
  wrapping_sub16 expected seqno = 16 ->
  process_hello profile now ts key is_unicast seqno interval subs nb = None.
Proof.
  intros Hc Hi He Hb. unfold process_hello. rewrite (proj2 (Z.eqb_neq _ _) Hi).
  assert (record (history_of nb is_unicast) seqno = None) as Hr.
  { unfold record. rewrite He, Hb.
    assert (wrapping_sub16 seqno expected <=? 16 = false) as ->
      by (unfold wrapping_sub16 in *; Z.div_mod_to_equations; lia).
    unfold shr16. by rewrite Hc. }
  unfold record_hello. unfold history_of in Hr. by rewrite Hr.
Qed.

Lemma receive_hellos_skip profile interval now ts key pre rest e :
  (forall t, t ∈ pre -> is_hello_tlv t = false) ->
  receive_hellos profile interval now ts key (pre ++ rest) e =
  receive_hellos profile interval now ts key rest e.
Proof.
  intros Hp. unfold receive_hellos. induction pre as [|t pre IH]; [done|]. simpl.
  pose proof (Hp t ltac:(left)) as Ht. destruct t; try done; apply IH; intros; apply Hp; by right.
Qed.

Lemma receive_sixteen e i source pre is_unicast seqno interval subs rest now ts st nb expected :
  overflow_checks = true -> interfaces e !! i = Some st ->
  is_ipv4 (multicast_group (control_transport (ifs_policy st))) = is_ipv4 source ->
  neighbours e !! MkNeighborKey i source = Some nb ->
  (forall t, t ∈ pre -> is_hello_tlv t = false) -> interval <> 0 ->
  expected_seqno (history_of nb is_unicast) = Some expected -> wrapping_sub16 expected seqno = 16 ->
  receive i source (MkPacket (pre ++ THello is_unicast seqno interval subs :: rest)) now ts e = None.
Proof.
  intros Hc Hi Hf Hn Hp Hiv He Hb. unfold receive. rewrite gets_bind, Hi. cbv beta iota.
  rewrite Hf, Bool.eqb_reflx. cbn [negb]. cbv zeta. rewrite gets_bind, Hn, bool_decide_false by done. cbn [andb].
  unfold process_packet. rewrite gets_bind. cbn [tlvs]. apply bind_none. rewrite receive_hellos_skip by done.
  unfold receive_hellos. cbn [foldM]. apply bind_none. rewrite gets_bind, Hn. cbn [default from_option id].
  by rewrite (process_hello_sixteen _ _ _ _ _ _ _ _ _ _ Hc Hiv He Hb).
Qed.

(** C38. A neighbour whose Hello sequence number is sixteen behind the expected one
    panics an engine built with overflow checks: whatever the engine, the
    interface and the neighbour, and whatever else the packet carries, the event
    has no result. *)
Theorem hello_panics_checked_build e i source pre is_unicast seqno interval subs rest now st nb expected event :
  overflow_checks = true -> interfaces e !! i = Some st ->
  is_ipv4 (multicast_group (control_transport (ifs_policy st))) = is_ipv4 source ->
  neighbours e !! MkNeighborKey i source = Some nb ->
  (forall t, t ∈ pre -> is_hello_tlv t = false) -> interval <> 0 ->
  expected_seqno (history_of nb is_unicast) = Some expected -> wrapping_sub16 expected seqno = 16 ->
  let packet := MkPacket (pre ++ THello is_unicast seqno interval subs :: rest) in
  event = PacketReceived i source packet now \/
  (exists ts, event = PacketReceivedWithTimestamp i source packet now ts) ->
  try_handle event e = None.
Proof.
  intros Hc Hi Hf Hn Hp Hiv He Hb packet Hev.
  assert (forall ts, receive i source packet now ts e = None) as Hr by (intros; by eapply receive_sixteen).
  assert (handle event e = None) as Hh.
  { unfold handle, mbind, M_bind. destruct Hev as [-> |[ts ->]]; simpl; by rewrite Hr. }
  unfold try_handle. rewrite Hh. by destruct Hev as [-> |[ts ->]].
Qed.
End Hellos.

(** * Originated here and learned from a neighbour *)

Section Losses.
Context {NL : IpNetLib} {MI : MetricImpl} {HO : HashOrder}.
Context (now : Z) (key : RouteKey) (seqno : Z).

(** A retraction of the destination on an interface. *)
Definition retraction (i : string) (st : InterfaceState) (a : Action) : Prop :=
  exists u, a = Send i (multicast_group (control_transport (ifs_policy st))) (MkOutboundPacket [OUpdate u]) (urgent now) /\
    ou_key u = Some key /\ ou_seqno u = seqno /\ ou_metric u = INFINITY.

Definition retracted (ifs : gmap string InterfaceState) (acts : list Action) : Prop :=
  forall i st, ifs !! i = Some st -> exists a, a ∈ acts /\ retraction i st a.

Lemma retracted_app ifs acts l : retracted ifs acts -> retracted ifs (acts ++ l).
Proof. intros H i st Hi. destruct (H i st Hi) as (a & Ha & Hr). exists a. split; [set_solver|done]. Qed.

Lemma send_retraction_retracted e : retracted (interfaces e) (send_retraction e key seqno now).
Proof.
  intros i st Hi. assert ((i, st) ∈ btree_iter (interfaces e)) as Hin by (by apply btree_iter_lookup).
  eexists. split.
  - apply list_elem_of_fmap. exists (i, st). split; [reflexivity|exact Hin].
  - eexists. split; [reflexivity|done].
Qed.

(** The destination has no route, the interfaces and origins are fixed. *)
Definition unrouted_at (ifs : gmap string InterfaceState) (origins : gmap RouteKey Originated) (e : Engine) : Prop :=
  selected e !! key = None /\ interfaces e = ifs /\ originated e = origins.

Lemma announce_loss_kept ifs origins targets acts lost :
  keeps (unrouted_at ifs origins) (announce_loss targets now acts lost).
Proof. destruct lost. unfold announce_loss, repeat_advertisement, originate_seqno_request. by keeps_walk. Qed.

Lemma announce_change_kept ifs origins before acts route :
  keeps (unrouted_at ifs origins) (announce_change before now acts route).
Proof. unfold announce_change, repeat_advertisement, maintain_source. by keeps_walk. Qed.

Lemma announce_loss_grows targets acts lost e acts' e' :
  announce_loss targets now acts lost e = Some (acts', e') -> exists l, acts' = acts ++ l.
Proof.
  destruct lost as [k s]. unfold announce_loss. intros (gone & e1 & _ & E)%bind_inv.
  destruct gone; [|injection E as <- _; exists []; by rewrite app_nil_r].
  do 5 apply bind_inv in E as (? & ? & _ & E). injection E as <- _. by eexists.
Qed.

Lemma announce_change_grows before acts route e acts' e' :
  announce_change before now acts route e = Some (acts', e') -> exists l, acts' = acts ++ l.
Proof. unfold announce_change. intros E. do 3 apply bind_inv in E as (? & ? & _ & E). injection E as <- _. by eexists. Qed.

Lemma announce_loss_retracts ifs origins targets acts s e acts' e' :
  sr_seqno s = seqno -> unrouted_at ifs origins e ->
  announce_loss targets now acts (key, s) e = Some (acts', e') -> retracted ifs acts'.
Proof.
  intros Hq (Hs & Hi & Ho) E. unfold announce_loss in E. rewrite Hq in E.
  apply bind_inv in E as (gone & e1 & [= <- <-] & E). rewrite bool_decide_true in E by done.
  apply bind_inv in E as ([] & e1 & [= <-] & E). apply bind_inv in E as (l & e1 & [= <- <-] & E).
  do 3 apply bind_inv in E as (? & ? & _ & E). injection E as <- _.
  intros i st Hst. rewrite <- Hi in Hst.
  destruct (send_retraction_retracted e i st Hst) as (a & Ha & Hr). exists a. split; [|done].
  apply elem_of_app. right. apply elem_of_app. by left.
Qed.

(** A loop over the routes that were selected retracts every lost one. *)
Lemma losses_retract ifs origins targets s l : sr_seqno s = seqno -> (key, s) ∈ l -> forall acts e acts' e',
  unrouted_at ifs origins e -> foldM (announce_loss targets now) acts l e = Some (acts', e') ->
  retracted ifs acts' /\ unrouted_at ifs origins e'.
Proof.
  intros Hq. induction l as [|lost l IH]; intros Hin acts e acts' e' HI E; [by apply elem_of_nil in Hin|].
  simpl in E. apply bind_inv in E as (acts1 & e1 & E1 & E).
  pose proof (announce_loss_kept _ _ _ _ _ _ _ _ HI E1) as HI1.
  apply elem_of_cons in Hin as [<-|Hin]; [|by eapply IH].
  assert (retracted ifs acts1) as H1 by exact (announce_loss_retracts _ _ _ _ _ _ _ _ Hq HI E1). clear IH E1 HI.
  revert acts1 e1 H1 HI1 E. induction l as [|lost l IH]; intros acts1 e1 H1 HI1 E; simpl in E; [by injection E as <- <-|].
  apply bind_inv in E as (acts2 & e2 & E2 & E). pose proof (announce_loss_kept _ _ _ _ _ _ _ _ HI1 E2) as HI2.
  apply announce_loss_grows in E2 as [more ->]. by eapply IH; [apply retracted_app| |].
Qed.

Lemma changes_retract ifs origins before l : forall acts e acts' e',
  retracted ifs acts -> unrouted_at ifs origins e ->
  foldM (announce_change before now) acts l e = Some (acts', e') -> retracted ifs acts' /\ unrouted_at ifs origins e'.
Proof.
  induction l as [|route l IH]; intros acts e acts' e' H HI E; simpl in E; [by injection E as <- <-|].
  apply bind_inv in E as (acts1 & e1 & E1 & E). pose proof (announce_change_kept _ _ _ _ _ _ _ _ HI E1) as HI1.
  apply announce_change_grows in E1 as [more ->]. by eapply IH; [apply retracted_app| |].
Qed.

Lemma selected_delta_retracts ifs origins before s e acts e' :
  sr_seqno s = seqno -> before !! key = Some s -> unrouted_at ifs origins e ->
  selected_delta before now e = Some (acts, e') -> retracted ifs acts /\ unrouted_at ifs origins e'.
Proof.
  intros Hq Hb HI E. unfold selected_delta in E. apply bind_inv in E as (targets & e1 & [= <- <-] & E).
  apply bind_inv in E as (acts1 & e1 & E1 & E). apply bind_inv in E as (l & e2 & [= <- <-] & E).
  destruct (losses_retract ifs origins _ s _ Hq (proj2 (btree_iter_lookup _ _ _) Hb) _ _ _ _ HI E1) as [H1 HI1].
  by eapply changes_retract.
Qed.
End Losses.

Section Origins.
Context {NL : IpNetLib} {MI : MetricImpl} {HO : HashOrder} {B : Build}.

Lemma modify_bind {C} g (f : unit -> M C) e : (modify g ≫= f) e = f tt (g e).
Proof. done. Qed.
Lemma snapshot_bind {C} (f : Action -> M C) e :
  (route_snapshot ≫= f) e =
  let e' := set_generation (wrapping_add64 (generation e) 1) e in
  f (RoutesChanged (generation e') (selected_routes e') (unreachable_routes e')) e'.
Proof. done. Qed.

(** Whatever loses its last usable candidate is retracted on every interface and
    reported unreachable, and the origins stay as they are. *)
Lemma reselect_retracts now e key s :
  in_u64 now -> Inv e -> selected e !! key = Some s ->
  (forall n c, candidates e !! (key, n) = Some c -> usable e c = false) ->
  exists acts e', reselect now e = Some (acts, e') /\ retracted now key (sr_seqno s) (interfaces e) acts /\
    originated e' = originated e /\ selected e' !! key = None /\ key ∈ unreachable_routes e'.
Proof.
  intros Hn HI Hs Hu. destruct (reselect_spec now Hn e HI) as (acts & e' & E & [_ _ _ _ Hsound _ Hlost _]).
  assert (selected e' !! key = None) as Hnone.
  { destruct (selected e' !! key) as [s'|] eqn:Es; [|done]. destruct (Hsound key s' Es) as (n & c & Hc & Huc & _).
    rewrite (Hu n c Hc) in Huc. done. }
  assert (key ∈ unreachable_routes e') as Hun.
  { apply btree_keys_lookup. destruct (Hlost key ltac:(by rewrite Hs) Hnone) as (d & Hd & _). by exists d. }
  exists acts, e'. split; [exact E|]. revert E. unfold reselect.
  intros (before & e0 & [= <- <-] & E)%bind_inv. apply bind_inv in E as (dead & e0 & [= <- <-] & E).
  apply bind_inv in E as (grouped & e0 & [= <- <-] & E). apply bind_inv in E as (next & e1 & Hnext & E).
  pose proof (wp_run _ _ _ _ _ (choose_all_spec now Hn e HI) Hnext) as [He1 [Hch _]].
  assert (next !! key = None) as Hnx.
  { destruct (next !! key) as [s'|] eqn:Es; [|done]. destruct (Hch key s' Es) as (n & c & Hc & Huc & _).
    rewrite (Hu n c Hc) in Huc. done. }
  unfold update_tombstones, prune_switches in E. rewrite !modify_bind, gets_bind in E.
  rewrite bool_decide_true in E; [|cbn; intros Heq; rewrite Heq in Hnx; congruence]. cbn [orb] in E.
  rewrite snapshot_bind in E. apply bind_inv in E as (delta & e3 & Hd & [= <- <-]).
  assert (interfaces e1 = interfaces e /\ originated e1 = originated e) as [Gi Go]
    by (split; [exact (f_equal interfaces He1)|exact (f_equal originated He1)]).
  eapply (selected_delta_retracts now key (sr_seqno s) (interfaces e) (originated e)) in Hd as [H1 (_ & _ & H3)];
    [|done|exact Hs|by split_and!].
  split; [|done]. intros i st Hi. destruct (H1 i st Hi) as (a & Ha & Hr). exists a. split; [by right|done].
Qed.

(** C39. Losing the learned copy of a destination retracts it even while this router
    originates it: when the interface goes down over which every candidate for a
    selected destination was learned, the retraction goes out on every other
    interface and the host is told that the destination is unreachable, although
    the origin is still there, unchanged. *)
Theorem losing_learned_copy_retracts_origin e i key s o now :
  overflow_checks = false -> reachable e -> in_u64 now ->
  selected e !! key = Some s -> originated e !! key = Some o ->
  (forall n c, candidates e !! (key, n) = Some c -> nk_interface n = i) ->
  exists acts e', try_handle (InterfaceDown i now) e = Some (Ok acts, e') /\
    originated e' !! key = Some o /\ key ∈ unreachable_routes e' /\
    forall j st, j <> i -> interfaces e !! j = Some st -> exists u,
      Send j (multicast_group (control_transport (ifs_policy st))) (MkOutboundPacket [OUpdate u]) (urgent now) ∈ acts /\
      ou_key u = Some key /\ ou_metric u = INFINITY.
Proof.
  intros Hrel Hr Hn Hs Ho Hall. destruct (reachable_Inv Hrel e Hr) as [HI _].
  set (e1 := set_candidates (filter (fun '(_, c) => c_interface c <> i) (candidates e))
    (set_neighbours (filter (fun '(k, _) => nk_interface k <> i) (neighbours e))
       (set_interfaces (delete i (interfaces e)) e))).
  assert (Inv e1) as HI1.
  { apply clear_interface_Inv; [|done]. intros j Hj. by rewrite lookup_delete_ne. }
  destruct (reselect_retracts now e1 key s Hn HI1 Hs) as (acts & e' & E & Hret & Hor & _ & Hun).
  { intros n c [Hc Hi]%map_lookup_filter_Some. destruct (inv_candidates _ HI _ _ _ Hc) as [_ C2 _ _ _ _].
    by rewrite C2, (Hall _ _ Hc) in Hi. }
  exists (fst (acts, e')), (set_advertised_until (fold_left note_action acts (advertised_until e')) e').
  assert (handle (InterfaceDown i now) e =
    Some (acts, set_advertised_until (fold_left note_action acts (advertised_until e')) e')) as Hh.
  { assert (interface_down i now e = reselect now e1) as Hd by reflexivity.
    unfold handle, mbind, M_bind. cbn [handle_validated]. by rewrite Hd, E. }
  split; [unfold try_handle; cbn [validate_event]; by rewrite Hh|]. split; [|split; [exact Hun|]].
  - change (originated e' !! key = Some o). rewrite Hor. exact Ho.
  - intros j st Hj Hst. destruct (Hret j st) as (a & Ha & u & -> & H1 & _ & H2).
    { change (delete i (interfaces e) !! j = Some st). by rewrite lookup_delete_ne. }
    exists u. done.
Qed.
End Origins.

(** * Answers for other routers *)

Section Answers.
Context {NL : IpNetLib} {MI : MetricImpl} {HO : HashOrder} {B : Build}.
Context (key : RouteKey) (id : RouterId) (seqno metric now : Z).

(** What a computation of answers leaves alone. *)
Definition same_routes (e e' : Engine) : Prop :=
  config e' = config e /\ interfaces e' = interfaces e /\ selected e' = selected e.

#[local] Instance same_routes_preorder : PreOrder same_routes.
Proof. split; [done|]. intros e1 e2 e3 (A1 & A2 & A3) (B1 & B2 & B3). split_and!; congruence. Qed.

Lemma advertisement_same e e' i : same_routes e e' ->
  advertisement e' i key id seqno metric = advertisement e i key id seqno metric.
Proof. intros (E1 & E2 & _). unfold advertisement, interface_update_interval. by rewrite E1, E2. Qed.

Lemma satisfy_same_routes acts pid e acts' e' :
  satisfy_request key id seqno metric now acts pid e = Some (acts', e') ->
  same_routes e e' /\ (exists l, acts' = acts ++ l) /\
  forall pid', pid' <> pid -> pending_seqno e' !! pid' = pending_seqno e !! pid'.
Proof.
  unfold satisfy_request. rewrite gets_bind. destruct (pending_seqno e !! pid) as [p|] eqn:Ep.
  - rewrite modify_bind. intros (reply & e1 & H1 & E)%bind_inv. rewrite modify_bind in E. injection E as <- <-.
    assert (same_routes e e1 /\ pending_seqno e1 = delete pid (pending_seqno e)) as [(A1 & A2 & A3) A4].
    { destruct (pq_requester p) as [n|]; [|by injection H1 as _ <-].
      apply bind_inv in H1 as (a & e2 & H2 & [= _ <-]). unfold update_action_to_candidate in H2.
      rewrite gets_bind in H2. destruct (finite _); [|by injection H2 as _ <-].
      apply bind_inv in H2 as ([] & e3 & [= <-] & [= _ <-]). done. }
    split; [exact (conj A1 (conj A2 A3))|]. split; [by eexists|].
    intros pid' Hne. change (pending_seqno e1 !! pid' = pending_seqno e !! pid'). by rewrite A4, lookup_delete_ne.
  - intros [= <- <-]. split; [done|]. split; [exists []; by rewrite app_nil_r|done].
Qed.

(** The answer to one request. *)
Lemma satisfy_answers acts pid p n e acts' e' :
  pending_seqno e !! pid = Some p -> pq_requester p = Some n ->
  satisfy_request key id seqno metric now acts pid e = Some (acts', e') ->
  Send (nk_interface n) (nk_address n)
    (MkOutboundPacket [OUpdate (advertisement e (nk_interface n) key id seqno metric)]) (urgent now) ∈ acts'.
Proof.
  intros Hp Hn. unfold satisfy_request. rewrite gets_bind, Hp, modify_bind, Hn. intros (reply & e1 & H1 & E)%bind_inv.
  rewrite modify_bind in E. injection E as <- _. apply bind_inv in H1 as (a & e2 & H2 & [= <- _]).
  unfold update_action_to_candidate in H2. rewrite gets_bind in H2. apply bind_inv in H2 as ([] & e3 & _ & [= <- _]).
  apply elem_of_app. right. by left.
Qed.

Lemma satisfy_all pid p n l : pid ∈ l -> pq_requester p = Some n -> forall acts e acts' e',
  pending_seqno e !! pid = Some p ->
  foldM (satisfy_request key id seqno metric now) acts l e = Some (acts', e') ->
  same_routes e e' /\
  Send (nk_interface n) (nk_address n)
    (MkOutboundPacket [OUpdate (advertisement e (nk_interface n) key id seqno metric)]) (urgent now) ∈ acts'.
Proof.
  intros Hin Hn. induction l as [|x l IH]; intros acts e acts' e' Hp E; [by apply elem_of_nil in Hin|].
  simpl in E. apply bind_inv in E as (acts1 & e1 & E1 & E).
  destruct (satisfy_same_routes _ _ _ _ _ E1) as (S1 & _ & Hpend).
  assert (forall l acts e acts' e', foldM (satisfy_request key id seqno metric now) acts l e = Some (acts', e') ->
    same_routes e e' /\ exists more, acts' = acts ++ more) as Hrest.
  { clear. intros l. induction l as [|y l IH]; intros acts e acts' e' E; simpl in E.
    - injection E as <- <-. split; [done|]. exists []. by rewrite app_nil_r.
    - apply bind_inv in E as (acts1 & e1 & E1 & E). destruct (satisfy_same_routes _ _ _ _ _ E1) as (S1 & [m1 ->] & _).
      destruct (IH _ _ _ _ E) as [S2 [m2 ->]]. split; [by etrans|]. exists (m1 ++ m2). by rewrite app_assoc. }
  destruct (decide (pid = x)) as [<-|Hne].
  - destruct (Hrest _ _ _ _ _ E) as [S2 [more ->]]. split; [by etrans|]. apply elem_of_app. left.
    by eapply satisfy_answers.
  - apply elem_of_cons in Hin as [|Hin]; [done|]. rewrite <- (Hpend pid Hne) in Hp.
    destruct (IH Hin _ _ _ _ Hp E) as [S2 H2]. split; [by etrans|]. by rewrite (advertisement_same e e1) in H2.
Qed.

(** A request that is held for a neighbour is answered with the distance of the
    update that satisfies it, whatever route is selected. *)
Lemma request_answered_with_update pid p n e acts e' :
  pending_seqno e !! pid = Some p -> pq_requester p = Some n -> satisfied_by key id seqno (pid, p) = true ->
  satisfy_requests key id seqno metric now e = Some (acts, e') ->
  same_routes e e' /\
  Send (nk_interface n) (nk_address n)
    (MkOutboundPacket [OUpdate (advertisement e (nk_interface n) key id seqno metric)]) (urgent now) ∈ acts.
Proof.
  intros Hp Hn Hs. unfold satisfy_requests. rewrite gets_bind. apply (satisfy_all pid p); try done.
  apply list_elem_of_fmap. exists (pid, p). split; [done|]. apply elem_of_filter_bool. split; [|done].
  by apply hm_iter_lookup.
Qed.
End Answers.
Import Hello.
Local Open Scope Z_scope.

#[local] Existing Instance demo_net.
#[local] Existing Instance demo_metrics.
#[local] Existing Instance demo_order.

(** * Sixteen Hellos behind *)

Definition hello_only (seqno : Z) : Packet := MkPacket [THello false seqno 400 []].

(** The neighbour's last Hello was number 20; then it sends number 5. *)
Definition backward_events : list Event :=
  [InterfaceUp "eth0" [own_address] 1000;
   PacketReceived "eth0" peer_address (hello_only 20) 1200].

(** The state before the last Hello, with the interface and the neighbour. *)
Definition backward_check : option (Engine * InterfaceState * Neighbor) :=
  r ← demo_run debug_build backward_events; st ← interfaces r.2 !! "eth0"%string;
  nb ← neighbours r.2 !! MkNeighborKey "eth0" peer_address;
  if bool_decide (is_ipv4 (multicast_group (control_transport (ifs_policy st))) = is_ipv4 peer_address)
     && bool_decide (expected_seqno (history_of nb false) = Some 21)
  then Some (r.2, st, nb) else None.

Lemma hello_panics_checked_build_witness :
  exists rs e, demo_run debug_build backward_events = Some (rs, e) /\
    try_handle (B := debug_build) (PacketReceived "eth0" peer_address (hello_only 5) 1300) e = None.
Proof.
  assert (succeeds backward_check = true) as H by (vm_compute; reflexivity).
  apply succeeds_Some in H as (x & ([rs e] & Hr & (st & Hst & (nb & Hnb & H)%bind_Some)%bind_Some)%bind_Some).
  destruct (_ && _) eqn:E in H; [|discriminate H].
  rewrite andb_true_iff, !bool_decide_eq_true in E. destruct E as [E1 E2].
  exists rs, e. split; [exact Hr|].
  refine (hello_panics_checked_build (B := debug_build) e "eth0" peer_address [] false 5 400 [] [] 1300 st nb 21 _
    eq_refl Hst E1 Hnb _ _ E2 eq_refl (or_introl eq_refl)); [|lia]. intros t Ht. destruct (proj1 (elem_of_nil t) Ht).
Defined.

(** Without overflow checks the same Hello is accepted. *)
Lemma hello_accepted_unchecked : succeeds (demo_run release_build
  (backward_events ++ [PacketReceived "eth0" peer_address (hello_only 5) 1300])) = true.
Proof. vm_compute. reflexivity. Qed.

(** * Originated here and learned from a neighbour *)

(** The neighbour announces the destination this router originates; a second
    interface is up. *)
Definition anycast_events : list Event :=
  match learned_key with
  | Some key =>
      [InterfaceUp "eth0" [own_address] 1000;
       InterfaceUp "eth1" [own_address] 1000;
       Originate key 0 1100;
       PacketReceived "eth0" peer_address (peer_packet 1 96) 1200;
       PacketReceived "eth0" peer_address (peer_packet 2 96) 5200]
  | None => []
  end.

Definition anycast_state : option Engine := snd <$> demo_run release_build anycast_events.

Lemma anycast_reachable e : anycast_state = Some e -> reachable (B := release_build) e.
Proof.
  intros ([rs e'] & H & ->)%fmap_Some. eapply demo_reachable; [|exact H]. unfold anycast_events.
  destruct learned_key; [|constructor]. unfold in_u64, u64_max.
  repeat (apply Forall_cons_iff; split; [simpl; lia|]). by apply List.Forall_nil.
Qed.

(** The destination is selected and originated, and learned over one interface. *)
Definition anycast_check : option (Engine * RouteKey * SelectedRoute * Originated * InterfaceState) :=
  e ← anycast_state; key ← learned_key; s ← selected e !! key; o ← originated e !! key;
  st ← interfaces e !! "eth1"%string;
  if forallb (fun '((k, n), _) => negb (bool_decide (k = key)) || bool_decide (nk_interface n = "eth0"%string))
       (map_to_list (candidates e))
  then Some (e, key, s, o, st) else None.

Lemma losing_learned_copy_retracts_origin_witness :
  exists e key o acts e', anycast_state = Some e /\ learned_key = Some key /\ originated e !! key = Some o /\
    try_handle (B := release_build) (InterfaceDown "eth0" 6000) e = Some (Ok acts, e') /\
    originated e' !! key = Some o /\ key ∈ unreachable_routes e' /\
    exists u dest, Send "eth1" dest (MkOutboundPacket [OUpdate u]) (urgent 6000) ∈ acts /\
      ou_key u = Some key /\ ou_metric u = INFINITY.
Proof.
  assert (succeeds anycast_check = true) as H by (vm_compute; reflexivity).
  apply succeeds_Some in H as (x & (e & He & (key & Hk & (s & Hs & (o & Ho & (st & Hst & H)%bind_Some)%bind_Some)%bind_Some)%bind_Some)%bind_Some).
  destruct (forallb _ _) eqn:E in H; [|discriminate H]. rewrite forallb_forall in E.
  destruct (losing_learned_copy_retracts_origin (B := release_build) e "eth0" key s o 6000 eq_refl
    (anycast_reachable e He)) as (acts & e' & K1 & K2 & K3 & K4); [unfold in_u64, u64_max; lia|exact Hs|exact Ho| |].
  { intros n c Hc. specialize (E ((key, n), c)). rewrite <- list_elem_of_In, elem_of_map_to_list in E.
    specialize (E Hc). cbn in E. rewrite bool_decide_true in E by reflexivity. exact (proj1 (bool_decide_eq_true _) E). }
  destruct (K4 "eth1"%string st ltac:(discriminate) Hst) as (u & U1 & U2 & U3).
  exists e, key, o, acts, e'. split; [exact He|]. split; [exact Hk|]. split; [exact Ho|]. split; [exact K1|].
  split; [exact K2|]. split; [exact K3|]. eexists u, _. split; [exact U1|exact (conj U2 U3)].
Defined.

(** * Four routers in a ring

    S originates a destination; B and C hear it from S, and A hears it from both
    and selects B. *)

#[local] Existing Instance release_build.

Definition ring_address (n : Z) : IpAddr := IpV6 (ipv6 [0xfe80; 0; 0; 0; 0; 0; 0; n]).
Definition ring_owner (a : IpAddr) : option string :=
  if bool_decide (a = ring_address 1) then Some "S"%string
  else if bool_decide (a = ring_address 2) then Some "B"%string
  else if bool_decide (a = ring_address 3) then Some "C"%string
  else if bool_decide (a = ring_address 4) then Some "A"%string else None.

Definition ring_segments : list (string * string * positive) :=
  [("S", "eth1", 1%positive); ("B", "eth1", 1%positive); ("S", "eth2", 2%positive); ("C", "eth1", 2%positive);
   ("A", "eth0", 3%positive); ("B", "eth0", 3%positive)]%string.
Definition ring : Topology := {|
  segment := fun name interface =>
    default 4%positive (find_map (fun '(n, i, s) =>
      if bool_decide (n = name) && bool_decide (i = interface) then Some s else None) ring_segments);
  owner := fun _ a => ring_owner a;
  max_delay_ms := 10000;
  tick_ms := 60000
|}.

Definition ring_id (n : Z) : option RouterId := RouterId_new (arr_of_list 8 [b8 n; b8 n]).
Definition ring_engine (n : Z) : option Engine :=
  id ← ring_id n; profile ← demo_profile;
  match Engine_try_new (recommended profile id) with Ok e => Some e | Err _ => None end.
Definition ring_start : option Network :=
  s ← ring_engine 1; b ← ring_engine 2; c ← ring_engine 3; a ← ring_engine 4;
  Some (MkNetwork (<["S"%string := MkRouter s 1000]> (<["B"%string := MkRouter b 1000]>
     (<["C"%string := MkRouter c 1000]> (<["A"%string := MkRouter a 1000]> ∅)))) [] 1000).

(** Interfaces without split horizon, as on a shared radio channel. *)
Definition ring_up (name interface : string) (n : Z) : list (string * Event) :=
  match demo_profile with
  | Some profile =>
      [(name, InterfaceUpWithPolicy interface [ring_address n]
          {| control_transport := default_transport; ip_ipv4_next_hop := NextHopAuto; ip_metric := profile;
             ip_hello_interval_cs := 400; ip_update_interval_cs := 1600; split_horizon := false |} 1000)]
  | None => []
  end.
Definition ring_hears (name interface : string) (from time : Z) (l : list Tlv) : string * Event :=
  (name, PacketReceived interface (ring_address from) (MkPacket l) time).
Definition ring_meets (name interface : string) (from : Z) : list (string * Event) :=
  (fun n => ring_hears name interface from 1100 [THello false n 400 []; TIhu None 96 1200 []]) <$> [1; 2; 3].
Definition ring_route (from seqno metric : Z) : Tlv :=
  TUpdate {| ru_key := learned_key; ru_router_id := ring_id 1; ru_next_hop := Some (ring_address from);
             ru_interval_cs := 1600; ru_seqno := seqno; ru_metric := metric; ru_v4_via_v6 := true;
             ru_sub_tlvs := [] |}.

Definition ring_steps : list (string * Event) :=
  ring_up "S" "eth1" 1 ++ ring_up "S" "eth2" 1 ++ ring_up "B" "eth1" 2 ++ ring_up "B" "eth0" 2
  ++ ring_up "C" "eth1" 3 ++ ring_up "C" "eth0" 3 ++ ring_up "A" "eth0" 4 ++ ring_up "A" "eth1" 4
  ++ ring_meets "S" "eth1" 2 ++ ring_meets "S" "eth2" 3 ++ ring_meets "B" "eth1" 1 ++ ring_meets "C" "eth1" 1
  ++ ring_meets "B" "eth0" 4 ++ ring_meets "C" "eth0" 4 ++ ring_meets "A" "eth0" 2 ++ ring_meets "A" "eth1" 3
  ++ match learned_key with Some key => [("S"%string, Originate key 0 1200)] | None => [] end
  ++ [ring_hears "B" "eth1" 1 1300 [ring_route 1 0 0]; ring_hears "C" "eth1" 1 1300 [ring_route 1 0 0];
      ring_hears "A" "eth0" 2 1400 [ring_route 2 0 96]; ring_hears "A" "eth1" 3 1450 [ring_route 3 0 96];
      ring_hears "B" "eth0" 4 1500 [ring_route 4 0 192]].

(** B loses its link to S; its retraction to A is lost.  B asks A for a newer
    route, A asks C and C asks S on its behalf, and the answer comes back. *)
Definition ring_asks (seqno hops : Z) : list Tlv :=
  match learned_key, ring_id 1 with
  | Some key, Some id => [TSeqnoRequest key seqno hops id []]
  | _, _ => []
  end.
Definition ring_outage : list (string * Event) :=
  [("B"%string, InterfaceDown "eth1" 2000);
   ring_hears "A" "eth0" 2 2100 (ring_asks 1 64);
   ring_hears "C" "eth0" 4 2200 (ring_asks 1 63);
   ring_hears "S" "eth2" 3 2300 (ring_asks 1 62);
   ring_hears "C" "eth1" 1 2400 [ring_route 1 1 0];
   ring_hears "A" "eth1" 3 2500 [ring_route 3 1 96];
   ring_hears "B" "eth0" 4 2600 [ring_route 4 1 192]].

Definition ring_run (relays : bool) (steps : list (string * Event))
  : option (RouteKey * RouterId * Network * Network) :=
  key ← learned_key; id ← ring_id 1; start ← ring_start; net ← net_run ring key id 0 relays steps start;
  Some (key, id, start, net).

(** The router a packet is forwarded to. *)
Definition ring_next (key : RouteKey) (id : RouterId) (net : Network) (a : string) : option string :=
  x ← routers net !! a; s ← selected (r_engine x) !! key;
  if bool_decide (sr_router_id s = id) then owner ring (segment ring a (sr_interface s)) (sr_next_hop s) else None.

Lemma ring_next_forwards key id net a b : ring_next key id net a = Some b -> forwards ring key id net a b.
Proof.
  intros (x & Hx & (s & Hs & H)%bind_Some)%bind_Some. case_bool_decide; [|done]. by exists x, s.
Qed.

Definition sent_request (net : Network) (key : RouteKey) (id : RouterId) (from : string) (hops : Z) : bool :=
  existsb (fun m => bool_decide (m_from m = from) &&
    match m_tlv m with
    | OSeqnoRequest key' seqno hops' id' [] =>
        bool_decide (key' = key) && bool_decide (id' = id) && (seqno =? 1) && (hops' =? hops)
    | _ => false
    end) (messages net).

(** The run with the outage: A forwards to B and B to A.  Every update of the run
    was sent by its sender in time, and so was every request. *)
Lemma ring_loops :
  exists key id start net, ring_run true (ring_steps ++ ring_outage) = Some (key, id, start, net) /\
    forwards ring key id net "A" "B" /\ forwards ring key id net "B" "A" /\
    sent_request net key id "B" 64 = true /\ sent_request net key id "A" 63 = true /\
    sent_request net key id "C" 62 = true.
Proof.
  assert (succeeds ('(key, id, start, net) ← ring_run true (ring_steps ++ ring_outage);
    a ← ring_next key id net "A"; b ← ring_next key id net "B";
    if bool_decide (a = "B"%string) && bool_decide (b = "A"%string) && sent_request net key id "B" 64
       && sent_request net key id "A" 63 && sent_request net key id "C" 62 then Some tt else None) = true) as H
    by (vm_compute; reflexivity).
  apply succeeds_Some in H as (u & ([[[key id] start] net] & Hr & (a & Ha & (b & Hb & H)%bind_Some)%bind_Some)%bind_Some).
  destruct (_ && _) eqn:E in H; [|discriminate H].
  rewrite !andb_true_iff, !bool_decide_eq_true in E. destruct E as [[[[-> ->] E1] E2] E3].
  exists key, id, start, net. split; [exact Hr|]. split; [exact (ring_next_forwards _ _ _ _ _ Ha)|].
  split; [exact (ring_next_forwards _ _ _ _ _ Hb)|]. exact (conj E1 (conj E2 E3)).
Qed.

(** ** The same routers without such a request *)

Lemma ring_engine_new n e : ring_engine n = Some e -> exists cfg, Engine_try_new cfg = Ok e.
Proof.
  intros (id & _ & (profile & _ & H)%bind_Some)%bind_Some.
  destruct (Engine_try_new (recommended profile id)) eqn:E; [|done]. injection H as <-. eauto.
Qed.

Lemma ring_initial start : ring_start = Some start -> initial start.
Proof.
  intros (s & Hs & (b & Hb & (c & Hc & (a & Ha & [= <-])%bind_Some)%bind_Some)%bind_Some)%bind_Some.
  split; [|done|unfold in_u64, u64_max; cbn; lia]. intros name x. cbn. rewrite !lookup_insert_Some, lookup_empty.
  intros H. repeat (destruct H as [[_ <-]|[_ H]]; [cbn; split; [lia|by eapply ring_engine_new]|]). done.
Qed.

(** C40. Requests held for other routers are answered with distances the router does
    not have.  Whatever the engine and the route it has selected, a held request
    that a received update satisfies is answered with the sequence number and
    metric of that update, and the selection stays as it is.  This is why
    [net_step] excludes such requests: without the exclusion the routers of a
    network may forward in a circle, although nothing but messages is lost. *)
Theorem answer_for_another_loops :
  (forall (NL : IpNetLib) (MI : MetricImpl) (HO : HashOrder) (key : RouteKey) (id : RouterId) (seqno metric now : Z)
     pid p n e acts e',
     pending_seqno e !! pid = Some p -> pq_requester p = Some n -> satisfied_by key id seqno (pid, p) = true ->
     finite (advertisement e (nk_interface n) key id seqno metric) = true ->
     satisfy_requests key id seqno metric now e = Some (acts, e') ->
     selected e' = selected e /\
     exists u, Send (nk_interface n) (nk_address n) (MkOutboundPacket [OUpdate u]) (urgent now) ∈ acts /\
       ou_key u = Some key /\ ou_router_id u = Some id /\ ou_seqno u = seqno /\ ou_metric u = metric) /\
  ~ (forall (NL : IpNetLib) (MI : MetricImpl) (HO : HashOrder) (B : Build) (T : Topology) (k : RouteKey)
       (r : RouterId) (w : Z) steps N0 N a,
       overflow_checks = false -> 0 <= max_delay_ms T <= SOURCE_GC_TIME_MS -> 0 <= tick_ms T ->
       initial N0 -> net_run T k r w true steps N0 = Some N -> ~ tc (forwards T k r N) a a).
Proof.
  split.
  - intros NL MI HO key id seqno metric now pid p n e acts e' Hp Hn Hs Hf E.
    destruct (request_answered_with_update key id seqno metric now pid p n e acts e' Hp Hn Hs E) as [(_ & _ & S1) Hin].
    split; [exact S1|]. eexists. split; [exact Hin|]. split_and!; try done.
    by destruct (advertisement_finite _ _ _ _ _ _ Hf).
  - intros H. destruct ring_loops as (key & id & start & net & Hr & H1 & H2 & _).
    apply bind_Some in Hr as (key' & _ & (id' & _ & (start' & H0 & (net' & Hrun & Eq)%bind_Some)%bind_Some)%bind_Some).
    apply (inj Some), pair_equal_spec in Eq as [[[-> ->]%pair_equal_spec ->]%pair_equal_spec ->].
    refine (H demo_net demo_metrics demo_order release_build ring key id 0 (ring_steps ++ ring_outage) start net "A"%string
      eq_refl _ _ (ring_initial start H0) Hrun _); [cbn; unfold SOURCE_GC_TIME_MS; lia|cbn; lia|].
    eapply tc_l; [exact H1|]. by apply tc_once.
Qed.

(** Without the outage A forwards to B, B to S, and nothing goes round. *)
Lemma network_loop_free_witness :
  exists key id start net, ring_run false ring_steps = Some (key, id, start, net) /\
    forwards ring key id net "A" "B" /\ forwards ring key id net "B" "S" /\
    ~ tc (forwards ring key id net) "A" "A".
Proof.
  assert (succeeds ('(key, id, start, net) ← ring_run false ring_steps;
    a ← ring_next key id net "A"; b ← ring_next key id net "B";
    if bool_decide (a = "B"%string) && bool_decide (b = "S"%string) then Some tt else None) = true) as H
    by (vm_compute; reflexivity).
  apply succeeds_Some in H as (u & ([[[key id] start] net] & Hr & (a & Ha & (b & Hb & H)%bind_Some)%bind_Some)%bind_Some).
  destruct (_ && _) eqn:E in H; [|discriminate H].
  rewrite !andb_true_iff, !bool_decide_eq_true in E. destruct E as [-> ->].
  exists key, id, start, net. split; [exact Hr|]. split; [exact (ring_next_forwards _ _ _ _ _ Ha)|].
  split; [exact (ring_next_forwards _ _ _ _ _ Hb)|].
  apply bind_Some in Hr as (key' & _ & (id' & _ & (start' & H0 & (net' & Hrun & Eq)%bind_Some)%bind_Some)%bind_Some).
  apply (inj Some), pair_equal_spec in Eq as [[[-> ->]%pair_equal_spec ->]%pair_equal_spec ->].
  apply (network_loop_free ring key id 0 ring_steps start net "A");
    [reflexivity|cbn; unfold SOURCE_GC_TIME_MS; lia|cbn; lia|exact (ring_initial start H0)|exact Hrun].
Defined.
