(* ===== verification/Mac.v ===== *)
(** Packet authentication of RFC 8967 ([mac.rs]): keys and configuration,
    authentication TLVs, and the per-interface session with its outgoing
    counter, its peers and the challenge exchange.

    HMAC-SHA256 and keyed BLAKE2s come from third-party crates and are a
    parameter ([MacLib]).  The random source a caller passes is used at most
    once by an operation, so its outcome is the argument [random].  A [None]
    result is a panic ([expect] on a key the library refuses). *)
From S2P Require Import Prelude Net.
Local Open Scope Z_scope.

Definition MAC : Z := 16.
Definition PC : Z := 17.
Definition REQUEST : Z := 18.
Definition REPLY : Z := 19.
Definition RATE_MS : Z := 300.
Definition CHALLENGE_MS : Z := 30000.
Definition EXPIRE_MS : Z := 300000.

(** The keyed digests of the [hmac] and [blake2] crates: [new_from_slice]
    applied to a key gives the digest function, or fails.  HMAC takes a key of
    any length, BLAKE2s one of at most 32 octets. *)
Class MacLib : Type := {
  hmac_sha256 : list byte -> option (list byte -> list byte);
  blake2s128 : list byte -> option (list byte -> list byte);
  hmac_sha256_total : forall key, is_Some (hmac_sha256 key);
  hmac_sha256_length : forall key f data,
    hmac_sha256 key = Some f -> length (f data) = 32%nat;
  blake2s128_total : forall key, (length key <= 32)%nat -> is_Some (blake2s128 key);
  blake2s128_length : forall key f data,
    blake2s128 key = Some f -> length (f data) = 16%nat
}.

Inductive MacAlgorithm := HmacSha256 | Blake2s128.

#[global] Instance MacAlgorithm_eq_dec : EqDecision MacAlgorithm.
Proof. solve_decision. Defined.

Record MacKey := MkMacKey { algorithm : MacAlgorithm; key_bytes : list byte }.

#[global] Instance MacKey_eq_dec : EqDecision MacKey.
Proof. solve_decision. Defined.

Inductive MacError := KeyLength | KeyCount | InvalidPacket | Entropy.

#[global] Instance MacError_eq_dec : EqDecision MacError.
Proof. solve_decision. Defined.

Definition mac_key (algorithm : MacAlgorithm) (bytes : list byte) : result MacError MacKey :=
  if (length bytes =? 0)%nat || (4096 <? length bytes)%nat
     || (bool_decide (algorithm = Blake2s128) && (32 <? length bytes)%nat)
  then Err KeyLength
  else Ok (MkMacKey algorithm bytes).

Record MacConfig := MkMacConfig { keys : list MacKey; unverified : bool }.

Definition mac_config (keys : list MacKey) : result MacError MacConfig :=
  if (length keys =? 0)%nat || (8 <? length keys)%nat then Err KeyCount
  else Ok (MkMacConfig keys false).

Definition accept_unverified (config : MacConfig) (enabled : bool) : MacConfig :=
  MkMacConfig (keys config) enabled.

Definition is_strict (config : MacConfig) : bool := negb (unverified config).

Definition trailer_length (k : MacKey) : nat :=
  match algorithm k with HmacSha256 => 34 | Blake2s128 => 18 end.

Definition overhead (config : MacConfig) : nat := 22 + sum_list_with trailer_length (keys config).

(** * Endpoints and framing *)

(** [SocketAddr]: an IPv6 address also carries a flow label and a scope. *)
Inductive SocketAddr :=
| SockV4 (ip : Ipv4Addr) (port : Z)
| SockV6 (ip : Ipv6Addr) (port flowinfo scope_id : Z).

#[global] Instance SocketAddr_eq_dec : EqDecision SocketAddr.
Proof. solve_decision. Defined.
#[global] Program Instance SocketAddr_countable : Countable SocketAddr :=
  inj_countable
    (fun a => match a with
              | SockV4 ip port => inl (ip, port)
              | SockV6 ip port flow scope => inr (ip, port, flow, scope)
              end)
    (fun s => match s with
              | inl (ip, port) => Some (SockV4 ip port)
              | inr (ip, port, flow, scope) => Some (SockV6 ip port flow scope)
              end) _.
Next Obligation. by intros []. Qed.

Definition sock_ip (a : SocketAddr) : IpAddr :=
  match a with SockV4 ip _ => IpV4 ip | SockV6 ip _ _ _ => IpV6 ip end.
Definition sock_port (a : SocketAddr) : Z :=
  match a with SockV4 _ port => port | SockV6 _ port _ _ => port end.

Record DatagramEndpoints := MkEndpoints { source : SocketAddr; destination : SocketAddr }.

Definition authenticated_bytes (e : DatagramEndpoints) (packet : list byte)
    : result MacError (list byte) :=
  match sock_ip (source e), sock_ip (destination e) with
  | IpV4 s, IpV4 d =>
      Ok (arr_list (v4_octets s) ++ to_be16 (sock_port (source e)) ++ arr_list (v4_octets d) ++
          to_be16 (sock_port (destination e)) ++ packet)
  | IpV6 s, IpV6 d =>
      Ok (arr_list (v6_octets s) ++ to_be16 (sock_port (source e)) ++ arr_list (v6_octets d) ++
          to_be16 (sock_port (destination e)) ++ packet)
  | _, _ => Err InvalidPacket
  end.

Definition constant_time_eq (left right : list byte) : bool := bool_decide (left = right).

(** The end of the packet body: header and announced length. *)
Definition body_end (packet : list byte) : result MacError nat :=
  match packet with
  | m :: v :: h :: l :: _ =>
      if negb ((u8 m =? 42) && (u8 v =? 2)) then Err InvalidPacket
      else
        let last := (4 + Z.to_nat (be_value [h; l]))%nat in
        if (length packet <? last)%nat then Err InvalidPacket else Ok last
  | _ => Err InvalidPacket
  end.

(** The type and value of every TLV but Pad1; each turn of the loop consumes
    an octet, so the length of the input is enough fuel. *)
Fixpoint tlvs_loop (fuel : nat) (bytes : list byte) : result MacError (list (Z * list byte)) :=
  match fuel, bytes with
  | _, [] => Ok []
  | O, _ => Err InvalidPacket
  | S fuel', t :: rest =>
      if u8 t =? 0 then tlvs_loop fuel' rest
      else match rest with
           | [] => Err InvalidPacket
           | len :: rest =>
               let len := Z.to_nat (u8 len) in
               if (length rest <? len)%nat then Err InvalidPacket
               else out ← tlvs_loop fuel' (drop len rest); Ok ((u8 t, take len rest) :: out)
           end
  end.

Definition tlvs (bytes : list byte) : result MacError (list (Z * list byte)) :=
  tlvs_loop (length bytes) bytes.

(** A framed packet of one TLV; both casts truncate. *)
Definition control (type_ : Z) (nonce : list byte) : list byte :=
  [b8 42; b8 2] ++ to_be16 (Z.of_nat (length nonce + 2)) ++
  [b8 type_; b8 (Z.of_nat (length nonce))] ++ nonce.

(** * The session *)

Record Peer := MkPeer {
  index : option (list byte);
  unicast : Z;
  multicast : Z;
  nonce : option (array 16 * Z);
  last_reply : option Z;
  expires : Z
}.

Record MacReception := MkReception { accepted : bool; controls : list (list byte) }.

Record MacSession := MkMacSession {
  config : MacConfig;
  own_index : array 16;
  own_counter : Z;
  peers : gmap SocketAddr Peer;
  max_peers : nat;
  last_challenge : option Z
}.

Definition mac_session (config : MacConfig) (max_peers : nat)
    (random : result MacError (array 16)) : result MacError MacSession :=
  index ← random;
  Ok (MkMacSession config index 0 ∅ max_peers None).

(** What one pass over the TLVs of a body finds. *)
Record Scan := MkScan {
  sc_counter : option (Z * list byte);
  sc_request : option (list byte);
  sc_success : bool
}.

(** Is a rate-limited answer due ([is_none_or]). *)
Definition rate_ok (last : option Z) (now : Z) : bool :=
  match last with None => true | Some last => RATE_MS <=? saturating_sub now last end.

(** The nonce of a pending challenge answered by [v] in time. *)
Definition challenge_answered (p : Peer) (now : Z) (v : list byte) : bool :=
  match nonce p with
  | Some (n, expires) => (now <? expires) && constant_time_eq (arr_list n) v
  | None => false
  end.

Definition scan_tlv (p : Peer) (e : DatagramEndpoints) (now : Z) (sc : Scan) (tv : Z * list byte)
    : Scan :=
  let '(t, v) := tv in
  let '(MkScan counter request success) := sc in
  if (t =? PC) && (bool_decide (counter = None) && (4 <=? length v)%nat && (length v <=? 36)%nat)
  then MkScan (Some (be_value (take 4 v), drop 4 v)) request success
  else if (t =? REQUEST) && ((length v <=? 192)%nat && negb (is_multicast (sock_ip (destination e))))
  then MkScan counter (Some v) success
  else if (t =? REPLY) && (length v <=? 192)%nat
  then MkScan counter request (success || challenge_answered p now v)
  else sc.

Definition scan (p : Peer) (e : DatagramEndpoints) (now : Z) (body : list (Z * list byte)) : Scan :=
  fold_left (scan_tlv p e now) body (MkScan None None false).

Definition set_peer (s : MacSession) (a : SocketAddr) (p : Peer) : MacSession :=
  MkMacSession (config s) (own_index s) (own_counter s) (<[a := p]> (peers s)) (max_peers s)
    (last_challenge s).
Definition set_last_challenge (s : MacSession) (now : Z) : MacSession :=
  MkMacSession (config s) (own_index s) (own_counter s) (peers s) (max_peers s) (Some now).

Definition new_peer (now : Z) : Peer :=
  MkPeer None 0 0 None None (saturating_add64 now EXPIRE_MS).

Definition answer_request (p : Peer) (request : option (list byte)) (now : Z)
    : Peer * list (list byte) :=
  match request with
  | Some v =>
      if rate_ok (last_reply p) now
      then (MkPeer (index p) (unicast p) (multicast p) (nonce p) (Some now) (expires p),
            [control REPLY v])
      else (p, [])
  | None => (p, [])
  end.

Definition expire (s : MacSession) (now : Z) : MacSession :=
  MkMacSession (config s) (own_index s) (own_counter s)
    (filter (fun kp => now < expires (snd kp)) (peers s)) (max_peers s) (last_challenge s).

Section Mac.
Context {ML : MacLib}.

Definition digest (k : MacKey) (data : list byte) : option (list byte) :=
  match algorithm k with
  | HmacSha256 => mac ← hmac_sha256 (key_bytes k); Some (mac data)
  | Blake2s128 => mac ← blake2s128 (key_bytes k); Some (mac data)
  end.

(** The MAC trailer: one TLV per key. *)
Fixpoint trailer (ks : list MacKey) (data : list byte) : option (list byte) :=
  match ks with
  | [] => Some []
  | k :: ks' =>
      d ← digest k data;
      rest ← trailer ks' data;
      Some ([b8 MAC; b8 (Z.of_nat (length d))] ++ d ++ rest)
  end.

Definition sign (s : MacSession) (packet : list byte) (e : DatagramEndpoints)
    (random : result MacError (array 16)) : option (MacSession * result MacError (list byte)) :=
  match body_end packet with
  | Err x => Some (s, Err x)
  | Ok last =>
      if negb (last =? length packet)%nat then Some (s, Err InvalidPacket)
      else match tlvs (drop 4 (take last packet)) with
      | Err x => Some (s, Err x)
      | Ok body =>
          if existsb (fun tv => (fst tv =? PC) || (fst tv =? MAC)) body
          then Some (s, Err InvalidPacket)
          else match (if own_counter s =? u32_max then i ← random; Ok (i, 0)
                      else Ok (own_index s, own_counter s)) with
          | Err x => Some (s, Err x)
          | Ok (i, c) =>
              let out := packet ++ [b8 PC; b8 20] ++ to_be32 c ++ arr_list i in
              let s := MkMacSession (config s) i (c + 1) (peers s) (max_peers s)
                         (last_challenge s) in
              let len := Z.of_nat (length out - 4) in
              if u16_max <? len then Some (s, Err InvalidPacket)
              else
                let out := take 2 out ++ to_be16 len ++ drop 4 out in
                match authenticated_bytes e out with
                | Err x => Some (s, Err x)
                | Ok data => macs ← trailer (keys (config s)) data; Some (s, Ok (out ++ macs))
                end
          end
      end
  end.

(** Does some MAC TLV carry the digest of some local key? *)
Fixpoint any_valid (ks : list MacKey) (data : list byte) (trailer : list (Z * list byte))
    : option bool :=
  match ks with
  | [] => Some false
  | k :: ks' =>
      d ← digest k data;
      rest ← any_valid ks' data trailer;
      Some (existsb (fun tv => (fst tv =? MAC) && constant_time_eq d (snd tv)) trailer || rest)
  end.

(** The signature check of a strict session. *)
Definition verify (s : MacSession) (packet : list byte) (last : nat) (e : DatagramEndpoints)
    : option (result MacError bool) :=
  match tlvs (drop last packet) with
  | Err x => Some (Err x)
  | Ok tr =>
      if negb (existsb (fun tv => fst tv =? MAC) tr) then Some (Ok false)
      else match authenticated_bytes e (take last packet) with
      | Err x => Some (Err x)
      | Ok data => valid ← any_valid (keys (config s)) data tr; Some (Ok valid)
      end
  end.

(** The decision on a counter ([pc], [i]) from the peer [p] at the source. *)
Definition check_counter (s : MacSession) (p : Peer) (e : DatagramEndpoints) (now : Z)
    (sc : Scan) (pc : Z) (i : list byte) (r : MacReception) (random : result MacError (array 16))
    : MacSession * result MacError MacReception :=
  let keep p := set_peer s (source e) p in
  let accept u m n :=
    (keep (MkPeer (Some i) u m n (last_reply p) (saturating_add64 now EXPIRE_MS)),
     Ok (MkReception true (controls r))) in
  if sc_success sc then accept pc pc None
  else if negb (bool_decide (index p = Some i)) then
    if rate_ok (last_challenge s) now then
      match random with
      | Err x => (keep p, Err x)
      | Ok n =>
          (set_last_challenge
             (keep (MkPeer (index p) (unicast p) (multicast p)
                      (Some (n, saturating_add64 now CHALLENGE_MS)) (last_reply p) (expires p)))
             now,
           Ok (MkReception (accepted r) (controls r ++ [control REQUEST (arr_list n)])))
      end
    else (keep p, Ok r)
  else if is_multicast (sock_ip (destination e)) then
    if pc <=? multicast p then (keep p, Ok r) else accept (unicast p) pc (nonce p)
  else
    if pc <=? unicast p then (keep p, Ok r) else accept pc (multicast p) (nonce p).

(** The part of [receive_inner] behind the signature check. *)
Definition receive_body (s : MacSession) (body : list (Z * list byte)) (e : DatagramEndpoints)
    (now : Z) (r : MacReception) (random : result MacError (array 16))
    : MacSession * result MacError MacReception :=
  if bool_decide (peers s !! source e = None) && (max_peers s <=? size (peers s))%nat
  then (s, Ok r)
  else
    let p := default (new_peer now) (peers s !! source e) in
    let sc := scan p e now body in
    let '(p, replies) := answer_request p (sc_request sc) now in
    let r := MkReception (accepted r) (controls r ++ replies) in
    match sc_counter sc with
    | None => (set_peer s (source e) p, Ok r)
    | Some (pc, i) => check_counter s p e now sc pc i r random
    end.

Definition receive_inner (s : MacSession) (packet : list byte) (e : DatagramEndpoints) (now : Z)
    (random : result MacError (array 16)) : option (MacSession * result MacError MacReception) :=
  match body_end packet with
  | Err x => Some (s, Err x)
  | Ok last =>
      let r := MkReception (unverified (config s)) [] in
      verdict ← (if unverified (config s) then Some (Ok true) else verify s packet last e);
      match verdict with
      | Err x => Some (s, Err x)
      | Ok false => Some (s, Ok r)
      | Ok true =>
          match tlvs (drop 4 (take last packet)) with
          | Err x => Some (s, Err x)
          | Ok body => Some (receive_body s body e now r random)
          end
      end
  end.

(** An error is an empty reception; what was changed before it stays changed. *)
Definition receive (s : MacSession) (packet : list byte) (e : DatagramEndpoints) (now : Z)
    (random : result MacError (array 16)) : option (MacSession * MacReception) :=
  '(s, r) ← receive_inner (expire s now) packet e now random;
  Some (s, match r with Ok r => r | Err _ => MkReception false [] end).

End Mac.
