(* ===== verification/MacSpec.v ===== *)
(** Lemmas on packet authentication: TLV framing, what [sign] produces, how
    [receive] reads it back, and the invariant of a session. *)
From S2P Require Import Prelude Net Mac.
Local Open Scope Z_scope.

(** * TLV framing *)

Lemma tlvs_loop_fuel n bytes : (length bytes <= n)%nat -> tlvs_loop n bytes = tlvs bytes.
Proof.
  unfold tlvs. remember (length bytes) as m eqn:Hm.
  assert (length bytes <= m)%nat as Hle by lia. clear Hm. revert n bytes Hle.
  induction m as [|m IH]; intros n bytes Hl Hn.
  { destruct bytes; [by destruct n|simpl in Hl; lia]. }
  destruct bytes as [|t rest]; [by destruct n|]. destruct n as [|n]; [lia|]. simpl in *.
  destruct (u8 t =? 0); [apply IH; lia|]. destruct rest as [|l rest]; [done|]. simpl in *.
  case_match; [done|]. rewrite (IH n); [done|rewrite length_drop; lia|lia].
Qed.

Lemma tlvs_nil : tlvs [] = Ok [].
Proof. done. Qed.

Lemma tlvs_pad t rest : u8 t = 0 -> tlvs (t :: rest) = tlvs rest.
Proof. intros H. unfold tlvs at 1. simpl. by rewrite H. Qed.

Lemma tlvs_step t l rest : u8 t <> 0 ->
  tlvs (t :: l :: rest) =
    if (length rest <? Z.to_nat (u8 l))%nat then Err InvalidPacket
    else out ← tlvs (drop (Z.to_nat (u8 l)) rest); Ok ((u8 t, take (Z.to_nat (u8 l)) rest) :: out).
Proof.
  intros Ht. unfold tlvs at 1. change (length (t :: l :: rest)) with (S (S (length rest))).
  remember (S (length rest)) as n eqn:Hn. simpl. destruct (Z.eqb_spec (u8 t) 0); [done|].
  destruct (length rest <? Z.to_nat (u8 l))%nat; [done|].
  rewrite (tlvs_loop_fuel n); [done|]. rewrite length_drop. lia.
Qed.

(** One well-formed TLV in front. *)
Lemma tlvs_cons t v rest : 0 < t < 256 -> (length v < 256)%nat ->
  tlvs (b8 t :: b8 (Z.of_nat (length v)) :: v ++ rest) = out ← tlvs rest; Ok ((t, v) :: out).
Proof.
  intros Ht Hv. rewrite tlvs_step by (rewrite u8_b8_small; lia).
  rewrite !u8_b8_small, Nat2Z.id by lia. destruct (Nat.ltb_spec (length (v ++ rest)) (length v)) as [H|].
  { rewrite length_app in H. lia. }
  by rewrite drop_app_length, take_app_length.
Qed.

Lemma tlvs_app a b x : tlvs a = Ok x -> tlvs (a ++ b) = y ← tlvs b; Ok (x ++ y).
Proof.
  remember (length a) as n eqn:Hn. assert (length a <= n)%nat as Hl by lia. clear Hn.
  revert a x Hl. induction n as [|n IH]; intros a x Hl Ha.
  { destruct a; [|simpl in Hl; lia]. injection Ha as <-. simpl. by destruct (tlvs b). }
  destruct a as [|t [|l rest]]; [injection Ha as <-; simpl; by destruct (tlvs b)|..].
  { destruct (decide (u8 t = 0)) as [Ht|Ht].
    - rewrite tlvs_pad in Ha by done. injection Ha as <-. simpl. rewrite tlvs_pad by done.
      by destruct (tlvs b).
    - unfold tlvs in Ha. simpl in Ha. by destruct (Z.eqb_spec (u8 t) 0). }
  destruct (decide (u8 t = 0)) as [Ht|Ht].
  { rewrite tlvs_pad in Ha by done. rewrite <- app_comm_cons, tlvs_pad by done. apply IH; [|done].
    simpl in *. lia. }
  rewrite tlvs_step in Ha by done. cbn [app]. rewrite tlvs_step by done.
  destruct (Nat.ltb_spec (length rest) (Z.to_nat (u8 l))); [done|].
  apply result_bind_Ok in Ha as (out & Ho & [= <-]).
  destruct (Nat.ltb_spec (length (rest ++ b)) (Z.to_nat (u8 l))) as [H'|_].
  { rewrite length_app in H'. lia. }
  rewrite drop_app_le, take_app_le by lia. erewrite IH; [|rewrite length_drop; simpl in *; lia|exact Ho].
  by destruct (tlvs b).
Qed.

(** * Bodies *)

Lemma body_end_Ok packet last : body_end packet = Ok last <->
  exists h l rest, packet = b8 42 :: b8 2 :: h :: l :: rest /\
    last = (4 + Z.to_nat (be_value [h; l]))%nat /\ (last <= length packet)%nat.
Proof.
  split.
  - destruct packet as [|m [|v [|h [|l rest]]]]; try done. simpl.
    destruct (Z.eqb_spec (u8 m) 42) as [Hm|]; [|done].
    destruct (Z.eqb_spec (u8 v) 2) as [Hv|]; [|done]. simpl.
    case_match eqn:E; [done|]. intros [= <-]. exists h, l, rest. apply Nat.ltb_ge in E.
    rewrite <- Hm, <- Hv, !b8_u8. done.
  - intros (h & l & rest & -> & -> & Hl). unfold body_end. rewrite !u8_b8_small by lia.
    rewrite !Z.eqb_refl. simpl. case_match eqn:E; [|done]. apply Nat.ltb_lt in E. simpl in Hl. lia.
Qed.

(** The first usable packet counter of a body. *)
Definition first_counter (body : list (Z * list byte)) : option (Z * list byte) :=
  find_map (fun tv => if (fst tv =? PC) && (4 <=? length (snd tv))%nat && (length (snd tv) <=? 36)%nat
                      then Some (be_value (take 4 (snd tv)), drop 4 (snd tv)) else None) body.

Lemma scan_tlv_counter p e now sc tv :
  sc_counter (scan_tlv p e now sc tv) =
    match sc_counter sc with Some c => Some c | None => first_counter [tv] end.
Proof.
  destruct tv as [t v], sc as [[c|] rq su]; simpl.
  - rewrite andb_false_r. by repeat case_match.
  - unfold first_counter. simpl. rewrite <- andb_assoc. by repeat case_match.
Qed.

Lemma scan_counter p e now body : sc_counter (scan p e now body) = first_counter body.
Proof.
  unfold scan. enough (forall sc, sc_counter (fold_left (scan_tlv p e now) body sc) =
    match sc_counter sc with Some c => Some c | None => first_counter body end) as H by apply H.
  induction body as [|tv body IH]; intros sc; [simpl; by destruct (sc_counter sc)|]. cbn [fold_left].
  rewrite IH, scan_tlv_counter. destruct (sc_counter sc); [done|]. unfold first_counter. simpl.
  by destruct (_ && _).
Qed.

(** A challenge is answered by a reply that repeats its nonce in time. *)
Lemma scan_success p e now body : sc_success (scan p e now body) = true <->
  exists v, (REPLY, v) ∈ body /\ (length v <= 192)%nat /\ challenge_answered p now v = true.
Proof.
  unfold scan. enough (forall sc, sc_success (fold_left (scan_tlv p e now) body sc) = true <->
    sc_success sc = true \/ exists v, (REPLY, v) ∈ body /\ (length v <= 192)%nat /\
      challenge_answered p now v = true) as H by (rewrite H; simpl; naive_solver).
  induction body as [|[t v] body IH]; intros sc; cbn [fold_left].
  { split; [auto|]. intros [?|(v & []%not_elem_of_nil & _)]; done. }
  rewrite IH. setoid_rewrite elem_of_cons. destruct sc as [c rq su]. simpl.
  destruct (Z.eqb_spec t REPLY) as [->|Hne].
  - change (REPLY =? PC) with false. change (REPLY =? REQUEST) with false. simpl.
    destruct (Nat.leb_spec (length v) 192); simpl; [rewrite orb_true_iff|].
    + split; [intros [[?|?]|(w & ? & ?)]; eauto 6|].
      intros [?|(w & [[= ->]|?] & ? & ?)]; eauto 6.
    + split; [intros [?|(w & ? & ?)]; eauto|]. intros [?|(w & [[= ->]|?] & ? & ?)]; eauto; lia.
  - assert (forall b : bool, sc_success (if b then MkScan (Some (be_value (take 4 v), drop 4 v)) rq su
      else if (t =? REQUEST) && ((length v <=? 192)%nat && negb (is_multicast (sock_ip (destination e))))
           then MkScan c (Some v) su else MkScan c rq su) = su) as E by (intros []; by repeat case_match).
    rewrite E. split; [intros [?|(w & ? & ?)]; eauto|]. intros [?|(w & [[= <- <-]|?] & ?)]; [auto|done|eauto].
Qed.

(** A request to a unicast destination is to be answered. *)
Lemma scan_request_single p e now v c :
  is_multicast (sock_ip (destination e)) = false -> (length v <= 192)%nat ->
  sc_request (scan p e now [(REQUEST, v); (PC, c)]) = Some v.
Proof.
  intros Hm Hv. unfold scan. simpl. change (REQUEST =? PC) with false.
  change (REQUEST =? REQUEST) with true. rewrite Hm.
  destruct (Nat.leb_spec (length v) 192); [|lia]. simpl. by case_match.
Qed.

Lemma scan_request_none p e now body : Forall (fun tv => fst tv <> REQUEST) body ->
  sc_request (scan p e now body) = None.
Proof.
  unfold scan. enough (forall sc, sc_request sc = None -> Forall (fun tv => fst tv <> REQUEST) body ->
    sc_request (fold_left (scan_tlv p e now) body sc) = None) as H by by apply H.
  induction body as [|[t w] body IH]; intros [c' rq su] Hrq Hb; [done|].
  apply list.Forall_cons in Hb as [Ht Hb]. cbn [fold_left]. apply IH; [|done]. simpl in *.
  destruct (Z.eqb_spec t REQUEST); [done|]. simpl. by repeat case_match.
Qed.

(** * Keys and digests *)

(** What [MacKey::new] and [MacConfig::new] establish. *)
Definition key_ok (k : MacKey) : Prop :=
  (0 < length (key_bytes k) <= 4096)%nat /\ (algorithm k = Blake2s128 -> (length (key_bytes k) <= 32)%nat).
Definition config_ok (c : MacConfig) : Prop :=
  (0 < length (keys c) <= 8)%nat /\ Forall key_ok (keys c).

Lemma mac_key_ok a bytes k : mac_key a bytes = Ok k -> key_ok k /\ k = MkMacKey a bytes.
Proof.
  unfold mac_key, key_ok. destruct (Nat.eqb_spec (length bytes) 0); [done|].
  destruct (Nat.ltb_spec 4096 (length bytes)); [done|]. simpl.
  destruct (Nat.ltb_spec 32 (length bytes)); case_bool_decide; simpl; intros [= <-]; simpl;
    (split; [|done]); split; try lia; intros; try lia; done.
Qed.

Lemma mac_config_ok ks c : Forall key_ok ks -> mac_config ks = Ok c ->
  config_ok c /\ is_strict c = true /\ keys c = ks.
Proof.
  intros Hks. unfold mac_config, config_ok. destruct (Nat.eqb_spec (length ks) 0); [done|].
  destruct (Nat.ltb_spec 8 (length ks)); [done|]. simpl. intros [= <-]. simpl.
  split; [|done]. split; [lia|done].
Qed.

Section Spec.
Context {ML : MacLib}.

Lemma digest_total k data : key_ok k -> exists d, digest k data = Some d /\
  (length d + 2 = trailer_length k)%nat.
Proof.
  intros [_ Hk]. unfold digest, trailer_length. destruct (algorithm k).
  - destruct (hmac_sha256_total (key_bytes k)) as [f Hf]. rewrite Hf. simpl.
    eexists. split; [done|]. by rewrite (hmac_sha256_length _ f data Hf).
  - destruct (blake2s128_total (key_bytes k)) as [f Hf]; [auto|]. rewrite Hf. simpl.
    eexists. split; [done|]. by rewrite (blake2s128_length _ f data Hf).
Qed.

(** The digests a trailer carries. *)
Definition mac_tlvs (ks : list MacKey) (data : list byte) : list (Z * list byte) :=
  omap (fun k => d ← digest k data; Some (MAC, d)) ks.

Lemma trailer_tlvs ks data : Forall key_ok ks -> exists macs, trailer ks data = Some macs /\
  tlvs macs = Ok (mac_tlvs ks data) /\ length macs = sum_list_with trailer_length ks.
Proof.
  induction 1 as [|k ks Hk Hks IH]; [by exists []|]. destruct IH as (macs & Hm & Ht & Hl).
  destruct (digest_total k data Hk) as (d & Hd & Hdl). simpl. rewrite Hd, Hm. simpl.
  eexists. split; [done|]. assert (length d < 256)%nat.
  { unfold trailer_length in Hdl. case_match; lia. }
  rewrite tlvs_cons, Ht by (done || unfold MAC; lia). simpl. split; [done|].
  rewrite length_app. lia.
Qed.

Lemma any_valid_spec ks data tr : Forall key_ok ks -> exists b, any_valid ks data tr = Some b /\
  (b = true <-> exists k d, k ∈ ks /\ digest k data = Some d /\ (MAC, d) ∈ tr).
Proof.
  induction 1 as [|k ks Hk Hks IH].
  { exists false. split; [done|]. split; [done|]. by intros (k & d & []%not_elem_of_nil & _). }
  destruct IH as (b & Hb & Hbt). destruct (digest_total k data Hk) as (d & Hd & _).
  simpl. rewrite Hd, Hb. simpl. eexists. split; [done|]. rewrite orb_true_iff, Hbt, existsb_exists.
  split.
  - intros [([t v] & Hin & Hv)|(k' & d' & ? & ? & ?)].
    + apply andb_true_iff in Hv as [Ht Hv]. simpl in *. apply Z.eqb_eq in Ht. subst t.
      unfold constant_time_eq in Hv. apply bool_decide_eq_true in Hv. subst v. exists k, d.
      split; [constructor|]. split; [done|]. by apply list_elem_of_In.
    + exists k', d'. split; [by constructor|done].
  - intros (k' & d' & [->|Hk']%elem_of_cons & Hd' & Hin).
    + left. exists (MAC, d'). split; [by apply list_elem_of_In|]. simpl.
      rewrite Hd in Hd'. injection Hd' as ->. unfold constant_time_eq. by rewrite bool_decide_true.
    + right. eauto.
Qed.

(** * What [sign] produces *)

(** The counter TLV of a packet and its header. *)
Definition counter_value (c : Z) (i : array 16) : list byte := to_be32 c ++ arr_list i.
Definition framed (packet : list byte) (c : Z) (i : array 16) : list byte :=
  [b8 42; b8 2] ++ to_be16 (Z.of_nat (length packet + 18)) ++ drop 4 packet ++
  [b8 PC; b8 20] ++ counter_value c i.

(** The counter the next packet uses: a full counter starts a new index. *)
Definition next_counter (s : MacSession) (random : result MacError (array 16))
    : result MacError (array 16 * Z) :=
  if own_counter s =? u32_max then i ← random; Ok (i, 0) else Ok (own_index s, own_counter s).

Definition signable (packet : list byte) (body : list (Z * list byte)) : Prop :=
  body_end packet = Ok (length packet) /\ tlvs (drop 4 packet) = Ok body /\
  Forall (fun tv => fst tv <> PC /\ fst tv <> MAC) body.

Lemma no_auth_tlvs body :
  existsb (fun tv : Z * list byte => (fst tv =? PC) || (fst tv =? MAC)) body = false <->
  Forall (fun tv => fst tv <> PC /\ fst tv <> MAC) body.
Proof.
  induction body as [|[t v] body IH]; simpl; [done|]. rewrite orb_false_iff, IH, list.Forall_cons.
  simpl. rewrite orb_false_iff, !Z.eqb_neq. tauto.
Qed.

Record signed_as (s : MacSession) (packet : list byte) (e : DatagramEndpoints)
    (random : result MacError (array 16)) (s' : MacSession) (out : list byte) : Prop := {
  sg_body : exists body, signable packet body;
  sg_next : next_counter s random = Ok (own_index s', own_counter s' - 1);
  sg_fits : Z.of_nat (length packet) + 18 <= u16_max;
  sg_state : s' = MkMacSession (config s) (own_index s') (own_counter s') (peers s) (max_peers s)
               (last_challenge s);
  sg_out : exists data macs,
    authenticated_bytes e (framed packet (own_counter s' - 1) (own_index s')) = Ok data /\
    trailer (keys (config s)) data = Some macs /\
    out = framed packet (own_counter s' - 1) (own_index s') ++ macs
}.

Lemma sign_Ok s packet e random s' out :
  sign s packet e random = Some (s', Ok out) -> signed_as s packet e random s' out.
Proof.
  unfold sign. destruct (body_end packet) as [last|] eqn:He; [|done].
  destruct (Nat.eqb_spec last (length packet)) as [->|]; [simpl|done]. rewrite firstn_all.
  destruct (tlvs (drop 4 packet)) as [body|] eqn:Hb; [|done].
  destruct (existsb _ body) eqn:Ex; [done|]. apply no_auth_tlvs in Ex.
  fold (next_counter s random). destruct (next_counter s random) as [[i c]|] eqn:Hn; [|done].
  apply body_end_Ok in He as Hp. destruct Hp as (h & l & rest & Hp & _).
  match goal with |- context [u16_max <? ?x] => destruct (Z.ltb_spec u16_max x) as [|Hf]; [done|] end.
  match goal with |- context [authenticated_bytes e ?o] =>
    replace o with (framed packet c i) end.
  2:{ rewrite Hp. unfold framed, counter_value. simpl. rewrite !drop_0.
      match goal with |- context [Z.of_nat (length ?x - 0)] =>
        replace (Z.of_nat (length x - 0)) with (Z.of_nat (S (S (S (S (length rest + 18))))))
          by (rewrite length_app; simpl; rewrite arr_length; lia) end. done. }
  destruct (authenticated_bytes e (framed packet c i)) as [data|] eqn:Hd; [|done]. simpl.
  intros (macs & Hm & [= <- <-])%bind_Some. split; simpl; rewrite ?Z.add_simpl_r.
  - exists body. done.
  - done.
  - rewrite length_app in Hf. simpl in Hf. rewrite arr_length in Hf. lia.
  - done.
  - exists data, macs. done.
Qed.
(** Reading a framed packet back. *)
Lemma framed_body packet c i body macs :
  signable packet body -> Z.of_nat (length packet) + 18 <= u16_max ->
  let f := framed packet c i in
  body_end (f ++ macs) = Ok (length f) /\ length f = (length packet + 22)%nat /\
  tlvs (drop 4 f) = Ok (body ++ [(PC, counter_value c i)]).
Proof.
  intros (He & Hb & _) Hf. apply body_end_Ok in He as (h & l & rest & Hp & _ & _).
  assert (length (counter_value c i) = 20%nat) as Hc.
  { unfold counter_value. rewrite length_app, arr_length. done. }
  assert (length (framed packet c i) = (length packet + 22)%nat) as Hl.
  { unfold framed. rewrite Hp, !length_app, Hc. simpl. by rewrite drop_0. }
  cbv zeta. split; [|split; [done|]].
  - apply body_end_Ok. rewrite length_app, Hl. unfold framed, to_be16.
    do 3 eexists. split; [simpl; reflexivity|].
    change [?a; ?b] with (to_be16 (Z.of_nat (length packet + 18))).
    fold (to_be16 (Z.of_nat (length packet + 18))).
    rewrite be_value_to_be16 by (unfold in_u16, u16_max in *; lia). lia.
  - change (drop 4 (framed packet c i)) with (drop 4 packet ++ [b8 PC; b8 20] ++ counter_value c i).
    erewrite tlvs_app by exact Hb. cbn [app].
    pose proof (tlvs_cons PC (counter_value c i) []) as Ht. rewrite Hc, app_nil_r in Ht.
    change (Z.of_nat 20) with 20 in Ht. rewrite Ht by (unfold PC; lia). done.
Qed.

Lemma signable_counter packet body c i : signable packet body -> in_u32 c ->
  first_counter (body ++ [(PC, counter_value c i)]) = Some (c, arr_list i).
Proof.
  intros (_ & _ & Hn) Hc. unfold first_counter. induction Hn as [|[t v] body [Ht _] _ IH]; simpl in *.
  - rewrite arr_length. simpl. rewrite drop_0. rewrite take_0. fold (to_be32 c). by rewrite be_value_to_be32.
  - destruct (Z.eqb_spec t PC); [done|]. simpl. exact IH.
Qed.
End Spec.
