(* ===== verification/MacTheorems.v ===== *)
(** Properties of packet authentication: sessions never panic and stay
    bounded, what is accepted, replay protection, unique counters, and the
    exchange of signed packets and challenges between two sessions. *)
From S2P Require Import Prelude Net Mac MacSpec.
Local Open Scope Z_scope.

(** * Runs of a session *)

Inductive MacOp :=
| OpSign (packet : list byte) (e : DatagramEndpoints) (random : result MacError (array 16))
| OpReceive (packet : list byte) (e : DatagramEndpoints) (now : Z)
    (random : result MacError (array 16))
| OpExpire (now : Z).

Inductive MacOut :=
| Signed (r : result MacError (list byte))
| Received (r : MacReception)
| Expired.

Record peer_ok (p : Peer) : Prop := {
  pk_unicast : in_u32 (unicast p);
  pk_multicast : in_u32 (multicast p)
}.

Record mac_inv (s : MacSession) : Prop := {
  mi_config : config_ok (config s);
  mi_counter : 0 <= own_counter s <= u32_max;
  mi_size : (size (peers s) <= max_peers s)%nat;
  mi_peers : map_Forall (fun _ p => peer_ok p) (peers s)
}.

Section Theorems.
Context {ML : MacLib}.

Definition mac_step (s : MacSession) (op : MacOp) : option (MacSession * MacOut) :=
  match op with
  | OpSign packet e random => '(s, r) ← sign s packet e random; Some (s, Signed r)
  | OpReceive packet e now random => '(s, r) ← receive s packet e now random; Some (s, Received r)
  | OpExpire now => Some (expire s now, Expired)
  end.

Fixpoint mac_run (s : MacSession) (ops : list MacOp) : option (MacSession * list MacOut) :=
  match ops with
  | [] => Some (s, [])
  | op :: ops' => '(s, o) ← mac_step s op; '(s, os) ← mac_run s ops'; Some (s, o :: os)
  end.

(** * One reception *)

(** The counter kept for a kind of destination, and the other one. *)
Definition counter_for (e : DatagramEndpoints) (p : Peer) : Z :=
  if is_multicast (sock_ip (destination e)) then multicast p else unicast p.
Definition other_counter (e : DatagramEndpoints) (p : Peer) : Z :=
  if is_multicast (sock_ip (destination e)) then unicast p else multicast p.

(** A reply in [body] answers the pending challenge of [p] in time. *)
Definition answered (p : Peer) (now : Z) (body : list (Z * list byte)) : Prop :=
  exists v, (REPLY, v) ∈ body /\ (length v <= 192)%nat /\ challenge_answered p now v = true.

(** The packet counter is new: it comes with the answer to a challenge, or it
    continues a known index above everything accepted before. *)
Definition fresh (p : Peer) (e : DatagramEndpoints) (now : Z) (body : list (Z * list byte)) : Prop :=
  exists pc i, first_counter body = Some (pc, i) /\
    (answered p now body \/ index p = Some i /\ counter_for e p < pc).

Inductive peer_step (e : DatagramEndpoints) (now : Z) (body : list (Z * list byte)) (p : Peer)
    : Peer -> bool -> Prop :=
| step_challenge pc i p' :
    first_counter body = Some (pc, i) -> answered p now body ->
    index p' = Some i -> unicast p' = pc -> multicast p' = pc -> peer_step e now body p p' true
| step_counter pc i p' :
    first_counter body = Some (pc, i) -> index p = Some i -> counter_for e p < pc ->
    index p' = Some i -> counter_for e p' = pc -> other_counter e p' = other_counter e p ->
    peer_step e now body p p' true
| step_refused p' :
    ~ fresh p e now body -> index p' = index p -> unicast p' = unicast p ->
    multicast p' = multicast p -> peer_step e now body p p' false.

(** The peer a packet is attributed to. *)
Definition peer_at (s : MacSession) (a : SocketAddr) (now : Z) : Peer :=
  default (new_peer now) (peers s !! a).

Record same_session (s s' : MacSession) : Prop := {
  ss_config : config s' = config s;
  ss_index : own_index s' = own_index s;
  ss_counter : own_counter s' = own_counter s;
  ss_max : max_peers s' = max_peers s
}.

(** An error of [receive_inner] is an empty reception. *)
Definition verdict_of (res : result MacError MacReception) : bool :=
  match res with Ok r => accepted r | Err _ => false end.

Lemma check_counter_step s p0 p e now body sc pc i r random s' res :
  index p = index p0 -> unicast p = unicast p0 -> multicast p = multicast p0 ->
  first_counter body = Some (pc, i) -> (sc_success sc = true <-> answered p0 now body) ->
  check_counter s p e now sc pc i r random = (s', res) ->
  exists p' b, peer_step e now body p0 p' b /\ same_session s s' /\
    peers s' = <[source e := p']> (peers s) /\
    (b = true -> verdict_of res = true) /\ (b = false -> accepted r = false -> verdict_of res = false).
Proof.
  intros Hi Hu Hm Hc Hs. unfold check_counter. destruct (sc_success sc).
  { intros [= <- <-]. eexists _, true. split; [|by split_and!]. 
    apply (step_challenge e now body p0 pc i); [done|by apply Hs|done..]. }
  assert (~ answered p0 now body) as Hna by (rewrite <- Hs; done).
  assert (forall p', index p0 <> Some i \/ pc <= counter_for e p0 -> index p' = index p ->
    unicast p' = unicast p -> multicast p' = multicast p -> peer_step e now body p0 p' false) as Href.
  { intros p' Hor H1 H2 H3. apply step_refused; [|congruence..]. intros (pc' & i' & Hc' & Hf).
    rewrite Hc in Hc'. injection Hc' as <- <-. destruct Hf as [|[Hf1 Hf2]]; [done|].
    destruct Hor; [done|lia]. }
  case_bool_decide as Hidx; simpl; rewrite Hi in Hidx.
  - unfold counter_for in Href. destruct (is_multicast _) eqn:Hmc.
    + destruct (Z.leb_spec pc (multicast p)); intros [= <- <-].
      { eexists _, false. split; [|by split_and!]. apply Href; [right; lia|done..]. }
      eexists _, true. split; [|by split_and!].
      eapply (step_counter _ _ _ _ pc i); unfold counter_for, other_counter; rewrite ?Hmc; simpl; try done; lia.
    + destruct (Z.leb_spec pc (unicast p)); intros [= <- <-].
      { eexists _, false. split; [|by split_and!]. apply Href; [right; lia|done..]. }
      eexists _, true. split; [|by split_and!].
      eapply (step_counter _ _ _ _ pc i); unfold counter_for, other_counter; rewrite ?Hmc; simpl; try done; lia.
  - destruct (rate_ok _ _); [destruct random as [n|x]|]; intros [= <- <-];
      (eexists _, false; split; [|by split_and!]; apply Href; [by left|done..]).
Qed.

(** A full table keeps unknown sources out; otherwise one peer is updated. *)
Definition refused_source (s : MacSession) (a : SocketAddr) : Prop :=
  peers s !! a = None /\ (max_peers s <= size (peers s))%nat.

Lemma receive_body_step s body e now r random s' res :
  receive_body s body e now r random = (s', res) ->
  refused_source s (source e) /\ s' = s /\ res = Ok r \/
  ~ refused_source s (source e) /\
  exists p' b, peer_step e now body (peer_at s (source e) now) p' b /\ same_session s s' /\
    peers s' = <[source e := p']> (peers s) /\
    (b = true -> verdict_of res = true) /\ (b = false -> accepted r = false -> verdict_of res = false).
Proof.
  unfold receive_body. intros H.
  destruct (bool_decide (peers s !! source e = None) && (max_peers s <=? size (peers s))%nat) eqn:E.
  { injection H as <- <-. left. apply andb_true_iff in E as [En%bool_decide_eq_true El%Nat.leb_le]. done. }
  right. split.
  { intros [Hn Hl]. rewrite (bool_decide_true _ Hn) in E. apply Nat.leb_gt in E. lia. }
  fold (peer_at s (source e) now) in H. set (p0 := peer_at s (source e) now) in *.
  destruct (answer_request p0 (sc_request (scan p0 e now body)) now) as [p rs] eqn:Ea.
  assert (index p = index p0 /\ unicast p = unicast p0 /\ multicast p = multicast p0) as (Hi & Hu & Hm).
  { unfold answer_request in Ea. repeat case_match; by injection Ea as <- <-. }
  rewrite scan_counter in H. destruct (first_counter body) as [[pc i]|] eqn:Hc.
  - apply (check_counter_step _ _ p _ _ _ _ _ _ _ _ _ _ Hi Hu Hm Hc (scan_success p0 e now body) H).
  - injection H as <- <-. eexists _, false. split; [|by split_and!]. apply step_refused; [|done..].
    intros (pc & i & Hc' & _). by rewrite Hc in Hc'.
Qed.

(** A MAC TLV behind the body carries the digest of a local key over the
    pseudo-header and the body. *)
Definition authentic (s : MacSession) (packet : list byte) (e : DatagramEndpoints) : Prop :=
  exists last tr data k d, body_end packet = Ok last /\ tlvs (drop last packet) = Ok tr /\
    authenticated_bytes e (take last packet) = Ok data /\
    k ∈ keys (config s) /\ digest k data = Some d /\ (MAC, d) ∈ tr.

Lemma verify_spec s packet last e : config_ok (config s) -> body_end packet = Ok last ->
  exists v, verify s packet last e = Some v /\ (v = Ok true <-> authentic s packet e).
Proof.
  intros [_ Hk] He. unfold verify, authentic. destruct (tlvs (drop last packet)) as [tr|x] eqn:Ht.
  2:{ eexists. split; [done|]. split; [done|]. intros (last' & tr & data & k & d & Hl & Ht' & _). congruence. }
  destruct (existsb _ tr) eqn:Ex; simpl.
  2:{ eexists. split; [done|]. split; [done|]. intros (last' & tr' & data & k & d & Hl & Ht' & _ & _ & _ & Hin).
      assert (tr' = tr) as -> by congruence. apply not_true_iff_false in Ex. destruct Ex.
      apply existsb_exists. exists (MAC, d). split; [by apply list_elem_of_In|done]. }
  destruct (authenticated_bytes e (take last packet)) as [data|x] eqn:Hd.
  2:{ eexists. split; [done|]. split; [done|]. intros (last' & tr' & data & k & d & Hl & _ & Hd' & _). congruence. }
  destruct (any_valid_spec (keys (config s)) data tr Hk) as (b & Hb & Hbt). rewrite Hb. simpl.
  eexists. split; [done|]. split.
  - intros [= ->]. destruct Hbt as [Hbt _]. destruct (Hbt eq_refl) as (k & d & ? & ? & ?).
    by exists last, tr, data, k, d.
  - intros (last' & tr' & data' & k & d & Hl & Ht' & Hd' & ? & ? & ?). f_equal. apply Hbt. exists k, d.
    by replace tr with tr' by congruence; replace data with data' by congruence.
Qed.

Lemma expire_same s now : same_session s (expire s now).
Proof. done. Qed.

Lemma expire_inv s now : mac_inv s -> mac_inv (expire s now).
Proof.
  intros [H1 H2 H3 H4]. split; simpl; [done..| |].
  - etrans; [apply map_size_filter|done].
  - intros a p [Hp _]%map_lookup_filter_Some. by apply (H4 a).
Qed.

Lemma first_counter_range body pc i : first_counter body = Some (pc, i) -> in_u32 pc.
Proof.
  unfold first_counter. intros ([t v] & _ & H)%find_map_Some. cbn [fst snd] in H.
  destruct (_ && _) eqn:E; [|done]. rewrite !andb_true_iff, !Nat.leb_le in E. injection H as <- _. pose proof (be_value_range (take 4 v)) as R.
  destruct E as [[_ E] _]. rewrite length_take, Nat.min_l in R by exact E. exact R.
Qed.

Lemma peer_step_ok e now body p p' b : peer_step e now body p p' b -> peer_ok p -> peer_ok p'.
Proof.
  intros Hs [Hu Hm]. destruct Hs as [pc i p' Hc _ _ <- E|pc i p' Hc _ _ _ Hn Ho|p' _ _ Eu Em].
  - apply first_counter_range in Hc. split; congruence.
  - apply first_counter_range in Hc. unfold counter_for, other_counter in *.
    case_match; split; congruence.
  - split; congruence.
Qed.

Lemma receive_body_inv s body e now r random s' res :
  mac_inv s -> receive_body s body e now r random = (s', res) -> mac_inv s' /\ same_session s s'.
Proof.
  intros [H1 H2 H3 H4] H. apply receive_body_step in H.
  destruct H as [(_ & -> & _)|(Hr & p' & b & Hs & [Ec Ei Eo Em] & Hp & _)]; [done|].
  split; [|done]. split; rewrite ?Ec, ?Eo, ?Em, ?Hp; [done..| |].
  - destruct (peers s !! source e) as [q|] eqn:Eq.
    + by rewrite map_size_insert_Some by (by rewrite Eq).
    + rewrite map_size_insert_None by done. unfold refused_source in Hr.
      destruct (decide (max_peers s <= size (peers s))%nat); [tauto|lia].
  - apply map_Forall_insert_2; [|done]. eapply peer_step_ok; [done|].
    unfold peer_at. destruct (peers s !! source e) as [q|] eqn:Eq; simpl; [by apply (H4 (source e))|].
    by split.
Qed.

(** The body of a packet. *)
Definition body_of (packet : list byte) (body : list (Z * list byte)) : Prop :=
  exists last, body_end packet = Ok last /\ tlvs (drop 4 (take last packet)) = Ok body.

(** Reception is total, whatever the packet and the state of the source. *)
Lemma receive_cases s packet e now random : mac_inv s -> exists s' r,
  receive s packet e now random = Some (s', r) /\
  (s' = expire s now /\ r = MkReception (accepted r) [] /\
     (is_strict (config s) = true -> accepted r = false /\
       ~ (authentic s packet e /\ exists body, body_of packet body)) \/
   (is_strict (config s) = true -> authentic s packet e) /\
   exists body res, body_of packet body /\
     receive_body (expire s now) body e now (MkReception (unverified (config s)) []) random = (s', res) /\
     r = match res with Ok r => r | Err _ => MkReception false [] end).
Proof.
  intros Hi. unfold receive, receive_inner, is_strict, body_of. simpl.
  destruct (body_end packet) as [last|x] eqn:He.
  2:{ do 2 eexists. split; [done|]. left. split_and!; try done. intros _. split; [done|].
      intros [_ (body & last & ? & _)]. done. }
  destruct (verify_spec (expire s now) packet last e) as (v & Hv & Hva); [apply Hi|done|].
  change (authentic (expire s now)) with (authentic s) in Hva.
  destruct (unverified (config s)) eqn:Hu; simpl; [clear v Hv Hva|rewrite Hv; simpl].
  - destruct (tlvs (drop 4 (take last packet))) as [body|x] eqn:Ht.
    2:{ do 2 eexists. split; [done|]. by left. }
    destruct (receive_body _ _ _ _ _ _) as [s' res] eqn:Hb. simpl. do 2 eexists. split; [done|]. right.
    split; [done|]. exists body, res. by split_and!; [exists last|..].
  - destruct v as [[|]|x].
    2,3: do 2 eexists; split; [done|]; left; split_and!; try done; intros _; split; [done|];
         intros [Ha _]; by apply Hva in Ha.
    destruct (tlvs (drop 4 (take last packet))) as [body|x] eqn:Ht.
    2:{ do 2 eexists. split; [done|]. left. split_and!; try done. intros _. split; [done|].
        intros [_ (body & last' & [= <-] & Ht')]. by rewrite Ht in Ht'. }
    destruct (receive_body _ _ _ _ _ _) as [s' res] eqn:Hb. simpl. do 2 eexists. split; [done|]. right.
    split; [intros _; by apply Hva|]. exists body, res. by split_and!; [exists last|..].
Qed.

Lemma body_of_inj packet b1 b2 : body_of packet b1 -> body_of packet b2 -> b1 = b2.
Proof. intros (l1 & H1 & H2) (l2 & H3 & H4). congruence. Qed.

(** [sign] either leaves the session alone or uses up one counter. *)
Definition sign_outcome (s : MacSession) (random : result MacError (array 16))
    (out : MacSession * result MacError (list byte)) : Prop :=
  let '(s', res) := out in
  s' = s /\ (exists x, res = Err x) \/
  next_counter s random = Ok (own_index s', own_counter s' - 1) /\
  s' = MkMacSession (config s) (own_index s') (own_counter s') (peers s) (max_peers s) (last_challenge s).

Lemma sign_cases s packet e random : config_ok (config s) ->
  exists out, sign s packet e random = Some out /\ sign_outcome s random out.
Proof.
  intros [_ Hk]. unfold sign. fold (next_counter s random).
  assert (forall x, exists out, Some (s, Err x) = Some out /\ sign_outcome s random out) as Herr
    by (intros x; eexists; split; [done|]; left; eauto).
  destruct (body_end packet); [|apply Herr]. destruct (negb _); [apply Herr|].
  destruct (tlvs _); [|apply Herr]. destruct (existsb _ _); [apply Herr|].
  destruct (next_counter s random) as [[i c]|] eqn:Hn; [|apply Herr]. cbv zeta.
  set (s' := MkMacSession _ _ _ _ _ _). assert (forall res, sign_outcome s random (s', res)) as Hs.
  { intros res. right. subst s'. simpl. by rewrite Hn, Z.add_simpl_r. }
  destruct (_ <? _); [by eexists|]. destruct (authenticated_bytes _ _) as [data|]; [|by eexists].
  destruct (trailer_tlvs (keys (config s)) data Hk) as (macs & Hm & _).
  change (keys (config s')) with (keys (config s)). rewrite Hm. by eexists.
Qed.

Lemma next_counter_range s random i c : 0 <= own_counter s <= u32_max ->
  next_counter s random = Ok (i, c) -> 0 <= c < u32_max.
Proof.
  unfold next_counter. intros Hc. destruct (Z.eqb_spec (own_counter s) u32_max).
  - intros (r & _ & [= _ <-])%result_bind_Ok. unfold u32_max. lia.
  - intros [= _ <-]. lia.
Qed.

Lemma mac_step_ok s op : mac_inv s -> exists s' o, mac_step s op = Some (s', o) /\
  mac_inv s' /\ config s' = config s /\ max_peers s' = max_peers s.
Proof.
  intros Hi. destruct op as [packet e random|packet e now random|now]; simpl.
  - destruct (sign_cases s packet e random (mi_config s Hi)) as ([s' res] & Hs & Hc). rewrite Hs. simpl.
    do 2 eexists. split; [done|]. destruct Hc as [[-> _]|[Hn ->]]; [done|]. simpl.
    apply next_counter_range in Hn; [|apply Hi]. destruct Hi. split; [|done]. split; simpl; try done. lia.
  - destruct (receive_cases s packet e now random Hi) as (s' & r & Hr & Hc). rewrite Hr. simpl.
    do 2 eexists. split; [done|]. apply (expire_inv s now) in Hi.
    destruct Hc as [(-> & _)|(_ & body & res & _ & Hb & _)]; [done|].
    apply receive_body_inv in Hb as [Hi' [Ec _ _ Em]]; [|done]. done.
  - do 2 eexists. split; [done|]. split; [by apply expire_inv|done].
Qed.

Lemma mac_run_ok ops s : mac_inv s -> exists s' outs, mac_run s ops = Some (s', outs) /\
  length outs = length ops /\ mac_inv s' /\ config s' = config s /\ max_peers s' = max_peers s.
Proof.
  revert s. induction ops as [|op ops IH]; intros s Hi; [by exists s, []|].
  destruct (mac_step_ok s op Hi) as (s1 & o & Hs & Hi1 & Hc1 & Hm1).
  destruct (IH s1 Hi1) as (s2 & os & Hr & Hl & Hi2 & Hc2 & Hm2). exists s2, (o :: os). simpl.
  rewrite Hs. simpl. rewrite Hr. simpl. rewrite Hl, Hc2, Hm2. done.
Qed.

Lemma mac_session_inv c n random s : config_ok c -> mac_session c n random = Ok s ->
  mac_inv s /\ config s = c /\ max_peers s = n.
Proof.
  intros Hc (i & _ & [= <-])%result_bind_Ok. simpl. split; [|done].
  split; simpl; [done|unfold u32_max; lia|rewrite map_size_empty; lia|apply map_Forall_empty].
Qed.

(** A session built from valid keys, strict or not, never panics and never
    runs out of counters, whatever it is asked to sign and whatever arrives;
    it keeps state for at most [max_peers] sources. *)
Theorem mac_session_safe ks c strict n random s ops :
  Forall (fun k => exists a bytes, mac_key a bytes = Ok k) ks -> mac_config ks = Ok c ->
  mac_session (accept_unverified c (negb strict)) n random = Ok s ->
  exists s' outs, mac_run s ops = Some (s', outs) /\ length outs = length ops /\
    (size (peers s') <= n)%nat /\ 0 <= own_counter s' <= u32_max /\
    map_Forall (fun _ p => in_u32 (unicast p) /\ in_u32 (multicast p)) (peers s').
Proof.
  intros Hk Hc Hs. apply mac_config_ok in Hc as (Hc & _ & _).
  2:{ eapply Forall_impl; [|exact Hk]. intros k (a & bytes & H). by apply mac_key_ok in H as [? _]. }
  apply mac_session_inv in Hs as (Hi & _ & Hn); [|done].
  destruct (mac_run_ok ops s Hi) as (s' & outs & Hr & Hl & [_ Ho Hz Hp] & _ & Hm).
  exists s', outs. do 2 (split; [done|]). split; [congruence|]. split; [done|].
  intros a p Ha. by destruct (Hp a p Ha).
Qed.

Lemma receive_accepts s packet e now random :
  mac_inv s -> is_strict (config s) = true -> exists s' r,
  receive s packet e now random = Some (s', r) /\
  (accepted r = true <->
     authentic s packet e /\ ~ refused_source (expire s now) (source e) /\
     exists body, body_of packet body /\
       fresh (peer_at (expire s now) (source e) now) e now body) /\
  (~ authentic s packet e -> s' = expire s now /\ r = MkReception false []).
Proof.
  intros Hi Hst. destruct (receive_cases s packet e now random Hi) as (s' & r & Hr & Hc).
  exists s', r. split; [done|]. destruct Hc as [(-> & Hr0 & Hn)|(Ha & body & res & Hb & Hrb & ->)].
  - destruct (Hn Hst) as [Ea Hna]. rewrite Ea in *. split; [|done]. split; [done|].
    intros (Ha & _ & body & Hb & _). destruct Hna. eauto.
  - specialize (Ha Hst). split; [|done]. unfold is_strict in Hst. apply negb_true_iff in Hst.
    rewrite Hst in Hrb. apply receive_body_step in Hrb.
    destruct Hrb as [(Href & _ & ->)|(Href & p' & b & Hs & _ & _ & Ht & Hf)]; [naive_solver|].
    assert (accepted (match res with Ok r => r | Err _ => MkReception false [] end) = b) as ->.
    { destruct res, b; simpl in *; try done; [by apply Ht|by apply Hf|by specialize (Ht eq_refl)]. }
    destruct Hs as [pc i p' Hc Han _ _ _|pc i p' Hc Hidx Hlt _ _ _|p' Hnf _ _ _].
    + split; [intros _|done]. do 2 (split; [done|]). exists body. split; [done|]. exists pc, i. auto.
    + split; [intros _|done]. do 2 (split; [done|]). exists body. split; [done|]. exists pc, i. auto.
    + split; [done|]. intros (_ & _ & body' & Hb' & Hfr). destruct Hnf.
      by rewrite (body_of_inj _ _ _ Hb Hb').
Qed.

Lemma receive_config s packet e now random s' r :
  mac_inv s -> receive s packet e now random = Some (s', r) -> config s' = config s.
Proof.
  intros Hi Hr. destruct (mac_step_ok s (OpReceive packet e now random) Hi) as (s1 & o & Hs & _ & Hc & _).
  simpl in Hs. rewrite Hr in Hs. injection Hs as <- _. done.
Qed.

Lemma run_config s ops s' outs : mac_inv s -> mac_run s ops = Some (s', outs) -> config s' = config s.
Proof.
  intros Hi Hr. destruct (mac_run_ok ops s Hi) as (s1 & os & Hs & _ & _ & Hc & _).
  rewrite Hr in Hs. injection Hs as <- _. done.
Qed.

(** C13. A strict session accepts a packet exactly if it is authentic (a MAC
    TLV is the digest of a local key over the endpoints and the body), its
    source is known or has room, its body parses and its counter is fresh.  A
    packet that is not authentic leaves no trace but the expiration of old
    peers: no state, no control packet. *)
Theorem receive_accepts_iff s packet e now random :
  mac_inv s -> is_strict (config s) = true -> exists s' r,
  receive s packet e now random = Some (s', r) /\
  (accepted r = true <->
     authentic s packet e /\ ~ refused_source (expire s now) (source e) /\
     exists body, body_of packet body /\
       fresh (peer_at (expire s now) (source e) now) e now body) /\
  (~ authentic s packet e -> s' = expire s now /\ r = MkReception false []).
Proof. apply receive_accepts. Qed.

(** * Replay protection *)

(** Whatever was accepted from [a] under index [i] for the destination kind of
    [e] reached the counter [pc]. *)
Definition spent (a : SocketAddr) (e : DatagramEndpoints) (pc : Z) (i : list byte) (s : MacSession) : Prop :=
  forall p, peers s !! a = Some p -> index p = Some i -> pc <= counter_for e p.

(** The operation brings in an authentic packet from [a] that answers the challenge
    pending for [a], and was signed under index [i] before the counter [pc]. *)
Definition late_answer (a : SocketAddr) (pc : Z) (i : list byte) (s : MacSession) (op : MacOp) : Prop :=
  match op with
  | OpReceive packet e now _ => source e = a /\ authentic s packet e /\
      exists body pc', body_of packet body /\ first_counter body = Some (pc', i) /\ pc' < pc /\
        answered (peer_at (expire s now) a now) now body
  | _ => False
  end.

(** No step of the run does, in the state that it meets. *)
Fixpoint no_late_answer (a : SocketAddr) (pc : Z) (i : list byte) (s : MacSession) (ops : list MacOp) : Prop :=
  match ops with
  | [] => True
  | op :: ops' => ~ late_answer a pc i s op /\
      forall s' o, mac_step s op = Some (s', o) -> no_late_answer a pc i s' ops'
  end.

Lemma peer_step_spent e e' now body p p' b pc i :
  peer_step e' now body p p' b -> (index p = Some i -> pc <= counter_for e p) ->
  (forall pc', first_counter body = Some (pc', i) -> answered p now body -> pc <= pc') ->
  index p' = Some i -> pc <= counter_for e p'.
Proof.
  intros Hs Hp Hn Hi. destruct Hs as [pc' i' p' Hc Ha Hi' Hu Hm|pc' i' p' Hc Hi0 Hlt Hi' Hu Ho|p' _ Hi0 Hu Hm].
  - assert (i' = i) as -> by congruence. specialize (Hn pc' Hc Ha).
    unfold counter_for. case_match; lia.
  - assert (i' = i) as -> by congruence. specialize (Hp Hi0). unfold counter_for, other_counter in *.
    destruct (is_multicast (sock_ip (destination e))), (is_multicast (sock_ip (destination e'))); lia.
  - rewrite Hi0 in Hi. specialize (Hp Hi). unfold counter_for in *. case_match; lia.
Qed.

Lemma expire_spent a e pc i s now : spent a e pc i s -> spent a e pc i (expire s now).
Proof. intros H p [Hp _]%map_lookup_filter_Some. by apply H. Qed.

Lemma peer_at_spent a e pc i s now : spent a e pc i s -> index (peer_at s a now) = Some i ->
  pc <= counter_for e (peer_at s a now).
Proof. intros H. unfold peer_at. destruct (peers s !! a) as [p|] eqn:E; simpl; [by apply H|done]. Qed.

Lemma step_spent a e pc i s op s' o : mac_inv s -> is_strict (config s) = true ->
  mac_step s op = Some (s', o) -> ~ late_answer a pc i s op -> spent a e pc i s -> spent a e pc i s'.
Proof.
  intros Hi Hst Hs Hn Hsp. destruct op as [packet e' random|packet e' now random|now]; simpl in Hs.
  - destruct (sign_cases s packet e' random (mi_config s Hi)) as ([s1 res] & Hs1 & Hc).
    rewrite Hs1 in Hs. injection Hs as <- _. destruct Hc as [[-> _]|[_ ->]]; exact Hsp.
  - destruct (receive_cases s packet e' now random Hi) as (s1 & r & Hr & Hc). rewrite Hr in Hs.
    injection Hs as <- _. apply (expire_spent _ _ _ _ _ now) in Hsp.
    destruct Hc as [(-> & _)|(Hau & body & res & Hb & Hrb & _)]; [done|].
    apply receive_body_step in Hrb as [(_ & -> & _)|(_ & p' & b & Hps & _ & Hp & _)]; [done|].
    intros p. rewrite Hp. destruct (decide (source e' = a)) as [Ha|Ha].
    + rewrite Ha, lookup_insert, decide_True by done. intros [= <-].
      eapply peer_step_spent; [exact Hps| |].
      * rewrite Ha. by apply peer_at_spent.
      * intros pc' Hc Hv. destruct (decide (pc <= pc')) as [|Hlt]; [done|]. destruct Hn.
        split; [done|]. split; [auto|]. exists body, pc'. rewrite <- Ha. split_and!; try done. lia.
    + rewrite lookup_insert_ne by done. apply Hsp.
  - injection Hs as <- _. by apply expire_spent.
Qed.

Lemma run_spent a e pc i ops s s' outs : mac_inv s -> is_strict (config s) = true ->
  mac_run s ops = Some (s', outs) -> no_late_answer a pc i s ops -> spent a e pc i s ->
  spent a e pc i s' /\ mac_inv s'.
Proof.
  revert s outs. induction ops as [|op ops IH]; intros s outs Hi Hst Hr Hn Hs; simpl in Hr.
  { injection Hr as <- _. done. }
  destruct Hn as [Hn1 Hn]. destruct (mac_step_ok s op Hi) as (s1 & o & H1 & Hi1 & Hc1 & _).
  rewrite H1 in Hr. simpl in Hr. destruct (mac_run s1 ops) as [[s2 os]|] eqn:Hr2; [|done].
  injection Hr as <- _. eapply IH; [exact Hi1|by rewrite Hc1|exact Hr2|by eapply Hn|].
  exact (step_spent _ _ _ _ _ _ _ _ Hi Hst H1 Hn1 Hs).
Qed.

(** An accepted packet spends its counter. *)
Lemma accepted_spent s packet e now random s1 r1 body :
  mac_inv s -> is_strict (config s) = true -> receive s packet e now random = Some (s1, r1) ->
  accepted r1 = true -> body_of packet body ->
  mac_inv s1 /\ exists pc i, first_counter body = Some (pc, i) /\ spent (source e) e pc i s1.
Proof.
  intros Hi Hst Hr Hacc Hb.
  destruct (receive_cases s packet e now random Hi) as (s1' & r1' & Hr' & Hc).
  rewrite Hr in Hr'. injection Hr' as <- <-.
  destruct Hc as [(_ & _ & Hn)|(_ & body' & res & Hb' & Hrb & Hres)].
  { destruct (Hn Hst). congruence. }
  rewrite <- (body_of_inj _ _ _ Hb Hb') in Hrb. apply negb_true_iff in Hst. rewrite Hst in Hrb.
  split; [exact (proj1 (receive_body_inv _ _ _ _ _ _ _ _ (expire_inv _ _ Hi) Hrb))|]. apply receive_body_step in Hrb.
  destruct Hrb as [(_ & _ & ->)|(_ & p' & b & Hs & _ & Hp & Ht & Hf)]; [by subst r1|].
  destruct Hs as [pc i p' Hc _ _ Hu Hm|pc i p' Hc _ _ Hidx Hpc _|p' Hnf _ _ _].
  - exists pc, i. split; [done|]. intros p. rewrite Hp, lookup_insert, decide_True by done.
    intros [= <-] _. unfold counter_for. destruct (is_multicast _); lia.
  - exists pc, i. split; [done|]. intros p. rewrite Hp, lookup_insert, decide_True by done.
    intros [= <-]. lia.
  - exfalso. specialize (Hf eq_refl eq_refl). subst r1. destruct res; simpl in *; congruence.
Qed.

(** A packet whose counter is spent is refused. *)
Lemma spent_refused s packet e now random pc i body :
  mac_inv s -> is_strict (config s) = true -> body_of packet body ->
  ~ answered (peer_at (expire s now) (source e) now) now body ->
  first_counter body = Some (pc, i) -> spent (source e) e pc i s ->
  exists s' r, receive s packet e now random = Some (s', r) /\ accepted r = false.
Proof.
  intros Hi Hst Hb Hna Hc Hsp.
  destruct (receive_accepts s packet e now random Hi Hst) as (s' & r & Hr & Hiff & _).
  exists s', r. split; [done|]. apply not_true_iff_false. rewrite Hiff.
  intros (_ & _ & body' & Hb' & pc' & i' & Hc' & Hf). rewrite <- (body_of_inj _ _ _ Hb Hb') in *.
  rewrite Hc in Hc'. injection Hc' as <- <-. destruct Hf as [Han|[Hidx Hlt]]; [done|].
  apply (expire_spent _ _ _ _ _ now) in Hsp. pose proof (peer_at_spent _ _ _ _ _ now Hsp Hidx). lia.
Qed.

(** C12. No replay: once a strict session accepted a packet, the same packet is not
    accepted from the same endpoints again, at no time and after no sequence of
    operations (other packets, expiration of the peer, signing), unless a
    challenge is involved: the packet answers the challenge that is pending when
    it is repeated, or meanwhile an authentic packet from the same source
    answered a pending challenge with an older counter of the same index. *)
Theorem replay_rejected s packet e now random s1 r1 ops s2 outs now' random' body :
  mac_inv s -> is_strict (config s) = true ->
  receive s packet e now random = Some (s1, r1) -> accepted r1 = true -> body_of packet body ->
  mac_run s1 ops = Some (s2, outs) ->
  (forall pc i, first_counter body = Some (pc, i) -> no_late_answer (source e) pc i s1 ops) ->
  ~ answered (peer_at (expire s2 now') (source e) now') now' body ->
  exists s3 r3, receive s2 packet e now' random' = Some (s3, r3) /\ accepted r3 = false.
Proof.
  intros Hi Hst Hr Hacc Hb Hrun Hops Hna. pose proof (receive_config _ _ _ _ _ _ _ Hi Hr) as Hc1.
  destruct (accepted_spent _ _ _ _ _ _ _ _ Hi Hst Hr Hacc Hb) as (Hi1 & pc & i & Hc & Hsp).
  destruct (run_spent _ _ _ _ _ _ _ _ Hi1 ltac:(by rewrite Hc1) Hrun (Hops pc i Hc) Hsp) as [Hsp2 Hi2].
  apply (spent_refused _ _ _ _ _ pc i body); try done. by rewrite (run_config _ _ _ _ Hi1 Hrun), Hc1.
Qed.

(** * Outgoing packets *)

(** The counter TLV of a packet on the wire. *)
Definition sent_counter (packet : list byte) : option (Z * list byte) :=
  match body_end packet with
  | Ok last => match tlvs (drop 4 (take last packet)) with
               | Ok body => first_counter body
               | Err _ => None
               end
  | Err _ => None
  end.

Lemma framed_body_of packet c i body macs :
  signable packet body -> Z.of_nat (length packet) + 18 <= u16_max ->
  body_of (framed packet c i ++ macs) (body ++ [(PC, counter_value c i)]).
Proof.
  intros Hs Hf. destruct (framed_body packet c i body macs Hs Hf) as (He & _ & Ht).
  exists (length (framed packet c i)). split; [done|]. by rewrite take_app_length.
Qed.

Lemma signed_out s packet e random s' out : mac_inv s -> sign s packet e random = Some (s', Ok out) ->
  length out = (length packet + overhead (config s))%nat /\
  sent_counter out = Some (own_counter s' - 1, arr_list (own_index s')).
Proof.
  intros Hi Hs. pose proof (sign_Ok _ _ _ _ _ _ Hs) as [(body & Hb) Hn Hf Hst (data & macs & Hd & Hm & ->)].
  destruct (trailer_tlvs (keys (config s)) data (proj2 (mi_config s Hi))) as (macs' & Hm' & _ & Hl).
  rewrite Hm in Hm'. injection Hm' as <-.
  destruct (framed_body packet (own_counter s' - 1) (own_index s') body macs Hb Hf) as (He & Hlf & Ht).
  split; [rewrite length_app, Hlf, Hl; unfold overhead; lia|].
  unfold sent_counter. rewrite He, take_app_length, Ht. apply (signable_counter packet); [done|].
  apply next_counter_range in Hn; [|apply Hi]. unfold in_u32, u32_max in *. lia.
Qed.

(** The counters a run sends, and the indices it may draw. *)
Definition sent (outs : list MacOut) : list (option (Z * list byte)) :=
  omap (fun o => match o with Signed (Ok out) => Some (sent_counter out) | _ => None end) outs.
Definition drawn (ops : list MacOp) : list (array 16) :=
  omap (fun op => match op with OpSign _ _ (Ok i) => Some i | _ => None end) ops.

(** What a step does to the outgoing counter. *)
Lemma step_counter_next s op s' o : mac_inv s -> mac_step s op = Some (s', o) ->
  sent [o] = [] /\ (own_index s' = own_index s /\ own_counter s <= own_counter s' \/
                    exists i, own_index s' = i /\ drawn [op] = [i]) \/
  sent [o] = [Some (own_counter s' - 1, arr_list (own_index s'))] /\
    (own_index s' = own_index s /\ own_counter s = own_counter s' - 1 \/ drawn [op] = [own_index s']).
Proof.
  intros Hi Hs. destruct op as [packet e random|packet e now random|now]; simpl in Hs.
  - destruct (sign_cases s packet e random (mi_config s Hi)) as ([s1 res] & Hs1 & Hc).
    rewrite Hs1 in Hs. injection Hs as <- <-.
    assert (next_counter s random = Ok (own_index s1, own_counter s1 - 1) ->
      own_index s1 = own_index s /\ own_counter s = own_counter s1 - 1 \/
      drawn [OpSign packet e random] = [own_index s1]) as Hd.
    { unfold next_counter. case_match; [intros (i & -> & [= <- _])%result_bind_Ok; by right|].
      intros [= <- E]. left. split; [done|lia]. }
    destruct Hc as [[-> [x ->]]|[Hn _]]; [by left; split; [|left; split; [|lia]]|].
    destruct res as [out|x].
    + right. split; [|by apply Hd]. destruct (signed_out _ _ _ _ _ _ Hi Hs1) as [_ Hso].
      unfold sent. simpl. by rewrite Hso.
    + left. split; [done|]. destruct (Hd Hn) as [[-> ?]|?]; [left; split; [done|lia]|eauto].
  - destruct (receive_cases s packet e now random Hi) as (s1 & r & Hr & Hc). rewrite Hr in Hs.
    injection Hs as <- <-. left. split; [done|]. left.
    destruct Hc as [(-> & _)|(_ & body & res & _ & Hb & _)]; [split; simpl; [done|lia]|].
    apply receive_body_inv in Hb as [_ [_ -> -> _]]; [split; simpl; [done|lia]|by apply expire_inv].
  - injection Hs as <- <-. left. split; [done|]. left. split; simpl; [done|lia].
Qed.

Lemma sent_cons o outs : sent (o :: outs) = sent [o] ++ sent outs.
Proof. unfold sent. simpl. by destruct o as [[]| |]. Qed.
Lemma drawn_cons op ops : drawn (op :: ops) = drawn [op] ++ drawn ops.
Proof. unfold drawn. simpl. by destruct op as [? ? []| |]. Qed.

Lemma NoDup_skip {A} (a : A) l k : NoDup (a :: l ++ k) -> NoDup (a :: k).
Proof. rewrite !list.NoDup_cons, list.NoDup_app. set_solver. Qed.

Lemma run_sent ops s s' outs : mac_inv s -> mac_run s ops = Some (s', outs) ->
  NoDup (own_index s :: drawn ops) ->
  NoDup (sent outs) /\ Forall (fun x => exists c i, x = Some (c, arr_list i) /\
    (i = own_index s /\ own_counter s <= c \/ i ∈ drawn ops)) (sent outs).
Proof.
  revert s outs. induction ops as [|op ops IH]; intros s outs Hi Hr Hnd; simpl in Hr.
  { injection Hr as _ <-. split; constructor. }
  destruct (mac_step_ok s op Hi) as (s1 & o & H1 & Hi1 & _). rewrite H1 in Hr. simpl in Hr.
  destruct (mac_run s1 ops) as [[s2 os]|] eqn:Hr2; [|done]. injection Hr as <- <-.
  apply (step_counter_next _ _ _ _ Hi) in H1. rewrite sent_cons. rewrite drawn_cons in Hnd |- *.
  assert (NoDup (own_index s1 :: drawn ops)) as Hnd1.
  { destruct H1 as [[_ [[-> _]|(i & -> & Hd)]]|[_ [[-> _]|Hd]]].
    1,3: by eapply NoDup_skip.
    all: rewrite Hd in Hnd; by apply list.NoDup_cons in Hnd as [_ ?]. }
  destruct (IH s1 os Hi1 Hr2 Hnd1) as [Hn Hf].
  assert (forall c i, (i = own_index s1 /\ own_counter s1 <= c \/ i ∈ drawn ops) ->
    i = own_index s /\ own_counter s <= c \/ i ∈ drawn [op] ++ drawn ops) as Hw.
  { intros c i [[-> Hc]|?]; [|set_solver].
    destruct H1 as [[_ [[-> ?]|(i & -> & ->)]]|[_ [[-> ?]| ->]]]; [left; split; [done|lia]|set_solver|..];
      [left; split; [done|lia]|set_solver]. }
  destruct H1 as [[-> _]|[-> Ho]]; cbn [app].
  { split; [done|]. eapply Forall_impl; [|exact Hf]. intros x (c & i & -> & ?). eauto 6. }
  split.
  - apply list.NoDup_cons. split; [|done]. intros Hin. rewrite list.Forall_forall in Hf.
    destruct (Hf _ Hin) as (c & i & [= Ec Ei] & Hor). apply arr_ext in Ei. subst i.
    destruct Hor as [[_ ?]|?]; [lia|]. by apply list.NoDup_cons in Hnd1 as [? _].
  - apply list.Forall_cons. split.
    + exists (own_counter s1 - 1), (own_index s1). split; [done|].
      destruct Ho as [[-> ?]| ->]; [left; split; [done|lia]|set_solver].
    + eapply Forall_impl; [|exact Hf]. intros x (c & i & -> & ?). eauto 6.
Qed.

(** A session never sends the same counter twice: over any run, the
    (counter, index) pairs of the packets it signs are pairwise different, as
    long as the random source does not repeat an index; each signed packet is
    longer than its input by exactly [overhead]. *)
Theorem sent_counters_unique s ops s' outs :
  mac_inv s -> mac_run s ops = Some (s', outs) -> NoDup (own_index s :: drawn ops) ->
  NoDup (sent outs) /\ Forall is_Some (sent outs) /\
  forall packet e random s1 out, sign s' packet e random = Some (s1, Ok out) ->
    length out = (length packet + overhead (config s))%nat.
Proof.
  intros Hi Hr Hnd. destruct (run_sent _ _ _ _ Hi Hr Hnd) as [Hn Hf]. split; [done|]. split.
  - eapply Forall_impl; [|exact Hf]. by intros x (c & i & -> & _).
  - intros packet e random s1 out Hs. destruct (mac_run_ok ops s Hi) as (s2 & os & Hr2 & _ & Hi2 & Hc & _).
    rewrite Hr in Hr2. injection Hr2 as <- _. rewrite <- Hc.
    apply (signed_out _ _ _ _ _ _ Hi2 Hs).
Qed.
End Theorems.
