(* ===== verification/MacExchange.v ===== *)
(** Two sessions that share a key: what one signs the other accepts, and the
    challenge exchange by which a session learns the index of an unknown
    neighbour. *)
From S2P Require Import Prelude Net Mac MacSpec MacTheorems.
Local Open Scope Z_scope.

Section Exchange.
Context {ML : MacLib}.

(** Receiving what a session with a common key signed comes down to the
    decision on its body. *)
Lemma receive_signed a packet e rnd a' out body b now random k :
  mac_inv a -> mac_inv b -> is_strict (config b) = true ->
  sign a packet e rnd = Some (a', Ok out) -> signable packet body ->
  k ∈ keys (config a) -> k ∈ keys (config b) ->
  exists s res,
    receive_body (expire b now) (body ++ [(PC, counter_value (own_counter a' - 1) (own_index a'))])
      e now (MkReception false []) random = (s, res) /\
    receive b out e now random = Some (s, match res with Ok r => r | Err _ => MkReception false [] end).
Proof.
  intros Ha Hb Hst Hs Hsb Hka Hkb.
  pose proof (sign_Ok _ _ _ _ _ _ Hs) as [_ _ Hf _ (data & macs & Hd & Hm & ->)].
  set (f := framed packet (own_counter a' - 1) (own_index a')) in *.
  destruct (framed_body packet (own_counter a' - 1) (own_index a') body macs Hsb Hf) as (He & _ & _).
  pose proof (proj2 (mi_config a Ha)) as Hok.
  destruct (trailer_tlvs (keys (config a)) data Hok) as (macs' & Hm' & Ht & _).
  rewrite Hm in Hm'. injection Hm' as <-.
  assert (authentic b (f ++ macs) e) as Hau.
  { destruct (digest_total k data) as (d & Hdk & _).
    { rewrite list.Forall_forall in Hok. by apply Hok. }
    exists (length f), (mac_tlvs (keys (config a)) data), data, k, d.
    rewrite drop_app_length, take_app_length. split_and!; try done.
    unfold mac_tlvs. apply list_elem_of_omap. exists k. by rewrite Hdk. }
  pose proof (framed_body_of packet (own_counter a' - 1) (own_index a') body macs Hsb Hf) as Hbo.
  destruct (receive_cases b (f ++ macs) e now random Hb) as (s & r & Hr & Hc).
  destruct Hc as [(_ & _ & Hn)|(_ & body' & res & Hbo' & Hrb & Hres)].
  { destruct (Hn Hst) as [_ []]. eauto. }
  rewrite <- (body_of_inj _ _ _ Hbo Hbo') in Hrb. apply negb_true_iff in Hst. rewrite Hst in Hrb.
  exists s, res. split; [done|]. by rewrite Hr, Hres.
Qed.

Lemma sign_in_u32 a packet e rnd a' out : mac_inv a -> sign a packet e rnd = Some (a', Ok out) ->
  in_u32 (own_counter a' - 1).
Proof.
  intros Ha Hs. pose proof (sg_next _ _ _ _ _ _ (sign_Ok _ _ _ _ _ _ Hs)) as Hn.
  apply next_counter_range in Hn; [|apply Ha]. unfold in_u32, u32_max in *. lia.
Qed.

(** A fresh body from a source with room is accepted, and its counter learned. *)
Lemma fresh_accepted s body e now random s' res pc i :
  receive_body s body e now (MkReception false []) random = (s', res) ->
  ~ refused_source s (source e) -> first_counter body = Some (pc, i) ->
  fresh (peer_at s (source e) now) e now body ->
  verdict_of res = true /\ exists p, peers s' !! source e = Some p /\ index p = Some i /\ counter_for e p = pc.
Proof.
  intros Hrb Hr Hc Hf. apply receive_body_step in Hrb.
  destruct Hrb as [[? _]|(_ & p' & b & Hs & _ & Hp & Ht & _)]; [done|].
  assert (b = true /\ index p' = Some i /\ counter_for e p' = pc) as (-> & Hi & Hn).
  { destruct Hs as [pc' i' p' Hc' _ Hi Hu Hm|pc' i' p' Hc' _ _ Hi Hn _|]; [..|done];
      rewrite Hc in Hc'; injection Hc' as <- <-; split_and!; try done.
    unfold counter_for. by case_match. }
  split; [by apply Ht|]. exists p'. by rewrite Hp, lookup_insert, decide_True.
Qed.

Lemma verdict_reception res : verdict_of res = true ->
  accepted (match res with Ok r => r | Err _ => MkReception false [] end) = true.
Proof. by destruct res. Qed.

(** A packet signed by a session with a common key is accepted by a strict
    receiver that knows the sender's index and has seen only smaller counters
    for this kind of destination; the receiver then stands at its counter. *)
Theorem signed_packet_accepted a packet e rnd a' out b now random k p :
  mac_inv a -> mac_inv b -> is_strict (config b) = true ->
  sign a packet e rnd = Some (a', Ok out) -> k ∈ keys (config a) -> k ∈ keys (config b) ->
  peers b !! source e = Some p -> now < expires p -> index p = Some (arr_list (own_index a')) ->
  counter_for e p < own_counter a' - 1 ->
  exists b' r, receive b out e now random = Some (b', r) /\ accepted r = true /\
    exists p', peers b' !! source e = Some p' /\ index p' = Some (arr_list (own_index a')) /\
      counter_for e p' = own_counter a' - 1.
Proof.
  intros Ha Hb Hst Hs Hka Hkb Hp Hx Hi Hlt.
  destruct (sg_body _ _ _ _ _ _ (sign_Ok _ _ _ _ _ _ Hs)) as (body & Hsb).
  destruct (receive_signed _ _ _ _ _ _ _ _ now random _ Ha Hb Hst Hs Hsb Hka Hkb) as (b' & res & Hrb & Hr).
  assert (peers (expire b now) !! source e = Some p) as Hp' by by apply map_lookup_filter_Some.
  pose proof (signable_counter packet body (own_counter a' - 1) (own_index a') Hsb
    (sign_in_u32 _ _ _ _ _ _ Ha Hs)) as Hc.
  destruct (fresh_accepted _ _ _ _ _ _ _ (own_counter a' - 1) (arr_list (own_index a')) Hrb)
    as (Hv & Hp2); [|exact Hc| |].
  - intros [Hn _]. congruence.
  - unfold peer_at. rewrite Hp'. do 2 eexists. split; [exact Hc|]. right. done.
  - exists b', (match res with Ok r => r | Err _ => MkReception false [] end).
    split; [done|]. split; [by apply verdict_reception|done].
Qed.

(** * The challenge exchange *)

Lemma signable_control t v : t = REQUEST \/ t = REPLY -> (length v < 254)%nat ->
  signable (control t v) [(t, v)].
Proof.
  intros Ht Hv. unfold signable, control. split; [|split].
  - apply body_end_Ok. simpl. do 3 eexists. split; [done|].
    fold (to_be16 (Z.of_nat (length v + 2))). rewrite be_value_to_be16 by (unfold in_u16; lia). lia.
  - simpl. pose proof (tlvs_cons t v []) as H. rewrite app_nil_r in H. rewrite H; [done| |lia].
    destruct Ht as [-> | ->]; unfold REQUEST, REPLY; lia.
  - apply Forall_singleton. simpl. destruct Ht as [-> | ->]; done.
Qed.

(** The first packet of an unknown source is answered with a challenge. *)
Lemma unknown_challenged s body e now random n pc i :
  peers s !! source e = None -> (size (peers s) < max_peers s)%nat ->
  rate_ok (last_challenge s) now = true -> Forall (fun tv => fst tv <> REQUEST) body ->
  first_counter body = Some (pc, i) -> random = Ok n -> exists s',
  receive_body s body e now (MkReception false []) random =
    (s', Ok (MkReception false [control REQUEST (arr_list n)])) /\
  peers s' = <[source e := MkPeer None 0 0 (Some (n, saturating_add64 now CHALLENGE_MS)) None
                             (saturating_add64 now EXPIRE_MS)]> (peers s).
Proof.
  intros Hp Hz Hrate Hb Hc ->. unfold receive_body. rewrite Hp.
  destruct (Nat.leb_spec (max_peers s) (size (peers s))); [lia|]. rewrite andb_false_r. simpl.
  rewrite (scan_request_none _ _ _ _ Hb). simpl. rewrite scan_counter, Hc. unfold check_counter.
  destruct (sc_success _) eqn:E.
  { apply scan_success in E as (v & _ & _ & H'). done. }
  simpl. rewrite Hrate. by eexists.
Qed.

(** Control packets collected before the decision are kept. *)
Lemma check_counter_controls s p e now sc pc i r n :
  exists s' r', check_counter s p e now sc pc i r (Ok n) = (s', Ok r') /\
    exists l, controls r' = controls r ++ l.
Proof.
  assert (exists l, controls r = controls r ++ l) as Hn by (exists []; by rewrite app_nil_r).
  unfold check_counter. destruct (sc_success sc); [do 2 eexists; by split|].
  destruct (negb _); [destruct (rate_ok _ _); do 2 eexists; split; eauto|].
  destruct (is_multicast _); destruct (_ <=? _); do 2 eexists; by split.
Qed.

(** A challenge is answered by a reply that repeats its nonce. *)
Lemma request_answered s e now v c n :
  ~ refused_source s (source e) -> rate_ok (last_reply (peer_at s (source e) now)) now = true ->
  is_multicast (sock_ip (destination e)) = false -> (length v <= 192)%nat ->
  exists s' r', receive_body s [(REQUEST, v); (PC, c)] e now (MkReception false []) (Ok n) = (s', Ok r') /\
    control REPLY v ∈ controls r'.
Proof.
  intros Hr Hrate Hm Hv. unfold receive_body.
  destruct (bool_decide (peers s !! source e = None) && (max_peers s <=? size (peers s))%nat) eqn:E.
  { destruct Hr. apply andb_true_iff in E as [En%bool_decide_eq_true El%Nat.leb_le]. done. }
  fold (peer_at s (source e) now). rewrite (scan_request_single _ _ _ _ _ Hm Hv).
  unfold answer_request. rewrite Hrate.
  destruct (sc_counter _) as [[pc i]|].
  - match goal with |- context [check_counter ?s ?p ?e ?now ?sc ?pc ?i ?r (Ok n)] =>
      destruct (check_counter_controls s p e now sc pc i r n) as (s' & r' & -> & l & Hl) end.
    do 2 eexists. split; [done|]. rewrite Hl. simpl. constructor.
  - do 2 eexists. split; [done|]. simpl. constructor.
Qed.

Lemma sign_frame a packet e rnd a' out : sign a packet e rnd = Some (a', Ok out) ->
  peers a' = peers a /\ config a' = config a /\ max_peers a' = max_peers a.
Proof. intros Hs. by rewrite (sg_state _ _ _ _ _ _ (sign_Ok _ _ _ _ _ _ Hs)). Qed.

Lemma sign_inv a packet e rnd a' out : mac_inv a -> sign a packet e rnd = Some (a', Ok out) -> mac_inv a'.
Proof.
  intros Ha Hs. destruct (mac_step_ok a (OpSign packet e rnd) Ha) as (s1 & o & H1 & Hi & _).
  simpl in H1. rewrite Hs in H1. injection H1 as <- _. done.
Qed.

(** First leg: the packet of an unknown sender is answered with a challenge. *)
Lemma exchange_challenge a b k packet body e rnd n now a1 w :
  mac_inv a -> mac_inv b -> is_strict (config b) = true ->
  k ∈ keys (config a) -> k ∈ keys (config b) ->
  signable packet body -> Forall (fun tv => fst tv <> REQUEST) body ->
  peers (expire b now) !! source e = None -> (size (peers (expire b now)) < max_peers b)%nat ->
  rate_ok (last_challenge b) now = true -> sign a packet e rnd = Some (a1, Ok w) ->
  exists b1, receive b w e now (Ok n) = Some (b1, MkReception false [control REQUEST (arr_list n)]) /\
    mac_inv b1 /\ config b1 = config b /\ peers b1 !! source e =
      Some (MkPeer None 0 0 (Some (n, saturating_add64 now CHALLENGE_MS)) None
              (saturating_add64 now EXPIRE_MS)).
Proof.
  intros Ha Hb Hst Hka Hkb Hpk Hbody Hunk Hroom Hrate Hs.
  destruct (receive_signed _ _ _ _ _ _ _ _ now (Ok n) _ Ha Hb Hst Hs Hpk Hka Hkb) as (b1 & res & Hrb & Hr).
  pose proof (signable_counter _ _ _ (own_index a1) Hpk (sign_in_u32 _ _ _ _ _ _ Ha Hs)) as Hc.
  destruct (receive_body_inv _ _ _ _ _ _ _ _ (expire_inv _ now Hb) Hrb) as [Hb1 [Ec _ _ _]].
  destruct (unknown_challenged (expire b now)
    (body ++ [(PC, counter_value (own_counter a1 - 1) (own_index a1))]) e now (Ok n) n
    (own_counter a1 - 1) (arr_list (own_index a1))) as (b1' & Hch & Hp); try done.
  { apply Forall_app. split; [done|]. by apply Forall_singleton. }
  rewrite Hch in Hrb. injection Hrb as -> <-. exists b1. split; [exact Hr|].
  by rewrite Hp, lookup_insert, decide_True.
Qed.

(** Second leg: a signed challenge is answered with its nonce. *)
Lemma exchange_reply a b k e rnd (n : array 16) m now b2 w :
  mac_inv a -> mac_inv b -> is_strict (config a) = true ->
  k ∈ keys (config a) -> k ∈ keys (config b) ->
  is_multicast (sock_ip (destination e)) = false ->
  ~ refused_source (expire a now) (source e) ->
  rate_ok (last_reply (peer_at (expire a now) (source e) now)) now = true ->
  sign b (control REQUEST (arr_list n)) e rnd = Some (b2, Ok w) ->
  exists a2 r, receive a w e now (Ok m) = Some (a2, r) /\ control REPLY (arr_list n) ∈ controls r /\
    mac_inv a2 /\ config a2 = config a.
Proof.
  intros Ha Hb Hst Hka Hkb Hm Hroom Hrate Hs.
  assert (length (arr_list n) = 16%nat) as Hn by apply arr_length.
  assert (signable (control REQUEST (arr_list n)) [(REQUEST, arr_list n)]) as Hq
    by (apply signable_control; [auto|lia]).
  destruct (receive_signed _ _ _ _ _ _ _ _ now (Ok m) _ Hb Ha Hst Hs Hq Hkb Hka) as (a2 & res & Hrb & Hr).
  destruct (receive_body_inv _ _ _ _ _ _ _ _ (expire_inv _ now Ha) Hrb) as [Ha2 [Ec _ _ _]].
  destruct (request_answered (expire a now) e now (arr_list n)
    (counter_value (own_counter b2 - 1) (own_index b2)) m) as (a2' & r & Hra & Hin); try done; [lia|].
  cbn [app] in Hrb. rewrite Hra in Hrb. injection Hrb as -> <-. by exists a2, r.
Qed.

(** Third leg: a signed reply with the pending nonce is accepted. *)
Lemma exchange_accept a b k e rnd random (n : array 16) x now a' w p :
  mac_inv a -> mac_inv b -> is_strict (config b) = true ->
  k ∈ keys (config a) -> k ∈ keys (config b) ->
  peers b !! source e = Some p -> nonce p = Some (n, x) -> now < x -> now < expires p ->
  sign a (control REPLY (arr_list n)) e rnd = Some (a', Ok w) ->
  exists b' r, receive b w e now random = Some (b', r) /\ accepted r = true /\
    exists p, peers b' !! source e = Some p /\ index p = Some (arr_list (own_index a')) /\
      counter_for e p = own_counter a' - 1.
Proof.
  intros Ha Hb Hst Hka Hkb Hp Hx Hlt Hexp Hs.
  assert (length (arr_list n) = 16%nat) as Hn by apply arr_length.
  assert (signable (control REPLY (arr_list n)) [(REPLY, arr_list n)]) as Hy
    by (apply signable_control; [auto|lia]).
  destruct (receive_signed _ _ _ _ _ _ _ _ now random _ Ha Hb Hst Hs Hy Hka Hkb) as (b' & res & Hrb & Hr).
  assert (peers (expire b now) !! source e = Some p) as Hp' by by apply map_lookup_filter_Some.
  pose proof (signable_counter _ _ _ (own_index a') Hy (sign_in_u32 _ _ _ _ _ _ Ha Hs)) as Hc.
  destruct (fresh_accepted _ _ _ _ _ _ _ (own_counter a' - 1) (arr_list (own_index a')) Hrb)
    as (Hv & Hp2); [|exact Hc| |].
  - intros [Hnone _]. congruence.
  - unfold peer_at. rewrite Hp'. do 2 eexists. split; [exact Hc|]. left. exists (arr_list n).
    split; [constructor|]. split; [lia|]. unfold challenge_answered. simpl. rewrite Hx.
    destruct (Z.ltb_spec now x); [|lia]. unfold constant_time_eq. by rewrite bool_decide_true.
  - exists b', (match res with Ok r => r | Err _ => MkReception false [] end).
    split; [done|]. split; [by apply verdict_reception|done].
Qed.

(** C14. The challenge exchange succeeds: a strict session [b] that knows
    nothing of the sender [a] refuses its packet and sends a challenge; [a]
    answers the signed challenge with a reply, whatever it thinks of [b]; and
    the signed reply, in time, makes [b] accept it and learn the index and
    counter of [a].  Every packet is signed with a common key; [b] has room for a
    peer and neither end is held back by its rate limit. *)
Theorem challenge_exchange a b k packet body e1 e2 e3 (n m : array 16)
    rnd1 rnd2 rnd3 rnd4 now1 now2 now3 a1 w1 :
  mac_inv a -> mac_inv b -> is_strict (config a) = true -> is_strict (config b) = true ->
  k ∈ keys (config a) -> k ∈ keys (config b) ->
  source e3 = source e1 -> is_multicast (sock_ip (destination e2)) = false ->
  signable packet body -> Forall (fun tv => fst tv <> REQUEST) body ->
  peers (expire b now1) !! source e1 = None -> (size (peers (expire b now1)) < max_peers b)%nat ->
  rate_ok (last_challenge b) now1 = true ->
  sign a packet e1 rnd1 = Some (a1, Ok w1) ->
  exists b1, receive b w1 e1 now1 (Ok n) =
    Some (b1, MkReception false [control REQUEST (arr_list n)]) /\
  forall b2 w2, sign b1 (control REQUEST (arr_list n)) e2 rnd2 = Some (b2, Ok w2) ->
  ~ refused_source (expire a1 now2) (source e2) ->
  rate_ok (last_reply (peer_at (expire a1 now2) (source e2) now2)) now2 = true ->
  exists a2 ra, receive a1 w2 e2 now2 (Ok m) = Some (a2, ra) /\
    control REPLY (arr_list n) ∈ controls ra /\
  forall a3 w3, sign a2 (control REPLY (arr_list n)) e3 rnd3 = Some (a3, Ok w3) ->
  now3 < saturating_add64 now1 CHALLENGE_MS ->
  exists b3 rb, receive b2 w3 e3 now3 rnd4 = Some (b3, rb) /\ accepted rb = true /\
    exists p, peers b3 !! source e3 = Some p /\ index p = Some (arr_list (own_index a3)) /\
      counter_for e3 p = own_counter a3 - 1.
Proof.
  intros Ha Hb Hsa Hsb Hka Hkb He Hm Hpk Hbody Hunk Hroom Hrate Hs1.
  destruct (exchange_challenge a b k packet body e1 rnd1 n now1 a1 w1) as (b1 & Hr1 & Hb1 & Ecb & Hp1);
    try done.
  exists b1. split; [done|]. intros b2 w2 Hs2 Hroom2 Hrate2.
  destruct (sign_frame _ _ _ _ _ _ Hs1) as (_ & Eca & _).
  destruct (sign_frame _ _ _ _ _ _ Hs2) as (Ep2 & Ec2 & _).
  destruct (exchange_reply a1 b1 k e2 rnd2 n m now2 b2 w2) as (a2 & ra & Hr2 & Hin & Ha2 & Eca2);
    rewrite ?Eca, ?Ecb; try done; [exact (sign_inv _ _ _ _ _ _ Ha Hs1)|].
  exists a2, ra. do 2 (split; [done|]). intros a3 w3 Hs3 Hnow.
  apply (exchange_accept a2 b2 k e3 rnd3 rnd4 n (saturating_add64 now1 CHALLENGE_MS) now3 a3 w3
    (MkPeer None 0 0 (Some (n, saturating_add64 now1 CHALLENGE_MS)) None (saturating_add64 now1 EXPIRE_MS)));
    rewrite ?Eca2, ?Eca, ?Ec2, ?Ecb, ?Ep2, ?He; try done; [exact (sign_inv _ _ _ _ _ _ Hb1 Hs2)|].
  simpl. unfold saturating_add64, CHALLENGE_MS, EXPIRE_MS in *. lia.
Qed.
End Exchange.
