(* ===== verification/MacDemo.v ===== *)
(** A concrete instance of packet authentication, on which the theorems of
    [MacTheorems] and [MacExchange] are applied: two sessions that share a key,
    with a deterministic stand-in for the keyed digests. *)
From S2P Require Import Prelude Net Mac MacSpec MacTheorems MacExchange.
Local Open Scope Z_scope.

(** The last octets of the data behind those of the key. *)
Definition toy_digest (n : nat) (key data : list byte) : list byte := pad_list n (key ++ reverse data).

Lemma toy_digest_total n (key : list byte) : is_Some (Some (toy_digest n key)).
Proof. eauto. Qed.
Lemma toy_digest_length n (key : list byte) f data :
  Some (toy_digest n key) = Some f -> length (f data) = n.
Proof. intros [= <-]. apply pad_list_length. Qed.

#[global] Instance toy_mac : MacLib := {|
  hmac_sha256 := fun key => Some (toy_digest 32 key);
  blake2s128 := fun key => Some (toy_digest 16 key);
  hmac_sha256_total := toy_digest_total 32;
  hmac_sha256_length := fun key f data => toy_digest_length 32 key f data;
  blake2s128_total := fun key _ => toy_digest_total 16 key;
  blake2s128_length := fun key f data => toy_digest_length 16 key f data
|}.

Definition demo_key : MacKey := MkMacKey Blake2s128 [b8 7; b8 8; b8 9].
Definition demo_config : MacConfig := MkMacConfig [demo_key] false.
Definition tag (z : Z) : array 16 := arr_of_list 16 (replicate 16 (b8 z)).
Definition alice_addr : SocketAddr := SockV4 (ipv4 192 0 2 1) 6696.
Definition bob_addr : SocketAddr := SockV4 (ipv4 192 0 2 2) 6696.
Definition to_bob : DatagramEndpoints := MkEndpoints alice_addr bob_addr.
Definition to_alice : DatagramEndpoints := MkEndpoints bob_addr alice_addr.

(** A Hello of eight octets. *)
Definition demo_hello : list byte := map b8 [42; 2; 0; 8; 4; 6; 0; 0; 0; 1; 1; 144].
Definition demo_body : list (Z * list byte) := [(4, map b8 [0; 0; 0; 1; 1; 144])].

Definition alice : MacSession := MkMacSession demo_config (tag 1) 5 ∅ 4 None.
Definition bob : MacSession := MkMacSession demo_config (tag 2) 0 ∅ 4 None.
(** A session that last accepted counter 4 of the first one. *)
Definition bob_knowing : MacSession :=
  MkMacSession demo_config (tag 2) 0 {[ alice_addr := MkPeer (Some (arr_list (tag 1))) 4 4 None None 9000 ]}
    4 None.

Definition signed_by (s : MacSession) (packet : list byte) (e : DatagramEndpoints) : MacSession * list byte :=
  match sign s packet e (Err Entropy) with Some (s', Ok out) => (s', out) | _ => (s, []) end.

Lemma demo_config_ok : config_ok demo_config.
Proof. split; [simpl; lia|]. apply Forall_singleton. split; simpl; [lia|intros _; lia]. Qed.

Lemma demo_inv i c p : 0 <= c <= u32_max -> (size p <= 4)%nat -> map_Forall (fun _ p => peer_ok p) p ->
  mac_inv (MkMacSession demo_config i c p 4 None).
Proof. intros. split; simpl; [apply demo_config_ok|done..]. Qed.

Lemma alice_inv : mac_inv alice.
Proof. apply demo_inv; [unfold u32_max; lia|rewrite map_size_empty; lia|apply map_Forall_empty]. Qed.
Lemma bob_inv : mac_inv bob.
Proof. apply demo_inv; [unfold u32_max; lia|rewrite map_size_empty; lia|apply map_Forall_empty]. Qed.
Lemma bob_knowing_inv : mac_inv bob_knowing.
Proof.
  apply demo_inv; [unfold u32_max; lia|rewrite map_size_singleton; lia|].
  apply map_Forall_singleton. split; unfold in_u32; simpl; lia.
Qed.

Lemma demo_sign : sign alice demo_hello to_bob (Err Entropy) =
  Some ((signed_by alice demo_hello to_bob).1, Ok (signed_by alice demo_hello to_bob).2).
Proof. vm_compute. reflexivity. Qed.

Lemma demo_key_shared : demo_key ∈ keys demo_config.
Proof. constructor. Qed.

Lemma demo_signable : signable demo_hello demo_body.
Proof. split; [vm_compute; reflexivity|]. split; [vm_compute; reflexivity|]. by apply Forall_singleton. Qed.

Lemma mac_session_safe_witness :
  exists s' outs, mac_run (MkMacSession demo_config (tag 2) 0 ∅ 4 None)
    [OpSign demo_hello to_bob (Err Entropy); OpReceive demo_hello to_bob 3 (Err Entropy); OpExpire 9] =
    Some (s', outs) /\ length outs = 3%nat /\ (size (peers s') <= 4)%nat /\
    0 <= own_counter s' <= u32_max /\
    map_Forall (fun _ p => in_u32 (unicast p) /\ in_u32 (multicast p)) (peers s').
Proof.
  apply (mac_session_safe [demo_key] demo_config true 4 (Ok (tag 2))).
  - apply Forall_singleton. by exists Blake2s128, [b8 7; b8 8; b8 9].
  - reflexivity.
  - reflexivity.
Defined.

(** The first packet on the wire. *)
Definition demo_packet : list byte := (signed_by alice demo_hello to_bob).2.

Lemma receive_accepts_iff_witness : exists s' r,
  receive bob_knowing demo_packet to_bob 5 (Err Entropy) = Some (s', r) /\
  (accepted r = true <->
     authentic bob_knowing demo_packet to_bob /\
     ~ refused_source (expire bob_knowing 5) (source to_bob) /\
     exists body, body_of demo_packet body /\
       fresh (peer_at (expire bob_knowing 5) (source to_bob) 5) to_bob 5 body) /\
  (~ authentic bob_knowing demo_packet to_bob ->
     s' = expire bob_knowing 5 /\ r = MkReception false []).
Proof. exact (receive_accepts_iff _ demo_packet to_bob 5 (Err Entropy) bob_knowing_inv eq_refl). Defined.

Lemma signed_packet_accepted_witness : exists b' r,
  receive bob_knowing (signed_by alice demo_hello to_bob).2 to_bob 5 (Err Entropy) = Some (b', r) /\
  accepted r = true /\ exists p', peers b' !! alice_addr = Some p' /\
    index p' = Some (arr_list (tag 1)) /\ counter_for to_bob p' = 5.
Proof.
  apply (signed_packet_accepted alice demo_hello to_bob (Err Entropy)
    (signed_by alice demo_hello to_bob).1 _ bob_knowing 5 (Err Entropy) demo_key
    (MkPeer (Some (arr_list (tag 1))) 4 4 None None 9000) alice_inv bob_knowing_inv eq_refl demo_sign
    demo_key_shared demo_key_shared);
    [vm_compute; reflexivity|simpl; lia|reflexivity|vm_compute; reflexivity].
Defined.

Definition accepted_state : MacSession :=
  match receive bob_knowing demo_packet to_bob 5 (Err Entropy) with Some (s, _) => s | None => bob end.

Lemma replay_rejected_witness : exists s3 r3,
  receive (expire accepted_state 6) demo_packet to_bob 7 (Err Entropy) = Some (s3, r3) /\
  accepted r3 = false.
Proof.
  apply (replay_rejected bob_knowing demo_packet to_bob 5 (Err Entropy) accepted_state (MkReception true [])
    [OpExpire 6] (expire accepted_state 6) [Expired] 7 (Err Entropy)
    (demo_body ++ [(PC, counter_value 5 (tag 1))]) bob_knowing_inv eq_refl).
  - vm_compute. reflexivity.
  - reflexivity.
  - exists 34%nat. split; vm_compute; reflexivity.
  - reflexivity.
  - intros pc i _. simpl. auto.
  - intros (v & Hv & _). rewrite elem_of_app in Hv. destruct Hv as [Hv|Hv]; apply list_elem_of_singleton in Hv; discriminate Hv.
Defined.

Definition two_signs : list MacOp :=
  [OpSign demo_hello to_bob (Err Entropy); OpSign demo_hello to_bob (Ok (tag 9))].
Definition two_signs_run : MacSession * list MacOut :=
  match mac_run alice two_signs with Some r => r | None => (alice, []) end.

Lemma sent_counters_unique_witness :
  NoDup (sent two_signs_run.2) /\ Forall is_Some (sent two_signs_run.2) /\
  forall packet e random s1 out, sign two_signs_run.1 packet e random = Some (s1, Ok out) ->
    length out = (length packet + overhead demo_config)%nat.
Proof.
  apply (sent_counters_unique alice two_signs two_signs_run.1 two_signs_run.2 alice_inv).
  - vm_compute. reflexivity.
  - apply (bool_decide_unpack _). vm_compute. exact I.
Defined.

Lemma challenge_exchange_witness : exists b1,
  receive bob demo_packet to_bob 5 (Ok (tag 3)) =
    Some (b1, MkReception false [control REQUEST (arr_list (tag 3))]) /\
  forall b2 w2, sign b1 (control REQUEST (arr_list (tag 3))) to_alice (Err Entropy) = Some (b2, Ok w2) ->
  ~ refused_source (expire (signed_by alice demo_hello to_bob).1 6) (source to_alice) ->
  rate_ok (last_reply (peer_at (expire (signed_by alice demo_hello to_bob).1 6) (source to_alice) 6)) 6 = true ->
  exists a2 ra, receive (signed_by alice demo_hello to_bob).1 w2 to_alice 6 (Ok (tag 4)) = Some (a2, ra) /\
    control REPLY (arr_list (tag 3)) ∈ controls ra /\
  forall a3 w3, sign a2 (control REPLY (arr_list (tag 3))) to_bob (Err Entropy) = Some (a3, Ok w3) ->
  7 < saturating_add64 5 CHALLENGE_MS ->
  exists b3 rb, receive b2 w3 to_bob 7 (Err Entropy) = Some (b3, rb) /\ accepted rb = true /\
    exists p, peers b3 !! source to_bob = Some p /\ index p = Some (arr_list (own_index a3)) /\
      counter_for to_bob p = own_counter a3 - 1.
Proof.
  apply (challenge_exchange alice bob demo_key demo_hello demo_body to_bob to_alice to_bob (tag 3) (tag 4)
    (Err Entropy) (Err Entropy) (Err Entropy) (Err Entropy) 5 6 7 (signed_by alice demo_hello to_bob).1
    demo_packet alice_inv bob_inv eq_refl eq_refl demo_key_shared demo_key_shared eq_refl).
  - reflexivity.
  - exact demo_signable.
  - by apply Forall_singleton.
  - reflexivity.
  - vm_compute. lia.
  - reflexivity.
  - exact demo_sign.
Defined.

(** The exchange runs to its end: the challenged sender is accepted. *)
Example exchange_runs :
  let a1 := (signed_by alice demo_hello to_bob).1 in
  match receive bob demo_packet to_bob 5 (Ok (tag 3)) with
  | Some (b1, _) =>
      let '(b2, w2) := signed_by b1 (control REQUEST (arr_list (tag 3))) to_alice in
      match receive a1 w2 to_alice 6 (Ok (tag 4)) with
      | Some (a2, _) =>
          let '(a3, w3) := signed_by a2 (control REPLY (arr_list (tag 3))) to_bob in
          match receive b2 w3 to_bob 7 (Err Entropy) with
          | Some (_, r) => accepted r
          | None => false
          end
      | None => false
      end
  | None => false
  end = true.
Proof. vm_compute. reflexivity. Qed.
