(* ===== verification/Scheduler.v ===== *)
(** The output scheduler and the output queue of one interface
    ([output.rs], [output_queue.rs] of the router).

    A semaphore permit is a value with an identity: it is released when no
    queue, batch or datagram refers to it any more, so that the permits in use
    are those that occur in the state.  Datagrams cut from one batch share its
    permits ([Arc<Vec<OwnedSemaphorePermit>>]) by naming the same ones. *)
From S2P Require Import Prelude Net Model Wire WireEncode Api.
Local Open Scope Z_scope.

Definition OUTPUT_BUDGET_BYTES : Z := 16 * 1024 * 1024.
Definition OUTPUT_QUEUE_CAPACITY : nat := 256.
Definition OUTPUT_EXPIRY_GRACE_MS : Z := 1000.
Definition SEND_TIMEOUT_MS : Z := 100.
Definition DEFAULT_PACING_MS : Z := 2.
Definition DEADLINE_MARGIN_MS : Z := 5.

(** * Jitter *)

(** [JitterRandom::new]: xorshift must not start at zero. *)
Definition jitter_new (seed : Z) : Z := if seed =? 0 then 0x9e3779b97f4a7c15 else seed.

Definition xorshift (value : Z) : Z :=
  let value := Z.lxor value (Z.shiftr value 12) in
  let value := Z.lxor value (Z.shiftl value 25 mod 18446744073709551616) in
  Z.lxor value (Z.shiftr value 27).

(** [JitterRandom::bounded]: the number drawn and the next state. *)
Definition bounded (state inclusive_max : Z) : Z * Z :=
  if inclusive_max =? 0 then (0, state)
  else
    let value := xorshift state in
    (wrapping_mul64 value 0x2545f4914f6cdd1d mod saturating_add64 inclusive_max 1, value).

Record Permit := MkPermit { permit_id : nat; permit_bytes : Z }.

#[global] Instance Permit_eq_dec : EqDecision Permit.
Proof. solve_decision. Defined.
#[global] Program Instance Permit_countable : Countable Permit :=
  inj_countable (fun p => (permit_id p, permit_bytes p)) (fun '(i, b) => Some (MkPermit i b)) _.
Next Obligation. by intros []. Qed.

(** The first element that satisfies [p] is replaced ([iter_mut().find]). *)
Fixpoint update_first {A} (p : A -> bool) (f : A -> A) (l : list A) : option (list A) :=
  match l with
  | [] => None
  | a :: l' => if p a then Some (f a :: l') else l' ← update_first p f l'; Some (a :: l')
  end.

(** [Iterator::min]. *)
Definition min_list (l : list Z) : option Z :=
  match l with [] => None | a :: l' => Some (fold_left Z.min l' a) end.

Section Scheduler.
Context {NL : IpNetLib}.

Record OutboundIntent := MkIntent {
  it_destination : IpAddr;
  it_packet : OutboundPacket;
  it_timing : SendTiming
}.

Record QueuedIntent := MkQueued {
  qi_generation : Z;
  qi_intent : OutboundIntent;
  qi_expires_ms : Z;
  qi_reservation : Permit
}.

Record ScheduledDatagram := MkScheduled {
  sd_destination : IpAddr;
  sd_bytes : list byte;
  sd_deadline_ms : Z;
  sd_expires_ms : Z;
  sd_reservations : list Permit
}.

Record PendingBatch := MkPending {
  pb_destination : IpAddr;
  pb_tlvs : list OutboundTlv;
  pb_release_ms : Z;
  pb_deadline_ms : Z;
  pb_expires_ms : Z;
  pb_reservations : list Permit
}.

Record ReadyDatagram := MkReady {
  rd_destination : IpAddr;
  rd_bytes : list byte;
  rd_deadline_ms : Z;
  rd_expires_ms : Z;
  rd_reservations : list Permit
}.

Record OutputScheduler := MkScheduler {
  pending : list PendingBatch;
  ready : list ReadyDatagram;
  next_send_ms : Z;
  pacing_ms : Z;
  random : Z
}.

Definition with_pacing (seed pacing_ms : Z) : OutputScheduler :=
  MkScheduler [] [] 0 pacing_ms (jitter_new seed).
Definition scheduler_new (seed : Z) : OutputScheduler := with_pacing seed DEFAULT_PACING_MS.

(** The longest delay of an intent: its jitter, cut to leave the margin. *)
Definition latest_delay (timing : SendTiming) (now_ms : Z) : Z :=
  let remaining := saturating_sub (deadline_ms timing) now_ms in
  Z.min (saturating_sub remaining (Z.min DEADLINE_MARGIN_MS remaining)) (max_jitter_ms timing).

Definition merge_intent (queued : QueuedIntent) (release_ms : Z) (b : PendingBatch) : PendingBatch :=
  let intent := qi_intent queued in
  MkPending (pb_destination b) (pb_tlvs b ++ out_tlvs (it_packet intent))
    (Z.min (pb_release_ms b) release_ms)
    (Z.min (pb_deadline_ms b) (deadline_ms (it_timing intent)))
    (Z.min (pb_expires_ms b) (qi_expires_ms queued))
    (pb_reservations b ++ [qi_reservation queued]).

Definition enqueue (s : OutputScheduler) (queued : QueuedIntent) (now_ms : Z) : OutputScheduler :=
  let intent := qi_intent queued in
  let '(delay, random) := bounded (random s) (latest_delay (it_timing intent) now_ms) in
  let release_ms := saturating_add64 now_ms delay in
  let pending' :=
    match update_first (fun b => bool_decide (pb_destination b = it_destination intent))
            (merge_intent queued release_ms) (pending s) with
    | Some l => l
    | None =>
        pending s ++
          [MkPending (it_destination intent) (out_tlvs (it_packet intent)) release_ms
             (deadline_ms (it_timing intent)) (qi_expires_ms queued) [qi_reservation queued]]
    end in
  MkScheduler pending' (ready s) (next_send_ms s) (pacing_ms s) random.

(** The scheduler without expired work, the intents and the datagrams dropped. *)
Definition expire (s : OutputScheduler) (now_ms : Z) : OutputScheduler * (Z * Z) :=
  let dead := List.filter (fun b => pb_expires_ms b <=? now_ms) (pending s) in
  let live := List.filter (fun b => negb (pb_expires_ms b <=? now_ms)) (pending s) in
  let ready' := List.filter (fun d => now_ms <? rd_expires_ms d) (ready s) in
  (MkScheduler live ready' (next_send_ms s) (pacing_ms s) (random s),
   (Z.of_nat (sum_list_with (fun b => length (pb_reservations b)) dead),
    Z.of_nat (length (ready s) - length ready'))).

Definition next_wake_ms (s : OutputScheduler) : option Z :=
  let p := min_list (map (fun b => Z.min (pb_release_ms b) (pb_deadline_ms b)) (pending s)) in
  let r := min_list (map (fun d => Z.min (next_send_ms s) (rd_deadline_ms d)) (ready s)) in
  min_list (option_list p ++ option_list r).

Definition due (b : PendingBatch) (now_ms : Z) : bool :=
  (pb_release_ms b <=? now_ms) || (pb_deadline_ms b <=? now_ms).

Definition ready_of (b : PendingBatch) (bytes : list byte) : ReadyDatagram :=
  MkReady (pb_destination b) bytes (pb_deadline_ms b) (pb_expires_ms b) (pb_reservations b).

(** The loop over [pending]: [kept] is the part before [index].  A batch that
    cannot be encoded is lost; the batches behind it stay pending. *)
Fixpoint packetize_loop (now_ms : Z) (budget : nat) (kept rest : list PendingBatch)
    (ready : list ReadyDatagram) : (list PendingBatch * list ReadyDatagram) * result WireError unit :=
  match rest with
  | [] => ((kept, ready), Ok tt)
  | b :: rest' =>
      if negb (due b now_ms) then packetize_loop now_ms budget (kept ++ [b]) rest' ready
      else match encode_packets (MkOutboundPacket (pb_tlvs b)) budget with
           | Err x => ((kept ++ rest', ready), Err x)
           | Ok packets =>
               packetize_loop now_ms budget kept rest' (ready ++ map (ready_of b) packets)
           end
  end.

Definition packetize_due (s : OutputScheduler) (now_ms : Z) (budget : nat)
    : OutputScheduler * result WireError unit :=
  let '((p, r), res) := packetize_loop now_ms budget [] (pending s) (ready s) in
  (MkScheduler p r (next_send_ms s) (pacing_ms s) (random s), res).

(** The index, send time and deadline of each ready datagram. *)
Definition send_slots (s : OutputScheduler) : list (nat * (Z * Z)) :=
  imap (fun i d => (i, (Z.min (next_send_ms s) (rd_deadline_ms d), rd_deadline_ms d))) (ready s).

Definition pop_due (s : OutputScheduler) (now_ms : Z) (budget : nat)
    : OutputScheduler * result WireError (option ScheduledDatagram) :=
  match packetize_due s now_ms budget with
  | (s, Err x) => (s, Err x)
  | (s, Ok _) =>
      match min_by (fun x y => cmp (snd x) (snd y)) (send_slots s) with
      | None => (s, Ok None)
      | Some (i, (send_at, _)) =>
          if now_ms <? send_at then (s, Ok None)
          else match ready s !! i with
          | None => (s, Ok None)
          | Some d =>
              (MkScheduler (pending s) (take i (ready s) ++ drop (S i) (ready s))
                 (saturating_add64 now_ms (pacing_ms s)) (pacing_ms s) (random s),
               Ok (Some (MkScheduled (rd_destination d) (rd_bytes d) (rd_deadline_ms d)
                           (rd_expires_ms d) (rd_reservations d))))
          end
      end
  end.

(** * The charge of a batch *)

(** What the allocator chose for a packet: capacities of its vectors and the
    sizes of the elements. *)
Record Alloc := MkAlloc {
  tlv_size : N;
  sub_tlv_size : N;
  tlvs_capacity : list OutboundTlv -> N;
  subs_capacity : list SubTlv -> N;
  bytes_capacity : list byte -> N
}.

Definition usize_add : Z -> Z -> Z := saturating_add64.
Definition usize_mul : Z -> Z -> Z := saturating_mul64.

Definition sub_tlvs_of (t : OutboundTlv) : option (list SubTlv) :=
  match t with
  | OHello _ _ _ subs | OIhu _ _ _ subs | ORouteRequest _ subs | OSeqnoRequest _ _ _ _ subs => Some subs
  | OUpdate u => Some (ou_sub_tlvs u)
  | OPadN _ | OUnknown _ _ | OPad1 | OAckRequest _ _ | OAck _ => None
  end.

Definition charge_sub (a : Alloc) (charge : Z) (s : SubTlv) : Z :=
  match s with
  | SubPadN value | SubUnknown _ value => usize_add charge (usize_mul (Z.of_N (bytes_capacity a value)) 2)
  | _ => charge
  end.

Definition charge_tlv (a : Alloc) (charge : Z) (t : OutboundTlv) : Z :=
  let charge := usize_add charge 512 in
  let charge := match t with
                | OPadN value | OUnknown _ value => usize_add charge (usize_mul (Z.of_N (bytes_capacity a value)) 2)
                | _ => charge
                end in
  match sub_tlvs_of t with
  | Some subs =>
      fold_left (charge_sub a) subs
        (usize_add charge
           (usize_mul (usize_mul (Z.of_N (subs_capacity a subs)) (Z.of_N (sub_tlv_size a) + 32)) 2))
  | None => charge
  end.

Definition packet_charge (a : Alloc) (p : OutboundPacket) : Z :=
  fold_left (charge_tlv a) (out_tlvs p)
    (usize_add 1024
       (usize_mul (usize_mul (Z.of_N (tlvs_capacity a (out_tlvs p))) (Z.of_N (tlv_size a))) 2)).

(** * The queue *)

Record OutputCounters := MkOutputCounters { total_dropped : Z; total_missed : Z }.

Record QueueCounters := MkQueueCounters {
  rejected_batches : Z;
  rejected_tlvs : Z;
  expired_batches : Z;
  dropped_datagrams : Z;
  expired_datagrams : Z;
  send_timeouts : Z;
  missed_deadlines : Z;
  next_log_ms : Z;
  logged_events : Z
}.

Definition no_counters : QueueCounters := MkQueueCounters 0 0 0 0 0 0 0 0 0.

(** The watch channel keeps the generation and counts its updates; [open] is
    false once the receiver is gone. *)
Record OutputQueue := MkQueue {
  generation : Z;
  version : nat;
  channel : list QueuedIntent;
  capacity : nat;
  open : bool;
  budget_bytes : Z;
  counters : QueueCounters;
  totals : OutputCounters
}.

Definition queue_new (capacity : nat) (budget_bytes : Z) (totals : OutputCounters) : OutputQueue :=
  MkQueue 0 0 [] capacity true budget_bytes no_counters totals.

Definition set_counters (q : OutputQueue) (c : QueueCounters) (t : OutputCounters) : OutputQueue :=
  MkQueue (generation q) (version q) (channel q) (capacity q) (open q) (budget_bytes q) c t.
Definition set_channel (q : OutputQueue) (l : list QueuedIntent) : OutputQueue :=
  MkQueue (generation q) (version q) l (capacity q) (open q) (budget_bytes q) (counters q) (totals q).

Definition count_rejected (q : OutputQueue) (tlvs : Z) : OutputQueue :=
  let c := counters q in
  set_counters q
    (MkQueueCounters (wrapping_add64 (rejected_batches c) 1) (wrapping_add64 (rejected_tlvs c) tlvs)
       (expired_batches c) (dropped_datagrams c) (expired_datagrams c) (send_timeouts c)
       (missed_deadlines c) (next_log_ms c) (logged_events c)) (totals q).

Definition count_expired (q : OutputQueue) (n : Z) : OutputQueue :=
  let c := counters q in
  set_counters q
    (MkQueueCounters (rejected_batches c) (rejected_tlvs c) (wrapping_add64 (expired_batches c) n)
       (dropped_datagrams c) (expired_datagrams c) (send_timeouts c) (missed_deadlines c)
       (next_log_ms c) (logged_events c)) (totals q).

Definition drop_datagram (q : OutputQueue) (expired timed_out : bool) : OutputQueue :=
  let c := counters q in
  let add (b : bool) z := if b then wrapping_add64 z 1 else z in
  set_counters q
    (MkQueueCounters (rejected_batches c) (rejected_tlvs c) (expired_batches c)
       (wrapping_add64 (dropped_datagrams c) 1) (add expired (expired_datagrams c))
       (add timed_out (send_timeouts c)) (missed_deadlines c) (next_log_ms c) (logged_events c))
    (MkOutputCounters (wrapping_add64 (total_dropped (totals q)) 1) (total_missed (totals q))).

Definition missed_deadline (q : OutputQueue) : OutputQueue :=
  let c := counters q in
  set_counters q
    (MkQueueCounters (rejected_batches c) (rejected_tlvs c) (expired_batches c) (dropped_datagrams c)
       (expired_datagrams c) (send_timeouts c) (wrapping_add64 (missed_deadlines c) 1)
       (next_log_ms c) (logged_events c))
    (MkOutputCounters (total_dropped (totals q)) (wrapping_add64 (total_missed (totals q)) 1)).

(** A queued intent for a submission at [now_ms], with the permit granted. *)
Definition queued_intent (q : OutputQueue) (intent : OutboundIntent) (now_ms : Z) (p : Permit)
    : QueuedIntent :=
  MkQueued (generation q) intent
    (saturating_add64 (Z.max (deadline_ms (it_timing intent)) now_ms) OUTPUT_EXPIRY_GRACE_MS) p.

(** [submit]: [available] permits are left and a granted one gets the number
    [id].  The channel refuses when it is full or its receiver is gone. *)
Definition submit (q : OutputQueue) (a : Alloc) (intent : OutboundIntent) (now_ms available : Z)
    (id : nat) : OutputQueue * option QueuedIntent :=
  let tlvs := Z.of_nat (length (out_tlvs (it_packet intent))) in
  let charge := packet_charge a (it_packet intent) in
  if (charge <=? u32_max) && (charge <=? available) then
    let queued := queued_intent q intent now_ms (MkPermit id charge) in
    if open q && (length (channel q) <? capacity q)%nat
    then (set_channel q (channel q ++ [queued]), Some queued)
    else (count_rejected q tlvs, None)
  else (count_rejected q tlvs, None).

Definition invalidate (q : OutputQueue) : OutputQueue :=
  MkQueue (wrapping_add64 (generation q) 1) (S (version q)) (channel q) (capacity q) (open q)
    (budget_bytes q) (counters q) (totals q).

(** [with_generation]: the poll runs only under the given generation. *)
Definition with_generation {T} (q : OutputQueue) (g : Z) (poll : unit -> T) : option T :=
  if generation q =? g then Some (poll tt) else None.

Record OutputStatus := MkOutputStatus {
  st_budget_bytes : Z;
  st_used_bytes : Z;
  st_rejected_batches : Z;
  st_rejected_tlvs : Z;
  st_expired_batches : Z;
  st_dropped_datagrams : Z;
  st_expired_datagrams : Z;
  st_send_timeouts : Z;
  st_missed_deadlines : Z
}.

Definition status (q : OutputQueue) (available : Z) : OutputStatus :=
  let c := counters q in
  MkOutputStatus (budget_bytes q) (budget_bytes q - available) (rejected_batches c) (rejected_tlvs c)
    (expired_batches c) (dropped_datagrams c) (expired_datagrams c) (send_timeouts c)
    (missed_deadlines c).

(** [log_losses]: the queue and whether a warning is written. *)
Definition log_losses (q : OutputQueue) (now : Z) : OutputQueue * bool :=
  let c := counters q in
  let events := wrapping_add64 (wrapping_add64 (wrapping_add64 (rejected_batches c) (expired_batches c))
                                  (dropped_datagrams c)) (missed_deadlines c) in
  if negb (events =? logged_events c) && (next_log_ms c <=? now) then
    (set_counters q
       (MkQueueCounters (rejected_batches c) (rejected_tlvs c) (expired_batches c)
          (dropped_datagrams c) (expired_datagrams c) (send_timeouts c) (missed_deadlines c)
          (saturating_add64 now 30000) events) (totals q), true)
  else (q, false).
End Scheduler.
