(* ===== verification/Sender.v ===== *)
(** The sender worker of one interface ([run_sender] of [router/io.rs]) with
    the queue it serves, as a state machine: the steps of the worker between
    its waits interleave with submissions and invalidations by the router.

    Times, the payload budget of the socket and the outcome of a socket poll
    are inputs of the steps. *)
From S2P Require Import Prelude Net Model Wire WireEncode Api Scheduler.
Local Open Scope Z_scope.

Section Sender.
Context {NL : IpNetLib}.

(** Where the worker waits: at the top of its loop, for the retry after a
    failed budget lookup, in a send, for new work, or stopped. *)
Inductive Phase :=
| Top
| Backoff
| Sending (d : ScheduledDatagram) (send_deadline : Z)
| Waiting (wake_ms : option Z)
| Stopped.

(** [sys_generation] is the worker's generation, [seen] the version of the
    watch channel it last looked at; [next_permit] numbers the permits. *)
Record System := MkSystem {
  queue : OutputQueue;
  scheduler : OutputScheduler;
  sys_generation : Z;
  seen : nat;
  seed : Z;
  phase : Phase;
  next_permit : nat
}.

Definition sender_new (capacity : nat) (budget_bytes seed : Z) (t : OutputCounters) : System :=
  MkSystem (queue_new capacity budget_bytes t) (scheduler_new seed) 0 0 seed Top 0.

(** The permits in use and the bytes they stand for. *)
Definition phase_permits (ph : Phase) : list Permit :=
  match ph with Sending d _ => sd_reservations d | _ => [] end.
Definition scheduler_permits (s : OutputScheduler) : list Permit :=
  concat (map pb_reservations (pending s)) ++ concat (map rd_reservations (ready s)).
Definition held (s : System) : gset Permit :=
  list_to_set (map qi_reservation (channel (queue s)) ++ scheduler_permits (scheduler s) ++
               phase_permits (phase s)).
Definition total_bytes (X : gset Permit) : Z := foldr (fun p z => permit_bytes p + z) 0 (elements X).
Definition used_bytes (s : System) : Z := total_bytes (held s).
Definition available_permits (s : System) : Z := budget_bytes (queue s) - used_bytes s.

Definition set_queue (s : System) (q : OutputQueue) : System :=
  MkSystem q (scheduler s) (sys_generation s) (seen s) (seed s) (phase s) (next_permit s).
Definition set_phase (s : System) (p : Phase) : System :=
  MkSystem (queue s) (scheduler s) (sys_generation s) (seen s) (seed s) p (next_permit s).

(** A submission by the router; a granted permit uses up a number. *)
Definition sys_submit (s : System) (a : Alloc) (intent : OutboundIntent) (now_ms : Z)
    : System * option QueuedIntent :=
  let '(q, queued) := submit (queue s) a intent now_ms (available_permits s) (next_permit s) in
  (MkSystem q (scheduler s) (sys_generation s) (seen s) (seed s) (phase s) (S (next_permit s)), queued).

(** [borrow_and_update] and the reset of a scheduler of another generation. *)
Definition sync_generation (s : System) : System :=
  let current := generation (queue s) in
  if sys_generation s =? current
  then MkSystem (queue s) (scheduler s) (sys_generation s) (version (queue s)) (seed s) (phase s)
         (next_permit s)
  else MkSystem (queue s) (scheduler_new (seed s)) current (version (queue s)) (seed s) (phase s)
         (next_permit s).

(** Work that expired is purged and counted, before anything is sent. *)
Definition purge (s : System) (now_ms : Z) : System :=
  let '(sch, (batches, datagrams)) := expire (scheduler s) now_ms in
  let q := count_expired (queue s) batches in
  let q := Nat.iter (Z.to_nat datagrams) (fun q => drop_datagram q true false) q in
  MkSystem q sch (sys_generation s) (seen s) (seed s) (phase s) (next_permit s).

(** A datagram taken from the scheduler: its late checks, its Hello
    timestamps, and the time the send may take. *)
Definition start_send (s : System) (d : ScheduledDatagram) (send_ms timestamp_us : Z) : System :=
  if sd_expires_ms d <=? send_ms then set_phase (set_queue s (drop_datagram (queue s) true false)) Top
  else
    let q := if sd_deadline_ms d <? send_ms then missed_deadline (queue s) else queue s in
    match stamp_hello_timestamps (sd_bytes d) timestamp_us with
    | (_, Err _) => set_phase (set_queue s (drop_datagram q false false)) Top
    | (bytes, Ok _) =>
        let wait_ms := Z.min SEND_TIMEOUT_MS (sd_expires_ms d - send_ms) in
        let d := MkScheduled (sd_destination d) bytes (sd_deadline_ms d) (sd_expires_ms d)
                   (sd_reservations d) in
        set_phase (set_queue s q) (Sending d (saturating_add64 send_ms wait_ms))
    end.

(** One pass from the top of the loop to the next wait. *)
Definition turn (s : System) (now_ms : Z) (payload_budget : option nat) (send_ms timestamp_us : Z)
    : System :=
  let s := purge (sync_generation s) now_ms in
  let idle s := set_phase s (Waiting (next_wake_ms (scheduler s))) in
  match next_wake_ms (scheduler s) with
  | Some wake =>
      if wake <=? now_ms then
        match payload_budget with
        | None => set_phase s Backoff
        | Some budget =>
            let '(sch, res) := pop_due (scheduler s) now_ms budget in
            let s := MkSystem (queue s) sch (sys_generation s) (seen s) (seed s) (phase s)
                       (next_permit s) in
            match res with
            | Ok (Some d) => start_send s d send_ms timestamp_us
            | Ok None => idle s
            | Err _ => set_phase (set_queue s (drop_datagram (queue s) false false)) Top
            end
        end
      else idle s
  | None => idle s
  end.

(** What a poll of the socket's send reports. *)
Inductive Poll := PollPending | PollSent | PollFailed.

(** A poll of the guarded send: the socket is polled only under the worker's
    generation and before the send deadline. *)
Definition poll_send (s : System) (d : ScheduledDatagram) (send_deadline now_ms : Z) (p : Poll)
    : option Poll :=
  match with_generation (queue s) (sys_generation s)
          (fun _ => if send_deadline <=? now_ms then None else Some p) with
  | Some r => r
  | None => None
  end.

(** Receipt of queued work. *)
Definition accept_item (s : System) (item : QueuedIntent) (rest : list QueuedIntent) (now_ms : Z)
    : System :=
  let s := sync_generation (set_queue s (set_channel (queue s) rest)) in
  if negb (qi_generation item =? sys_generation s) then set_phase s Top
  else if qi_expires_ms item <=? now_ms
  then set_phase (set_queue s (count_expired (queue s) 1)) Top
  else set_phase (MkSystem (queue s) (enqueue (scheduler s) item now_ms) (sys_generation s) (seen s)
                    (seed s) (phase s) (next_permit s)) Top.

(** The worker returned: its receiver and its scheduler are gone. *)
Definition stop_worker (s : System) : System :=
  let q := queue s in
  MkSystem (MkQueue (generation q) (version q) [] (capacity q) false (budget_bytes q) (counters q)
              (totals q))
    (scheduler_new (seed s)) (sys_generation s) (seen s) (seed s) Stopped (next_permit s).

Definition mark_seen (s : System) : System :=
  MkSystem (queue s) (scheduler s) (sys_generation s) (version (queue s)) (seed s) Top (next_permit s).

Definition finish_send (s : System) (q : OutputQueue) : System := set_phase (set_queue s q) Top.

(** * The machine *)

Inductive Label :=
| Tau
| Queued (q : QueuedIntent)
| Sent (now_ms : Z) (d : ScheduledDatagram).

Inductive sender_step (s : System) : Label -> System -> Prop :=
| step_submit a intent now_ms s' queued :
    sys_submit s a intent now_ms = (s', queued) ->
    sender_step s (match queued with Some q => Queued q | None => Tau end) s'
| step_invalidate : sender_step s Tau (set_queue s (invalidate (queue s)))
| step_log now_ms : sender_step s Tau (set_queue s (fst (log_losses (queue s) now_ms)))
| step_stop : sender_step s Tau (stop_worker s)
| step_turn now_ms payload_budget send_ms timestamp_us :
    phase s = Top -> now_ms <= send_ms ->
    sender_step s Tau (turn s now_ms payload_budget send_ms timestamp_us)
| step_retry : phase s = Backoff -> sender_step s Tau (set_phase s Top)
| step_changed_backoff : phase s = Backoff -> seen s <> version (queue s) ->
    sender_step s Tau (mark_seen s)
| step_abandon d t : phase s = Sending d t -> seen s <> version (queue s) ->
    sender_step s Tau (mark_seen s)
| step_timeout d t now_ms : phase s = Sending d t -> t <= now_ms ->
    sender_step s Tau (finish_send s (drop_datagram (queue s) (sd_expires_ms d <=? now_ms) true))
| step_poll_refused d t now_ms p after_ms : phase s = Sending d t ->
    poll_send s d t now_ms p = None -> now_ms <= after_ms ->
    sender_step s Tau (finish_send s (drop_datagram (queue s) (sd_expires_ms d <=? after_ms) true))
| step_poll_failed d t now_ms : phase s = Sending d t ->
    poll_send s d t now_ms PollFailed = Some PollFailed ->
    sender_step s Tau (finish_send s (drop_datagram (queue s) false false))
| step_poll_sent d t now_ms : phase s = Sending d t ->
    poll_send s d t now_ms PollSent = Some PollSent ->
    sender_step s (Sent now_ms d) (finish_send s (queue s))
| step_wake w t : phase s = Waiting (Some w) -> w <= t -> sender_step s Tau (set_phase s Top)
| step_changed w : phase s = Waiting w -> seen s <> version (queue s) ->
    sender_step s Tau (mark_seen s)
| step_receive w item rest now_ms : phase s = Waiting w -> channel (queue s) = item :: rest ->
    sender_step s Tau (accept_item s item rest now_ms).

(** Runs from a new sender: the intents that were queued so far, the state. *)
Inductive sender_run (cap : nat) (budget sd : Z) (t : OutputCounters)
    : list QueuedIntent -> System -> Prop :=
| run_start : sender_run cap budget sd t [] (sender_new cap budget sd t)
| run_step log s l s' :
    sender_run cap budget sd t log s -> sender_step s l s' ->
    sender_run cap budget sd t (match l with Queued q => log ++ [q] | _ => log end) s'.
End Sender.
