(* ===== verification/SchedulerSpec.v ===== *)
(** Lemmas on the output scheduler: what a batch and a datagram stem from, and
    what each operation does to them and to the permits they hold. *)
From S2P Require Import Prelude Net Model Wire WireEncode Api Scheduler Sender.
Local Open Scope Z_scope.

(** * Lists *)

Lemma update_first_Some {A} (p : A -> bool) f l l' : update_first p f l = Some l' ->
  exists l1 a l2, l = l1 ++ a :: l2 /\ l' = l1 ++ f a :: l2 /\ p a = true.
Proof.
  revert l'. induction l as [|a l IH]; intros l' H; simpl in H; [done|]. destruct (p a) eqn:E.
  - injection H as <-. by exists [], a, l.
  - apply bind_Some in H as (k & Hk & [= <-]). destruct (IH k Hk) as (l1 & b & l2 & -> & -> & Hb).
    by exists (a :: l1), b, l2.
Qed.

Lemma update_first_None {A} (p : A -> bool) f l : update_first p f l = None ->
  Forall (fun a => p a = false) l.
Proof.
  induction l as [|a l IH]; simpl; [done|]. destruct (p a) eqn:E; [done|].
  destruct (update_first p f l); [done|]. intros _. constructor; auto.
Qed.

Lemma min_list_le l m a : min_list l = Some m -> a ∈ l -> m <= a.
Proof.
  destruct l as [|b l]; [done|]. intros [= <-].
  enough (forall b, fold_left Z.min l b <= b /\ forall a, a ∈ l -> fold_left Z.min l b <= a) as H.
  { destruct (H b) as [H1 H2]. intros [->|Ha]%elem_of_cons; auto. }
  clear. induction l as [|c l IH]; intros b; simpl; [split; [lia|set_solver]|].
  destruct (IH (Z.min b c)) as [H1 H2]. split; [lia|]. intros a [->|Ha]%elem_of_cons; [lia|auto].
Qed.

Lemma min_list_in l m : min_list l = Some m -> m ∈ l.
Proof.
  destruct l as [|b l]; [done|]. intros [= <-]. revert b. induction l as [|c l IH]; intros b; simpl; [set_solver|].
  specialize (IH (Z.min b c)). apply elem_of_cons in IH as [->|IH]; [|set_solver].
  destruct (Z.min_spec b c) as [[_ ->]|[_ ->]]; set_solver.
Qed.

Lemma min_list_None l : min_list l = None -> l = [].
Proof. by destruct l. Qed.

Section Spec.
Context {NL : IpNetLib}.

(** * Provenance *)

Definition intent_tlvs (q : QueuedIntent) : list OutboundTlv := out_tlvs (it_packet (qi_intent q)).

(** The intents [qs], queued under generation [g] for one destination, hold
    the permits [res]; nothing about them is due later than stated. *)
Record from_intents (log : list QueuedIntent) (g : Z) (qs : list QueuedIntent) (dest : IpAddr)
    (deadline expires : Z) (res : list Permit) : Prop := {
  fi_some : qs <> [];
  fi_each : Forall (fun q => q ∈ log /\ it_destination (qi_intent q) = dest /\ qi_generation q = g /\
              deadline <= deadline_ms (it_timing (qi_intent q)) /\ expires <= qi_expires_ms q) qs;
  fi_permits : res = map qi_reservation qs
}.

Definition batch_ok (log : list QueuedIntent) (g : Z) (b : PendingBatch) : Prop :=
  exists qs, from_intents log g qs (pb_destination b) (pb_deadline_ms b) (pb_expires_ms b)
               (pb_reservations b) /\ pb_tlvs b = concat (map intent_tlvs qs).

(** The bytes are one of the packets the TLVs of the intents encode to. *)
Definition encoded (qs : list QueuedIntent) (bytes : list byte) : Prop :=
  exists budget packets,
    encode_packets (MkOutboundPacket (concat (map intent_tlvs qs))) budget = Ok packets /\ bytes ∈ packets.

Definition ready_ok (log : list QueuedIntent) (g : Z) (d : ReadyDatagram) : Prop :=
  exists qs, from_intents log g qs (rd_destination d) (rd_deadline_ms d) (rd_expires_ms d)
               (rd_reservations d) /\ encoded qs (rd_bytes d).

Definition datagram_ok (log : list QueuedIntent) (g : Z) (d : ScheduledDatagram) : Prop :=
  exists qs, from_intents log g qs (sd_destination d) (sd_deadline_ms d) (sd_expires_ms d)
               (sd_reservations d) /\ encoded qs (sd_bytes d).

Record sched_ok (log : list QueuedIntent) (g : Z) (s : OutputScheduler) : Prop := {
  so_pending : Forall (batch_ok log g) (pending s);
  so_ready : Forall (ready_ok log g) (ready s);
  so_single : NoDup (map pb_destination (pending s))
}.

Lemma from_intents_log log log' g qs dest dl ex res :
  (forall q, q ∈ log -> q ∈ log') -> from_intents log g qs dest dl ex res ->
  from_intents log' g qs dest dl ex res.
Proof.
  intros Hl [H1 H2 H3]. split; [done| |done]. eapply Forall_impl; [|exact H2]. naive_solver.
Qed.

Lemma sched_ok_log log log' g s : (forall q, q ∈ log -> q ∈ log') -> sched_ok log g s -> sched_ok log' g s.
Proof.
  intros Hl [H1 H2 H3]. split; [| |done].
  - eapply Forall_impl; [|exact H1]. intros b (qs & Hq & ?). exists qs. eauto using from_intents_log.
  - eapply Forall_impl; [|exact H2]. intros b (qs & Hq & ?). exists qs. eauto using from_intents_log.
Qed.

Lemma scheduler_new_ok log g sd : sched_ok log g (scheduler_new sd).
Proof. split; constructor. Qed.

(** * Operations *)

Lemma merge_ok log g b queued release :
  batch_ok log g b -> queued ∈ log -> qi_generation queued = g ->
  pb_destination b = it_destination (qi_intent queued) -> batch_ok log g (merge_intent queued release b).
Proof.
  intros (qs & [H1 H2 H3] & Ht) Hin Hg Hd. exists (qs ++ [queued]). split.
  - split; simpl; [by destruct qs| |by rewrite map_app, H3].
    apply Forall_app. split; [|apply Forall_singleton; split_and!; try done; lia].
    eapply Forall_impl; [|exact H2]. simpl. intros q (? & ? & ? & ? & ?). split_and!; try done; lia.
  - simpl. by rewrite map_app, concat_app, Ht; simpl; rewrite app_nil_r.
Qed.

Lemma enqueue_ok log g s queued now :
  sched_ok log g s -> queued ∈ log -> qi_generation queued = g -> sched_ok log g (enqueue s queued now).
Proof.
  intros [Hp Hr Hs] Hin Hg. unfold enqueue. destruct (bounded _ _) as [delay rnd].
  set (release := saturating_add64 now delay). destruct (update_first _ _ _) as [l'|] eqn:E; split; simpl; try done.
  - apply update_first_Some in E as (l1 & b & l2 & Hl & -> & Hb%bool_decide_eq_true). rewrite Hl in Hp.
    apply Forall_app in Hp as [Hp1 [Hb' Hp2]%list.Forall_cons]. apply Forall_app. split; [done|].
    apply list.Forall_cons. split; [by apply merge_ok|done].
  - apply update_first_Some in E as (l1 & b & l2 & Hl & -> & _). rewrite Hl in Hs.
    rewrite map_app in *. done.
  - apply Forall_app. split; [done|]. apply Forall_singleton. exists [queued]. split.
    + split; [done| |done]. apply Forall_singleton. split_and!; try done; simpl; lia.
    + simpl. by rewrite app_nil_r.
  - apply update_first_None in E. rewrite map_app. apply list.NoDup_app. split; [done|]. split; [|apply list.NoDup_singleton].
    intros d Hd ->%list_elem_of_singleton. apply list_elem_of_fmap in Hd as (b & Hd & Hb).
    rewrite list.Forall_forall in E. specialize (E b Hb). simpl in E. by rewrite bool_decide_true in E.
Qed.

Lemma NoDup_map_filter {A B} (f : A -> B) (p : A -> bool) l :
  NoDup (map f l) -> NoDup (map f (List.filter p l)).
Proof.
  induction l as [|a l IH]; simpl; [done|]. intros [Ha Hl]%list.NoDup_cons.
  destruct (p a); [|auto]. simpl. apply list.NoDup_cons. split; [|auto].
  intros (x & E & [Hx _]%elem_of_filter_bool)%list_elem_of_fmap. apply Ha.
  apply list_elem_of_fmap. eauto.
Qed.

Lemma Forall_filter_bool {A} (P : A -> Prop) (p : A -> bool) l : Forall P l -> Forall P (List.filter p l).
Proof. rewrite !list.Forall_forall. intros H a [Ha _]%elem_of_filter_bool. auto. Qed.

Lemma expire_ok log g s now : sched_ok log g s -> sched_ok log g (expire s now).1.
Proof.
  intros [H1 H2 H3]. split; simpl; [by apply Forall_filter_bool..|by apply NoDup_map_filter].
Qed.

Definition permits_in (l : list Permit) (k : list Permit) : Prop := forall p, p ∈ l -> p ∈ k.

Lemma concat_map_permits {A} (f : A -> list Permit) l p :
  p ∈ concat (map f l) <-> exists a, a ∈ l /\ p ∈ f a.
Proof.
  induction l as [|a l IH]; simpl; [set_solver|]. rewrite elem_of_app, IH. setoid_rewrite elem_of_cons.
  naive_solver.
Qed.

Lemma elem_of_scheduler_permits s p : p ∈ scheduler_permits s <->
  (exists b, b ∈ pending s /\ p ∈ pb_reservations b) \/ (exists d, d ∈ ready s /\ p ∈ rd_reservations d).
Proof. unfold scheduler_permits. by rewrite elem_of_app, !concat_map_permits. Qed.

Lemma expire_permits s now : permits_in (scheduler_permits (expire s now).1) (scheduler_permits s).
Proof.
  intros p. rewrite !elem_of_scheduler_permits. simpl. setoid_rewrite elem_of_filter_bool. naive_solver.
Qed.

Lemma expire_live s now : Forall (fun b => now < pb_expires_ms b) (pending (expire s now).1) /\
  Forall (fun d => now < rd_expires_ms d) (ready (expire s now).1).
Proof.
  rewrite !list.Forall_forall. simpl. split.
  - intros b [_ H]%elem_of_filter_bool. apply negb_true_iff, Z.leb_gt in H. done.
  - intros d [_ H]%elem_of_filter_bool. by apply Z.ltb_lt in H.
Qed.

(** The outcome of the packetizer loop: what is not due stays, in order;
    what becomes ready stems from batches that were pending. *)
Record packetized (now : Z) (budget : nat) (rest : list PendingBatch) (kept' : list PendingBatch)
    (new : list ReadyDatagram) (res : result WireError unit) : Prop := {
  pz_sub : kept' `sublist_of` rest;
  pz_done : res = Ok tt -> Forall (fun b => due b now = false) kept';
  pz_new : forall d, d ∈ new -> exists b packets, b ∈ rest /\
             encode_packets (MkOutboundPacket (pb_tlvs b)) budget = Ok packets /\
             exists bytes, bytes ∈ packets /\ d = ready_of b bytes
}.

Lemma packetize_loop_spec now budget rest : forall kept rdy kept' rdy' res,
  packetize_loop now budget kept rest rdy = ((kept', rdy'), res) ->
  exists k new, kept' = kept ++ k /\ rdy' = rdy ++ new /\ packetized now budget rest k new res.
Proof.
  induction rest as [|b rest IH]; intros kept rdy kept' rdy' res H; simpl in H.
  { injection H as <- <- <-. exists [], []. rewrite !app_nil_r. split_and!; try done.
    split; [done|done|set_solver]. }
  destruct (due b now) eqn:Hd; simpl in H.
  - destruct (encode_packets _ budget) as [packets|x] eqn:He.
    + apply IH in H as (k & new & -> & -> & [H1 H2 H3]). exists k, (map (ready_of b) packets ++ new).
      rewrite app_assoc. split_and!; try done. split; [by apply sublist_cons|done|].
      intros d [Hd'|Hd']%elem_of_app.
      * apply list_elem_of_fmap in Hd' as (bytes & -> & Hb). exists b, packets. split; [set_solver|]. eauto.
      * destruct (H3 d Hd') as (b' & ps & ? & ?). exists b', ps. split; [set_solver|done].
    + injection H as <- <- <-. exists rest, []. rewrite app_nil_r. split_and!; try done.
      split; [by apply sublist_cons|done|set_solver].
  - apply IH in H as (k & new & -> & -> & [H1 H2 H3]). exists (b :: k), new. rewrite <- app_assoc.
    split_and!; try done. split; [by apply sublist_skip| |].
    + intros Hr. constructor; auto.
    + intros d Hd'. destruct (H3 d Hd') as (b' & ps & ? & ?). exists b', ps. split; [set_solver|done].
Qed.

Lemma packetize_due_spec s now budget s' res : packetize_due s now budget = (s', res) ->
  exists new, ready s' = ready s ++ new /\ packetized now budget (pending s) (pending s') new res /\
    next_send_ms s' = next_send_ms s /\ pacing_ms s' = pacing_ms s.
Proof.
  unfold packetize_due. destruct (packetize_loop _ _ _ _ _) as [[p r] x] eqn:E.
  intros [= <- <-]. apply packetize_loop_spec in E as (k & new & -> & -> & H). exists new. done.
Qed.

Lemma batch_ready_ok log g b budget packets bytes :
  batch_ok log g b -> encode_packets (MkOutboundPacket (pb_tlvs b)) budget = Ok packets ->
  bytes ∈ packets -> ready_ok log g (ready_of b bytes).
Proof.
  intros (qs & Hq & Ht) He Hb. exists qs. split; [done|]. exists budget, packets. by rewrite <- Ht.
Qed.

Lemma packetize_due_ok log g s now budget s' res : sched_ok log g s ->
  packetize_due s now budget = (s', res) -> sched_ok log g s' /\
  permits_in (scheduler_permits s') (scheduler_permits s).
Proof.
  intros [H1 H2 H3] H. apply packetize_due_spec in H as (new & Hr & [Hs _ Hn] & _ & _).
  assert (forall b, b ∈ pending s' -> b ∈ pending s) as Hsub by (intros b Hb; by eapply elem_of_sublist).
  rewrite list.Forall_forall in H1. split; [split|].
  - apply list.Forall_forall. auto.
  - rewrite Hr. apply Forall_app. split; [done|]. apply list.Forall_forall. intros d Hd.
    destruct (Hn d Hd) as (b & ps & Hb & He & bytes & Hin & ->). eapply batch_ready_ok; eauto.
  - exact (sublist_NoDup _ _ H3 (fmap_sublist _ _ _ Hs)).
  - intros p. rewrite !elem_of_scheduler_permits, Hr. setoid_rewrite elem_of_app.
    intros [(b & Hb & Hp)|(d & [Hd|Hd] & Hp)]; [eauto..|].
    destruct (Hn d Hd) as (b & ps & Hb & He & bytes & Hin & ->). eauto.
Qed.

(** The slot a datagram is sent from exists, and no other one is earlier. *)
Lemma min_slot s i at_ dl : min_by (fun x y => cmp (snd x) (snd y)) (send_slots s) = Some (i, (at_, dl)) ->
  exists d, ready s !! i = Some d /\ at_ = Z.min (next_send_ms s) (rd_deadline_ms d) /\
    forall d', d' ∈ ready s -> at_ <= Z.min (next_send_ms s) (rd_deadline_ms d').
Proof.
  intros H. apply (min_by_least _ (fun x => fst (snd x))) in H as [Hin Hmin].
  - apply elem_of_lookup_imap in Hin as (j & d & [= -> -> ->] & Hd). exists d. split_and!; try done.
    intros d' (j' & Hd')%list_elem_of_lookup. specialize (Hmin (j', (Z.min (next_send_ms s) (rd_deadline_ms d'), rd_deadline_ms d'))).
    apply Hmin. apply elem_of_lookup_imap. eauto.
  - intros [? [a b]] [? [c d]]. unfold cmp, pair_ord, cmp, Z_ord. simpl.
    destruct (Z.compare_spec a c); try done; lia.
  - intros [? [a b]] [? [c d]]. unfold cmp, pair_ord, cmp, Z_ord. simpl.
    destruct (Z.compare_spec a c); try done; lia.
Qed.

Lemma pop_due_ok log g s now budget s' res : sched_ok log g s -> pop_due s now budget = (s', res) ->
  sched_ok log g s' /\ permits_in (scheduler_permits s') (scheduler_permits s) /\
  forall d, res = Ok (Some d) -> datagram_ok log g d /\ permits_in (sd_reservations d) (scheduler_permits s).
Proof.
  intros Hs H. unfold pop_due in H. destruct (packetize_due s now budget) as [s1 r1] eqn:E.
  destruct (packetize_due_ok _ _ _ _ _ _ _ Hs E) as [Hs1 Hp1].
  destruct r1 as [u|x]; [|by injection H as <- <-].
  destruct (min_by _ _) as [[i [at_ dl]]|] eqn:Em; [|by injection H as <- <-].
  destruct (now <? at_); [by injection H as <- <-|].
  apply min_slot in Em as (d & Hd & _ & _). rewrite Hd in H. injection H as <- <-.
  destruct Hs1 as [H1 H2 H3]. split; [split; simpl; try done|split].
  - apply Forall_app. split; [by apply Forall_take|by apply Forall_drop].
  - intros p Hp. apply Hp1. rewrite elem_of_scheduler_permits in *. destruct Hp as [?|(d' & Hd' & ?)]; [by left|].
    right. exists d'. split; [|done]. simpl in Hd'. apply elem_of_app in Hd' as [Hd'|Hd'].
    + by eapply elem_of_sublist; [|apply sublist_take].
    + by eapply elem_of_sublist; [|apply sublist_drop].
  - intros d' [= <-]. split.
    + rewrite list.Forall_forall in H2. destruct (H2 d) as (qs & ? & ?); [by eapply list_elem_of_lookup_2|].
      by exists qs.
    + intros p Hp. apply Hp1. rewrite elem_of_scheduler_permits. right. exists d. split; [|done].
      by eapply list_elem_of_lookup_2.
Qed.
End Spec.
