(* ===== verification/SenderSpec.v ===== *)
(** The invariant of the sender machine: where its contents stem from, and
    that the permits in use stay within the budget. *)
From S2P Require Import Prelude Net Model Wire WireEncode Api Scheduler Sender SchedulerSpec.
Local Open Scope Z_scope.

(** * Sums over sets of permits *)

Lemma foldr_permits_app l k :
  foldr (fun p z => permit_bytes p + z) 0 (l ++ k) =
  foldr (fun p z => permit_bytes p + z) 0 l + foldr (fun p z => permit_bytes p + z) 0 k.
Proof. induction l as [|p l IH]; simpl; lia. Qed.

Lemma foldr_permits_perm l k : l ≡ₚ k ->
  foldr (fun p z => permit_bytes p + z) 0 l = foldr (fun p z => permit_bytes p + z) 0 k.
Proof. induction 1; simpl; lia. Qed.

Lemma total_union X Y : X ## Y -> total_bytes (X ∪ Y) = total_bytes X + total_bytes Y.
Proof.
  intros H. unfold total_bytes. by rewrite <- foldr_permits_app, (foldr_permits_perm _ _ (elements_disj_union X Y H)).
Qed.

Lemma total_singleton p : total_bytes {[ p ]} = permit_bytes p.
Proof. unfold total_bytes. rewrite elements_singleton. simpl. lia. Qed.

Lemma total_nonneg X : (forall p, p ∈ X -> 0 <= permit_bytes p) -> 0 <= total_bytes X.
Proof.
  intros H. unfold total_bytes. assert (forall p, p ∈ elements X -> 0 <= permit_bytes p) as He by set_solver.
  revert He. generalize (elements X). induction l as [|p l IH]; intros He; simpl; [lia|].
  pose proof (He p ltac:(set_solver)). specialize (IH ltac:(set_solver)). lia.
Qed.

Lemma total_mono X Y : X ⊆ Y -> (forall p, p ∈ Y -> 0 <= permit_bytes p) -> total_bytes X <= total_bytes Y.
Proof.
  intros Hs Hn. rewrite (union_difference_L X Y Hs), total_union by set_solver.
  pose proof (total_nonneg (Y ∖ X) ltac:(set_solver)). lia.
Qed.

Lemma total_add X p : p ∉ X -> total_bytes ({[ p ]} ∪ X) = permit_bytes p + total_bytes X.
Proof. intros H. by rewrite total_union, total_singleton by set_solver. Qed.

Section Spec.
Context {NL : IpNetLib}.

(** Charges are not negative: every batch costs at least its base. *)
Lemma usize_add_ge a b c : 0 <= c -> c <= u64_max -> c <= a -> 0 <= b -> c <= usize_add a b.
Proof. unfold usize_add, saturating_add64. lia. Qed.

Lemma usize_mul_nonneg a b : 0 <= a -> 0 <= b -> 0 <= usize_mul a b.
Proof. unfold usize_mul, saturating_mul64, u64_max. nia. Qed.

Lemma packet_charge_base a p : 1024 <= packet_charge a p.
Proof.
  assert (forall z n, 1024 <= z -> 0 <= n -> 1024 <= usize_add z n) as Hadd.
  { intros. apply usize_add_ge; try lia. unfold u64_max. lia. }
  assert (forall subs z, 1024 <= z -> 1024 <= fold_left (charge_sub a) subs z) as Hsub.
  { induction subs as [|x subs IH]; intros z Hz; simpl; [done|]. apply IH. unfold charge_sub.
    destruct x; try done; apply Hadd; try done; apply usize_mul_nonneg; lia. }
  unfold packet_charge. set (z := usize_add 1024 _).
  assert (1024 <= z) as Hz by (apply Hadd; [lia|apply usize_mul_nonneg; [apply usize_mul_nonneg|]; lia]).
  clearbody z. revert z Hz. induction (out_tlvs p) as [|t l IH]; intros z Hz; simpl; [done|]. apply IH.
  unfold charge_tlv. pose proof (Hadd z 512 Hz ltac:(lia)) as H5.
  destruct t; simpl; try done; try (apply Hadd; [done|apply usize_mul_nonneg; lia]);
    apply Hsub, Hadd; try done; apply usize_mul_nonneg; try lia; apply usize_mul_nonneg; lia.
Qed.

Definition sending_ok (log : list QueuedIntent) (g : Z) (d : ScheduledDatagram) (t : Z) : Prop :=
  exists raw timestamp, datagram_ok log g (MkScheduled (sd_destination d) raw (sd_deadline_ms d)
      (sd_expires_ms d) (sd_reservations d)) /\
    stamp_hello_timestamps raw timestamp = (sd_bytes d, Ok tt) /\ t <= sd_expires_ms d.

Definition phase_ok (log : list QueuedIntent) (g : Z) (ph : Phase) : Prop :=
  match ph with Sending d t => sending_ok log g d t | _ => True end.

(** Expiration follows submission and deadline by the grace period. *)
Definition expiry_ok (q : QueuedIntent) : Prop :=
  exists submitted_ms, qi_expires_ms q =
    saturating_add64 (Z.max (deadline_ms (it_timing (qi_intent q))) submitted_ms) OUTPUT_EXPIRY_GRACE_MS.

Record sys_inv (budget : Z) (log : list QueuedIntent) (s : System) : Prop := {
  si_channel : forall q, q ∈ channel (queue s) -> q ∈ log;
  si_sched : sched_ok log (sys_generation s) (scheduler s);
  si_phase : phase_ok log (sys_generation s) (phase s);
  si_log : forall q, q ∈ log -> (permit_id (qi_reservation q) < next_permit s)%nat /\
             0 <= permit_bytes (qi_reservation q) /\ expiry_ok q;
  si_used : used_bytes s <= budget;
  si_budget : budget_bytes (queue s) = budget
}.

Lemma from_intents_permits log g qs dest dl ex res p :
  from_intents log g qs dest dl ex res -> p ∈ res -> exists q, q ∈ log /\ p = qi_reservation q.
Proof.
  intros [_ H ->] (q & -> & Hq)%list_elem_of_fmap. rewrite list.Forall_forall in H.
  destruct (H q Hq). eauto.
Qed.

Lemma held_permits s p : p ∈ held s <->
  (exists q, q ∈ channel (queue s) /\ p = qi_reservation q) \/
  p ∈ scheduler_permits (scheduler s) \/ p ∈ phase_permits (phase s).
Proof.
  unfold held. rewrite elem_of_list_to_set, !elem_of_app, list_elem_of_fmap. naive_solver.
Qed.

(** Every permit in use was granted to a queued intent. *)
Lemma held_logged budget log s p : sys_inv budget log s -> p ∈ held s ->
  exists q, q ∈ log /\ p = qi_reservation q.
Proof.
  intros [Hc [Hp Hr _] Hph _ _ _]. rewrite held_permits, elem_of_scheduler_permits.
  rewrite list.Forall_forall in Hp. rewrite list.Forall_forall in Hr.
  intros [(q & Hq & ->)|[[(b & Hb & Hin)|(d & Hd & Hin)]|Hin]].
  - eauto.
  - destruct (Hp b Hb) as (qs & Hq & _). eauto using from_intents_permits.
  - destruct (Hr d Hd) as (qs & Hq & _). eauto using from_intents_permits.
  - destruct (phase s) as [| |d t| |]; simpl in Hin; try (by apply not_elem_of_nil in Hin).
    destruct Hph as (raw & ts & (qs & Hq & _) & _). eauto using from_intents_permits.
Qed.

Lemma held_nonneg budget log s p : sys_inv budget log s -> p ∈ held s -> 0 <= permit_bytes p.
Proof. intros Hi (q & Hq & ->)%(held_logged _ _ _ _ Hi). by apply (si_log _ _ _ Hi). Qed.

(** A step that keeps the provenance and takes up no new permits. *)
Lemma sys_inv_shrink budget log s s' :
  sys_inv budget log s -> (forall q, q ∈ channel (queue s') -> q ∈ channel (queue s)) ->
  sched_ok log (sys_generation s') (scheduler s') -> phase_ok log (sys_generation s') (phase s') ->
  (next_permit s <= next_permit s')%nat -> budget_bytes (queue s') = budget_bytes (queue s) ->
  (forall p, p ∈ held s' -> p ∈ held s) -> sys_inv budget log s'.
Proof.
  intros Hi Hc Hs Hp Hn Hb Hh. destruct Hi as [C S P L U B] eqn:E. clear E. split; try done.
  - auto.
  - intros q Hq. destruct (L q Hq) as (? & ? & ?). split_and!; [lia|done..].
  - unfold used_bytes in *. etrans; [|exact U]. apply total_mono; [by intros p; apply Hh|].
    intros p. apply (held_nonneg _ _ _ _ Hi).
  - congruence.
Qed.

(** Only the counters of the queue differ. *)
Definition same_queue (q q' : OutputQueue) : Prop :=
  channel q' = channel q /\ generation q' = generation q /\ version q' = version q /\
  budget_bytes q' = budget_bytes q.

Lemma iter_drop_same n q : same_queue q (Nat.iter n (fun q => drop_datagram q true false) q).
Proof. induction n as [|n IH]; [done|]. destruct IH as (H1 & H2 & H3 & H4). simpl. done. Qed.

Lemma log_losses_same q now : same_queue q (log_losses q now).1.
Proof. unfold log_losses. by case_match. Qed.

(** A worker step: the channel lost items at most, the rest follows. *)
Lemma worker_inv budget log s q sch g v ph :
  sys_inv budget log s -> (forall x, x ∈ channel q -> x ∈ channel (queue s)) ->
  budget_bytes q = budget_bytes (queue s) -> sched_ok log g sch -> phase_ok log g ph ->
  (forall p, p ∈ scheduler_permits sch \/ p ∈ phase_permits ph -> p ∈ held s) ->
  sys_inv budget log (MkSystem q sch g v (seed s) ph (next_permit s)).
Proof.
  intros Hi Hc Hb Hs Hp Hh. eapply sys_inv_shrink; try done.
  intros p. rewrite held_permits. intros [(x & Hx & ->)|?]; [|auto].
  rewrite held_permits. left. exists x. split; [by apply Hc|done].
Qed.

Lemma held_scheduler s p : p ∈ scheduler_permits (scheduler s) -> p ∈ held s.
Proof. rewrite held_permits. auto. Qed.
Lemma held_phase s p : p ∈ phase_permits (phase s) -> p ∈ held s.
Proof. rewrite held_permits. auto. Qed.

(** Back to a phase without a datagram, with other counters. *)
Lemma idle_inv budget log s q ph : sys_inv budget log s -> same_queue (queue s) q ->
  phase_permits ph = [] -> phase_ok log (sys_generation s) ph ->
  sys_inv budget log (set_phase (set_queue s q) ph).
Proof.
  intros Hi (Hc & _ & _ & Hb) Hp Hok. apply (worker_inv _ _ s q); try done.
  - by rewrite Hc.
  - apply Hi.
  - rewrite Hp. intros p [H|H%not_elem_of_nil]; [by apply held_scheduler|done].
Qed.

Lemma sync_shape log s : sched_ok log (sys_generation s) (scheduler s) -> exists sch,
  sync_generation s = MkSystem (queue s) sch (generation (queue s)) (version (queue s)) (seed s) (phase s)
                        (next_permit s) /\
  sched_ok log (generation (queue s)) sch /\ permits_in (scheduler_permits sch) (scheduler_permits (scheduler s)).
Proof.
  intros Hs. unfold sync_generation. destruct (Z.eqb_spec (sys_generation s) (generation (queue s))) as [E|_].
  - rewrite <- E. exists (scheduler s). by split_and!.
  - exists (scheduler_new (seed s)). split_and!; [done|apply scheduler_new_ok|by intros p ?%not_elem_of_nil].
Qed.

Lemma sync_inv budget log s : sys_inv budget log s -> phase_permits (phase s) = [] ->
  (forall g, phase_ok log g (phase s)) -> sys_inv budget log (sync_generation s).
Proof.
  intros Hi Hp Hok. destruct (sync_shape log s (si_sched _ _ _ Hi)) as (sch & -> & Hs & Hsub).
  apply worker_inv; try done. rewrite Hp. intros p [?|?%not_elem_of_nil]; [|done].
  by apply held_scheduler, Hsub.
Qed.

Lemma purge_inv budget log s now : sys_inv budget log s -> phase_ok log (sys_generation s) (phase s) ->
  sys_inv budget log (purge s now).
Proof.
  intros Hi Hok. unfold purge. destruct (expire (scheduler s) now) as [sch [b d]] eqn:E.
  pose proof (expire_ok log (sys_generation s) (scheduler s) now (si_sched _ _ _ Hi)) as Hs.
  pose proof (expire_permits (scheduler s) now) as Hp. rewrite E in Hs, Hp. simpl in *.
  destruct (iter_drop_same (Z.to_nat d) (count_expired (queue s) b)) as (Hc & _ & _ & Hb).
  apply worker_inv; try done.
  - by rewrite Hc.
  - intros p [H|H]; [by apply held_scheduler, Hp|by apply held_phase].
Qed.

(** The worker after it took a datagram from the scheduler. *)
Lemma start_send_inv budget log s sch d send_ms ts :
  sys_inv budget log s -> sched_ok log (sys_generation s) sch ->
  (forall p, p ∈ scheduler_permits sch -> p ∈ held s) ->
  datagram_ok log (sys_generation s) d -> (forall p, p ∈ sd_reservations d -> p ∈ held s) ->
  sys_inv budget log
    (start_send (MkSystem (queue s) sch (sys_generation s) (seen s) (seed s) (phase s) (next_permit s))
       d send_ms ts).
Proof.
  intros Hi Hs Hsp Hd Hh.
  assert (forall q ph, same_queue (queue s) q -> phase_ok log (sys_generation s) ph ->
    (forall p, p ∈ phase_permits ph -> p ∈ held s) ->
    sys_inv budget log (MkSystem q sch (sys_generation s) (seen s) (seed s) ph (next_permit s))) as Hw.
  { intros q ph (Hc & _ & _ & Hb) Hok Hp. apply worker_inv; try done; [by rewrite Hc|].
    intros p [?|?]; auto. }
  unfold start_send. cbn [queue]. destruct (Z.leb_spec (sd_expires_ms d) send_ms) as [|Hlt].
  { apply Hw; [done|done|]. simpl. by intros p ?%not_elem_of_nil. }
  assert (exists q, (if sd_deadline_ms d <? send_ms then missed_deadline (queue s) else queue s) = q /\
    same_queue (queue s) q) as (q & -> & Hq)
    by (destruct (_ <? _); by eexists).
  destruct (stamp_hello_timestamps (sd_bytes d) ts) as [bytes [[]|x]] eqn:Es.
  - apply Hw; [done| |exact Hh]. exists (sd_bytes d), ts. split; [by destruct d|]. split; [done|]. simpl.
    unfold saturating_add64, SEND_TIMEOUT_MS. lia.
  - apply Hw; [|done|simpl; by intros p ?%not_elem_of_nil].
    destruct Hq as (H1 & H2 & H3 & H4). by repeat split.
Qed.

Lemma set_phase_inv budget log s ph : sys_inv budget log s -> phase_permits ph = [] ->
  (forall g, phase_ok log g ph) -> sys_inv budget log (set_phase s ph).
Proof. intros Hi Hp Hok. apply (idle_inv _ _ s (queue s)); try done. Qed.

Lemma turn_inv budget log s now pb send_ms ts : sys_inv budget log s -> phase s = Top ->
  sys_inv budget log (turn s now pb send_ms ts).
Proof.
  intros Hi Hph. unfold turn.
  assert (sys_inv budget log (purge (sync_generation s) now)) as Hi1.
  { assert (phase (sync_generation s) = Top) as Hp by (unfold sync_generation; case_match; done).
    apply purge_inv; [apply sync_inv; rewrite ?Hph; done|by rewrite Hp]. }
  set (s1 := purge (sync_generation s) now) in *. clearbody s1.
  destruct (next_wake_ms (scheduler s1)) as [wake|]; [|by apply set_phase_inv].
  destruct (wake <=? now); [|by apply set_phase_inv]. destruct pb as [b|]; [|by apply set_phase_inv].
  destruct (pop_due (scheduler s1) now b) as [sch res] eqn:E.
  apply (pop_due_ok log (sys_generation s1)) in E as (Hs & Hp & Hd); [|apply Hi1].
  assert (forall q ph, same_queue (queue s1) q -> phase_permits ph = [] -> (forall g, phase_ok log g ph) ->
    sys_inv budget log (MkSystem q sch (sys_generation s1) (seen s1) (seed s1) ph (next_permit s1))) as Hw.
  { intros q ph (Hc & _ & _ & Hb) Hp0 Hok. apply worker_inv; try done; [by rewrite Hc|]. rewrite Hp0.
    intros p [?|?%not_elem_of_nil]; [by apply held_scheduler, Hp|done]. }
  destruct res as [[d|]|x]; [|by apply Hw..]. destruct (Hd d eq_refl) as [Hdo Hdp].
  apply start_send_inv; try done; intros p Hin; apply held_scheduler; [by apply Hp|by apply Hdp].
Qed.

Lemma enqueue_permits s item now p : p ∈ scheduler_permits (enqueue s item now) ->
  p ∈ scheduler_permits s \/ p = qi_reservation item.
Proof.
  rewrite !elem_of_scheduler_permits. unfold enqueue. destruct (bounded _ _) as [delay rnd]. cbn [pending ready].
  intros [(b & Hb & Hp)|?]; [|auto]. destruct (update_first _ _ _) as [l|] eqn:E.
  - apply update_first_Some in E as (l1 & b0 & l2 & -> & -> & _).
    apply elem_of_app in Hb as [Hb|[->|Hb]%elem_of_cons].
    + left. left. exists b. set_solver.
    + simpl in Hp. apply elem_of_app in Hp as [Hp| ->%list_elem_of_singleton]; [|auto]. left. left. exists b0.
      set_solver.
    + left. left. exists b. set_solver.
  - apply elem_of_app in Hb as [Hb| ->%list_elem_of_singleton]; [eauto|].
    simpl in Hp. apply list_elem_of_singleton in Hp as ->. auto.
Qed.

Lemma accept_inv budget log s item rest now : sys_inv budget log s ->
  channel (queue s) = item :: rest -> sys_inv budget log (accept_item s item rest now).
Proof.
  intros Hi Hc. unfold accept_item.
  assert (item ∈ log) as Hin by (apply (si_channel _ _ _ Hi); rewrite Hc; constructor).
  set (s0 := set_queue s (set_channel (queue s) rest)).
  destruct (sync_shape log s0 (si_sched _ _ _ Hi)) as (sch & -> & Hs & Hsub).
  assert (forall q sch', same_queue (queue s0) q -> sched_ok log (generation (queue s0)) sch' ->
    (forall p, p ∈ scheduler_permits sch' -> p ∈ scheduler_permits sch \/ p = qi_reservation item) ->
    sys_inv budget log (MkSystem q sch' (generation (queue s0)) (version (queue s0)) (seed s) Top
      (next_permit s))) as Hw.
  { intros q sch' (Hqc & _ & _ & Hqb) Hs' Hp. apply worker_inv; try done.
    - rewrite Hqc, Hc. simpl. intros x Hx. by constructor.
    - intros p [[H| ->]%Hp|?%not_elem_of_nil]; [by apply held_scheduler, Hsub| |done].
      rewrite held_permits. left. exists item. rewrite Hc. split; [constructor|done]. }
  cbn [sys_generation].
  destruct (Z.eqb_spec (qi_generation item) (generation (queue s0))) as [Hg|]; simpl; [|by apply Hw; auto].
  destruct (qi_expires_ms item <=? now); [by apply Hw; auto|].
  apply (Hw (queue s0) (enqueue sch item now)); [done|by apply enqueue_ok|]. apply enqueue_permits.
Qed.

Lemma submit_inv budget log s a intent now s' queued : sys_inv budget log s ->
  sys_submit s a intent now = (s', queued) ->
  sys_inv budget (match queued with Some q => log ++ [q] | None => log end) s'.
Proof.
  intros Hi. unfold sys_submit, submit.
  set (charge := packet_charge a (it_packet intent)).
  assert (forall q, same_queue (queue s) q -> sys_inv budget log
    (MkSystem q (scheduler s) (sys_generation s) (seen s) (seed s) (phase s) (S (next_permit s)))) as Hrej.
  { intros q (Hc & _ & _ & Hb). eapply sys_inv_shrink; [exact Hi|..]; simpl.
    - by rewrite Hc.
    - apply Hi.
    - apply Hi.
    - lia.
    - done.
    - intros p. rewrite !held_permits. simpl. by rewrite Hc. }
  destruct (Z.leb_spec charge u32_max); simpl; [|intros [= <- <-]; by apply Hrej].
  destruct (Z.leb_spec charge (available_permits s)) as [Hav|]; [|intros [= <- <-]; by apply Hrej].
  destruct (open (queue s) && _); intros [= <- <-]; [|by apply Hrej].
  set (qd := queued_intent (queue s) intent now (MkPermit (next_permit s) charge)).
  assert (0 <= charge) as Hpos by (pose proof (packet_charge_base a (it_packet intent)); lia).
  assert (qi_reservation qd ∉ held s) as Hfresh.
  { intros (q & Hq & E)%(held_logged _ _ _ _ Hi). destruct (si_log _ _ _ Hi q Hq) as [Hid _].
    rewrite <- E in Hid. simpl in Hid. lia. }
  destruct Hi as [C S P L U B] eqn:EI. clear EI. split; cbn [queue scheduler sys_generation phase next_permit].
  - intros q. simpl. rewrite !elem_of_app. intros [?|?]; [left; auto|by right].
  - eapply sched_ok_log; [|exact S]. intros q. rewrite elem_of_app. auto.
  - destruct (phase s); try done. destruct P as (raw & ts & (qs & Hq & He) & Hst & Ht). exists raw, ts.
    split; [|done]. exists qs. split; [|done]. eapply from_intents_log; [|exact Hq].
    intros q. rewrite elem_of_app. auto.
  - intros q. rewrite elem_of_app, list_elem_of_singleton. intros [Hq| ->].
    + destruct (L q Hq) as (? & ? & ?). split_and!; [lia|done..].
    + simpl. split_and!; [lia|done|]. by exists now.
  - unfold used_bytes, available_permits in *.
    replace (held _) with ({[ qi_reservation qd ]} ∪ held s).
    + rewrite total_add by done. simpl. unfold used_bytes in Hav. lia.
    + apply set_eq. intros p. rewrite elem_of_union, elem_of_singleton, !held_permits. simpl.
      setoid_rewrite elem_of_app. setoid_rewrite list_elem_of_singleton. naive_solver.
  - done.
Qed.
End Spec.
