(* ===== verification/SenderTheorems.v ===== *)
(** Properties of the output of an interface: the byte budget, what is sent
    and until when, the wake-up times of the scheduler and its jitter. *)
From S2P Require Import Prelude Net Model Wire WireEncode Api Scheduler Sender SchedulerSpec SenderSpec.
Local Open Scope Z_scope.

Section Theorems.
Context {NL : IpNetLib}.

(** * The machine *)

Lemma mark_seen_inv budget log s : sys_inv budget log s -> sys_inv budget log (mark_seen s).
Proof.
  intros Hi. apply worker_inv; try done; [apply Hi|].
  intros p [?|?%not_elem_of_nil]; [by apply held_scheduler|done].
Qed.

Lemma queue_inv budget log s q : sys_inv budget log s -> channel q = channel (queue s) ->
  budget_bytes q = budget_bytes (queue s) -> sys_inv budget log (set_queue s q).
Proof.
  intros Hi Hc Hb. apply worker_inv; try done; [by rewrite Hc|apply Hi|apply Hi|].
  intros p [?|?]; [by apply held_scheduler|by apply held_phase].
Qed.

Lemma finish_inv budget log s e t : sys_inv budget log s ->
  sys_inv budget log (finish_send s (drop_datagram (queue s) e t)).
Proof. intros Hi. by apply idle_inv. Qed.

Lemma stop_inv budget log s : sys_inv budget log s -> sys_inv budget log (stop_worker s).
Proof.
  intros Hi. apply worker_inv; try done; [simpl; set_solver|apply scheduler_new_ok|].
  intros p [?%not_elem_of_nil|?%not_elem_of_nil]; done.
Qed.

Lemma step_inv budget log s l s' : sys_inv budget log s -> sender_step s l s' ->
  sys_inv budget (match l with Queued q => log ++ [q] | _ => log end) s'.
Proof.
  intros Hi. destruct 1 as [a intent now s' queued H| |now| |now pb sm ts Hp _|Hp|Hp _|d t Hp _|d t now Hp _|
    d t now p after Hp _ _|d t now Hp _|d t now Hp _|w t Hp _|w Hp _|w item rest now Hp Hc].
  - apply (submit_inv _ _ _ _ _ _ _ _ Hi) in H. by destruct queued.
  - by apply queue_inv.
  - destruct (log_losses_same (queue s) now) as (H1 & _ & _ & H4). by apply queue_inv.
  - by apply stop_inv.
  - by apply turn_inv.
  - by apply set_phase_inv.
  - by apply mark_seen_inv.
  - by apply mark_seen_inv.
  - by apply finish_inv.
  - by apply finish_inv.
  - by apply finish_inv.
  - by apply idle_inv.
  - by apply set_phase_inv.
  - by apply mark_seen_inv.
  - by apply accept_inv.
Qed.

Lemma run_inv cap budget sd t log s : 0 <= budget -> sender_run cap budget sd t log s ->
  sys_inv budget log s.
Proof.
  intros Hb. induction 1 as [|log s l s' _ IH Hs]; [|by eapply step_inv].
  split; simpl; try done; [apply scheduler_new_ok|by intros q ?%not_elem_of_nil].
Qed.

Lemma run_used_bounds cap budget sd t log s : 0 <= budget -> sender_run cap budget sd t log s ->
  0 <= st_used_bytes (status (queue s) (available_permits s)) <= budget.
Proof.
  intros Hb Hr. pose proof (run_inv _ _ _ _ _ _ Hb Hr) as Hi. unfold status, available_permits. simpl.
  pose proof (si_used _ _ _ Hi).
  assert (0 <= used_bytes s) by (apply total_nonneg; intros p; apply (held_nonneg _ _ _ _ Hi)). lia.
Qed.

(** The output budget of an interface is never exceeded: whatever is
    submitted, expired, sent or invalidated, in any interleaving, the permits
    held by the channel, the scheduler and the datagram in flight sum up to at
    most the budget, so that the reported usage is a number between zero and
    the budget; and a submission beyond what is left is counted as rejected. *)
Theorem output_budget_held cap budget sd t log s a intent now :
  0 <= budget -> sender_run cap budget sd t log s ->
  0 <= st_used_bytes (status (queue s) (available_permits s)) <= budget /\
  (available_permits s < packet_charge a (it_packet intent) ->
   (sys_submit s a intent now).2 = None /\
   queue (sys_submit s a intent now).1 =
     count_rejected (queue s) (Z.of_nat (length (out_tlvs (it_packet intent))))).
Proof.
  intros Hb Hr. split; [by eapply run_used_bounds|].
  intros Hlt. unfold sys_submit, submit.
  destruct (Z.leb_spec (packet_charge a (it_packet intent)) (available_permits s)); [lia|].
  by rewrite andb_false_r.
Qed.

(** C15. Whatever the interface sends was asked for: a datagram that leaves is
    one of the packets into which the TLVs of queued intents encode, in their
    order, with fresh Hello timestamps; these intents were queued for its
    destination, under the generation in force when it leaves (so none that an
    invalidation overtook), and none of them had expired, where an intent
    expires one second after its deadline or its submission. *)
Theorem sent_output_sound cap budget sd t log s now d s' :
  0 <= budget -> sender_run cap budget sd t log s -> sender_step s (Sent now d) s' ->
  exists qs raw timestamp,
    qs <> [] /\
    Forall (fun q => q ∈ log /\ it_destination (qi_intent q) = sd_destination d /\
              qi_generation q = generation (queue s) /\ now < qi_expires_ms q /\ expiry_ok q) qs /\
    encoded qs raw /\ stamp_hello_timestamps raw timestamp = (sd_bytes d, Ok tt).
Proof.
  intros Hb Hr Hs. pose proof (run_inv _ _ _ _ _ _ Hb Hr) as Hi.
  remember (Sent now d) as l eqn:El. destruct Hs as [? ? ? ? queued ?| | | | | | | | | | |d' t' now' Hp Hpoll| | |];
    try discriminate El; [by destruct queued|]. injection El as -> ->.
  unfold poll_send, with_generation in Hpoll.
  destruct (Z.eqb_spec (generation (queue s)) (sys_generation s)) as [Hg|]; [|done].
  destruct (Z.leb_spec t' now); [done|].
  pose proof (si_phase _ _ _ Hi) as Hph. rewrite Hp in Hph.
  destruct Hph as (raw & ts & (qs & [H1 H2 H3] & He) & Hst & Ht). exists qs, raw, ts. split_and!; try done.
  eapply Forall_impl; [|exact H2]. simpl. intros q (Hq & Hd & Hg' & _ & Hx). rewrite Hg.
  split_and!; try done; [lia|]. by apply (si_log _ _ _ Hi).
Qed.

(** * Wake-up times *)

Lemma next_wake_bounds s w : next_wake_ms s = Some w ->
  Forall (fun b => w <= pb_release_ms b /\ w <= pb_deadline_ms b) (pending s) /\
  Forall (fun d => w <= Z.min (next_send_ms s) (rd_deadline_ms d)) (ready s).
Proof.
  unfold next_wake_ms. intros H. rewrite !list.Forall_forall. split.
  - intros b Hb. destruct (min_list (map _ (pending s))) as [m|] eqn:E.
    + assert (m <= Z.min (pb_release_ms b) (pb_deadline_ms b)) by (eapply min_list_le; [exact E|];
        apply list_elem_of_fmap; eauto).
      assert (w <= m) by (eapply min_list_le; [exact H|]; simpl; constructor). lia.
    + apply min_list_None in E. destruct (pending s); [by apply not_elem_of_nil in Hb|done].
  - intros d Hd. destruct (min_list (map _ (ready s))) as [m|] eqn:E.
    + assert (m <= Z.min (next_send_ms s) (rd_deadline_ms d)) by (eapply min_list_le; [exact E|];
        apply list_elem_of_fmap; exists d; done).
      assert (w <= m); [|lia]. eapply min_list_le; [exact H|]. apply elem_of_app. right. simpl. constructor.
    + apply min_list_None in E. destruct (ready s); [by apply not_elem_of_nil in Hd|done].
Qed.

Lemma packetize_loop_idle now budget rest : forall kept rdy,
  Forall (fun b => due b now = false) rest ->
  packetize_loop now budget kept rest rdy = ((kept ++ rest, rdy), Ok tt).
Proof.
  induction rest as [|b rest IH]; intros kept rdy H; simpl; [by rewrite app_nil_r|].
  apply list.Forall_cons in H as [-> H]. simpl. rewrite IH by done. by rewrite <- app_assoc.
Qed.

Lemma pop_due_idle s now budget : Forall (fun b => due b now = false) (pending s) ->
  Forall (fun d => now < Z.min (next_send_ms s) (rd_deadline_ms d)) (ready s) ->
  pop_due s now budget = (s, Ok None).
Proof.
  intros Hp Hr. unfold pop_due, packetize_due. rewrite packetize_loop_idle by done. simpl.
  assert (MkScheduler (pending s) (ready s) (next_send_ms s) (pacing_ms s) (random s) = s) as -> by by destruct s.
  destruct (min_by _ (send_slots s)) as [[i [at_ dl]]|] eqn:E; [|done].
  apply min_slot in E as (d & Hd & -> & _). rewrite list.Forall_forall in Hr.
  specialize (Hr d (list_elem_of_lookup_2 _ _ _ Hd)). by destruct (Z.ltb_spec now (Z.min (next_send_ms s) (rd_deadline_ms d))); [|lia].
Qed.

Lemma next_wake_None s : next_wake_ms s = None -> pending s = [] /\ ready s = [].
Proof.
  unfold next_wake_ms. intros H%min_list_None.
  destruct (min_list (map _ (pending s))) eqn:E1; [done|]. destruct (min_list (map _ (ready s))) eqn:E2; [done|].
  apply min_list_None in E1, E2. destruct (pending s), (ready s); done.
Qed.

Lemma next_wake_above s now w : next_wake_ms s = Some w ->
  Forall (fun b => due b now = false) (pending s) ->
  Forall (fun d => now < Z.min (next_send_ms s) (rd_deadline_ms d)) (ready s) -> now < w.
Proof.
  intros H%min_list_in Hp Hr. rewrite list.Forall_forall in Hp. rewrite list.Forall_forall in Hr.
  assert (forall o : option Z, w ∈ option_list o -> o = Some w) as Ho.
  { intros [z|]; simpl; [by intros ->%list_elem_of_singleton|by intros ?%not_elem_of_nil]. }
  apply elem_of_app in H as [H%Ho%min_list_in|H%Ho%min_list_in];
    apply list_elem_of_fmap in H as (x & -> & Hx).
  - specialize (Hp x Hx). unfold due in Hp. apply orb_false_iff in Hp as [?%Z.leb_gt ?%Z.leb_gt]. lia.
  - by apply Hr.
Qed.

(** The worker sleeps neither too long nor in vain: before the announced
    wake-up time [pop_due] has nothing to do; whenever it returns nothing, the
    next wake-up time lies in the future, so that the worker does not spin; a
    datagram is released when its batch's jitter is over and pacing permits,
    or, pacing notwithstanding, at its deadline; and the next one waits for
    the pacing interval. *)
Theorem scheduler_wakes s now budget s' res :
  pop_due s now budget = (s', res) ->
  ((next_wake_ms s = None \/ exists w, next_wake_ms s = Some w /\ now < w) -> s' = s /\ res = Ok None) /\
  (res = Ok None -> forall w, next_wake_ms s' = Some w -> now < w) /\
  (forall d, res = Ok (Some d) -> (next_send_ms s <= now \/ sd_deadline_ms d <= now) /\
     next_send_ms s' = saturating_add64 now (pacing_ms s)).
Proof.
  intros H. split_and!.
  - intros Hw. assert (pop_due s now budget = (s, Ok None)) as E; [|rewrite H in E; by injection E as -> ->].
    destruct Hw as [[Hp Hr]%next_wake_None|(w & Hw%next_wake_bounds & Hlt)].
    { apply pop_due_idle; [rewrite Hp|rewrite Hr]; constructor. }
    destruct Hw as [Hp Hr]. apply pop_due_idle; (eapply Forall_impl; [|eassumption]); simpl.
    + intros b [H1 H2]. apply orb_false_iff. split; apply Z.leb_gt; lia.
    + intros d Hd. lia.
  - intros -> w Hw. unfold pop_due in H. destruct (packetize_due s now budget) as [s1 [[]|x]] eqn:E; [|done].
    apply packetize_due_spec in E as (new & _ & [_ Hd _] & _). specialize (Hd eq_refl).
    destruct (min_by _ (send_slots s1)) as [[i [at_ dl]]|] eqn:Em.
    + destruct (Z.ltb_spec now at_) as [Hlt|].
      * injection H as <-. eapply next_wake_above; [done|done|]. apply min_slot in Em as (d & _ & _ & Hmin).
        apply list.Forall_forall. intros d' Hd'. specialize (Hmin d' Hd'). lia.
      * apply min_slot in Em as (d & Hl & _). by rewrite Hl in H.
    + injection H as <-. eapply next_wake_above; [done|done|].
      destruct (ready s1) eqn:Er; [constructor|]. unfold send_slots in Em. by rewrite Er in Em.
  - intros d ->. unfold pop_due in H. destruct (packetize_due s now budget) as [s1 [[]|x]] eqn:E; [|done].
    apply packetize_due_spec in E as (new & _ & _ & Hn & Hpc).
    destruct (min_by _ (send_slots s1)) as [[i [at_ dl]]|] eqn:Em; [|done].
    destruct (Z.ltb_spec now at_) as [|Hge]; [done|].
    apply min_slot in Em as (d' & Hl & -> & _). rewrite Hl in H. injection H as <- <-. simpl.
    rewrite Hpc. split; [lia|done].
Qed.

(** * Jitter *)

Lemma lxor_u64 a b : in_u64 a -> in_u64 b -> in_u64 (Z.lxor a b).
Proof.
  unfold in_u64, u64_max. intros Ha Hb. assert (0 <= Z.lxor a b) as Hn by (apply Z.lxor_nonneg; lia).
  split; [done|]. destruct (decide (Z.lxor a b = 0)) as [->|Hz]; [lia|].
  enough (Z.lxor a b < 2 ^ 64) by lia. apply Z.log2_lt_pow2; [lia|].
  pose proof (Z.log2_lxor a b ltac:(lia) ltac:(lia)).
  assert (forall x, 0 <= x <= 18446744073709551615 -> Z.log2 x < 64) as Hlog.
  { intros x Hx. destruct (decide (x = 0)) as [->|]; [done|]. apply Z.log2_lt_pow2; lia. }
  pose proof (Hlog a Ha). pose proof (Hlog b Hb). lia.
Qed.

Lemma lxor_shiftr v k : 0 < k -> in_u64 v -> v <> 0 ->
  in_u64 (Z.lxor v (Z.shiftr v k)) /\ Z.lxor v (Z.shiftr v k) <> 0.
Proof.
  intros Hk Hv Hz. assert (Z.shiftr v k < v) as Hlt.
  { rewrite Z.shiftr_div_pow2 by lia. apply Z.div_lt; [unfold in_u64 in Hv; lia|].
    apply Z.pow_gt_1; lia. }
  assert (0 <= Z.shiftr v k) by (apply Z.shiftr_nonneg; unfold in_u64 in Hv; lia).
  split; [apply lxor_u64; unfold in_u64 in *; lia|]. intros E%Z.lxor_eq. lia.
Qed.

Lemma lxor_shiftl v : in_u64 v -> v <> 0 ->
  let w := Z.lxor v (Z.shiftl v 25 mod 18446744073709551616) in in_u64 w /\ w <> 0.
Proof.
  intros Hv Hz. cbv zeta. set (m := 18446744073709551616).
  pose proof (Z.mod_pos_bound (Z.shiftl v 25) m ltac:(lia)) as Hm.
  split; [apply lxor_u64; [done|unfold in_u64, u64_max, m in *; lia]|]. intros E%Z.lxor_eq.
  rewrite Z.shiftl_mul_pow2 in E by lia.
  assert (m | (2 ^ 25 - 1) * v) as Hdiv.
  { exists (v * 2 ^ 25 / m). pose proof (Z.div_mod (v * 2 ^ 25) m ltac:(lia)). lia. }
  apply Z.gauss in Hdiv; [|reflexivity]. destruct Hdiv as [k Hk]. unfold in_u64, u64_max, m in *. nia.
Qed.

(** The generator stays in the non-zero states. *)
Lemma xorshift_nonzero v : in_u64 v -> v <> 0 -> in_u64 (xorshift v) /\ xorshift v <> 0.
Proof.
  intros Hv Hz. unfold xorshift. destruct (lxor_shiftr v 12 ltac:(lia) Hv Hz) as [H1 H2].
  destruct (lxor_shiftl _ H1 H2) as [H3 H4]. by apply lxor_shiftr.
Qed.

Lemma bounded_range st m x st' : 0 <= m <= u64_max -> bounded st m = (x, st') -> 0 <= x <= m.
Proof.
  unfold bounded. intros Hm. destruct (Z.eqb_spec m 0) as [->|]; intros [= <- _]; [lia|].
  unfold saturating_add64. pose proof (Z.mod_pos_bound (wrapping_mul64 (xorshift st) 2685821657736338717)
    (Z.min (m + 1) u64_max) ltac:(lia)). lia.
Qed.

Lemma latest_delay_range timing now : in_u64 now -> in_u64 (deadline_ms timing) -> in_u64 (max_jitter_ms timing) ->
  0 <= latest_delay timing now <= u64_max /\ latest_delay timing now <= max_jitter_ms timing /\
  now + latest_delay timing now <= Z.max now (deadline_ms timing - DEADLINE_MARGIN_MS).
Proof. unfold in_u64, latest_delay, saturating_sub, DEADLINE_MARGIN_MS. lia. Qed.

(** Jitter keeps its promise: an intent joins the batch for its
    destination, behind what waits there, or starts a new one; the batch is
    released no later than the permitted jitter after now and, with the
    scheduling margin, before the deadline of every intent in it, and expires
    no later than any of them; nothing is released before now unless the batch
    already was; and the generator never reaches its dead state zero. *)
Theorem enqueue_jitter s queued now timing :
  timing = it_timing (qi_intent queued) ->
  in_u64 now -> in_u64 (deadline_ms timing) -> in_u64 (max_jitter_ms timing) ->
  in_u64 (random s) -> random s <> 0 ->
  let s' := enqueue s queued now in
  in_u64 (random s') /\ random s' <> 0 /\
  exists l1 old b l2, pending s = l1 ++ option_list old ++ l2 /\ pending s' = l1 ++ b :: l2 /\
    pb_destination b = it_destination (qi_intent queued) /\
    pb_tlvs b = from_option pb_tlvs [] old ++ intent_tlvs queued /\
    Z.min now (from_option pb_release_ms now old) <= pb_release_ms b /\
    pb_release_ms b <= now + max_jitter_ms timing /\
    pb_release_ms b <= Z.max now (deadline_ms timing - DEADLINE_MARGIN_MS) /\
    pb_deadline_ms b <= deadline_ms timing /\ pb_expires_ms b <= qi_expires_ms queued.
Proof.
  intros -> Hnow Hdl Hjit Hrnd Hnz. cbv zeta. unfold enqueue.
  destruct (latest_delay_range _ now Hnow Hdl Hjit) as (Hr & Hj & Hd).
  destruct (bounded (random s) (latest_delay (it_timing (qi_intent queued)) now)) as [delay rnd] eqn:E.
  pose proof (bounded_range _ _ _ _ Hr E) as Hdelay.
  assert (in_u64 rnd /\ rnd <> 0) as [? ?].
  { unfold bounded in E. destruct (_ =? 0); injection E as _ <-; [done|by apply xorshift_nonzero]. }
  do 2 (split; [done|]). cbn [pending].
  assert (now <= saturating_add64 now delay <= now + delay) as Hrel
    by (unfold saturating_add64, in_u64 in *; lia).
  destruct (update_first _ _ _) as [l|] eqn:Eu.
  - apply update_first_Some in Eu as (l1 & b & l2 & -> & -> & Hb%bool_decide_eq_true).
    exists l1, (Some b), (merge_intent queued (saturating_add64 now delay) b), l2. simpl.
    split_and!; try done; lia.
  - eexists (pending s), None, _, []. simpl. rewrite app_nil_r. split_and!; try done; simpl; lia.
Qed.
End Theorems.
