(* ===== verification/Router.v ===== *)
(** The router runtime ([router.rs], [router/runtime.rs], [export.rs]): builder
    validation, the commands a handle issues, and the loop that feeds ticks,
    packets, socket failures and commands to the engine and applies its actions
    to the output queues, the route snapshots and the status.

    What the loop reads from its surroundings are arguments: the clock at each
    reading, the addresses of an interface, the outcome of opening a socket,
    the allocation of a packet and the shared output counters.  A [None] result
    is a panic (the [expect] of [Engine::handle] on an invalid event). *)
From S2P Require Import Prelude Net Mac Model Metric Wire WireDecode Api EngineState Neighbors Engine Scheduler Sender.
Import Hello.
Local Open Scope Z_scope.

(** [output_seed]: FNV-1a over the name, from the interface index. *)
Definition output_seed (index : Z) (name : string) : Z :=
  fold_left (fun value b => wrapping_mul64 (Z.lxor value (u8 b)) 0x100000001b3)
    (String.list_byte_of_string name) (Z.lxor 0xcbf29ce484222325 index).

(** [valid_babel_source]. *)
Definition valid_babel_source (source : SocketAddr) (local : list IpAddr) : bool :=
  match source with
  | SockV6 ip port _ _ =>
      (port =? PORT) && is_unicast_link_local ip && negb (bool_decide (IpV6 ip ∈ local))
  | SockV4 _ _ => false
  end.

(** [valid_socket_source]; [on_link] is the outcome of [ipv4_on_link]. *)
Definition valid_socket_source (transport : ControlTransport) (local : list IpAddr)
    (on_link : Ipv4Addr -> bool) (source : SocketAddr) : bool :=
  match transport, source with
  | TransportIpv6, SockV6 _ _ _ _ => valid_babel_source source local
  | TransportIpv4, SockV4 ip port =>
      (port =? PORT) && negb (v4_is_unspecified ip) && negb (v4_is_multicast ip)
      && negb (v4_is_loopback ip) && negb (v4_is_broadcast ip)
      && negb (bool_decide (IpV4 ip ∈ local)) && on_link ip
  | _, _ => false
  end.

Section Router.
Context {NL : IpNetLib} {MI : MetricImpl} {HO : HashOrder} {B : Build}.

Inductive RouterError :=
| MissingRouterId
| InvalidConfig (e : ConfigError)
| DuplicateInterface (name : string)
| OpenInterface (interface : string)
| InterfaceNotFound (interface : string)
| TransportChangeRequiresReattach (interface : string)
| DuplicateOrigin (key : RouteKey)
| RouterInvalidOriginMetric
| InvalidInterfacePolicy
| RouterStopped
| InvalidShutdownTimeout.

(** * Validation *)

Definition router_validate_policy (policy : InterfacePolicy) : result RouterError unit :=
  match validate_interface_policy policy with Ok u => Ok u | Err _ => Err InvalidInterfacePolicy end.

Definition router_validate_origin (key : RouteKey) (metric : Z) : result RouterError unit :=
  match validate_origin key metric with
  | Ok u => Ok u
  | Err InvalidOriginMetric => Err RouterInvalidOriginMetric
  | Err other => Err (InvalidConfig other)
  end.

Record BabelRouterBuilder := MkBuilder {
  bd_shutdown_timeout : option Z;
  bd_router_id : option RouterId;
  bd_interfaces : list (string * option InterfacePolicy * option MacConfig);
  bd_origins : list (RouteKey * Z);
  bd_metric : MetricProfile;
  bd_metric_algebra : MetricAlgebra;
  bd_route_policy : RoutePolicy;
  bd_route_selection : option RouteSelectionConfig;
  bd_limits : ResourceLimits;
  bd_sequence_number : Z
}.

(** ** The builder's methods *)

(** [BabelRouterBuilder::default()], with the values that stand for what is never
    set; [wired] is the default metric. *)
Definition builder (wired : MetricProfile) : BabelRouterBuilder :=
  MkBuilder None None [] [] wired AdditiveMetric AllowAllRoutes None default_limits 0.

Definition with_route_policy (policy : RoutePolicy) (b : BabelRouterBuilder) : BabelRouterBuilder :=
  MkBuilder (bd_shutdown_timeout b) (bd_router_id b) (bd_interfaces b) (bd_origins b) (bd_metric b)
    (bd_metric_algebra b) policy (bd_route_selection b) (bd_limits b) (bd_sequence_number b).
Definition with_shutdown_timeout (timeout_ms : Z) (b : BabelRouterBuilder) : BabelRouterBuilder :=
  MkBuilder (Some timeout_ms) (bd_router_id b) (bd_interfaces b) (bd_origins b) (bd_metric b)
    (bd_metric_algebra b) (bd_route_policy b) (bd_route_selection b) (bd_limits b) (bd_sequence_number b).
Definition with_router_id (value : RouterId) (b : BabelRouterBuilder) : BabelRouterBuilder :=
  MkBuilder (bd_shutdown_timeout b) (Some value) (bd_interfaces b) (bd_origins b) (bd_metric b)
    (bd_metric_algebra b) (bd_route_policy b) (bd_route_selection b) (bd_limits b) (bd_sequence_number b).
(** [interface], [interface_with_policy] and [interface_with_mac] push an entry. *)
Definition push_interface (entry : string * option InterfacePolicy * option MacConfig) (b : BabelRouterBuilder)
    : BabelRouterBuilder :=
  MkBuilder (bd_shutdown_timeout b) (bd_router_id b) (bd_interfaces b ++ [entry]) (bd_origins b) (bd_metric b)
    (bd_metric_algebra b) (bd_route_policy b) (bd_route_selection b) (bd_limits b) (bd_sequence_number b).
Definition with_interface (name : string) : BabelRouterBuilder -> BabelRouterBuilder :=
  push_interface (name, None, None).
Definition interface_with_policy (name : string) (policy : InterfacePolicy)
    : BabelRouterBuilder -> BabelRouterBuilder := push_interface (name, Some policy, None).
Definition interface_with_mac (name : string) (policy : InterfacePolicy) (mac : MacConfig)
    : BabelRouterBuilder -> BabelRouterBuilder := push_interface (name, Some policy, Some mac).
Definition with_origin (key : RouteKey) (metric : Z) (b : BabelRouterBuilder) : BabelRouterBuilder :=
  MkBuilder (bd_shutdown_timeout b) (bd_router_id b) (bd_interfaces b) (bd_origins b ++ [(key, metric)]) (bd_metric b)
    (bd_metric_algebra b) (bd_route_policy b) (bd_route_selection b) (bd_limits b) (bd_sequence_number b).
Definition with_metric (value : MetricProfile) (b : BabelRouterBuilder) : BabelRouterBuilder :=
  MkBuilder (bd_shutdown_timeout b) (bd_router_id b) (bd_interfaces b) (bd_origins b) value
    (bd_metric_algebra b) (bd_route_policy b) (bd_route_selection b) (bd_limits b) (bd_sequence_number b).
Definition with_metric_algebra (value : MetricAlgebra) (b : BabelRouterBuilder) : BabelRouterBuilder :=
  MkBuilder (bd_shutdown_timeout b) (bd_router_id b) (bd_interfaces b) (bd_origins b) (bd_metric b)
    value (bd_route_policy b) (bd_route_selection b) (bd_limits b) (bd_sequence_number b).
Definition with_route_selection (value : RouteSelectionConfig) (b : BabelRouterBuilder) : BabelRouterBuilder :=
  MkBuilder (bd_shutdown_timeout b) (bd_router_id b) (bd_interfaces b) (bd_origins b) (bd_metric b)
    (bd_metric_algebra b) (bd_route_policy b) (Some value) (bd_limits b) (bd_sequence_number b).
Definition with_limits (value : ResourceLimits) (b : BabelRouterBuilder) : BabelRouterBuilder :=
  MkBuilder (bd_shutdown_timeout b) (bd_router_id b) (bd_interfaces b) (bd_origins b) (bd_metric b)
    (bd_metric_algebra b) (bd_route_policy b) (bd_route_selection b) value (bd_sequence_number b).
Definition with_sequence_number (value : Z) (b : BabelRouterBuilder) : BabelRouterBuilder :=
  MkBuilder (bd_shutdown_timeout b) (bd_router_id b) (bd_interfaces b) (bd_origins b) (bd_metric b)
    (bd_metric_algebra b) (bd_route_policy b) (bd_route_selection b) (bd_limits b) value.

Fixpoint validate_interfaces (seen : gset string)
    (l : list (string * option InterfacePolicy * option MacConfig)) : result RouterError unit :=
  match l with
  | [] => Ok tt
  | (name, policy, _) :: l' =>
      if bool_decide (name ∈ seen) then Err (DuplicateInterface name)
      else
        _ ← match policy with Some policy => router_validate_policy policy | None => Ok tt end;
        validate_interfaces ({[ name ]} ∪ seen) l'
  end.

Fixpoint validate_builder_origins (seen : gset RouteKey) (l : list (RouteKey * Z))
    : result RouterError unit :=
  match l with
  | [] => Ok tt
  | (key, metric) :: l' =>
      _ ← router_validate_origin key metric;
      if bool_decide (key ∈ seen) then Err (DuplicateOrigin key)
      else validate_builder_origins ({[ key ]} ∪ seen) l'
  end.

Definition validate_builder (b : BabelRouterBuilder) : result RouterError unit :=
  if bool_decide (bd_shutdown_timeout b = Some 0) then Err InvalidShutdownTimeout
  else
    _ ← ok_or (bd_router_id b) MissingRouterId;
    _ ← match validate_selection (default default_route_selection (bd_route_selection b)) with
        | Ok u => Ok u
        | Err e => Err (InvalidConfig e)
        end;
    _ ← validate_interfaces ∅ (bd_interfaces b);
    validate_builder_origins ∅ (bd_origins b).

(** * Commands *)

Inductive Command :=
| CReplaceRoutePolicy (policy : RoutePolicy)
| COriginate (key : RouteKey) (metric : Z)
| CWithdraw (key : RouteKey)
| CShutdownTimeout (ms : Z)
| CReplaceOrigins (origins : gmap RouteKey Z)
| CAddInterface (interface : string) (policy : option InterfacePolicy) (mac : option MacConfig)
| CUpdateInterfacePolicy (interface : string) (policy : InterfacePolicy) (reset_metric : bool)
| CRemoveInterface (interface : string)
| CStatus.

(** The methods of a handle. *)
Inductive Call :=
| CallReplaceRoutePolicy (policy : RoutePolicy)
| CallOriginate (key : RouteKey) (metric : Z)
| CallWithdraw (key : RouteKey)
| CallShutdownTimeout (ms : Z)
| CallReplaceOrigins (origins : list (RouteKey * Z))
| CallAddInterface (interface : string)
| CallAddInterfaceWithMac (interface : string) (policy : InterfacePolicy) (mac : option MacConfig)
| CallUpdateInterfacePolicy (interface : string) (policy : InterfacePolicy) (reset_metric : bool)
| CallRemoveInterface (interface : string)
| CallStatus.

Fixpoint collect_origins (desired : gmap RouteKey Z) (l : list (RouteKey * Z))
    : result RouterError (gmap RouteKey Z) :=
  match l with
  | [] => Ok desired
  | (key, metric) :: l' =>
      _ ← router_validate_origin key metric;
      if bool_decide (is_Some (desired !! key)) then Err (DuplicateOrigin key)
      else collect_origins (<[key := metric]> desired) l'
  end.

(** Local input is checked before it is sent to the loop. *)
Definition issue (c : Call) : result RouterError Command :=
  match c with
  | CallReplaceRoutePolicy policy => Ok (CReplaceRoutePolicy policy)
  | CallOriginate key metric =>
      _ ← router_validate_origin key metric; Ok (COriginate key metric)
  | CallWithdraw key =>
      match validate_key key with Ok _ => Ok (CWithdraw key) | Err e => Err (InvalidConfig e) end
  | CallShutdownTimeout ms =>
      if ms =? 0 then Err InvalidShutdownTimeout else Ok (CShutdownTimeout ms)
  | CallReplaceOrigins origins => desired ← collect_origins ∅ origins; Ok (CReplaceOrigins desired)
  | CallAddInterface interface => Ok (CAddInterface interface None None)
  | CallAddInterfaceWithMac interface policy mac =>
      _ ← router_validate_policy policy; Ok (CAddInterface interface (Some policy) mac)
  | CallUpdateInterfacePolicy interface policy reset_metric =>
      _ ← router_validate_policy policy; Ok (CUpdateInterfacePolicy interface policy reset_metric)
  | CallRemoveInterface interface => Ok (CRemoveInterface interface)
  | CallStatus => Ok CStatus
  end.

(** * Batching *)

Definition SendKey : Type := (string * IpAddr * Z * Z)%type.

Definition send_key (interface : string) (destination : IpAddr) (timing : SendTiming) : SendKey :=
  (interface, destination, deadline_ms timing, max_jitter_ms timing).

(** [previous.tlvs.extend(packet.tlvs)] on a Send. *)
Definition extend_send (packet : OutboundPacket) (a : Action) : Action :=
  match a with
  | Send interface destination previous timing =>
      Send interface destination (MkOutboundPacket (out_tlvs previous ++ out_tlvs packet)) timing
  | other => other
  end.

Definition batch_action (st : list Action * gmap SendKey nat) (action : Action)
    : list Action * gmap SendKey nat :=
  let '(result, positions) := st in
  match action with
  | Send interface destination packet timing =>
      let key := send_key interface destination timing in
      match positions !! key with
      | Some index => (alter (extend_send packet) index result, positions)
      | None => (result ++ [action], <[key := length result]> positions)
      end
  | _ => (result ++ [action], ∅)
  end.

Definition batch_send_actions (actions : list Action) : list Action :=
  (fold_left batch_action actions ([], ∅)).1.

(** * State *)

Record RouteSnapshot := MkSnapshot {
  sn_generation : Z;
  sn_routes : list SelectedRoute;
  sn_unreachable : list RouteKey
}.

Definition empty_snapshot : RouteSnapshot := MkSnapshot 0 [] [].

(** An open socket; [so_id] is the identity of its [Arc]. *)
Record Socket := MkSocket {
  so_id : nat;
  so_transport : ControlTransport;
  so_index : Z;
  so_addresses : list IpAddr
}.

Record RouterStatus := MkRouterStatus {
  rst_sequence_number : Z;
  rst_resources : ResourceStatus;
  rst_metric : string;
  rst_interfaces : list string;
  rst_neighbours : nat;
  rst_neighbour_details : list NeighborStatus;
  rst_route_generation : Z;
  rst_selected_routes : nat;
  rst_dropped_outbound_datagrams : Z;
  rst_missed_outbound_deadlines : Z
}.

Definition default_router_status : RouterStatus :=
  MkRouterStatus 0 default_status "" [] 0 [] 0 0 0 0.

(** What applying actions changes: the queues and the published routes. *)
Record Outputs := MkOutputs {
  outbound : gmap string System;
  export_updates : RouteSnapshot;
  route_updates : RouteSnapshot;
  rstatus : RouterStatus
}.

Record Router := MkRouter {
  engine : Engine;
  sockets : gmap string Socket;
  outputs : Outputs;
  policies : gmap string InterfacePolicy;
  default_policy : InterfacePolicy;
  limits : ResourceLimits;
  last_rejections : Z * Z * Z;
  next_limit_log_ms : Z;
  next_address_scan_ms : Z;
  shutdown_timeout : Z
}.

(** * Applying actions *)

Definition set_outbound (o : Outputs) (q : gmap string System) : Outputs :=
  MkOutputs q (export_updates o) (route_updates o) (rstatus o).

Definition set_route_status (st : RouterStatus) (generation : Z) (routes : nat) : RouterStatus :=
  MkRouterStatus (rst_sequence_number st) (rst_resources st) (rst_metric st) (rst_interfaces st)
    (rst_neighbours st) (rst_neighbour_details st) generation routes
    (rst_dropped_outbound_datagrams st) (rst_missed_outbound_deadlines st).
Definition set_status_seqno (st : RouterStatus) (seqno : Z) : RouterStatus :=
  MkRouterStatus seqno (rst_resources st) (rst_metric st) (rst_interfaces st) (rst_neighbours st)
    (rst_neighbour_details st) (rst_route_generation st) (rst_selected_routes st)
    (rst_dropped_outbound_datagrams st) (rst_missed_outbound_deadlines st).

(** One action; the allocation and the time of a submission are given. *)
Definition apply_action (o : Outputs) (env : Alloc * Z) (action : Action) : Outputs :=
  match action with
  | InvalidatePendingSends =>
      set_outbound o ((fun s => set_queue s (invalidate (queue s))) <$> outbound o)
  | Send interface destination packet timing =>
      match outbound o !! interface with
      | None => o
      | Some s =>
          set_outbound o
            (<[interface := (sys_submit s (fst env) (MkIntent destination packet timing) (snd env)).1]>
               (outbound o))
      end
  | RoutesChanged generation routes unreachable =>
      let snapshot := MkSnapshot generation routes unreachable in
      MkOutputs (outbound o) snapshot snapshot
        (set_route_status (rstatus o) generation (length routes))
  | SequenceNumberChanged value =>
      MkOutputs (outbound o) (export_updates o) (route_updates o) (set_status_seqno (rstatus o) value)
  end.

Fixpoint apply_from (i : nat) (env : nat -> Alloc * Z) (o : Outputs) (actions : list Action) : Outputs :=
  match actions with
  | [] => o
  | a :: rest => apply_from (S i) env (apply_action o (env i) a) rest
  end.

Definition apply_actions_with_status (env : nat -> Alloc * Z) (o : Outputs) (actions : list Action)
    : Outputs := apply_from 0 env o (batch_send_actions actions).

(** [apply_actions] throws the status and the route stream's value away. *)
Definition apply_actions (env : nat -> Alloc * Z) (o : Outputs) (actions : list Action) : Outputs :=
  let o' := apply_actions_with_status env
              (MkOutputs (outbound o) (export_updates o) empty_snapshot default_router_status) actions in
  MkOutputs (outbound o') (export_updates o') (route_updates o) (rstatus o).

(** [Engine::handle]: an invalid event panics. *)
Definition engine_handle (event : Event) (e : Engine) : option (list Action * Engine) :=
  '(r, e') ← try_handle event e;
  match r with Ok acts => Some (acts, e') | Err _ => None end.
End Router.
