(* ===== verification/RouterLoop.v ===== *)
(** The loop of the router ([run_loop] of [router/runtime.rs]): start-up, one
    definition per kind of input, and orderly shutdown. *)
From S2P Require Import Prelude Net Mac Model Metric Wire WireDecode Api EngineState Neighbors Engine Scheduler Sender Router.
Import Hello.
Local Open Scope Z_scope.

Section Loop.
Context {NL : IpNetLib} {MI : MetricImpl} {HO : HashOrder} {B : Build}.

Definition Env : Type := nat -> Alloc * Z.

(** * Status *)

Definition sorted_interface_names (sockets : gmap string Socket) : list string :=
  merge_sort ord_le (hm_iter sockets).*1.

(** [dedup]: consecutive equal elements are removed. *)
Fixpoint dedup (l : list string) : list string :=
  match l with
  | a :: (b :: _) as l' => if bool_decide (a = b) then dedup l' else a :: dedup l'
  | l => l
  end.

Definition effective_metric_name (policies : gmap string InterfacePolicy) (fallback : MetricProfile)
    : string :=
  match dedup (merge_sort ord_le ((fun p => profile_name (ip_metric p.2)) <$> hm_iter policies)) with
  | [] => profile_name fallback
  | [name] => name
  | _ => "per-interface"
  end.

Definition set_interface_status (st : RouterStatus) (sockets : gmap string Socket)
    (policies : gmap string InterfacePolicy) (fallback : MetricProfile) : RouterStatus :=
  MkRouterStatus (rst_sequence_number st) (rst_resources st) (effective_metric_name policies fallback)
    (sorted_interface_names sockets) (rst_neighbours st) (rst_neighbour_details st)
    (rst_route_generation st) (rst_selected_routes st) (rst_dropped_outbound_datagrams st)
    (rst_missed_outbound_deadlines st).
Definition set_metric_status (st : RouterStatus) (policies : gmap string InterfacePolicy)
    (fallback : MetricProfile) : RouterStatus :=
  MkRouterStatus (rst_sequence_number st) (rst_resources st) (effective_metric_name policies fallback)
    (rst_interfaces st) (rst_neighbours st) (rst_neighbour_details st) (rst_route_generation st)
    (rst_selected_routes st) (rst_dropped_outbound_datagrams st) (rst_missed_outbound_deadlines st).
Definition set_neighbours (st : RouterStatus) (n : nat) (details : list NeighborStatus) : RouterStatus :=
  MkRouterStatus (rst_sequence_number st) (rst_resources st) (rst_metric st) (rst_interfaces st) n details
    (rst_route_generation st) (rst_selected_routes st) (rst_dropped_outbound_datagrams st)
    (rst_missed_outbound_deadlines st).
Definition update_output_status (st : RouterStatus) (c : OutputCounters) : RouterStatus :=
  MkRouterStatus (rst_sequence_number st) (rst_resources st) (rst_metric st) (rst_interfaces st)
    (rst_neighbours st) (rst_neighbour_details st) (rst_route_generation st) (rst_selected_routes st)
    (total_dropped c) (total_missed c).
Definition set_engine_status (st : RouterStatus) (r : ResourceStatus) (seqno : Z) : RouterStatus :=
  MkRouterStatus seqno r (rst_metric st) (rst_interfaces st) (rst_neighbours st)
    (rst_neighbour_details st) (rst_route_generation st) (rst_selected_routes st)
    (rst_dropped_outbound_datagrams st) (rst_missed_outbound_deadlines st).

(** * Updating parts of the state *)

Definition set_engine (r : Router) (e : Engine) (o : Outputs) : Router :=
  MkRouter e (sockets r) o (policies r) (default_policy r) (limits r) (last_rejections r)
    (next_limit_log_ms r) (next_address_scan_ms r) (shutdown_timeout r).
Definition set_rstatus (r : Router) (st : RouterStatus) : Router :=
  let o := outputs r in
  set_engine r (engine r) (MkOutputs (outbound o) (export_updates o) (route_updates o) st).
Definition set_sockets (r : Router) (s : gmap string Socket) (q : gmap string System)
    (p : gmap string InterfacePolicy) : Router :=
  let o := outputs r in
  MkRouter (engine r) s (MkOutputs q (export_updates o) (route_updates o) (rstatus o)) p
    (default_policy r) (limits r) (last_rejections r) (next_limit_log_ms r) (next_address_scan_ms r)
    (shutdown_timeout r).
Definition status_of (r : Router) : RouterStatus := rstatus (outputs r).
Definition fallback_metric (r : Router) : MetricProfile := ip_metric (default_policy r).

(** An event goes through the engine and its actions are applied. *)
Definition dispatch (env : Env) (event : Event) (r : Router) : option Router :=
  '(acts, e) ← engine_handle event (engine r);
  Some (set_engine r e (apply_actions_with_status env (outputs r) acts)).

(** [status.neighbours] and [status.neighbour_details] are read anew. *)
Definition refresh_neighbours (r : Router) (now_ms : Z) : option Router :=
  details ← neighbour_status (engine r) now_ms;
  Some (set_rstatus r (set_neighbours (status_of r) (neighbour_count (engine r)) details)).

(** * Start-up *)

Definition loop_default_policy (metric : MetricProfile) : InterfacePolicy :=
  {| control_transport := default_transport; ip_ipv4_next_hop := NextHopAuto; ip_metric := metric;
     ip_hello_interval_cs := 400; ip_update_interval_cs := 1600; split_horizon := true |}.

Definition engine_config (b : BabelRouterBuilder) (router_id : RouterId) (via_v6 : bool) : EngineConfig := {|
  cfg_route_policy := bd_route_policy b;
  ipv4_via_ipv6 := via_v6;
  cfg_limits := bd_limits b;
  cfg_router_id := router_id;
  cfg_metric := bd_metric b;
  metric_algebra := bd_metric_algebra b;
  cfg_sequence_number := bd_sequence_number b;
  cfg_hello_interval_cs := 400;
  cfg_update_interval_cs := 1600;
  route_selection := default default_route_selection (bd_route_selection b)
|}.

(** One start-up event, whose actions do not reach the status. *)
Definition start_event (env : Env) (event : Event) (r : Router) : option Router :=
  '(acts, e) ← engine_handle event (engine r);
  Some (set_engine r e (apply_actions env (outputs r) acts)).

Fixpoint start_interfaces (env : nat -> Env) (now : nat -> Z) (i : nat)
    (l : list (string * option InterfacePolicy * option MacConfig)) (r : Router) : option Router :=
  match l with
  | [] => Some r
  | (interface, configured, _) :: l' =>
      let policy := default (default_policy r) configured in
      let r := set_sockets r (sockets r) (outbound (outputs r)) (<[interface := policy]> (policies r)) in
      let addresses := from_option so_addresses [] (sockets r !! interface) in
      r ← start_event (env i) (InterfaceUpWithPolicy interface addresses policy (now i)) r;
      start_interfaces env now (S i) l' r
  end.

Fixpoint start_origins (env : nat -> Env) (now : nat -> Z) (i : nat) (l : list (RouteKey * Z))
    (r : Router) : option Router :=
  match l with
  | [] => Some r
  | (key, metric) :: l' =>
      r ← start_event (env i) (Originate key metric (now i)) r;
      start_origins env now (S i) l' r
  end.

(** The sender of a newly opened socket. *)
Definition spawn_sender (name : string) (s : Socket) (totals : OutputCounters) : System :=
  sender_new OUTPUT_QUEUE_CAPACITY OUTPUT_BUDGET_BYTES (output_seed (so_index s) name) totals.

(** [start] and [run_loop] up to the loop, with the sockets opened. *)
Definition start (b : BabelRouterBuilder) (via_v6 : bool) (opened : gmap string Socket)
    (env : nat -> Env) (now : nat -> Z) : option (result RouterError Router) :=
  match (_ ← validate_builder b; ok_or (bd_router_id b) MissingRouterId) with
  | Err e => Some (Err e)
  | Ok router_id =>
      match Engine_try_new (engine_config b router_id via_v6) with
      | Err e => Some (Err (InvalidConfig e))
      | Ok e =>
          let o := MkOutputs (map_imap (fun name s => Some (spawn_sender name s (MkOutputCounters 0 0))) opened)
                     empty_snapshot empty_snapshot default_router_status in
          let r := MkRouter e opened o ∅ (loop_default_policy (bd_metric b)) (bd_limits b) (0, 0, 0) 0 0
                     (default 5000 (bd_shutdown_timeout b)) in
          r ← start_interfaces env now 0 (bd_interfaces b) r;
          r ← start_origins env now (length (bd_interfaces b)) (bd_origins b) r;
          let st := set_engine_status default_router_status default_status (sequence_number (engine r)) in
          Some (Ok (set_rstatus r (set_interface_status st (sockets r) (policies r) (bd_metric b))))
      end
  end.

(** * Ticks *)

(** The readings of the clock in one tick. *)
Record TickClock := MkTickClock {
  tc_scan : Z;
  tc_next_scan : Z;
  tc_address : string -> Z;
  tc_log : Z;
  tc_next_log : Z;
  tc_losses : string -> Z;
  tc_tick : Z;
  tc_status : Z
}.

(** One interface of the address scan; a failed lookup changes nothing. *)
Definition scan_interface (env : string -> Env) (clock : TickClock)
    (lookup : string -> option (list IpAddr)) (r : Router) (name : string) : option Router :=
  match lookup name, sockets r !! name with
  | Some addresses, Some s =>
      if bool_decide (so_addresses s = addresses) then Some r
      else
        let s := MkSocket (so_id s) (so_transport s) (so_index s) addresses in
        let r := set_sockets r (<[name := s]> (sockets r)) (outbound (outputs r)) (policies r) in
        dispatch (env name) (InterfaceAddressesChanged name addresses (tc_address clock name)) r
  | _, _ => Some r
  end.

Fixpoint scan_interfaces (env : string -> Env) (clock : TickClock)
    (lookup : string -> option (list IpAddr)) (names : list string) (r : Router) : option Router :=
  match names with
  | [] => Some r
  | name :: rest => r ← scan_interface env clock lookup r name; scan_interfaces env clock lookup rest r
  end.

Definition rejections_of (r : ResourceStatus) : Z * Z * Z :=
  (rejected_neighbors r, rejected_candidates_global r, rejected_candidates_per_neighbor r).

Definition set_scan (r : Router) (next : Z) : Router :=
  MkRouter (engine r) (sockets r) (outputs r) (policies r) (default_policy r) (limits r)
    (last_rejections r) (next_limit_log_ms r) next (shutdown_timeout r).
Definition set_limit_log (r : Router) (rejections : Z * Z * Z) (next : Z) : Router :=
  MkRouter (engine r) (sockets r) (outputs r) (policies r) (default_policy r) (limits r)
    rejections next (next_address_scan_ms r) (shutdown_timeout r).

Definition on_tick (env : string -> Env) (tick_env : Env) (clock : TickClock)
    (lookup : string -> option (list IpAddr)) (totals : OutputCounters) (r : Router) : option Router :=
  r ← (if next_address_scan_ms r <=? tc_scan clock then
         let r := set_scan r (saturating_add64 (tc_next_scan clock) 2000) in
         scan_interfaces env clock lookup (hm_iter (sockets r)).*1 r
       else Some r);
  let logged := map_imap (fun name s => Some (set_queue s (log_losses (queue s) (tc_losses clock name)).1))
                  (outbound (outputs r)) in
  let r := set_sockets r (sockets r) logged (policies r) in
  let rejections := rejections_of (resource_status (engine r)) in
  let r := if negb (bool_decide (rejections = last_rejections r)) && (next_limit_log_ms r <=? tc_log clock)
           then set_limit_log r rejections (saturating_add64 (tc_next_log clock) 30000) else r in
  r ← dispatch tick_env (Tick (tc_tick clock)) r;
  r ← refresh_neighbours r (tc_status clock);
  Some (set_rstatus r (update_output_status (status_of r) totals)).

(** * Received items *)

(** A packet from a socket that was replaced meanwhile is ignored, one that
    does not decode too. *)
Definition on_packet (env : Env) (interface : string) (socket : nat) (source : IpAddr)
    (bytes : list byte) (received_timestamp_us now_ms status_ms : Z) (r : Router) : option Router :=
  if bool_decide (so_id <$> sockets r !! interface = Some socket) then
    match decode_packet bytes source with
    | Err _ => Some r
    | Ok packet =>
        r ← dispatch env
              (PacketReceivedWithTimestamp interface source packet now_ms received_timestamp_us) r;
        refresh_neighbours r status_ms
    end
  else Some r.

(** The interface leaves every table before the engine hears of it. *)
Definition detach (env : Env) (interface : string) (now_ms : Z) (r : Router) : option Router :=
  let r := set_sockets r (delete interface (sockets r)) (delete interface (outbound (outputs r)))
             (delete interface (policies r)) in
  r ← dispatch env (InterfaceDown interface now_ms) r;
  Some (set_rstatus r
          (set_interface_status (status_of r) (sockets r) (policies r) (fallback_metric r))).

Definition on_failed (env : Env) (interface : string) (socket : nat) (now_ms status_ms : Z) (r : Router)
    : option Router :=
  if bool_decide (so_id <$> sockets r !! interface = Some socket) then
    r ← detach env interface now_ms r; refresh_neighbours r status_ms
  else Some r.

(** * Commands *)

Inductive Reply :=
| Done
| Replied (r : result RouterError unit)
| StatusReply (st : RouterStatus).

(** The interface is attached with the socket that was opened for it. *)
Definition attach (env : Env) (interface : string) (policy : InterfacePolicy) (s : Socket)
    (totals : OutputCounters) (now_ms : Z) (r : Router) : option Router :=
  let r := set_sockets r (<[interface := s]> (sockets r))
             (<[interface := spawn_sender interface s totals]> (outbound (outputs r)))
             (<[interface := policy]> (policies r)) in
  r ← dispatch env (InterfaceUpWithPolicy interface (so_addresses s) policy now_ms) r;
  Some (set_rstatus r
          (set_interface_status (status_of r) (sockets r) (policies r) (fallback_metric r))).

Definition on_command (env : Env) (c : Command) (opened : option Socket) (totals : OutputCounters)
    (now_ms : Z) (r : Router) : option (Router * Reply) :=
  match c with
  | CReplaceRoutePolicy policy =>
      r ← dispatch env (ReplaceRoutePolicy policy now_ms) r; Some (r, Done)
  | CReplaceOrigins origins =>
      r ← dispatch env (ReplaceOrigins origins now_ms) r; Some (r, Replied (Ok tt))
  | CShutdownTimeout ms =>
      Some (MkRouter (engine r) (sockets r) (outputs r) (policies r) (default_policy r) (limits r)
              (last_rejections r) (next_limit_log_ms r) (next_address_scan_ms r) ms, Done)
  | COriginate key metric => r ← dispatch env (Originate key metric now_ms) r; Some (r, Done)
  | CWithdraw key => r ← dispatch env (Withdraw key now_ms) r; Some (r, Done)
  | CAddInterface interface configured _ =>
      if bool_decide (is_Some (sockets r !! interface)) then Some (r, Replied (Ok tt))
      else
        let policy := default (default_policy r) configured in
        match opened with
        | Some s => r ← attach env interface policy s totals now_ms r; Some (r, Replied (Ok tt))
        | None => Some (r, Replied (Err (OpenInterface interface)))
        end
  | CUpdateInterfacePolicy interface policy reset_metric =>
      match sockets r !! interface with
      | Some s =>
          if negb (bool_decide (so_transport s = control_transport policy))
          then Some (r, Replied (Err (TransportChangeRequiresReattach interface)))
          else
            r ← dispatch env (InterfacePolicyChanged interface policy reset_metric now_ms) r;
            let r := set_sockets r (sockets r) (outbound (outputs r))
                       (<[interface := policy]> (policies r)) in
            Some (set_rstatus r (set_metric_status (status_of r) (policies r) (fallback_metric r)),
                  Replied (Ok tt))
      | None => Some (r, Replied (Err (InterfaceNotFound interface)))
      end
  | CRemoveInterface interface =>
      if bool_decide (is_Some (sockets r !! interface)) then
        r ← detach env interface now_ms r; Some (r, Replied (Ok tt))
      else Some (r, Replied (Err (InterfaceNotFound interface)))
  | CStatus =>
      r ← refresh_neighbours r now_ms;
      let st := update_output_status (status_of r) totals in
      let st := set_engine_status st (resource_status (engine r)) (sequence_number (engine r)) in
      let r := set_rstatus r st in
      Some (r, StatusReply st)
  end.

(** * The loop *)

(** What the loop selects on; a call carries what the handle was asked. *)
Inductive Input :=
| ITick (env : string -> Env) (tick_env : Env) (clock : TickClock)
    (lookup : string -> option (list IpAddr)) (totals : OutputCounters)
| IPacket (env : Env) (interface : string) (socket : nat) (source : IpAddr) (bytes : list byte)
    (received_timestamp_us now_ms status_ms : Z)
| IFailed (env : Env) (interface : string) (socket : nat) (now_ms status_ms : Z)
| ICall (env : Env) (c : Call) (opened : option Socket) (totals : OutputCounters) (now_ms : Z).

Definition loop_step (i : Input) (r : Router) : option Router :=
  match i with
  | ITick env tick_env clock lookup totals => on_tick env tick_env clock lookup totals r
  | IPacket env interface socket source bytes ts now_ms status_ms =>
      on_packet env interface socket source bytes ts now_ms status_ms r
  | IFailed env interface socket now_ms status_ms => on_failed env interface socket now_ms status_ms r
  | ICall env c opened totals now_ms =>
      match issue c with
      | Err _ => Some r
      | Ok command => '(r, _) ← on_command env command opened totals now_ms r; Some r
      end
  end.

Fixpoint loop (inputs : list Input) (r : Router) : option Router :=
  match inputs with
  | [] => Some r
  | i :: rest => r ← loop_step i r; loop rest r
  end.

(** * Shutdown *)

Definition is_send (a : Action) : bool := match a with Send _ _ _ _ => true | _ => false end.

(** Orderly shutdown: the origins are retracted, the retractions repeated
    twice, and the final, empty snapshot is published.  With [retain] nothing
    is retracted. *)
Definition shutdown (env : nat -> Env) (retain : bool) (now_ms : Z) (r : Router)
    : option (Router * RouteSnapshot) :=
  let final r := MkSnapshot (wrapping_add64 (rst_route_generation (status_of r)) 1) [] [] in
  let publish r :=
    let o := outputs r in
    (set_engine r (engine r) (MkOutputs (outbound o) (export_updates o) (final r) (rstatus o)), final r) in
  if retain then Some (publish r)
  else
    '(acts, e) ← engine_handle (ReplaceOrigins ∅ now_ms) (engine r);
    let retractions := List.filter is_send acts in
    let o := apply_actions (env 0%nat) (outputs r) acts in
    let o := apply_actions (env 1%nat) o retractions in
    let o := apply_actions (env 2%nat) o retractions in
    Some (publish (set_engine r e o)).

(** What a handle asks of the loop: to end, and whether routes are to be kept.  Both
    are shared by all handles and never taken back. *)
Record Signals := MkSignals { sg_shutdown : bool; sg_retaining : bool }.
Definition no_signals : Signals := MkSignals false false.

Definition request_shutdown (s : Signals) : Signals := MkSignals true (sg_retaining s).
Definition request_restart (s : Signals) : Signals := request_shutdown (MkSignals (sg_shutdown s) true).

(** The loop looks at the channel of the shutdown first; [closed]: all handles are
    gone. *)
Definition loop_end (env : nat -> Env) (s : Signals) (closed : bool) (now_ms : Z) (r : Router)
    : option (option (Router * RouteSnapshot)) :=
  if closed || sg_shutdown s then r' ← shutdown env (sg_retaining s) now_ms r; Some (Some r')
  else Some None.
End Loop.
