(* ===== verification/BatchSpec.v ===== *)
(** Batching of engine actions ([batch_send_actions]): what it keeps. *)
From S2P Require Import Prelude Net Mac Model Metric Wire Api EngineState Engine Scheduler Sender Router.
Local Open Scope Z_scope.

Section Batch.
Context {NL : IpNetLib} {MI : MetricImpl}.

Definition action_key (a : Action) : option SendKey :=
  match a with Send i d _ t => Some (send_key i d t) | _ => None end.

(** What a destination with a timing sees of a sequence of actions: its TLVs
    and the other actions, in order. *)
Definition seen_by (k : SendKey) (a : Action) : list (Action + OutboundTlv) :=
  match a with
  | Send i d p t => if bool_decide (send_key i d t = k) then inr <$> out_tlvs p else []
  | other => [inl other]
  end.
Definition trace (k : SendKey) (acts : list Action) : list (Action + OutboundTlv) :=
  concat (map (seen_by k) acts).

Lemma trace_app k a b : trace k (a ++ b) = trace k a ++ trace k b.
Proof. unfold trace. by rewrite map_app, concat_app. Qed.

Lemma trace_single k a : trace k [a] = seen_by k a.
Proof. unfold trace. simpl. apply app_nil_r. Qed.

(** Sends to other keys only: nothing to see for [k]. *)
Lemma trace_others k acts : Forall (fun a => exists k', action_key a = Some k' /\ k' <> k) acts -> trace k acts = [].
Proof.
  induction 1 as [|a acts (k' & Hk & Hne) _ IH]; [done|]. unfold trace in *. simpl. rewrite IH, app_nil_r.
  destruct a; try done. simpl in *. injection Hk as <-. by rewrite bool_decide_false.
Qed.

(** The position of a key: its Send, with Sends to other keys behind it. *)
Definition placed (result : list Action) (k : SendKey) (i : nat) : Prop :=
  exists l1 a l2, result = l1 ++ a :: l2 /\ length l1 = i /\ action_key a = Some k /\
    Forall (fun a => exists k', action_key a = Some k' /\ k' <> k) l2.

(** No Send for [k] behind the last other action. *)
Definition unplaced (result : list Action) (k : SendKey) : Prop :=
  exists l1 l2, result = l1 ++ l2 /\ (l1 = [] \/ exists l a, l1 = l ++ [a] /\ action_key a = None) /\
    Forall (fun a => exists k', action_key a = Some k' /\ k' <> k) l2.

(** Two Sends for one key have another action between them. *)
Definition separated (result : list Action) : Prop :=
  forall i j a b k, (i < j)%nat -> result !! i = Some a -> result !! j = Some b ->
    action_key a = Some k -> action_key b = Some k ->
    exists m c, (i < m < j)%nat /\ result !! m = Some c /\ action_key c = None.

Record batch_inv (done : list Action) (result : list Action) (positions : gmap SendKey nat) : Prop := {
  bi_trace : forall k, trace k result = trace k done;
  bi_some : forall k i, positions !! k = Some i -> placed result k i;
  bi_none : forall k, positions !! k = None -> unplaced result k;
  bi_separated : separated result
}.

Lemma extend_send_key packet a : action_key (extend_send packet a) = action_key a.
Proof. by destruct a. Qed.

Lemma separated_keys l l' : map action_key l = map action_key l' -> separated l -> separated l'.
Proof.
  intros E H i j a b k Hij Ha Hb Hka Hkb.
  assert (forall n c, l' !! n = Some c -> exists c', l !! n = Some c' /\ action_key c' = action_key c) as Hl.
  { intros n c Hc. assert (map action_key l !! n = Some (action_key c)) as Hm.
    { rewrite E. change (map action_key l') with (action_key <$> l'). rewrite list_lookup_fmap, Hc. done. }
    change (map action_key l) with (action_key <$> l) in Hm. rewrite list_lookup_fmap in Hm.
    apply fmap_Some in Hm as (c' & ? & ?). eauto. }
  destruct (Hl i a Ha) as (a' & Ha' & Ea), (Hl j b Hb) as (b' & Hb' & Eb).
  destruct (H i j a' b' k Hij Ha' Hb') as (m & c & Hm & Hc & Hn); [congruence..|].
  assert (map action_key l' !! m = Some None) as Hx.
  { rewrite <- E. change (map action_key l) with (action_key <$> l). by rewrite list_lookup_fmap, Hc, <- Hn. }
  change (map action_key l') with (action_key <$> l') in Hx. rewrite list_lookup_fmap in Hx.
  apply fmap_Some in Hx as (c' & ? & ?). eauto.
Qed.

(** A Send behind which nothing else happened to its key. *)
Lemma separated_snoc l a : separated l -> (forall k, action_key a = Some k -> unplaced l k) -> separated (l ++ [a]).
Proof.
  intros Hs Hu i j x y k Hij Hx Hy Hkx Hky. destruct (decide (j < length l)%nat) as [Hj|Hj].
  - rewrite lookup_app_l in Hx, Hy by lia. destruct (Hs i j x y k Hij Hx Hy Hkx Hky) as (m & c & ? & ? & ?).
    exists m, c. rewrite lookup_app_l by lia. done.
  - assert (j = length l) as ->.
    { apply lookup_lt_Some in Hy. rewrite length_app in Hy. simpl in Hy. lia. }
    rewrite lookup_app_r, Nat.sub_diag in Hy by lia. injection Hy as <-. rewrite lookup_app_l in Hx by lia.
    destruct (Hu k Hky) as (l1 & l2 & -> & Hb & Ho).
    assert (i < length l1)%nat as Hi.
    { destruct (decide (i < length l1)%nat); [done|]. rewrite lookup_app_r in Hx by lia.
      rewrite list.Forall_forall in Ho. destruct (Ho x (list_elem_of_lookup_2 _ _ _ Hx)) as (k' & ? & ?). congruence. }
    destruct Hb as [->|(l & c & -> & Hc)]; [simpl in Hi; lia|].
    rewrite length_app in Hi. simpl in Hi. rewrite <- app_assoc in Hx.
    destruct (decide (i = length l)) as [->|].
    { rewrite lookup_app_r, Nat.sub_diag in Hx by lia. injection Hx as <-. congruence. }
    exists (length l), c. rewrite !length_app. simpl. split; [lia|]. split; [|done].
    rewrite <- !app_assoc. by rewrite lookup_app_r, Nat.sub_diag by lia.
Qed.

Lemma placed_snoc result k i a k' : placed result k i -> action_key a = Some k' -> k' <> k ->
  placed (result ++ [a]) k i.
Proof.
  intros (l1 & x & l2 & -> & Hl & Hk & Ho) Ha Hne. exists l1, x, (l2 ++ [a]). rewrite <- app_assoc.
  split_and!; try done. apply Forall_app. split; [done|]. apply Forall_singleton. eauto.
Qed.

Lemma unplaced_snoc result k a k' : unplaced result k -> action_key a = Some k' -> k' <> k ->
  unplaced (result ++ [a]) k.
Proof.
  intros (l1 & l2 & -> & Hb & Ho) Ha Hne. exists l1, (l2 ++ [a]). rewrite <- app_assoc.
  split_and!; try done. apply Forall_app. split; [done|]. apply Forall_singleton. eauto.
Qed.

Lemma placed_last result a k : action_key a = Some k -> placed (result ++ [a]) k (length result).
Proof. intros Ha. by exists result, a, []. Qed.

Lemma unplaced_boundary result a k : action_key a = None -> unplaced (result ++ [a]) k.
Proof. intros Ha. exists (result ++ [a]), []. rewrite app_nil_r. split_and!; eauto. Qed.

Lemma map_key_alter packet i (l : list Action) :
  map action_key (alter (extend_send packet) i l) = map action_key l.
Proof.
  revert i. induction l as [|a l IH]; intros i; [done|]. destruct i as [|i]; simpl.
  - by rewrite extend_send_key.
  - change (list_alter (extend_send packet) i l) with (alter (extend_send packet) i l). by rewrite IH.
Qed.

(** Positions depend on the keys only. *)
Lemma keys_lookup l l' n c : map action_key l = map action_key l' -> l !! n = Some c ->
  exists c', l' !! n = Some c' /\ action_key c' = action_key c.
Proof.
  intros E Hc. assert (map action_key l' !! n = Some (action_key c)) as Hm.
  { rewrite <- E. change (map action_key l) with (action_key <$> l). by rewrite list_lookup_fmap, Hc. }
  change (map action_key l') with (action_key <$> l') in Hm. rewrite list_lookup_fmap in Hm.
  apply fmap_Some in Hm as (c' & ? & ?). eauto.
Qed.

Lemma others_keys k l l' : map action_key l = map action_key l' ->
  Forall (fun a => exists k', action_key a = Some k' /\ k' <> k) l ->
  Forall (fun a => exists k', action_key a = Some k' /\ k' <> k) l'.
Proof.
  intros E. rewrite !Forall_lookup. intros H n a Ha.
  destruct (keys_lookup l' l n a (eq_sym E) Ha) as (a' & Ha' & <-). by apply (H n).
Qed.

Lemma map_app_inv {A B} (f : A -> B) l l1 l2 : map f l = l1 ++ l2 ->
  exists k1 k2, l = k1 ++ k2 /\ map f k1 = l1 /\ map f k2 = l2.
Proof.
  revert l. induction l1 as [|b l1 IH]; intros l H; [by exists [], l|].
  destruct l as [|a l]; [done|]. injection H as <- H. destruct (IH l H) as (k1 & k2 & -> & <- & <-).
  by exists (a :: k1), k2.
Qed.

Lemma placed_keys l l' k i : map action_key l = map action_key l' -> placed l k i -> placed l' k i.
Proof.
  intros E (l1 & a & l2 & -> & Hl & Hk & Ho). rewrite map_app in E. symmetry in E.
  apply map_app_inv in E as (k1 & [|a' k2] & -> & E1 & E2); [done|]. injection E2 as Ea E2.
  exists k1, a', k2. split_and!; try done; [|congruence|by eapply others_keys].
  apply (f_equal length) in E1. by rewrite !length_map, Hl in E1.
Qed.

Lemma unplaced_keys l l' k : map action_key l = map action_key l' -> unplaced l k -> unplaced l' k.
Proof.
  intros E (l1 & l2 & -> & Hb & Ho). rewrite map_app in E. symmetry in E.
  apply map_app_inv in E as (k1 & k2 & -> & E1 & E2). exists k1, k2. split_and!; [done| |by eapply others_keys].
  destruct Hb as [->|(l & a & -> & Ha)]; [left; by destruct k1|]. right. rewrite map_app in E1.
  apply map_app_inv in E1 as (m1 & [|a' [|? ?]] & -> & _ & E3); try done. injection E3 as E3.
  exists m1, a'. split; [done|congruence].
Qed.

Lemma trace_extend k result i packet : placed result k i ->
  trace k (alter (extend_send packet) i result) = trace k result ++ (inr <$> out_tlvs packet) /\
  forall k', k' <> k -> trace k' (alter (extend_send packet) i result) = trace k' result.
Proof.
  intros (l1 & a & l2 & -> & <- & Hk & Ho). rewrite alter_app_r_alt by lia. rewrite Nat.sub_diag. simpl.
  assert (forall k0 x, trace k0 (l1 ++ x :: l2) = trace k0 l1 ++ seen_by k0 x ++ trace k0 l2) as Ht.
  { intros k0 x. change (l1 ++ x :: l2) with (l1 ++ [x] ++ l2). by rewrite !trace_app, trace_single. }
  split.
  - rewrite !Ht, (trace_others k l2 Ho), !app_nil_r, <- app_assoc. f_equal. destruct a; try done. simpl in *.
    injection Hk as <-. rewrite bool_decide_true by done. by rewrite fmap_app.
  - intros k' Hne. rewrite !Ht. do 2 f_equal. destruct a; try done. simpl in *. injection Hk as <-.
    by rewrite bool_decide_false.
Qed.

Lemma batch_inv_step seen result positions a : batch_inv seen result positions ->
  batch_inv (seen ++ [a]) (batch_action (result, positions) a).1 (batch_action (result, positions) a).2.
Proof.
  intros [Ht Hs Hn Hsep].
  assert (action_key a = None -> batch_inv (seen ++ [a]) (result ++ [a]) ∅) as Hboundary.
  { intros Ha. split; [|done|intros k _; by apply unplaced_boundary|].
    - intros k. by rewrite !trace_app, Ht.
    - apply separated_snoc; [done|]. by rewrite Ha. }
  destruct a as [|i d p t|g r u|q]; simpl; try (by apply Hboundary).
  set (key := send_key i d t) in *. destruct (positions !! key) as [idx|] eqn:E; simpl.
  - pose proof (map_key_alter p idx result) as Hkeys. symmetry in Hkeys.
    destruct (trace_extend key result idx p (Hs key idx E)) as [Hx Ho]. split.
    + intros k. rewrite trace_app, trace_single. destruct (decide (key = k)) as [<-|Hne].
      * simpl. fold key. by rewrite bool_decide_true, Hx, Ht.
      * simpl. fold key. rewrite bool_decide_false by done. by rewrite app_nil_r, Ho, Ht.
    + intros k j Hj. by eapply placed_keys, Hs.
    + intros k Hk. by eapply unplaced_keys, Hn.
    + by eapply separated_keys.
  - split.
    + intros k. by rewrite !trace_app, Ht.
    + intros k j. destruct (decide (key = k)) as [<-|Hne].
      * rewrite lookup_insert, decide_True by done. intros [= <-]. by apply placed_last.
      * rewrite lookup_insert_ne by done. intros Hj. eapply placed_snoc; [by apply Hs|done|done].
    + intros k. destruct (decide (key = k)) as [<-|Hne].
      * by rewrite lookup_insert, decide_True by done.
      * rewrite lookup_insert_ne by done. intros Hk. eapply unplaced_snoc; [by apply Hn|done|done].
    + apply separated_snoc; [done|]. intros k [= <-]. by apply Hn.
Qed.

Lemma batch_inv_fold acts seen result positions : batch_inv seen result positions ->
  exists positions', batch_inv (seen ++ acts) (fold_left batch_action acts (result, positions)).1 positions'.
Proof.
  revert seen result positions. induction acts as [|a acts IH]; intros seen result positions Hi; cbn [fold_left].
  { rewrite app_nil_r. eauto. }
  apply (batch_inv_step _ _ _ a) in Hi. destruct (batch_action (result, positions) a) as [r p].
  apply IH in Hi as (p' & Hi). rewrite <- app_assoc in Hi. by exists p'.
Qed.

Lemma batch_actions_inv acts : exists positions, batch_inv acts (batch_send_actions acts) positions.
Proof.
  apply (batch_inv_fold acts [] [] ∅). split; [done|done| |by intros i j a b k _ Ha].
  intros k _. exists [], []. split_and!; [done|by left|constructor].
Qed.

(** C17. Batching changes nothing a destination can observe: for every
    interface, destination and timing the TLVs come in the same order and in
    the same place relative to all other actions (route snapshots, sequence
    numbers, invalidations), while between two such actions each of them gets
    one Send only. *)
Theorem batching_preserves_order acts :
  (forall k, trace k (batch_send_actions acts) = trace k acts) /\ separated (batch_send_actions acts).
Proof. destruct (batch_actions_inv acts) as (p & [H1 _ _ H4]). done. Qed.

(** The other actions are untouched. *)
Definition is_other (a : Action) : bool := match action_key a with None => true | Some _ => false end.

Lemma trace_other k acts :
  omap (fun x => match x with inl a => Some a | inr _ => None end) (trace k acts) = List.filter is_other acts.
Proof.
  induction acts as [|a acts IH]; [done|]. unfold trace in *. simpl. rewrite omap_app, IH.
  destruct a as [|i d p t|g r u|q]; simpl; try done. case_bool_decide; [|done].
  induction (out_tlvs p); simpl; auto.
Qed.

Lemma batch_other acts : List.filter is_other (batch_send_actions acts) = List.filter is_other acts.
Proof.
  destruct (batch_actions_inv acts) as (p & [H1 _ _ _]).
  set (k := ("", IpV4 (ipv4 0 0 0 0), 0, 0) : SendKey). rewrite <- !(trace_other k). by rewrite H1.
Qed.
End Batch.
