(* ===== verification/RouterTheorems.v ===== *)
(** The router around the engine: start-up leaves the RIB empty, the loop does not
    panic, and what it publishes is the RIB of the engine. *)
From S2P Require Import Prelude Net Model Metric Wire WireDecode Api EngineState Sources Output Rib Deadlines Neighbors Timers Engine OutputSpec Invariant SelectionSpec EngineSpec LoopSpec Mac Scheduler Sender Router RouterLoop BatchSpec.
Import Hello.
Local Open Scope Z_scope.

Section Blank.
Context {NL : IpNetLib} {MI : MetricImpl} {HO : HashOrder} {B : Build}.

(** No route was ever known, selected, lost or told to the host. *)
Record blank (e : Engine) : Prop := {
  bk_candidates : candidates e = ∅;
  bk_selected : selected e = ∅;
  bk_tombstones : tombstones e = ∅;
  bk_generation : EngineState.generation e = 0
}.

Lemma new_blank cfg e : Engine_try_new cfg = Ok e -> blank e.
Proof. unfold Engine_try_new. intros (u & _ & H)%result_bind_Ok. by injection H as <-. Qed.

Lemma blank_group e : blank e -> btree_iter (group_candidates e) = [].
Proof.
  intros Hb. destruct (btree_iter (group_candidates e)) as [|[k l] rest] eqn:E; [done|].
  assert ((k, l) ∈ btree_iter (group_candidates e)) as H by (rewrite E; left).
  apply btree_iter_lookup, group_sound in H as [Hne H]. destruct l as [|c l]; [done|].
  destruct (proj1 (H c) ltac:(left)) as (_ & _ & k' & n & Hc). by rewrite (bk_candidates _ Hb), lookup_empty in Hc.
Qed.

Lemma blank_tombstones e now : selected e = ∅ -> tombstones e = ∅ -> new_tombstones now ∅ e = ∅.
Proof.
  intros Hs Ht. apply map_eq. intros k. rewrite new_tombstones_kept, Ht by (by rewrite ?Hs, lookup_empty). done.
Qed.

(** Nothing to select: the RIB stays empty and no snapshot is taken. *)
Lemma reselect_blank now : keeps blank (reselect now).
Proof.
  intros e acts e' Hb. unfold reselect. cbv [mbind M_bind gets modify mret M_ret].
  rewrite (blank_group _ Hb). destruct Hb as [B1 B2 B3 B4].
  unfold choose_routes. cbn [foldM]. cbv [mbind M_bind mret M_ret].
  unfold update_tombstones, prune_switches, modify.
  match goal with |- context [set_tombstones ?t ?x] => replace t with (∅ : gmap RouteKey Z) end.
  2: { rewrite B2. symmetry. by apply (blank_tombstones (set_selected ∅ e) now). }
  rewrite (bool_decide_false (_ <> selected e)), (bool_decide_false (_ <> unreachable_routes e)); cbn [orb].
  - intros [= <- <-]. by split.
  - intros H. apply H. unfold unreachable_routes. cbn. by rewrite B3.
  - intros H. apply H. cbn. done.
Qed.
#[local] Hint Resolve reselect_blank : keeps.

(** Close the state changes that leave the RIB alone or empty. *)
Ltac blank_solve :=
  match goal with HI : blank _ |- _ =>
    destruct HI as [B1 B2 B3 B4]; split; cbn; rewrite ?B1, ?B2, ?B3, ?B4; first [done|apply map_filter_empty|apply delete_empty]
  end.

Lemma tick_expire_blank now : keeps blank (tick_expire now).
Proof. keeps_deep; blank_solve. Qed.

Lemma tick_select_blank now b : keeps blank (tick_select now 0 b).
Proof.
  unfold tick_select. apply keeps_bind; [apply keeps_gets|]. intros switching.
  apply keeps_bind; [destruct (_ || _); [apply reselect_blank|apply keeps_ret]|]. intros acts.
  apply keeps_read. intros e He. rewrite (bk_tombstones _ He), map_size_empty. cbn. apply keeps_ret.
Qed.
#[local] Hint Resolve tick_expire_blank tick_select_blank : keeps.

Lemma tick_blank now : keeps blank (tick now).
Proof.
  unfold tick. apply keeps_read. intros e He. rewrite (bk_tombstones _ He), map_size_empty.
  keeps_deep; blank_solve.
Qed.
#[local] Hint Resolve tick_blank : keeps.

Lemma interface_up_blank i addresses policy now : keeps blank (handle (InterfaceUpWithPolicy i addresses policy now)).
Proof. unfold handle, handle_validated, interface_up. keeps_deep; blank_solve. Qed.

Lemma originate_blank key metric now : keeps blank (handle (Originate key metric now)).
Proof.
  unfold handle, handle_validated, originate. apply keeps_bind; [|keeps_deep; blank_solve].
  apply keeps_bind; [apply keeps_gets|]. intros o.
  destruct (match o with Some _ => _ | None => _ end); [apply keeps_ret|].
  apply keeps_read. intros e He. rewrite (bk_tombstones _ He), lookup_empty, bool_decide_false by (by intros []).
  keeps_deep; blank_solve.
Qed.

Lemma try_handle_blank event e r e' :
  (exists i addresses policy now, event = InterfaceUpWithPolicy i addresses policy now) \/
  (exists key metric now, event = Originate key metric now) ->
  blank e -> try_handle event e = Some (r, e') -> blank e'.
Proof.
  intros Hev Hb. unfold try_handle. destruct (validate_event event); [|by intros [= _ <-]].
  intros ([l e1] & E & [= _ <-])%bind_Some. cbn [fst snd] in *.
  destruct Hev as [(i & addrs & p & n & ->)|(k & m & n & ->)]; [by eapply interface_up_blank|by eapply originate_blank].
Qed.

(** The host of a blank engine knows nothing but the sequence number. *)
Lemma blank_host e : blank e -> host_of e = MkHost [] [] 0 (sequence_number e).
Proof.
  intros [_ B2 B3 B4]. unfold host_of, selected_routes, unreachable_routes. by rewrite B2, B3, B4.
Qed.
End Blank.
Import Hello.
Local Open Scope Z_scope.

Section Theorems.
Context {NL : IpNetLib} {MI : MetricImpl} {HO : HashOrder} {B : Build}.

(** * What is published *)

Definition host_snapshot (h : Host) : RouteSnapshot :=
  MkSnapshot (h_generation h) (h_routes h) (h_unreachable h).

(** The exporter is given the host's view; the route stream and the status
    agree with it. *)
Definition exports (o : Outputs) (h : Host) : Prop := export_updates o = host_snapshot h.
Record in_step (o : Outputs) (h : Host) : Prop := {
  is_export : exports o h;
  is_routes : route_updates o = host_snapshot h;
  is_seqno : rst_sequence_number (rstatus o) = h_seqno h;
  is_generation : rst_route_generation (rstatus o) = h_generation h;
  is_selected : rst_selected_routes (rstatus o) = length (h_routes h)
}.

Lemma host_run_other acts h : host_run (List.filter is_other acts) h = host_run acts h.
Proof.
  revert h. induction acts as [|a acts IH]; intros h; [done|]. simpl. destruct (is_other a) eqn:E; simpl.
  - destruct (host_apply h a); simpl; [apply IH|done].
  - rewrite IH. by destruct a.
Qed.

Lemma host_run_batch acts h : host_run (batch_send_actions acts) h = host_run acts h.
Proof. by rewrite <- host_run_other, batch_other, host_run_other. Qed.

Lemma apply_action_step o env a h h' : host_apply h a = Some h' ->
  (exports o h -> exports (apply_action o env a) h') /\ (in_step o h -> in_step (apply_action o env a) h').
Proof.
  destruct a as [|i d p t|g r u|q]; simpl.
  - intros [= <-]. split; [done|]. by intros [].
  - intros [= <-]. destruct (outbound o !! i); split; try done. by intros [].
  - destruct (_ =? _); [|done]. intros [= <-]. split; [done|]. by intros [].
  - destruct (_ =? _); [|done]. intros [= <-]. split; [done|]. by intros [].
Qed.

Lemma apply_from_step env acts : forall i o h h', host_run acts h = Some h' ->
  (exports o h -> exports (apply_from i env o acts) h') /\
  (in_step o h -> in_step (apply_from i env o acts) h').
Proof.
  induction acts as [|a acts IH]; intros i o h h' H; simpl in *; [by injection H as <-|].
  apply bind_Some in H as (h1 & H1 & H). destruct (apply_action_step o (env i) a h h1 H1) as [E1 S1].
  destruct (IH (S i) (apply_action o (env i) a) h1 h' H) as [E2 S2]. auto.
Qed.

Lemma apply_actions_step env acts o h h' : host_run acts h = Some h' ->
  (exports o h -> exports (apply_actions_with_status env o acts) h') /\
  (in_step o h -> in_step (apply_actions_with_status env o acts) h').
Proof. rewrite <- host_run_batch. apply apply_from_step. Qed.

(** * Steps of the router *)

Section Run.
Context (release : overflow_checks = false).

Record router_inv (r : Router) : Prop := {
  ri_reachable : reachable (engine r);
  ri_policy : validate_interface_policy (default_policy r) = Ok tt;
  ri_exports : exports (outputs r) (host_of (engine r))
}.

Definition synced (r : Router) : Prop := in_step (outputs r) (host_of (engine r)).

(** A step that neither panics nor loses the view. *)
Definition follows (r : Router) (m : option Router) : Prop :=
  exists r', m = Some r' /\ router_inv r' /\ (synced r -> synced r').

Lemma follows_bind r m f : follows r m ->
  (forall r', router_inv r' -> (synced r -> synced r') -> follows r (f r')) -> follows r (r' ← m; f r').
Proof. intros (r' & -> & Hi & Hs) Hf. simpl. by apply Hf. Qed.

Lemma follows_ret r r' : router_inv r' -> (synced r -> synced r') -> follows r (Some r').
Proof. intros. by exists r'. Qed.

(** Tables and schedules beside the engine and what it published. *)
Definition same_view (r r' : Router) : Prop :=
  engine r' = engine r /\ default_policy r' = default_policy r /\
  export_updates (outputs r') = export_updates (outputs r) /\
  route_updates (outputs r') = route_updates (outputs r) /\
  (rst_sequence_number (status_of r') = rst_sequence_number (status_of r) \/
   rst_sequence_number (status_of r') = sequence_number (engine r)) /\
  rst_route_generation (status_of r') = rst_route_generation (status_of r) /\
  rst_selected_routes (status_of r') = rst_selected_routes (status_of r).

Lemma same_view_inv r r' : same_view r r' -> router_inv r -> router_inv r' /\ (synced r -> synced r').
Proof.
  intros (He & Hd & Hx & Hr & Hq & Hg & Hs) [H1 H2 H3]. unfold status_of in *. split.
  - split; unfold exports in *; congruence.
  - intros [E1 E2 E3 E4 E5]. unfold exports in *. split; unfold exports; rewrite ?He; try congruence.
    by destruct Hq as [-> | ->].
Qed.

Lemma dispatch_follows env ev r r0 : router_inv r0 -> (synced r -> synced r0) ->
  validate_event ev = Ok tt -> in_u64 (event_time ev) -> follows r (dispatch env ev r0).
Proof.
  intros [Hre Hp Hx] Hs Hv Ht. destruct (reachable_Inv release _ Hre) as [HI Hb].
  destruct (try_handle_spec release ev (engine r0) Ht HI Hb) as (res & e' & Hh & Hres).
  destruct res as [acts|err]; [|destruct Hres; congruence]. destruct Hres as [_ Hok].
  unfold dispatch, engine_handle. rewrite Hh. simpl.
  destruct (apply_actions_step env acts (outputs r0) _ _ (ev_host _ _ _ _ Hok)) as [He Hi].
  apply follows_ret; [split; simpl; [by eapply (reach_step _)|done|by apply He]|].
  intros Hsy. apply Hi. by apply Hs.
Qed.

Lemma refresh_follows r r0 now : router_inv r0 -> (synced r -> synced r0) ->
  follows r (refresh_neighbours r0 now).
Proof.
  intros Hi Hs. unfold refresh_neighbours, neighbour_status.
  assert (exists l, mapM (neighbor_status now) (hm_iter (neighbours (engine r0))) = Some l) as [l ->].
  { apply mapM_is_Some_2, list.Forall_forall. intros [k n] _. by eexists. }
  simpl. match goal with |- follows r (Some ?x) => destruct (same_view_inv r0 x) as [Hi' Hs'] end.
  - repeat split; by left.
  - done.
  - apply follows_ret; auto.
Qed.

Lemma view_follows r r0 r1 : same_view r0 r1 -> router_inv r0 -> (synced r -> synced r0) -> follows r (Some r1).
Proof. intros Hv Hi Hs. destruct (same_view_inv _ _ Hv Hi) as [Hi' Hs']. apply follows_ret; auto. Qed.

Lemma same_view_refl_like r r' : engine r' = engine r -> default_policy r' = default_policy r ->
  export_updates (outputs r') = export_updates (outputs r) ->
  route_updates (outputs r') = route_updates (outputs r) ->
  rstatus (outputs r') = rstatus (outputs r) -> same_view r r'.
Proof. intros. unfold same_view, status_of. split_and!; try done; try congruence. left. congruence. Qed.

Lemma detach_follows env i now r r0 : in_u64 now -> router_inv r0 -> (synced r -> synced r0) ->
  follows r (detach env i now r0).
Proof.
  intros Hn Hi Hs. unfold detach. set (r1 := set_sockets _ _ _ _).
  destruct (same_view_inv r0 r1) as [Hi1 Hs1]; [by apply same_view_refl_like|done|].
  apply follows_bind; [apply dispatch_follows; auto|]. intros r2 Hi2 Hs2.
  eapply view_follows; [|exact Hi2|exact Hs2]. repeat split; by left.
Qed.

Lemma attach_follows env i policy s totals now r r0 : in_u64 now -> router_inv r0 -> (synced r -> synced r0) ->
  validate_interface_policy policy = Ok tt -> follows r (attach env i policy s totals now r0).
Proof.
  intros Hn Hi Hs Hv. unfold attach. set (r1 := set_sockets _ _ _ _).
  destruct (same_view_inv r0 r1) as [Hi1 Hs1]; [by apply same_view_refl_like|done|].
  apply follows_bind; [apply dispatch_follows; auto|]. intros r2 Hi2 Hs2.
  eapply view_follows; [|exact Hi2|exact Hs2]. repeat split; by left.
Qed.

(** * Validated input *)

Definition command_ok (c : Command) : Prop :=
  match c with
  | COriginate key metric => validate_origin key metric = Ok tt
  | CWithdraw key => validate_key key = Ok tt
  | CReplaceOrigins origins => validate_origins (btree_iter origins) = Ok tt
  | CAddInterface _ (Some policy) _ | CUpdateInterfacePolicy _ policy _ =>
      validate_interface_policy policy = Ok tt
  | _ => True
  end.

Lemma router_policy_ok policy : router_validate_policy policy = Ok tt -> validate_interface_policy policy = Ok tt.
Proof. unfold router_validate_policy. by destruct (validate_interface_policy policy) as [[]|]. Qed.

Lemma router_origin_ok key metric : router_validate_origin key metric = Ok tt -> validate_origin key metric = Ok tt.
Proof. unfold router_validate_origin. by destruct (validate_origin key metric) as [[]|[]]. Qed.

Lemma unit_bind {E A} (m : result E unit) (k : result E A) x :
  (_ ← m; k) = Ok x -> m = Ok tt /\ k = Ok x.
Proof. destruct m as [[]|]; [done|]. done. Qed.

Lemma validate_origins_all l : (forall k m, (k, m) ∈ l -> validate_origin k m = Ok tt) -> validate_origins l = Ok tt.
Proof.
  induction l as [|[k m] l IH]; intros H; simpl; [done|]. rewrite (H k m) by constructor. simpl.
  apply IH. intros k' m' Hin. apply H. by constructor.
Qed.

Lemma collect_origins_ok l : forall desired m,
  map_Forall (fun k v => validate_origin k v = Ok tt) desired -> collect_origins desired l = Ok m ->
  map_Forall (fun k v => validate_origin k v = Ok tt) m.
Proof.
  induction l as [|[k v] l IH]; intros desired m Hd H; simpl in H; [by injection H as <-|].
  apply unit_bind in H as [Hv%router_origin_ok H]. case_bool_decide; [done|].
  eapply IH; [|exact H]. by apply map_Forall_insert_2.
Qed.

Lemma issue_ok c cmd : issue c = Ok cmd -> command_ok cmd.
Proof.
  destruct c; simpl; intros H; try (by injection H as <-).
  - apply unit_bind in H as [Hv [= <-]]. by apply router_origin_ok.
  - destruct (validate_key key) as [[]|] eqn:E; [by injection H as <-|done].
  - destruct (_ =? _); [done|]. by injection H as <-.
  - apply result_bind_Ok in H as (m & Hm & [= <-]). apply validate_origins_all.
    intros k v Hin%btree_iter_lookup. by apply (collect_origins_ok _ ∅ m (map_Forall_empty _) Hm k v).
  - apply unit_bind in H as [Hv [= <-]]. by apply router_policy_ok.
  - apply unit_bind in H as [Hv [= <-]]. by apply router_policy_ok.
Qed.

(** * The loop *)

Definition times_ok (i : Input) : Prop :=
  match i with
  | ITick _ _ clock _ _ => in_u64 (tc_tick clock) /\ forall name, in_u64 (tc_address clock name)
  | IPacket _ _ _ _ _ _ now_ms _ | IFailed _ _ _ now_ms _ | ICall _ _ _ _ now_ms => in_u64 now_ms
  end.

Lemma scan_follows env clock lookup names r : forall r0,
  (forall name, in_u64 (tc_address clock name)) -> router_inv r0 -> (synced r -> synced r0) ->
  follows r (scan_interfaces env clock lookup names r0).
Proof.
  induction names as [|name names IH]; intros r0 Ht Hi Hs; simpl; [by apply follows_ret|].
  apply follows_bind; [|intros r' Hi' Hs'; by apply IH]. unfold scan_interface.
  destruct (lookup name) as [addresses|]; [|by apply follows_ret].
  destruct (sockets r0 !! name) as [s|]; [|by apply follows_ret].
  case_bool_decide; [by apply follows_ret|]. set (r1 := set_sockets _ _ _ _).
  destruct (same_view_inv r0 r1) as [Hi1 Hs1]; [by apply same_view_refl_like|done|].
  apply dispatch_follows; [done|auto|done|apply Ht].
Qed.

Lemma tick_follows env tick_env clock lookup totals r : in_u64 (tc_tick clock) ->
  (forall name, in_u64 (tc_address clock name)) -> router_inv r ->
  follows r (on_tick env tick_env clock lookup totals r).
Proof.
  intros Ht Ha Hi. unfold on_tick. apply follows_bind.
  { destruct (_ <=? _); [|by apply follows_ret].
    set (r1 := set_scan _ _). destruct (same_view_inv r r1) as [Hi1 Hs1]; [by apply same_view_refl_like|done|].
    by apply scan_follows. }
  intros r1 Hi1 Hs1. cbv zeta. set (r2 := set_sockets r1 _ _ _).
  destruct (same_view_inv r1 r2) as [Hi2 Hs2]; [by apply same_view_refl_like|done|].
  set (r3 := if _ : bool then set_limit_log r2 _ _ else r2).
  assert (router_inv r3 /\ (synced r2 -> synced r3)) as [Hi3 Hs3].
  { subst r3. destruct (_ && _); [|done]. by apply same_view_inv; [apply same_view_refl_like|]. }
  clearbody r3. apply follows_bind; [apply dispatch_follows; [done|auto|done|done]|]. intros r4 Hi4 Hs4.
  apply follows_bind; [by apply refresh_follows|]. intros r5 Hi5 Hs5.
  eapply view_follows; [|exact Hi5|exact Hs5]. repeat split; by left.
Qed.

Lemma packet_follows env i so src bytes ts now st r : in_u64 now -> router_inv r ->
  follows r (on_packet env i so src bytes ts now st r).
Proof.
  intros Hn Hi. unfold on_packet. case_bool_decide; [|by apply follows_ret].
  destruct (decode_packet bytes src); [|by apply follows_ret].
  apply follows_bind; [by apply dispatch_follows|]. intros r1 Hi1 Hs1. by apply refresh_follows.
Qed.

Lemma failed_follows env i so now st r : in_u64 now -> router_inv r -> follows r (on_failed env i so now st r).
Proof.
  intros Hn Hi. unfold on_failed. case_bool_decide; [|by apply follows_ret].
  apply follows_bind; [by apply detach_follows|]. intros r1 Hi1 Hs1. by apply refresh_follows.
Qed.

Lemma command_follows env c opened totals now r : in_u64 now -> command_ok c -> router_inv r ->
  follows r ('(r', _) ← on_command env c opened totals now r; Some r').
Proof.
  intros Hn Hc Hi.
  assert (forall ev (f : Router -> Router * Reply), validate_event ev = Ok tt -> in_u64 (event_time ev) ->
    (forall r', same_view r' (f r').1) ->
    follows r ('(r', _) ← (r' ← dispatch env ev r; Some (f r')); Some r')) as Hd.
  { intros ev f Hv Ht Hf. destruct (dispatch_follows env ev r r Hi (fun x => x) Hv Ht) as (r' & -> & Hi' & Hs').
    simpl. specialize (Hf r'). destruct (f r') as [r1 reply]. by eapply view_follows. }
  assert (forall r' : Router, same_view r' r') as Hrefl by (intros; by apply same_view_refl_like).
  destruct c as [policy|key metric|key|ms|origins|i configured mac|i policy reset|i|]; simpl in *;
    try (by apply (Hd _ (fun r => (r, _)))).
  - by apply (view_follows _ r); [apply same_view_refl_like| |].
  - case_bool_decide; [by apply follows_ret|]. destruct opened as [s|]; [|by apply follows_ret].
    destruct (attach_follows env i (default (default_policy r) configured) s totals now r r Hn Hi (fun x => x))
      as (r' & -> & Hi' & Hs'); [destruct configured; [done|apply Hi]|]. by apply follows_ret.
  - destruct (sockets r !! i) as [s|]; [|by apply follows_ret].
    case_bool_decide; [|by apply follows_ret]. simpl.
    apply (Hd _ (fun r' => (set_rstatus _ _, Replied (Ok tt)))); [done|done|]. intros r'. repeat split; by left.
  - case_bool_decide; [|by apply follows_ret].
    destruct (detach_follows env i now r r Hn Hi (fun x => x)) as (r' & -> & Hi' & Hs'). by apply follows_ret.
  - destruct (refresh_follows r r now Hi (fun x => x)) as (r' & -> & Hi' & Hs'). simpl.
    eapply view_follows; [|exact Hi'|exact Hs']. repeat split; by right.
Qed.

Lemma loop_follows inputs r : forall r0, Forall times_ok inputs -> router_inv r0 -> (synced r -> synced r0) ->
  follows r (loop inputs r0).
Proof.
  induction inputs as [|i inputs IH]; intros r0 Ht Hi Hs; simpl; [by apply follows_ret|].
  apply list.Forall_cons in Ht as [Hi0 Ht].
  assert (follows r0 (loop_step i r0)) as (r1 & -> & Hi1 & Hs1); [|simpl; apply IH; auto].
  destruct i as [env tenv clock lookup totals|env i so src bytes ts now st|env i so now st|env c opened totals now];
    simpl in *.
  - destruct Hi0. by apply tick_follows.
  - by apply packet_follows.
  - by apply failed_follows.
  - destruct (issue c) as [cmd|] eqn:E; [|by apply follows_ret]. apply issue_ok in E. by apply command_follows.
Qed.

(** * Start-up *)

Lemma start_event_follows env ev r0 : router_inv r0 -> validate_event ev = Ok tt -> in_u64 (event_time ev) ->
  exists r', start_event env ev r0 = Some r' /\ router_inv r' /\
    route_updates (outputs r') = route_updates (outputs r0) /\
    (exists acts, try_handle ev (engine r0) = Some (Ok acts, engine r')).
Proof.
  intros [Hre Hp Hx] Hv Ht. destruct (reachable_Inv release _ Hre) as [HI Hb].
  destruct (try_handle_spec release ev (engine r0) Ht HI Hb) as (res & e' & Hh & Hres).
  destruct res as [acts|err]; [|destruct Hres; congruence]. destruct Hres as [_ Hok].
  unfold start_event, engine_handle. rewrite Hh. simpl. eexists. split; [done|]. split; [|split; [done|by exists acts]].
  split; simpl; [by eapply (reach_step _)|done|].
  apply (proj1 (apply_actions_step env acts (MkOutputs (outbound (outputs r0)) (export_updates (outputs r0))
    empty_snapshot default_router_status) _ _ (ev_host _ _ _ _ Hok)) Hx).
Qed.

(** Until the loop runs, no route is known and none was published. *)
Definition idle (r : Router) : Prop := blank (engine r) /\ route_updates (outputs r) = empty_snapshot.

Lemma start_event_idle ev r0 r :
  (exists i addresses policy now, ev = InterfaceUpWithPolicy i addresses policy now) \/
  (exists key metric now, ev = Originate key metric now) ->
  idle r0 -> route_updates (outputs r) = route_updates (outputs r0) ->
  (exists acts, try_handle ev (engine r0) = Some (Ok acts, engine r)) -> idle r.
Proof.
  intros Hev [Hb Hu] Er [acts Ht]. split; [by eapply try_handle_blank|congruence].
Qed.

Lemma start_interfaces_ok env now l : forall i r, (forall j, in_u64 (now j)) ->
  Forall (fun x => match x.1.2 with Some p => validate_interface_policy p = Ok tt | None => True end) l ->
  router_inv r -> idle r -> exists r', start_interfaces env now i l r = Some r' /\ router_inv r' /\ idle r'.
Proof.
  induction l as [|[[name configured] mac] l IH]; intros i r Ht Hl Hi Hd; simpl; [eauto|].
  apply list.Forall_cons in Hl as [Hc Hl]. set (r1 := set_sockets _ _ _ _).
  destruct (same_view_inv r r1) as [Hi1 _]; [by apply same_view_refl_like|done|].
  destruct (start_event_follows (env i) (InterfaceUpWithPolicy name
    (from_option so_addresses [] (sockets r !! name)) (default (default_policy r) configured) (now i)) r1 Hi1)
    as (r2 & -> & Hi2 & Hu & Hh); [destruct configured; [done|apply Hi]|apply Ht|]. simpl. apply IH; try done.
  eapply start_event_idle; [left; eauto 6|exact Hd|exact Hu|exact Hh].
Qed.

Lemma start_origins_ok env now l : forall i r, (forall j, in_u64 (now j)) ->
  Forall (fun x => validate_origin x.1 x.2 = Ok tt) l -> router_inv r -> idle r ->
  exists r', start_origins env now i l r = Some r' /\ router_inv r' /\ idle r'.
Proof.
  induction l as [|[k m] l IH]; intros i r Ht Hl Hi Hd; simpl; [eauto|].
  apply list.Forall_cons in Hl as [Hc Hl].
  destruct (start_event_follows (env i) (Originate k m (now i)) r Hi) as (r2 & -> & Hi2 & Hu & Hh); [done|apply Ht|].
  simpl. apply IH; try done. eapply start_event_idle; [right; eauto|exact Hd|exact Hu|exact Hh].
Qed.

Lemma validate_interfaces_ok l : forall seen, validate_interfaces seen l = Ok tt ->
  Forall (fun x => match x.1.2 with Some p => validate_interface_policy p = Ok tt | None => True end) l.
Proof.
  induction l as [|[[name p] mac] l IH]; intros seen H; simpl in H; [constructor|].
  case_bool_decide; [done|]. apply unit_bind in H as [Hp H]. constructor; [|by eapply IH].
  destruct p; [by apply router_policy_ok|done].
Qed.

Lemma validate_builder_origins_ok l : forall seen, validate_builder_origins seen l = Ok tt ->
  Forall (fun x => validate_origin x.1 x.2 = Ok tt) l.
Proof.
  induction l as [|[k m] l IH]; intros seen H; simpl in H; [constructor|].
  apply unit_bind in H as [Hp%router_origin_ok H]. case_bool_decide; [done|]. constructor; [done|by eapply IH].
Qed.

Lemma start_ok b via opened env now : validate_builder b = Ok tt -> (forall j, in_u64 (now j)) ->
  exists r, start b via opened env now = Some (Ok r) /\ router_inv r /\ synced r.
Proof.
  intros Hb Ht. unfold start. rewrite Hb. simpl. unfold validate_builder in Hb.
  case_bool_decide; [done|]. destruct (bd_router_id b) as [id|]; [simpl in *|done].
  apply unit_bind in Hb as [Hsel Hb]. apply unit_bind in Hb as [Hif Ho].
  assert (validate_selection (default default_route_selection (bd_route_selection b)) = Ok tt) as Hs
    by (by destruct (validate_selection _) as [[]|]).
  assert (exists e, Engine_try_new (engine_config b id via) = Ok e /\ host_of e = MkHost [] [] 0 (bd_sequence_number b))
    as (e & He & Hh).
  { unfold Engine_try_new, validate_config. simpl. rewrite Hs. simpl. by eexists. }
  rewrite He. set (r0 := MkRouter e opened _ ∅ _ _ _ _ _ _).
  assert (router_inv r0) as Hi0 by (split; [by eapply reach_new|done|]; unfold exports; simpl; by rewrite Hh).
  assert (idle r0) as Hd0 by (split; [by eapply new_blank|done]).
  destruct (start_interfaces_ok env now (bd_interfaces b) 0 r0 Ht (validate_interfaces_ok _ _ Hif) Hi0 Hd0)
    as (r1 & -> & Hi1 & Hd1). simpl.
  destruct (start_origins_ok env now (bd_origins b) (length (bd_interfaces b)) r1 Ht
    (validate_builder_origins_ok _ _ Ho) Hi1 Hd1) as (r2 & -> & Hi2 & [Hb2 Hu2]). simpl.
  eexists. split; [done|]. destruct Hi2 as [I1 I2 I3]. split; [by split|].
  split; [exact I3| |done|..]; simpl; pose proof (blank_host _ Hb2) as Hh2.
  - unfold host_snapshot. by rewrite Hh2.
  - symmetry. exact (f_equal h_generation Hh2).
  - symmetry. exact (f_equal (fun h => length (h_routes h)) Hh2).
Qed.
End Run.

(** C11. The router around the engine, in a build without overflow checks: a
    builder that validates starts, and from then on no tick, packet, socket
    failure or call of a handle makes the loop panic, since a handle checks
    local input before it reaches the engine.  The exporter is always given
    exactly the engine's RIB, and so are the route stream and the status, from the
    start on: start-up gives the engine interfaces and origins only, which leave
    the RIB empty and publish nothing. *)
Theorem router_follows_engine b via opened env now inputs :
  overflow_checks = false -> validate_builder b = Ok tt -> (forall j, in_u64 (now j)) ->
  Forall times_ok inputs ->
  exists r0 r, start b via opened env now = Some (Ok r0) /\ loop inputs r0 = Some r /\
    reachable (engine r) /\
    in_step (outputs r0) (host_of (engine r0)) /\ in_step (outputs r) (host_of (engine r)).
Proof.
  intros Hrel Hb Ht Hin. destruct (start_ok Hrel b via opened env now Hb Ht) as (r0 & H0 & Hi0 & Hs0).
  destruct (loop_follows Hrel inputs r0 r0 Hin Hi0 (fun x => x)) as (r & Hr & [H1 _ _] & Hs).
  exists r0, r. split_and!; try done. by apply Hs.
Qed.
End Theorems.
