(* ===== verification/RouterOutput.v ===== *)
(** The router together with the senders of its interfaces: the loop feeds the
    queues while the workers empty them, in any interleaving. *)
From S2P Require Import Prelude Net Mac Model Metric Wire WireDecode WireEncode Api EngineState Neighbors Engine Scheduler Sender SchedulerSpec SenderSpec SenderTheorems Router RouterLoop.
Import Hello.
Local Open Scope Z_scope.

(** * The channel of one sender *)

Section Channel.
Context {NL : IpNetLib}.

(** The channel holds no more than its capacity. *)
Definition channel_ok (cap : nat) (q : OutputQueue) : Prop :=
  capacity q = cap /\ (length (channel q) <= cap)%nat.

(** Steps that leave the channel alone or take its first item. *)
Definition channel_keeps (q q' : OutputQueue) : Prop :=
  capacity q' = capacity q /\ (length (channel q') <= length (channel q))%nat.

Lemma keeps_ok cap q q' : channel_keeps q q' -> channel_ok cap q -> channel_ok cap q'.
Proof. intros [H1 H2] [H3 H4]. split; [congruence|lia]. Qed.

Lemma sync_queue s : queue (sync_generation s) = queue s.
Proof. unfold sync_generation. by destruct (_ =? _). Qed.

Lemma purge_keeps s now : channel_keeps (queue s) (queue (purge s now)).
Proof.
  unfold purge. destruct (expire _ _) as [sch [b d]]. simpl.
  generalize (Z.to_nat d). induction n as [|n IH]; [done|exact IH].
Qed.

Lemma start_send_keeps s d send_ms ts : channel_keeps (queue s) (queue (start_send s d send_ms ts)).
Proof.
  unfold start_send. destruct (_ <=? _); [done|].
  destruct (_ <? _), (stamp_hello_timestamps _ _) as [bytes [u|x]]; done.
Qed.

Lemma turn_keeps s now pb send_ms ts : channel_keeps (queue s) (queue (turn s now pb send_ms ts)).
Proof.
  unfold turn. pose proof (purge_keeps (sync_generation s) now) as Hp. rewrite sync_queue in Hp.
  set (s1 := purge _ _) in *. clearbody s1.
  destruct (next_wake_ms _) as [w|]; [|exact Hp]. destruct (_ <=? _); [|exact Hp].
  destruct pb as [budget|]; [|exact Hp]. destruct (pop_due _ _ _) as [sch [[d|]|x]]; try exact Hp.
  destruct Hp as [H1 H2]. set (s2 := MkSystem _ _ _ _ _ _ _).
  destruct (start_send_keeps s2 d send_ms ts) as [H3 H4]. split; [by rewrite H3|]. simpl in *. lia.
Qed.

Lemma accept_keeps s item rest now : channel (queue s) = item :: rest ->
  channel_keeps (queue s) (queue (accept_item s item rest now)).
Proof.
  intros H. assert (forall q, same_queue (set_channel (queue s) rest) q -> capacity q = capacity (queue s) ->
    channel_keeps (queue s) q) as Hq.
  { intros q (Hc & _) Hcap. split; [done|]. rewrite Hc, H. simpl. lia. }
  unfold accept_item. set (s1 := set_queue s _). pose proof (sync_queue s1) as Hs.
  destruct (negb _); simpl; [rewrite Hs; by apply Hq|].
  destruct (_ <=? _); simpl; rewrite Hs; by apply Hq.
Qed.

Lemma submit_channel s a intent now s' queued cap : sys_submit s a intent now = (s', queued) ->
  channel_ok cap (queue s) -> channel_ok cap (queue s').
Proof.
  unfold sys_submit, submit. intros H [Hc Hl].
  destruct (_ && _); [destruct (open _ && _) eqn:E|]; injection H as <- <-; try done.
  apply andb_true_iff in E as [_ E%Nat.ltb_lt]. split; [done|]. simpl. rewrite length_app. simpl. lia.
Qed.

Lemma step_channel cap s l s' : sender_step s l s' -> channel_ok cap (queue s) -> channel_ok cap (queue s').
Proof.
  destruct 1; try done.
  - by eapply submit_channel.
  - apply keeps_ok. unfold log_losses. simpl. by destruct (_ && _).
  - intros [H1 H2]. split; [done|simpl; lia].
  - apply keeps_ok, turn_keeps.
  - by apply keeps_ok, accept_keeps.
Qed.

Lemma run_channel cap budget sd t log s : sender_run cap budget sd t log s -> channel_ok cap (queue s).
Proof.
  induction 1 as [|log s l s' _ IH Hs]; [split; [done|simpl; lia]|by eapply step_channel].
Qed.
End Channel.

(** * The router *)

Section Output.
Context {NL : IpNetLib} {MI : MetricImpl} {HO : HashOrder} {B : Build}.

(** A sender as the router starts it, after some steps. *)
Definition live_sender (s : System) : Prop :=
  exists sd t log, sender_run OUTPUT_QUEUE_CAPACITY OUTPUT_BUDGET_BYTES sd t log s.

Definition live (q : gmap string System) : Prop := map_Forall (fun _ => live_sender) q.

Lemma live_step s l s' : live_sender s -> sender_step s l s' -> live_sender s'.
Proof. intros (sd & t & log & H) Hs. exists sd, t. eexists. by eapply run_step. Qed.

Lemma live_submit s a intent now : live_sender s -> live_sender (sys_submit s a intent now).1.
Proof. intros H. eapply live_step; [exact H|]. eapply step_submit, surjective_pairing. Qed.

Lemma live_spawn name s t : live_sender (spawn_sender name s t).
Proof. do 3 eexists. constructor. Qed.

Lemma apply_action_live o env a : live (outbound o) -> live (outbound (apply_action o env a)).
Proof.
  intros H. destruct a as [|i d p t|g r u|q]; simpl; try done.
  - intros k s (s0 & <- & Hs0)%lookup_fmap_Some. eapply live_step; [by eapply H|constructor].
  - destruct (outbound o !! i) as [s|] eqn:E; [|done]. simpl. apply map_Forall_insert_2; [|done].
    apply live_submit. by eapply H.
Qed.

Lemma apply_from_live env acts : forall i o, live (outbound o) -> live (outbound (apply_from i env o acts)).
Proof. induction acts as [|a acts IH]; intros i o H; simpl; [done|]. by apply IH, apply_action_live. Qed.

Definition senders_live (r : Router) : Prop := live (outbound (outputs r)).

(** A computation of the loop that keeps the senders live. *)
Definition keeps_live (m : option Router) : Prop := forall r', m = Some r' -> senders_live r'.

Lemma stays_ret r : senders_live r -> keeps_live (Some r).
Proof. by intros H r' [= <-]. Qed.

Lemma stays_bind (m : option Router) f :
  keeps_live m -> (forall r, senders_live r -> keeps_live (f r)) -> keeps_live (r ← m; f r).
Proof. intros Hm Hf r' (r & Hr & H)%bind_Some. eapply Hf; [by apply Hm|done]. Qed.

Lemma dispatch_live env ev r : senders_live r -> keeps_live (dispatch env ev r).
Proof.
  intros H r'. unfold dispatch. destruct (engine_handle _ _) as [[acts e]|]; simpl; [|done].
  intros [= <-]. by apply apply_from_live.
Qed.

Lemma start_event_live env ev r : senders_live r -> keeps_live (start_event env ev r).
Proof.
  intros H r'. unfold start_event. destruct (engine_handle _ _) as [[acts e]|]; simpl; [|done].
  intros [= <-]. unfold senders_live. simpl. by apply apply_from_live.
Qed.

Lemma refresh_live r now : senders_live r -> keeps_live (refresh_neighbours r now).
Proof.
  intros H r'. unfold refresh_neighbours. destruct (neighbour_status _ _); simpl; [|done]. by intros [= <-].
Qed.

Lemma detach_live env i now r : senders_live r -> keeps_live (detach env i now r).
Proof.
  intros H. unfold detach. apply stays_bind; [|intros r1 H1; by apply stays_ret].
  apply dispatch_live. by apply map_Forall_delete.
Qed.

Lemma attach_live env i p s t now r : senders_live r -> keeps_live (attach env i p s t now r).
Proof.
  intros H. unfold attach. apply stays_bind; [|intros r1 H1; by apply stays_ret].
  apply dispatch_live. apply map_Forall_insert_2; [apply live_spawn|done].
Qed.

Lemma scan_live env clock lookup names : forall r, senders_live r ->
  keeps_live (scan_interfaces env clock lookup names r).
Proof.
  induction names as [|name names IH]; intros r H; simpl; [by apply stays_ret|].
  apply stays_bind; [|exact IH]. unfold scan_interface.
  destruct (lookup name), (sockets r !! name); try by apply stays_ret.
  case_bool_decide; [by apply stays_ret|]. by apply dispatch_live.
Qed.

Lemma tick_live env tenv clock lookup t r : senders_live r -> keeps_live (on_tick env tenv clock lookup t r).
Proof.
  intros H. unfold on_tick. apply stays_bind.
  { destruct (_ <=? _); [by apply scan_live|by apply stays_ret]. }
  intros r1 H1. apply stays_bind; [apply dispatch_live|intros r2 H2; apply stays_bind;
    [by apply refresh_live|intros r3 H3; by apply stays_ret]].
  set (r2 := set_sockets r1 _ _ _).
  assert (senders_live r2) as H2.
  { intros k s Hs. simpl in Hs. rewrite map_lookup_imap in Hs. apply bind_Some in Hs as (s0 & Hs0 & [= <-]).
    eapply live_step; [by eapply H1|constructor]. }
  clearbody r2. by destruct (_ && _).
Qed.

(** A result that is given outright. *)
Local Ltac ret_live := intros r'; simpl; intros [= <-]; done.

Lemma command_live env c opened t now r : senders_live r ->
  keeps_live ('(r', _) ← on_command env c opened t now r; Some r').
Proof.
  intros H.
  assert (forall (m : option Router) (f : Router -> Router * Reply), keeps_live m ->
    (forall r', outbound (outputs (f r').1) = outbound (outputs r')) ->
    keeps_live ('(r', _) ← (r' ← m; Some (f r')); Some r')) as Hk.
  { intros m f Hm Hf r'. destruct m as [r1|]; [|done]. simpl. specialize (Hf r1).
    destruct (f r1) as [r2 reply]. simpl in *. intros [= <-]. unfold senders_live. rewrite Hf. by apply Hm. }
  destruct c as [policy|key metric|key|ms|origins|i configured mac|i policy reset|i|]; simpl;
    try (apply (Hk _ (fun r => (r, _))); [by apply dispatch_live|done]).
  - ret_live.
  - case_bool_decide; [ret_live|]. destruct opened as [s|]; [|ret_live].
    by apply (Hk _ (fun r => (r, Replied (Ok tt)))); [apply attach_live|].
  - destruct (sockets r !! i) as [s|]; [|ret_live].
    case_bool_decide; simpl; [|ret_live].
    by apply (Hk _ (fun r' => (set_rstatus _ _, Replied (Ok tt)))); [apply dispatch_live|].
  - case_bool_decide; [|ret_live]. by apply (Hk _ (fun r => (r, Replied (Ok tt)))); [apply detach_live|].
  - by apply (Hk _ (fun r' => (set_rstatus r' _, StatusReply _))); [apply refresh_live|].
Qed.

Lemma loop_step_live i r : senders_live r -> keeps_live (loop_step i r).
Proof.
  intros H. destruct i as [env tenv clock lookup t|env i so src bytes ts now st|env i so now st|env c opened t now];
    simpl.
  - by apply tick_live.
  - unfold on_packet. case_bool_decide; [|by apply stays_ret].
    destruct (decode_packet bytes src); [|by apply stays_ret].
    apply stays_bind; [by apply dispatch_live|]. intros r1 H1. by apply refresh_live.
  - unfold on_failed. case_bool_decide; [|by apply stays_ret].
    apply stays_bind; [by apply detach_live|]. intros r1 H1. by apply refresh_live.
  - destruct (issue c); [by apply command_live|by apply stays_ret].
Qed.

Lemma start_interfaces_live env now l : forall i r, senders_live r -> keeps_live (start_interfaces env now i l r).
Proof.
  induction l as [|[[name p] mac] l IH]; intros i r H; simpl; [by apply stays_ret|].
  apply stays_bind; [by apply start_event_live|]. intros r1 H1. by apply IH.
Qed.

Lemma start_origins_live env now l : forall i r, senders_live r -> keeps_live (start_origins env now i l r).
Proof.
  induction l as [|[k m] l IH]; intros i r H; simpl; [by apply stays_ret|].
  apply stays_bind; [by apply start_event_live|]. intros r1 H1. by apply IH.
Qed.

Lemma start_live b via opened env now r : start b via opened env now = Some (Ok r) -> senders_live r.
Proof.
  unfold start. destruct (_ ← validate_builder b; _) as [id|]; [|done].
  destruct (Engine_try_new _) as [e|]; [|done]. set (r0 := MkRouter e opened _ _ _ _ _ _ _ _).
  intros (r1 & H1 & (r2 & H2 & [= <-])%bind_Some)%bind_Some.
  assert (senders_live r0) as H0.
  { intros k s Hs. simpl in Hs. rewrite map_lookup_imap in Hs. apply bind_Some in Hs as (s0 & _ & [= <-]).
    apply live_spawn. }
  apply (start_interfaces_live _ _ _ _ _ H0) in H1. by apply (start_origins_live _ _ _ _ _ H1) in H2.
Qed.

(** The router runs: an input of the loop, or a step of the worker that serves
    one of its interfaces. *)
Inductive router_step (r : Router) : Router -> Prop :=
| router_input i r' : loop_step i r = Some r' -> router_step r r'
| router_worker name s l s' :
    outbound (outputs r) !! name = Some s -> sender_step s l s' ->
    router_step r (set_sockets r (sockets r) (<[name := s']> (outbound (outputs r))) (policies r)).

Lemma router_steps_live r r' : rtc router_step r r' -> senders_live r -> senders_live r'.
Proof.
  induction 1 as [|r r1 r2 Hs _ IH]; [done|]. intros H. apply IH. destruct Hs as [i r1 Hi|name s l s' Hn Hs].
  - by eapply loop_step_live.
  - apply map_Forall_insert_2; [|done]. eapply live_step; [by eapply H|done].
Qed.

(** C16. The router never hoards output: however its inputs interleave with the
    steps of the workers that send, every interface it serves has its own
    budget of 16 MiB, within which the charges of everything queued, scheduled
    and in flight stay, and at most 256 batches wait in its channel. *)
Theorem router_output_bounded b via opened env now r0 r name s :
  start b via opened env now = Some (Ok r0) -> rtc router_step r0 r ->
  outbound (outputs r) !! name = Some s ->
  0 <= st_used_bytes (status (queue s) (available_permits s)) <= OUTPUT_BUDGET_BYTES /\
  (length (channel (queue s)) <= OUTPUT_QUEUE_CAPACITY)%nat.
Proof.
  intros H0 Hr Hs. apply start_live in H0. apply (router_steps_live _ _ Hr) in H0.
  destruct (H0 name s Hs) as (sd & t & log & Hrun).
  assert (0 <= OUTPUT_BUDGET_BYTES) as Hb by done. split; [|apply (run_channel _ _ _ _ _ _ Hrun)].
  by eapply run_used_bounds.
Qed.
End Output.
