(* ===== verification/RouterDemo.v ===== *)
(** Concrete runs of the sender and the router, on which the theorems about
    them are applied. *)
From S2P Require Import Prelude Net Mac Model Metric Wire WireEncode Api EngineState Engine Invariant Demo Scheduler Sender SchedulerSpec SenderSpec SenderTheorems Router RouterLoop BatchSpec RouterTheorems RouterOutput.
Import Hello.
Local Open Scope Z_scope.

#[local] Existing Instance demo_net.
#[local] Existing Instance demo_metrics.
#[local] Existing Instance demo_order.
#[local] Existing Instance release_build.

(** * A sender *)

Definition demo_alloc : Alloc := MkAlloc 100 50 (fun l => N.of_nat (length l)) (fun l => N.of_nat (length l))
  (fun l => N.of_nat (length l)).
Definition demo_timing : SendTiming := MkSendTiming 10 4.
Definition demo_intent : OutboundIntent := MkIntent peer_address (MkOutboundPacket [OAck 7]) demo_timing.
Definition no_totals : OutputCounters := MkOutputCounters 0 0.

(** One intent is submitted, received, packetized and about to be sent. *)
Definition sender0 : System := sender_new 4 100000 1 no_totals.
Definition sender1 : System := (sys_submit sender0 demo_alloc demo_intent 0).1.
Definition demo_queued : QueuedIntent :=
  queued_intent (queue sender0) demo_intent 0 (MkPermit 0 (packet_charge demo_alloc (it_packet demo_intent))).
Definition sender2 : System := turn sender1 0 None 0 0.
Definition sender3 : System := accept_item sender2 demo_queued [] 1.
Definition sender4 : System := turn sender3 20 (Some 1280%nat) 20 5.
Definition sent_datagram : ScheduledDatagram :=
  match phase sender4 with Sending d _ => d | _ => MkScheduled peer_address [] 0 0 [] end.
Definition sent_deadline : Z := match phase sender4 with Sending _ t => t | _ => 0 end.

Lemma demo_submit : sys_submit sender0 demo_alloc demo_intent 0 = (sender1, Some demo_queued).
Proof. vm_cast_no_check (eq_refl (sender1, Some demo_queued)). Qed.

Lemma demo_sender_run : sender_run 4 100000 1 no_totals [demo_queued] sender4.
Proof.
  assert (sender_run 4 100000 1 no_totals [demo_queued] sender1) as H1.
  { apply (run_step _ _ _ _ [] sender0 (Queued demo_queued) sender1); [constructor|].
    apply (step_submit sender0 demo_alloc demo_intent 0 sender1 (Some demo_queued) demo_submit). }
  assert (sender_run 4 100000 1 no_totals [demo_queued] sender2) as H2.
  { apply (run_step _ _ _ _ [demo_queued] sender1 Tau sender2 H1). by apply step_turn. }
  assert (sender_run 4 100000 1 no_totals [demo_queued] sender3) as H3.
  { apply (run_step _ _ _ _ [demo_queued] sender2 Tau sender3 H2). by eapply step_receive. }
  apply (run_step _ _ _ _ [demo_queued] sender3 Tau sender4 H3). by apply step_turn.
Qed.

Lemma demo_phase : phase sender4 = Sending sent_datagram sent_deadline.
Proof. vm_cast_no_check (eq_refl (Sending sent_datagram sent_deadline)). Qed.

Lemma demo_sent : sender_step sender4 (Sent 21 sent_datagram) (finish_send sender4 (queue sender4)).
Proof.
  apply (step_poll_sent sender4 sent_datagram sent_deadline 21 demo_phase).
  vm_cast_no_check (eq_refl (Some PollSent)).
Qed.

Lemma output_budget_held_witness :
  0 <= st_used_bytes (status (queue sender4) (available_permits sender4)) <= 100000 /\
  (available_permits sender4 < packet_charge demo_alloc (it_packet demo_intent) ->
   (sys_submit sender4 demo_alloc demo_intent 30).2 = None /\
   queue (sys_submit sender4 demo_alloc demo_intent 30).1 =
     count_rejected (queue sender4) (Z.of_nat (length (out_tlvs (it_packet demo_intent))))).
Proof.
  apply (output_budget_held 4 100000 1 no_totals [demo_queued] sender4 demo_alloc demo_intent 30);
    [lia|exact demo_sender_run].
Defined.

Lemma sent_output_sound_witness : exists qs raw timestamp,
  qs <> [] /\
  Forall (fun q => q ∈ [demo_queued] /\ it_destination (qi_intent q) = sd_destination sent_datagram /\
            qi_generation q = Scheduler.generation (queue sender4) /\ 21 < qi_expires_ms q /\ expiry_ok q) qs /\
  encoded qs raw /\ stamp_hello_timestamps raw timestamp = (sd_bytes sent_datagram, Ok tt).
Proof.
  apply (sent_output_sound 4 100000 1 no_totals [demo_queued] sender4 21 sent_datagram
    (finish_send sender4 (queue sender4))); [lia|exact demo_sender_run|exact demo_sent].
Defined.

Lemma scheduler_wakes_witness :
  let r := pop_due (scheduler sender3) 0 1280 in
  ((next_wake_ms (scheduler sender3) = None \/ exists w, next_wake_ms (scheduler sender3) = Some w /\ 0 < w) ->
     r.1 = scheduler sender3 /\ r.2 = Ok None) /\
  (r.2 = Ok None -> forall w, next_wake_ms r.1 = Some w -> 0 < w) /\
  (forall d, r.2 = Ok (Some d) -> (next_send_ms (scheduler sender3) <= 0 \/ sd_deadline_ms d <= 0) /\
     next_send_ms r.1 = saturating_add64 0 (pacing_ms (scheduler sender3))).
Proof. exact (scheduler_wakes (scheduler sender3) 0 1280 _ _ (surjective_pairing _)). Defined.

Lemma enqueue_jitter_witness :
  let s := scheduler sender0 in
  let s' := enqueue s demo_queued 1 in
  in_u64 (random s') /\ random s' <> 0 /\
  exists l1 old b l2, pending s = l1 ++ option_list old ++ l2 /\ pending s' = l1 ++ b :: l2 /\
    pb_destination b = peer_address /\
    pb_tlvs b = from_option pb_tlvs [] old ++ intent_tlvs demo_queued /\
    Z.min 1 (from_option pb_release_ms 1 old) <= pb_release_ms b /\
    pb_release_ms b <= 1 + max_jitter_ms demo_timing /\
    pb_release_ms b <= Z.max 1 (deadline_ms demo_timing - DEADLINE_MARGIN_MS) /\
    pb_deadline_ms b <= deadline_ms demo_timing /\ pb_expires_ms b <= qi_expires_ms demo_queued.
Proof.
  apply (enqueue_jitter (scheduler sender0) demo_queued 1 demo_timing eq_refl);
    [by split|by split|by split|by split|done].
Defined.

(** * A router *)

Definition demo_builder : option BabelRouterBuilder :=
  id ← own_id; profile ← demo_profile;
  Some (with_router_id id (builder profile)).

Definition demo_socket : Socket := MkSocket 1 TransportIpv6 2 [own_address].
Definition demo_env : Env := fun _ => (demo_alloc, 100).
Definition demo_clock (t : Z) : TickClock := MkTickClock t t (fun _ => t) t t (fun _ => t) t t.

Definition demo_inputs : list Input :=
  [ICall demo_env (CallAddInterface "eth0") (Some demo_socket) no_totals 1000;
   ITick (fun _ => demo_env) demo_env (demo_clock 1100) (fun _ => Some [own_address]) no_totals;
   IFailed demo_env "eth0" 1 1200 1200].

Lemma demo_inputs_ok : Forall times_ok demo_inputs.
Proof.
  repeat (apply list.Forall_cons; split; [simpl; unfold in_u64, u64_max; try split; intros; lia|]). done.
Qed.

Lemma demo_builder_some : exists b, demo_builder = Some b /\ validate_builder b = Ok tt.
Proof.
  assert (succeeds demo_builder = true) as (b & E)%succeeds_Some by (vm_compute; reflexivity).
  exists b. split; [exact E|]. unfold demo_builder in E. apply bind_Some in E as (id & _ & E). apply bind_Some in E as (p & _ & E).
  apply (inj Some) in E. by rewrite <- E.
Qed.

Lemma router_follows_engine_witness : exists b r0 r, demo_builder = Some b /\
  start b true ∅ (fun _ => demo_env) (fun _ => 900) = Some (Ok r0) /\ loop demo_inputs r0 = Some r /\
  reachable (engine r) /\ in_step (outputs r0) (host_of (engine r0)) /\ in_step (outputs r) (host_of (engine r)).
Proof.
  destruct demo_builder_some as (b & Hb & Hv).
  destruct (router_follows_engine b true ∅ (fun _ => demo_env) (fun _ => 900) demo_inputs eq_refl Hv
    (fun _ => conj (Zle_bool_imp_le 0 900 eq_refl) (Zle_bool_imp_le 900 u64_max eq_refl)) demo_inputs_ok)
    as (r0 & r & H).
  exists b, r0, r. exact (conj Hb H).
Defined.

(** The interface is added and its worker takes its first turn. *)
Definition add_eth0 : Input := ICall demo_env (CallAddInterface "eth0") (Some demo_socket) no_totals 1000.
Definition started (b : BabelRouterBuilder) : option Router :=
  r ← start b true ∅ (fun _ => demo_env) (fun _ => 900); match r with Ok r => Some r | Err _ => None end.

Lemma demo_interface : exists b r0 r s, demo_builder = Some b /\
  start b true ∅ (fun _ => demo_env) (fun _ => 900) = Some (Ok r0) /\
  loop_step add_eth0 r0 = Some r /\ outbound (outputs r) !! "eth0" = Some s /\ phase s = Top.
Proof.
  assert (succeeds (b ← demo_builder; r0 ← started b; r ← loop_step add_eth0 r0;
    s ← outbound (outputs r) !! "eth0"; match phase s with Top => Some tt | _ => None end) = true)
    as (u & (b & Hb & (r0 & H0 & (r & Hr & (s & Hs & Hp)%bind_Some)%bind_Some)%bind_Some)%bind_Some)%succeeds_Some
    by (vm_compute; reflexivity).
  apply bind_Some in H0 as ([r0'|] & H0 & E); [|done]. injection E as ->.
  exists b, r0, r, s. split_and!; try done. by destruct (phase s).
Qed.

Lemma router_output_bounded_witness : exists (r : Router) s, outbound (outputs r) !! "eth0" = Some s /\
  0 <= st_used_bytes (Scheduler.status (queue s) (available_permits s)) <= OUTPUT_BUDGET_BYTES /\
  (length (channel (queue s)) <= OUTPUT_QUEUE_CAPACITY)%nat.
Proof.
  destruct demo_interface as (b & r0 & r & s & _ & H0 & Hr & Hs & Hp).
  set (s' := turn s 1000 None 1000 0).
  set (r' := set_sockets r (sockets r) (<["eth0" := s']> (outbound (outputs r))) (policies r)).
  assert (outbound (outputs r') !! "eth0" = Some s') as Hs' by apply lookup_insert_eq.
  exists r', s'. split; [exact Hs'|].
  apply (router_output_bounded b true ∅ (fun _ => demo_env) (fun _ => 900) r0 r' "eth0" s' H0); [|exact Hs'].
  apply (rtc_l _ _ r); [by apply (router_input _ add_eth0)|]. apply rtc_once.
  eapply router_worker; [exact Hs|]. by apply step_turn.
Defined.
