(* ===== verification/Filters.v ===== *)
(** Interface patterns ([wildcard_match] of the daemon's [config.rs]) and
    declarative route filters ([policy.rs]): rules with prefix,
    interface, neighbour and origin conditions, of which the first that
    matches decides.  Messages of [validate] are an error type. *)
From S2P Require Import Prelude Net Model.
Local Open Scope Z_scope.

(** * Interface patterns *)

Definition STAR : byte := b8 42.
Definition QUESTION : byte := b8 63.

(** [current[1..]] of one token, from the row before it and the value: [left]
    is [current[index - 1]], [diagonal] is [previous[index - 1]] and [above]
    the rest of [previous]. *)
Fixpoint match_cells (token : byte) (left diagonal : bool) (above : list bool) (value : list byte)
    : list bool :=
  match value, above with
  | b :: value', up :: above' =>
      let cell :=
        if bool_decide (token = STAR) then up || left
        else if bool_decide (token = QUESTION) then diagonal
        else diagonal && bool_decide (token = b) in
      cell :: match_cells token cell up above' value'
  | _, _ => []
  end.

(** One row of the table: the prefixes of the value matched after [token]. *)
Definition match_row (token : byte) (previous : list bool) (value : list byte) : list bool :=
  match previous with
  | [] => []
  | p0 :: above =>
      let c0 := bool_decide (token = STAR) && p0 in
      c0 :: match_cells token c0 p0 above value
  end.

Definition wildcard_bytes (pattern value : list byte) : bool :=
  let first := true :: replicate (length value) false in
  let row := fold_left (fun previous token => match_row token previous value) pattern first in
  nth (length value) row false.

Definition wildcard_match (pattern value : string) : bool :=
  wildcard_bytes (String.list_byte_of_string pattern) (String.list_byte_of_string value).

(** * Meaning *)

(** [*] stands for any bytes, [?] for one byte, any other byte for itself. *)
Inductive glob : list byte -> list byte -> Prop :=
| glob_nil : glob [] []
| glob_star p v w : glob p w -> glob (STAR :: p) (v ++ w)
| glob_question p b v : glob p v -> glob (QUESTION :: p) (b :: v)
| glob_literal p b v : b <> STAR -> b <> QUESTION -> glob p v -> glob (b :: p) (b :: v).

Lemma STAR_QUESTION : STAR <> QUESTION.
Proof. intros H%(f_equal u8). vm_compute in H. done. Qed.

(** The rows are read from the left: patterns grow at their end. *)
Lemma glob_app p q v w : glob p v -> glob q w -> glob (p ++ q) (v ++ w).
Proof.
  intros H Hq. induction H as [|p v w' _ IH|p b v _ IH|p b v H1 H2 _ IH]; simpl; [done| | |].
  - rewrite <- app_assoc. by constructor.
  - by constructor.
  - by constructor.
Qed.

Lemma glob_split p q x : glob (p ++ q) x -> exists v w, x = v ++ w /\ glob p v /\ glob q w.
Proof.
  revert x. induction p as [|t p IH]; intros x H; simpl in H.
  - exists [], x. split_and!; [done|constructor|done].
  - inversion H as [|p' v w Hg|p' b v Hg|p' b v Hs Hq Hg]; subst.
    + apply IH in Hg as (v' & w' & -> & H1 & H2). exists (v ++ v'), w'. rewrite app_assoc.
      split_and!; [done|by constructor|done].
    + apply IH in Hg as (v' & w' & -> & H1 & H2). exists (b :: v'), w'. split_and!; [done|by constructor|done].
    + apply IH in Hg as (v' & w' & -> & H1 & H2). exists (t :: v'), w'. split_and!; [done|by constructor|done].
Qed.

(** What one token matches. *)
Lemma glob_one t v : glob [t] v <-> t = STAR \/ (t <> STAR /\ exists b, v = [b] /\ (t = QUESTION \/ t = b)).
Proof.
  split.
  - inversion 1 as [|p' v' w Hg|p' b v' Hg|p' b v' Hs Hq Hg]; subst; [by left| |];
      inversion Hg; subst; right; split; eauto using STAR_QUESTION.
  - intros [->|(Hs & b & -> & Ht)].
    + rewrite <- (app_nil_r v). constructor. constructor.
    + destruct (decide (t = QUESTION)) as [->|Hq]; [by repeat constructor|]. destruct Ht as [->| ->]; [done|].
      by repeat constructor.
Qed.

(** The row of a pattern: which prefixes of the value it matches. *)
Definition row_ok (p value : list byte) (row : list bool) : Prop :=
  length row = S (length value) /\
  forall i, (i <= length value)%nat -> nth i row false = true <-> glob p (take i value).

(** A pattern with one more token, prefix by prefix. *)
Lemma glob_snoc p t v : glob (p ++ [t]) v <->
  if bool_decide (t = STAR) then exists i, (i <= length v)%nat /\ glob p (take i v)
  else exists w b, v = w ++ [b] /\ glob p w /\ (t = QUESTION \/ t = b).
Proof.
  split.
  - intros (v' & w & -> & Hp & Ht%glob_one)%glob_split. case_bool_decide as E.
    + exists (length v'). rewrite length_app, take_app_length. split; [lia|done].
    + destruct Ht as [?|(_ & b & -> & ?)]; [done|]. eauto.
  - case_bool_decide as E.
    + intros (i & Hi & Hp). rewrite <- (take_drop i v). apply glob_app; [done|]. apply glob_one. by left.
    + intros (w & b & -> & Hp & Ht). apply glob_app; [done|]. apply glob_one. right. eauto.
Qed.

Lemma length_match_cells token above value : length above = length value ->
  forall left diag, length (match_cells token left diag above value) = length value.
Proof.
  revert above. induction value as [|b value IH]; intros [|up above] H left diag; simpl in *; try done.
  rewrite IH; [done|lia].
Qed.

(** The cells behind position [k], where the row before is that of [p]. *)
Lemma match_cells_ok p token pre rest above left diag :
  length above = length rest ->
  (diag = true <-> glob p pre) -> (left = true <-> glob (p ++ [token]) pre) ->
  (forall i, (i < length rest)%nat -> nth i above false = true <-> glob p (pre ++ take (S i) rest)) ->
  forall i, (i < length rest)%nat ->
    nth i (match_cells token left diag above rest) false = true <->
    glob (p ++ [token]) (pre ++ take (S i) rest).
Proof.
  revert pre above left diag. induction rest as [|b rest IH]; intros pre [|up above] left diag Hl Hd Hlf Hab i Hi;
    simpl in Hl, Hi; try lia.
  set (cell := if bool_decide (token = STAR) then up || left
               else if bool_decide (token = QUESTION) then diag else diag && bool_decide (token = b)).
  assert (up = true <-> glob p (pre ++ [b])) as Hup by (apply (Hab 0%nat); simpl; lia).
  assert (cell = true <-> glob (p ++ [token]) (pre ++ [b])) as Hcell.
  { rewrite glob_snoc. subst cell. case_bool_decide as Es.
    - rewrite orb_true_iff, Hup, Hlf, glob_snoc, bool_decide_true by done. rewrite length_app. simpl. split.
      + intros [H|(j & Hj & H)].
        * exists (length pre + 1)%nat. split; [lia|]. rewrite take_ge by (rewrite length_app; simpl; lia). done.
        * exists j. split; [lia|]. by rewrite take_app_le by lia.
      + intros (j & Hj & H). destruct (decide (j <= length pre)%nat) as [Hle|Hgt].
        * right. exists j. split; [done|]. by rewrite take_app_le in H by lia.
        * left. by rewrite take_ge in H by (rewrite length_app; simpl; lia).
    - assert ((exists w c, pre ++ [b] = w ++ [c] /\ glob p w /\ (token = QUESTION \/ token = c)) <->
              diag = true /\ (token = QUESTION \/ token = b)) as ->.
      { rewrite Hd. split.
        - intros (w & c & E & Hp & Ht). apply app_inj_tail in E as [-> ->]. done.
        - intros [Hp Ht]. exists pre, b. done. }
      case_bool_decide as Eq; [tauto|]. rewrite andb_true_iff, bool_decide_eq_true. tauto. }
  cbn [match_cells]. fold cell. destruct i as [|i]; [exact Hcell|]. cbn [nth].
  rewrite (IH (pre ++ [b]) above cell up); [|lia|done|done| |lia].
  - rewrite <- app_assoc. done.
  - intros j Hj. rewrite <- app_assoc. apply (Hab (S j)). simpl. lia.
Qed.

Lemma match_row_ok p token value previous :
  row_ok p value previous -> row_ok (p ++ [token]) value (match_row token previous value).
Proof.
  intros [Hl Hr]. destruct previous as [|p0 above]; [done|]. simpl in Hl. injection Hl as Hl. unfold match_row.
  assert (p0 = true <-> glob p []) as H0 by (apply (Hr 0%nat); lia).
  assert (bool_decide (token = STAR) && p0 = true <-> glob (p ++ [token]) []) as Hc.
  { rewrite andb_true_iff, H0, glob_snoc, bool_decide_eq_true. case_bool_decide as E.
    - split; [intros [_ H]; exists 0%nat; split; [simpl; lia|done]|]. intros (i & _ & H). by rewrite take_nil in H.
    - split; [by intros [? _]|]. intros (w & b & E' & _). by destruct w. }
  split; [simpl; by rewrite length_match_cells|]. intros [|i] Hi; [exact Hc|]. cbn [nth].
  apply (match_cells_ok p token [] value above); try done. intros j Hj. apply (Hr (S j)). lia.
Qed.

Lemma wildcard_row pattern value :
  row_ok pattern value (fold_left (fun previous token => match_row token previous value) pattern
    (true :: replicate (length value) false)).
Proof.
  induction pattern as [|t p IH] using rev_ind.
  - simpl. split; [simpl; by rewrite length_replicate|]. intros [|i] Hi; simpl.
    + split; [intros _; constructor|done].
    + assert (nth i (replicate (length value) false) false = false) as ->.
      { clear. revert i. induction (length value) as [|n IH]; intros [|i]; simpl; auto. }
      split; [done|]. destruct value; [simpl in Hi; lia|]. inversion 1.
  - rewrite fold_left_app. by apply match_row_ok.
Qed.

(** C24. Interface patterns mean what they should: [wildcard_match], which fills
    a table row by row, accepts exactly the names obtained from the pattern by
    replacing each [*] with any bytes and each [?] with one byte. *)
Theorem wildcard_match_iff pattern value :
  wildcard_match pattern value = true <->
  glob (String.list_byte_of_string pattern) (String.list_byte_of_string value).
Proof.
  unfold wildcard_match, wildcard_bytes. set (v := String.list_byte_of_string value).
  destruct (wildcard_row (String.list_byte_of_string pattern) v) as [_ H].
  rewrite H by lia. by rewrite take_ge by lia.
Qed.

(** * Filters *)

Inductive FilterAction := Allow | Deny.
Inductive MatchMode := Exact | Within.
Inductive Stage := StageImport | StageAnnounce | StageInstall.

#[global] Instance FilterAction_eq_dec : EqDecision FilterAction.
Proof. solve_decision. Defined.
#[global] Instance MatchMode_eq_dec : EqDecision MatchMode.
Proof. solve_decision. Defined.
#[global] Instance Stage_eq_dec : EqDecision Stage.
Proof. solve_decision. Defined.

(** The condition of a rule that [validate] refuses. *)
Inductive RuleProblem :=
| MixedFamilies
| EmptyPattern
| NeighborOutsideImport
| OriginOutsideAnnounce
| InterfacesInInstall.

(** [rule {index + 1}: ...]. *)
Record FilterError := MkFilterError { fe_rule : nat; fe_problem : RuleProblem }.

Section Filters.
Context {NL : IpNetLib} {NC : NetContains}.

Record PrefixMatch := MkPrefixMatch { prefix : IpNet; mode : MatchMode }.

#[global] Instance PrefixMatch_eq_dec : EqDecision PrefixMatch.
Proof. solve_decision. Defined.

Record Rule := MkRule {
  action : FilterAction;
  rule_source : option PrefixMatch;
  rule_destination : option PrefixMatch;
  rule_interfaces : option (list string);
  rule_neighbor : option IpAddr;
  rule_locally_originated : option bool
}.

#[global] Instance Rule_eq_dec : EqDecision Rule.
Proof. solve_decision. Defined.

Record Filter := MkFilter { default_action : FilterAction; rules : list Rule }.

#[global] Instance Filter_eq_dec : EqDecision Filter.
Proof. solve_decision. Defined.

Definition default_filter : Filter := MkFilter Allow [].

Record Policies := MkPolicies { pol_import : Filter; pol_announce : Filter }.

(** [PrefixMatch::matches]. *)
Definition matches (m : PrefixMatch) (p : IpNet) : bool :=
  match mode m with
  | Exact => bool_decide (prefix m = p)
  | Within => net_contains (prefix m) p
  end.

(** [Filter::normalize]: the prefixes of the rules lose their host bits. *)
Definition normalize_match (m : PrefixMatch) : PrefixMatch := MkPrefixMatch (net_trunc (prefix m)) (mode m).
Definition normalize_rule (r : Rule) : Rule :=
  MkRule (action r) (normalize_match <$> rule_source r) (normalize_match <$> rule_destination r)
    (rule_interfaces r) (rule_neighbor r) (rule_locally_originated r).
Definition normalize (f : Filter) : Filter :=
  MkFilter (default_action f) (map normalize_rule (rules f)).

(** What [validate] holds against a rule. *)
Definition rule_problem (stage : Stage) (r : Rule) : option RuleProblem :=
  if match rule_source r, rule_destination r with
     | Some s, Some d => negb (Bool.eqb (net_is_ipv4 (prefix s)) (net_is_ipv4 (prefix d)))
     | _, _ => false
     end
  then Some MixedFamilies
  else if match rule_interfaces r with
          | Some names => bool_decide (names = []) || existsb (fun name => bool_decide (name = ""%string)) names
          | None => false
          end
  then Some EmptyPattern
  else if bool_decide (is_Some (rule_neighbor r)) && negb (bool_decide (stage = StageImport))
  then Some NeighborOutsideImport
  else if bool_decide (is_Some (rule_locally_originated r)) && negb (bool_decide (stage = StageAnnounce))
  then Some OriginOutsideAnnounce
  else if bool_decide (is_Some (rule_interfaces r)) && bool_decide (stage = StageInstall)
  then Some InterfacesInInstall
  else None.

Fixpoint validate_rules (stage : Stage) (index : nat) (l : list Rule) : result FilterError unit :=
  match l with
  | [] => Ok tt
  | r :: rest =>
      match rule_problem stage r with
      | Some problem => Err (MkFilterError (S index) problem)
      | None => validate_rules stage (S index) rest
      end
  end.

Definition validate_filter (f : Filter) (stage : Stage) : result FilterError unit :=
  validate_rules stage 0 (rules f).

(** [IpNet::new(unspecified, 0).expect(...)]: a length of zero always works. *)
Definition zero_source (v4 : bool) : IpNet :=
  if v4
  then NetV4 (is_Some_proj (v4net_new_total (ipv4 0 0 0 0) 0 ltac:(lia)))
  else NetV6 (is_Some_proj (v6net_new_total (ipv6 [0; 0; 0; 0; 0; 0; 0; 0]) 0 ltac:(lia))).

(** Whether a rule applies; an absent condition holds of everything. *)
Definition rule_applies (r : Rule) (source : IpNet) (key : RouteKey) (interface : option string)
    (neighbor : option IpAddr) (locally_originated : option bool) : bool :=
  from_option (fun m => matches m source) true (rule_source r)
  && from_option (fun m => matches m (destination key)) true (rule_destination r)
  && from_option (fun patterns =>
       from_option (fun name => existsb (fun p => wildcard_match p name) patterns) false interface)
       true (rule_interfaces r)
  && from_option (fun address => bool_decide (neighbor = Some address)) true (rule_neighbor r)
  && from_option (fun local => bool_decide (locally_originated = Some local)) true
       (rule_locally_originated r).

(** [Filter::allows]: the first rule that applies decides. *)
Definition allows (f : Filter) (key : RouteKey) (interface : option string) (neighbor : option IpAddr)
    (locally_originated : option bool) : bool :=
  let source := default (zero_source (net_is_ipv4 (destination key))) (source key) in
  bool_decide
    (from_option action (default_action f)
       (List.find (fun r => rule_applies r source key interface neighbor locally_originated) (rules f))
     = Allow).

Definition allows_key (f : Filter) (key : RouteKey) : bool := allows f key None None None.
End Filters.
