(* ===== verification/DaemonConfig.v ===== *)
(** Configuration of the daemon ([config.rs]): what the TOML file holds, its
    normalization and validation, and the interface policies, origins and
    export views derived from it.

    Deserialization of the file is [toml] and [serde]; the model starts from
    the deserialized record.  [read_file] is the content of a key file. *)
From S2P Require Import Prelude Net Model Metric Wire Api Mac Filters.
Local Open Scope Z_scope.

Inductive ShutdownPolicy := ShutdownClear | ShutdownRetain.
Inductive LinkType := LinkWired | LinkWireless | LinkTunnel.

#[global] Instance LinkType_eq_dec : EqDecision LinkType.
Proof. solve_decision. Defined.

Record Limits := MkLimits {
  l_max_neighbors : option nat;
  l_max_candidates : option nat;
  l_max_candidates_per_neighbor : option nat
}.

(** [Limits::effective]. *)
Definition effective_limits (l : Limits) : ResourceLimits := {|
  max_neighbors := default (max_neighbors default_limits) (l_max_neighbors l);
  max_candidates := default (max_candidates default_limits) (l_max_candidates l);
  max_candidates_per_neighbor :=
    default (max_candidates_per_neighbor default_limits) (l_max_candidates_per_neighbor l)
|}.

(** * Metrics *)

Inductive BaseMetricConfig :=
| BaseWired (nominal_cost received window : Z)
| BaseEtx (window : Z).

Inductive MetricConfig :=
| ConfWired (nominal_cost received window : Z)
| ConfEtx (window : Z)
| ConfRtt (base : BaseMetricConfig) (probe_interval_ms : Z) (half_life_ms : option Z)
    (min_rtt_ms max_rtt_ms max_penalty : Z).

#[global] Instance BaseMetricConfig_eq_dec : EqDecision BaseMetricConfig.
Proof. solve_decision. Defined.
#[global] Instance MetricConfig_eq_dec : EqDecision MetricConfig.
Proof. solve_decision. Defined.

Definition default_base : BaseMetricConfig := BaseWired DEFAULT_NOMINAL_COST DEFAULT_RECEIVED DEFAULT_WINDOW.
Definition default_metric : MetricConfig := ConfWired DEFAULT_NOMINAL_COST DEFAULT_RECEIVED DEFAULT_WINDOW.

Definition for_link_type (link_type : LinkType) : MetricConfig :=
  match link_type with
  | LinkWired => default_metric
  | LinkWireless => ConfEtx ETX_DEFAULT_WINDOW
  | LinkTunnel =>
      ConfRtt default_base Rtt.DEFAULT_PROBE_INTERVAL_MS None (Rtt.DEFAULT_MIN_RTT_US / 1000)
        (Rtt.DEFAULT_MAX_RTT_US / 1000) Rtt.DEFAULT_MAX_PENALTY
  end.

(** [RouteSelection], whose [From] is the identity on its fields. *)
Abbreviation RouteSelection := RouteSelectionConfig.

Definition DEFAULT_HELLO_INTERVAL_CS : Z := 400.

Definition default_shutdown_timeout_ms : Z := 5000.
Definition default_restart_recovery_seconds : Z := 240.
Definition default_protocol : Z := 203.
Definition default_source_table_base : Z := 1000000.
Definition default_source_rule_priority : Z := 10000.

(** * Key files *)

(** One hexadecimal digit ([char::to_digit(16)]). *)
Definition hex_digit (b : byte) : option Z :=
  let c := u8 b in
  if (48 <=? c) && (c <=? 57) then Some (c - 48)
  else if (97 <=? c) && (c <=? 102) then Some (c - 87)
  else if (65 <=? c) && (c <=? 70) then Some (c - 55)
  else None.

(** The octets of a text of even length; [None] on anything but digits. *)
Fixpoint hex_bytes (text : list byte) : option (list byte) :=
  match text with
  | high :: low :: rest =>
      h ← hex_digit high; l ← hex_digit low; bytes ← hex_bytes rest; Some (b8 (h * 16 + l) :: bytes)
  | _ => Some []
  end.

(** [str::trim]: the UTF-8 forms of the characters with the property
    White_Space, one of which may start a text. *)
Definition white_space : list (list Z) :=
  [[9]; [10]; [11]; [12]; [13]; [32]; [0xc2; 0x85]; [0xc2; 0xa0]; [0xe1; 0x9a; 0x80];
   [0xe2; 0x80; 0x80]; [0xe2; 0x80; 0x81]; [0xe2; 0x80; 0x82]; [0xe2; 0x80; 0x83]; [0xe2; 0x80; 0x84];
   [0xe2; 0x80; 0x85]; [0xe2; 0x80; 0x86]; [0xe2; 0x80; 0x87]; [0xe2; 0x80; 0x88]; [0xe2; 0x80; 0x89];
   [0xe2; 0x80; 0x8a]; [0xe2; 0x80; 0xa8]; [0xe2; 0x80; 0xa9]; [0xe2; 0x80; 0xaf]; [0xe2; 0x81; 0x9f];
   [0xe3; 0x80; 0x80]].

(** The text behind its first character, if that is one of [spaces]. *)
Definition strip_one (spaces : list (list Z)) (text : list byte) : option (list byte) :=
  find_map (fun s => if bool_decide (map u8 (take (length s) text) = s) then Some (drop (length s) text)
                     else None) spaces.

Fixpoint strip (fuel : nat) (spaces : list (list Z)) (text : list byte) : list byte :=
  match fuel with
  | O => text
  | S fuel' => match strip_one spaces text with Some rest => strip fuel' spaces rest | None => text end
  end.

Definition trim (text : list byte) : list byte :=
  let text := strip (length text) white_space text in
  rev (strip (length text) (map (@rev Z) white_space) (rev text)).

Inductive ConfMacError :=
| CannotReadKey
| NotHexadecimal
| BadMac (e : MacError).

Section Config.
Context {NL : IpNetLib} {NC : NetContains} {L : Libm}.
#[local] Existing Instance builtin_metrics.

Inductive DaemonError :=
| PolicyError (e : FilterError)
| MacConfError (e : ConfMacError)
| NoInterfaces
| DaemonShutdownTimeout
| InvalidRecoveryWindow
| InvalidMetric
| InvalidRouteSelection (e : ConfigError)
| EmptyInterfacePattern
| DuplicateInterfacePattern (pattern : string)
| InvalidInterfaceInterval (field : string)
| MixedAddressFamilies
| DaemonDuplicateOrigin (key : RouteKey)
| DaemonOriginMetric
| InvalidProtocol
| NoExportViews
| InvalidTable (table : Z)
| DuplicateView
| SharedSourceTable
| SourceRuleOrder (l r : IpNet)
| AutomaticSourceConfig
| SourcePriorityRange
| OrdinaryRulePriority.

(** * Building metrics *)

Definition build_base (m : BaseMetricConfig) : result DaemonError Profile :=
  match m with
  | BaseWired nominal_cost received window =>
      ok_or (PWired <$> WiredMetric_new nominal_cost received window) InvalidMetric
  | BaseEtx window => ok_or (PEtx <$> EtxMetric_new window) InvalidMetric
  end.

Definition checked_mul32 (a b : Z) : option Z := if a * b <=? u32_max then Some (a * b) else None.

(** [MetricConfig::build]; without a half life the samples get a fixed weight. *)
Definition build_metric (m : MetricConfig) : result DaemonError Profile :=
  match m with
  | ConfWired nominal_cost received window =>
      ok_or (PWired <$> WiredMetric_new nominal_cost received window) InvalidMetric
  | ConfEtx window => ok_or (PEtx <$> EtxMetric_new window) InvalidMetric
  | ConfRtt base probe_interval_ms half_life_ms min_rtt_ms max_rtt_ms max_penalty =>
      base ← build_base base;
      min_rtt_us ← ok_or (checked_mul32 min_rtt_ms 1000) InvalidMetric;
      max_rtt_us ← ok_or (checked_mul32 max_rtt_ms 1000) InvalidMetric;
      ok_or
        (value ← Rtt.RttMetric_new base probe_interval_ms
                   (default Rtt.DEFAULT_HALF_LIFE_MS half_life_ms) min_rtt_us max_rtt_us max_penalty;
         match half_life_ms, value with
         | None, PRtt b c => PRtt b <$> Rtt.with_sample_alpha c Rtt.alpha_0_836
         | _, _ => Some value
         end) InvalidMetric
  end.

(** * Sections *)

Record MacKeyFile := MkMacKeyFile { kf_algorithm : MacAlgorithm; key_file : string }.

Record MacSection := MkMacSection {
  ms_keys : list MacKeyFile;
  ms_accept_unverified : bool;
  resolved : option MacConfig
}.

Record InterfaceSection := MkInterfaceSection {
  patterns : list string;
  link_type : LinkType;
  sec_split_horizon : option bool;
  sec_ipv4_next_hop : Ipv4NextHop;
  sec_control_transport : ControlTransport;
  hello_interval_ms : option Z;
  update_interval_ms : option Z;
  sec_metric : option MetricConfig;
  mac : option MacSection
}.

Record Origin := MkOrigin { or_destination : IpNet; or_source : option IpNet; or_metric : Z }.

Record ExportView := MkExportView {
  table : Z;
  view_source : option IpNet;
  view_rule_priority : option Z;
  filter : Filter
}.

#[global] Instance ExportView_eq_dec : EqDecision ExportView.
Proof. solve_decision. Defined.

Record Export := MkExport {
  protocol : Z;
  device_only : bool;
  manage_rules : bool;
  conf_automatic_sources : bool;
  source_table_base : Z;
  source_rule_priority : Z;
  views : list ExportView
}.

#[global] Instance Export_eq_dec : EqDecision Export.
Proof. solve_decision. Defined.

Record Config := MkConfig {
  router_id : option string;
  state_file : string;
  shutdown_timeout_ms : Z;
  shutdown_policy : ShutdownPolicy;
  restart_recovery_seconds : Z;
  interfaces : list InterfaceSection;
  conf_route_selection : RouteSelection;
  conf_limits : Limits;
  origins : list Origin;
  policy : Policies;
  export : Export
}.

Definition saturating_add32 (a b : Z) : Z := Z.min (a + b) u32_max.

(** [Export::rule_priority]: more specific sources are looked up first. *)
Definition rule_priority (e : Export) (v : ExportView) : Z :=
  default (saturating_add32 (source_rule_priority e) (128 - from_option net_plen 0 (view_source v)))
    (view_rule_priority v).

Definition automatic_sources (e : Export) : bool := conf_automatic_sources e && manage_rules e.

(** [Origin::key]. *)
Definition origin_key (o : Origin) : result DaemonError RouteKey :=
  ok_or (RouteKey_new (or_destination o) (or_source o)) MixedAddressFamilies.

(** * Key files *)

Definition resolve_key (read_file : string -> option (list byte)) (k : MacKeyFile)
    : result DaemonError MacKey :=
  text ← ok_or (read_file (key_file k)) (MacConfError CannotReadKey);
  let text := trim text in
  if (length text =? 0)%nat || (8192 <? length text)%nat || negb (Nat.even (length text))
  then Err (MacConfError NotHexadecimal)
  else
    bytes ← ok_or (hex_bytes text) (MacConfError NotHexadecimal);
    match mac_key (kf_algorithm k) bytes with
    | Ok key => Ok key
    | Err e => Err (MacConfError (BadMac e))
    end.

Fixpoint resolve_keys (read_file : string -> option (list byte)) (l : list MacKeyFile)
    : result DaemonError (list MacKey) :=
  match l with
  | [] => Ok []
  | k :: rest =>
      key ← resolve_key read_file k;
      keys ← resolve_keys read_file rest;
      Ok (key :: keys)
  end.

(** [MacSection::resolve]. *)
Definition resolve (read_file : string -> option (list byte)) (s : MacSection) : result DaemonError MacSection :=
  keys ← resolve_keys read_file (ms_keys s);
  match mac_config keys with
  | Ok c => Ok (MkMacSection (ms_keys s) (ms_accept_unverified s)
                  (Some (accept_unverified c (ms_accept_unverified s))))
  | Err e => Err (MacConfError (BadMac e))
  end.

(** * Intervals *)

Definition effective_interval (value_ms : option Z) (field : string) : result DaemonError Z :=
  let value_ms := default (DEFAULT_HELLO_INTERVAL_CS * 10) value_ms in
  if (value_ms =? 0) || (u16_max * 10 <? value_ms) || negb (value_ms mod 10 =? 0)
  then Err (InvalidInterfaceInterval field)
  else Ok (value_ms / 10 mod 65536).

Definition effective_update_interval (s : InterfaceSection) : result DaemonError Z :=
  match update_interval_ms s with
  | Some value => effective_interval (Some value) "update_interval_ms"
  | None =>
      hello ← effective_interval (hello_interval_ms s) "hello_interval_ms";
      if hello * 4 <=? u16_max then Ok (hello * 4)
      else Err (InvalidInterfaceInterval "update_interval_ms")
  end.

Definition section_metric (s : InterfaceSection) : MetricConfig :=
  default (for_link_type (link_type s)) (sec_metric s).

(** * Parsing, behind deserialization *)

Definition nonzero_source (s : option IpNet) : option IpNet :=
  s ← s; if negb (net_plen s =? 0) then Some s else None.

Fixpoint resolve_interfaces (read_file : string -> option (list byte)) (l : list InterfaceSection)
    : result DaemonError (list InterfaceSection) :=
  match l with
  | [] => Ok []
  | s :: rest =>
      m ← match mac s with
          | Some m => m ← resolve read_file m; Ok (Some m)
          | None => Ok None
          end;
      rest ← resolve_interfaces read_file rest;
      Ok (MkInterfaceSection (patterns s) (link_type s) (sec_split_horizon s) (sec_ipv4_next_hop s)
            (sec_control_transport s) (hello_interval_ms s) (update_interval_ms s) (sec_metric s) m :: rest)
  end.

Definition normalize_origin (o : Origin) : Origin :=
  MkOrigin (or_destination o) (nonzero_source (or_source o)) (or_metric o).

Definition normalize_view (v : ExportView) : ExportView :=
  MkExportView (table v) (net_trunc <$> nonzero_source (view_source v)) (view_rule_priority v)
    (normalize (filter v)).

Definition normalize_export (e : Export) : Export :=
  MkExport (protocol e) (device_only e) (manage_rules e) (conf_automatic_sources e) (source_table_base e)
    (source_rule_priority e) (map normalize_view (views e)).

(** * Validation *)

Fixpoint validate_patterns (seen : gset string) (l : list string) : result DaemonError (gset string) :=
  match l with
  | [] => Ok seen
  | pattern :: rest =>
      if bool_decide (pattern = ""%string) then Err EmptyInterfacePattern
      else if bool_decide (pattern ∈ seen) then Err (DuplicateInterfacePattern pattern)
      else validate_patterns ({[ pattern ]} ∪ seen) rest
  end.

Fixpoint validate_sections (seen : gset string) (l : list InterfaceSection) : result DaemonError unit :=
  match l with
  | [] => Ok tt
  | s :: rest =>
      seen ← (if bool_decide (patterns s = []) then Err EmptyInterfacePattern
              else validate_patterns seen (patterns s));
      _ ← effective_interval (hello_interval_ms s) "hello_interval_ms";
      _ ← effective_update_interval s;
      _ ← build_metric (section_metric s);
      validate_sections seen rest
  end.

(** The [HashSet]s of the loop over the views. *)
Fixpoint validate_views (seen : gset (Z * option IpNet)) (source_tables : gset (Z * bool))
    (l : list ExportView) : result DaemonError unit :=
  match l with
  | [] => Ok tt
  | v :: rest =>
      if (table v =? 0) || ((253 <=? table v) && (table v <=? 255)) then Err (InvalidTable (table v))
      else if bool_decide (view_source v = None) && bool_decide (is_Some (view_rule_priority v))
      then Err OrdinaryRulePriority
      else if bool_decide ((table v, view_source v) ∈ seen) then Err DuplicateView
      else
        let seen := {[ (table v, view_source v) ]} ∪ seen in
        match view_source v with
        | Some s =>
            let family_key := (table v, net_is_ipv4 s) in
            if bool_decide (family_key ∈ source_tables) then Err SharedSourceTable
            else validate_views seen ({[ family_key ]} ∪ source_tables) rest
        | None => validate_views seen source_tables rest
        end
  end.

Definition net_network (n : IpNet) : IpAddr :=
  match n with NetV4 n => IpV4 (v4net_network n) | NetV6 n => IpV6 (v6net_network n) end.

Definition prefixes_overlap (left right : IpNet) : bool :=
  Bool.eqb (net_is_ipv4 left) (net_is_ipv4 right)
  && (net_contains_addr left (net_network right) || net_contains_addr right (net_network left)).

(** One pair of views. *)
Definition validate_pair (e : Export) (left right : ExportView) : result DaemonError unit :=
  if (table left =? table right) && (bool_decide (view_source left = None) || bool_decide (view_source right = None))
  then Err SharedSourceTable
  else match view_source left, view_source right with
  | Some l, Some r =>
      if bool_decide (l = r) then Err DuplicateView
      else if prefixes_overlap l r
              && (((net_plen r <? net_plen l) && (rule_priority e right <=? rule_priority e left))
                  || ((net_plen l <? net_plen r) && (rule_priority e left <=? rule_priority e right)))
      then Err (SourceRuleOrder l r)
      else Ok tt
  | _, _ => Ok tt
  end.

Fixpoint validate_against (e : Export) (left : ExportView) (l : list ExportView) : result DaemonError unit :=
  match l with
  | [] => Ok tt
  | other :: rest => _ ← validate_pair e left other; validate_against e left rest
  end.

Fixpoint validate_pairs (e : Export) (l : list ExportView) : result DaemonError unit :=
  match l with
  | [] => Ok tt
  | view :: rest => _ ← validate_against e view rest; validate_pairs e rest
  end.

Fixpoint validate_conf_origins (seen : gset RouteKey) (l : list Origin) : result DaemonError unit :=
  match l with
  | [] => Ok tt
  | o :: rest =>
      key ← origin_key o;
      if or_metric o =? INFINITY then Err DaemonOriginMetric
      else if bool_decide (key ∈ seen) then Err (DaemonDuplicateOrigin key)
      else validate_conf_origins ({[ key ]} ∪ seen) rest
  end.

Definition policy_result (r : result FilterError unit) : result DaemonError unit :=
  match r with Ok u => Ok u | Err e => Err (PolicyError e) end.

Fixpoint validate_filters (l : list ExportView) : result DaemonError unit :=
  match l with
  | [] => Ok tt
  | v :: rest => _ ← policy_result (validate_filter (filter v) StageInstall); validate_filters rest
  end.

(** A view whose explicit priority differs from the one it would be given. *)
Definition odd_priority (e : Export) (v : ExportView) : bool :=
  match view_rule_priority v with
  | Some p => negb (p =? rule_priority e (MkExportView (table v) (view_source v) None default_filter))
  | None => false
  end.

(** The checks of [validate] on the export section. *)
Definition validate_export (e : Export) : result DaemonError unit :=
  if protocol e =? 0 then Err InvalidProtocol
  else if bool_decide (views e = []) then Err NoExportViews
  else if automatic_sources e
          && (negb ((256 <=? source_table_base e) && (source_table_base e <=? 0x7fffffff))
              || existsb (odd_priority e) (views e))
  then Err AutomaticSourceConfig
  else if (source_rule_priority e =? 0) || (32638 <? source_rule_priority e)
          || existsb (fun v => bool_decide (view_rule_priority v = Some 0)) (views e)
  then Err SourcePriorityRange
  else
    _ ← validate_views ∅ ∅ (views e);
    validate_pairs e (views e).

Definition validate_daemon (c : Config) : result DaemonError unit :=
  _ ← policy_result (validate_filter (pol_import (policy c)) StageImport);
  _ ← policy_result (validate_filter (pol_announce (policy c)) StageAnnounce);
  _ ← validate_filters (views (export c));
  if 86400 <? restart_recovery_seconds c then Err InvalidRecoveryWindow
  else if shutdown_timeout_ms c =? 0 then Err DaemonShutdownTimeout
  else if bool_decide (interfaces c = []) then Err NoInterfaces
  else
    _ ← validate_sections ∅ (interfaces c);
    _ ← validate_export (export c);
    _ ← validate_conf_origins ∅ (origins c);
    match validate_selection (conf_route_selection c) with
    | Ok u => Ok u
    | Err e => Err (InvalidRouteSelection e)
    end.

(** [Config::parse], from the deserialized value. *)
Definition parse (read_file : string -> option (list byte)) (value : Config) : result DaemonError Config :=
  sections ← resolve_interfaces read_file (interfaces value);
  let value := MkConfig (router_id value) (state_file value) (shutdown_timeout_ms value)
    (shutdown_policy value) (restart_recovery_seconds value) sections (conf_route_selection value)
    (conf_limits value) (map normalize_origin (origins value))
    (MkPolicies (normalize (pol_import (policy value))) (normalize (pol_announce (policy value))))
    (normalize_export (export value)) in
  _ ← validate_daemon value;
  Ok value.

(** * What the daemon derives *)

Record EffectiveInterface := MkEffectiveInterface {
  ei_mac : option MacConfig;
  section : nat;
  ei_control_transport : ControlTransport;
  ei_link_type : LinkType;
  ei_metric : MetricConfig;
  hello_interval_cs : Z;
  update_interval_cs : Z;
  ei_split_horizon : bool;
  ei_ipv4_next_hop : Ipv4NextHop
}.

(** The section a name falls into, if any; the outer [option] is the panic of
    an interval that was not validated. *)
Definition effective_section (index : nat) (item : InterfaceSection) : option EffectiveInterface :=
  hello ← result_ok (effective_interval (hello_interval_ms item) "hello_interval_ms");
  update ← result_ok (effective_update_interval item);
  Some (MkEffectiveInterface (m ← mac item; resolved m) index (sec_control_transport item)
          (link_type item) (section_metric item) hello update
          (default (negb (bool_decide (link_type item = LinkWireless))) (sec_split_horizon item))
          (sec_ipv4_next_hop item)).

Fixpoint effective_from (index : nat) (l : list InterfaceSection) (name : string)
    : option (option EffectiveInterface) :=
  match l with
  | [] => Some None
  | item :: rest =>
      if existsb (fun pattern => wildcard_match pattern name) (patterns item)
      then e ← effective_section index item; Some (Some e)
      else effective_from (S index) rest name
  end.

Definition effective_interface (c : Config) (name : string) : option (option EffectiveInterface) :=
  effective_from 0 (interfaces c) name.

Definition build_policy (e : EffectiveInterface) : result DaemonError InterfacePolicy :=
  match build_metric (ei_metric e) with
  | Err x => Err x
  | Ok profile =>
      Ok (MkInterfacePolicy (MI := builtin_metrics) (ei_control_transport e) (ei_ipv4_next_hop e) profile
            (hello_interval_cs e) (update_interval_cs e) (ei_split_horizon e))
  end.

Definition limits_eqb (a b : ResourceLimits) : bool :=
  (max_neighbors a =? max_neighbors b)%nat && (max_candidates a =? max_candidates b)%nat
  && (max_candidates_per_neighbor a =? max_candidates_per_neighbor b)%nat.

Definition selection_eqb (a b : RouteSelection) : bool :=
  (switch_margin_percent a =? switch_margin_percent b) && (switch_margin_metric a =? switch_margin_metric b)
  && (better_for_ms a =? better_for_ms b).

(** [Config::reload_identity_matches]: what a reload cannot change. *)
Definition reload_identity_matches (self candidate : Config) : bool :=
  (restart_recovery_seconds self =? restart_recovery_seconds candidate)
  && bool_decide (router_id self = router_id candidate)
  && bool_decide (state_file self = state_file candidate)
  && selection_eqb (conf_route_selection self) (conf_route_selection candidate)
  && limits_eqb (effective_limits (conf_limits self)) (effective_limits (conf_limits candidate))
  && (protocol (export self) =? protocol (export candidate)).
End Config.
