(* ===== verification/Projection.v ===== *)
(** Projection of the RIB to Linux tables ([linux/projection.rs]): the views of
    the export section, one per source prefix, and the routes each table gets. *)
From S2P Require Import Prelude Net Mac Model Metric Wire Api Filters DaemonConfig Scheduler Sender Router.
Import Hello.
Local Open Scope Z_scope.

Section Projection.
Context {NL : IpNetLib} {NC : NetContains} {HO : HashOrder}.

Record ProjectedRoute := MkProjected {
  pr_table : Z;
  pr_key : RouteKey;
  pr_selected : option SelectedRoute;
  pr_source_specific : bool
}.

Definition specificity (key : RouteKey) : Z := from_option net_plen 0 (source key).

Definition route_matches_view (v : ExportView) (key : RouteKey) : bool :=
  match view_source v, source key with
  | None, None => true
  | Some view_source, None => Bool.eqb (net_is_ipv4 view_source) (net_is_ipv4 (destination key))
  | Some view_source, Some route_source => net_contains route_source view_source
  | None, Some _ => false
  end.

(** A slot of a table: one destination. *)
Definition Slot : Type := (Z * IpNet)%type.
Definition slot (p : ProjectedRoute) : Slot := (pr_table p, destination (pr_key p)).

Definition finite_route (v : ExportView) (r : SelectedRoute) : ProjectedRoute :=
  MkProjected (table v) (sr_key r) (Some r) (bool_decide (is_Some (source (sr_key r)))).
Definition held_route (v : ExportView) (key : RouteKey) : ProjectedRoute :=
  MkProjected (table v) key None (bool_decide (is_Some (source key))).

(** A finite route takes the slot from less specific ones. *)
Definition project_finite (v : ExportView) (m : gmap Slot ProjectedRoute) (r : SelectedRoute)
    : gmap Slot ProjectedRoute :=
  if negb (route_matches_view v (sr_key r)) || negb (allows_key (filter v) (sr_key r)) then m
  else
    let at_slot : Slot := (table v, destination (sr_key r)) in
    if match m !! at_slot with
       | Some current => specificity (pr_key current) <? specificity (sr_key r)
       | None => true
       end
    then <[at_slot := finite_route v r]> m else m.

(** A withdrawn one also from equally specific ones, and no filter stops it. *)
Definition project_held (v : ExportView) (m : gmap Slot ProjectedRoute) (key : RouteKey)
    : gmap Slot ProjectedRoute :=
  if negb (route_matches_view v key) then m
  else
    let at_slot : Slot := (table v, destination key) in
    if match m !! at_slot with
       | Some current => specificity key <? specificity (pr_key current)
       | None => false
       end
    then m else <[at_slot := held_route v key]> m.

Definition project_view (snapshot : RouteSnapshot) (m : gmap Slot ProjectedRoute) (v : ExportView)
    : gmap Slot ProjectedRoute :=
  fold_left (project_held v) (sn_unreachable snapshot)
    (fold_left (project_finite v) (sn_routes snapshot) m).

Definition project_routes (views : list ExportView) (snapshot : RouteSnapshot) : list ProjectedRoute :=
  merge_sort (fun p q => ord_le (slot p) (slot q))
    (hm_iter (fold_left (project_view snapshot) views ∅)).*2.

(** * Source views *)

(** The first table from [next] on that is not in use; [Err tt] when the
    numbers end, [None] when the fuel does. *)
Fixpoint next_free (fuel : nat) (used : gset Z) (next : Z) : option (result unit Z) :=
  match fuel with
  | O => None
  | S fuel' =>
      if bool_decide (next ∈ used)
      then if next =? u32_max then Some (Err tt) else next_free fuel' used (next + 1)
      else Some (Ok next)
  end.

(** The loop over the sources: tables are allocated and views appended. *)
Fixpoint allocate (used : gset Z) (next : Z) (allocated : gmap IpNet Z) (views : list ExportView)
    (sources : list IpNet) : option (gmap IpNet Z * result unit (list ExportView)) :=
  match sources with
  | [] => Some (allocated, Ok views)
  | s :: rest =>
      match allocated !! s with
      | Some t => allocate used next allocated (views ++ [MkExportView t (Some s) None default_filter]) rest
      | None =>
          r ← next_free (S (size used)) used next;
          match r with
          | Err _ => Some (allocated, Err tt)
          | Ok t =>
              allocate ({[ t ]} ∪ used) t (<[s := t]> allocated)
                (views ++ [MkExportView t (Some s) None default_filter]) rest
          end
      end
  end.

(** The sources that need a view of their own. *)
Definition explicit_sources (views : list ExportView) : gset IpNet := list_to_set (omap view_source views).
Definition active_sources (e : Export) (snapshot : RouteSnapshot) (held : gmap IpNet Z) : gset IpNet :=
  (list_to_set (omap source ((sr_key <$> sn_routes snapshot) ++ sn_unreachable snapshot)) ∪ dom held)
    ∖ explicit_sources (views e).

(** A [BTreeSet] read in order. *)
Definition btree_set_iter (X : gset IpNet) : list IpNet := merge_sort ord_le (elements X).

Definition source_views_with_recovery (e : Export) (snapshot : RouteSnapshot) (allocated held : gmap IpNet Z)
    : option (gmap IpNet Z * result unit (list ExportView)) :=
  let allocated := held ∪ allocated in
  if negb (automatic_sources e) then Some (∅, Ok (views e))
  else
    let sources := active_sources e snapshot held in
    let used : gset Z := list_to_set (table <$> views e) in
    let allocated :=
      base.filter (fun p => p.1 ∈ sources /\ source_table_base e <= p.2 /\ p.2 ∉ used) allocated in
    let used := used ∪ map_img allocated in
    allocate used (source_table_base e) allocated (views e) (btree_set_iter sources).

(** * Policies *)

(** [SourcePolicy::supported]. *)
Definition supported (e : Export) (key : RouteKey) : bool :=
  match source key with
  | None => true
  | Some s => automatic_sources e || existsb (fun v => bool_decide (view_source v = Some s)) (views e)
  end.

(** [DaemonPolicy]: user policies and forwarding capability. *)
Definition DaemonPolicy (c : Config) : RoutePolicy := {|
  accept := fun route =>
    supported (export c) (im_key route)
    && allows (pol_import (policy c)) (im_key route) (Some (im_interface route)) (Some (im_neighbor route)) None;
  announce := fun route =>
    supported (export c) (ex_key route)
    && allows (pol_announce (policy c)) (ex_key route) (Some (ex_interface route)) None
         (Some (ex_locally_originated route))
|}.
End Projection.
