(* ===== verification/ProjectionTheorems.v ===== *)
(** What the kernel tables get: for every table and destination the route of
    the most specific source, and a view for every source the engine selects
    routes for. *)
From S2P Require Import Prelude Net Mac Model Metric Wire Api EngineState Rib Engine Invariant EngineSpec Filters DaemonConfig Scheduler Sender Router Projection.
Import Hello.
Local Open Scope Z_scope.

Section Projected.
Context {NL : IpNetLib} {NC : NetContains} {HO : HashOrder}.

(** A route that a view may show: a finite one that its filter lets through or
    a destination held unreachable. *)
Inductive offered (views : list ExportView) (snapshot : RouteSnapshot) : ProjectedRoute -> Prop :=
| offered_finite v r : v ∈ views -> r ∈ sn_routes snapshot -> route_matches_view v (sr_key r) = true ->
    allows_key (filter v) (sr_key r) = true -> offered views snapshot (finite_route v r)
| offered_held v key : v ∈ views -> key ∈ sn_unreachable snapshot -> route_matches_view v key = true ->
    offered views snapshot (held_route v key).

(** Whether [q] takes the slot of [p]. *)
Definition beats (q p : ProjectedRoute) : bool :=
  match pr_selected q with
  | Some _ => specificity (pr_key p) <? specificity (pr_key q)
  | None => specificity (pr_key p) <=? specificity (pr_key q)
  end.

Definition put (m : gmap Slot ProjectedRoute) (q : ProjectedRoute) : gmap Slot ProjectedRoute :=
  if from_option (beats q) true (m !! slot q) then <[slot q := q]> m else m.

Definition finite_offers (v : ExportView) (l : list SelectedRoute) : list ProjectedRoute :=
  map (finite_route v) (List.filter (fun r => route_matches_view v (sr_key r) && allows_key (filter v) (sr_key r)) l).
Definition held_offers (v : ExportView) (l : list RouteKey) : list ProjectedRoute :=
  map (held_route v) (List.filter (route_matches_view v) l).
Definition offers (views : list ExportView) (s : RouteSnapshot) : list ProjectedRoute :=
  concat (map (fun v => finite_offers v (sn_routes s) ++ held_offers v (sn_unreachable s)) views).

Lemma project_finite_put v l : forall m,
  fold_left (project_finite v) l m = fold_left put (finite_offers v l) m.
Proof.
  induction l as [|r l IH]; intros m; [done|]. simpl. rewrite IH. unfold finite_offers. simpl.
  unfold project_finite. destruct (route_matches_view v (sr_key r)), (allows_key (filter v) (sr_key r)); done.
Qed.

Lemma project_held_put v l : forall m, fold_left (project_held v) l m = fold_left put (held_offers v l) m.
Proof.
  induction l as [|k l IH]; intros m; [done|]. simpl. rewrite IH. unfold held_offers. simpl.
  unfold project_held. destruct (route_matches_view v k); simpl; [|done]. f_equal. unfold put. simpl.
  change (table v, destination k) with (slot (held_route v k)).
  destruct (m !! slot (held_route v k)) as [p|]; simpl; [|done]. unfold beats. cbn [pr_selected pr_key held_route].
  rewrite Z.leb_antisym. by destruct (_ <? _).
Qed.

Lemma project_put views s : forall m, fold_left (project_view s) views m = fold_left put (offers views s) m.
Proof.
  induction views as [|v views IH]; intros m; [done|]. simpl. rewrite IH. unfold project_view.
  rewrite project_finite_put, project_held_put. unfold offers. simpl. by rewrite !fold_left_app.
Qed.

Lemma elem_of_offers views s q : q ∈ offers views s <-> offered views s q.
Proof.
  unfold offers. rewrite list_elem_of_In, in_concat. setoid_rewrite <- list_elem_of_In.
  setoid_rewrite list_elem_of_fmap. split.
  - intros (l & (v & -> & Hv) & Hq). apply elem_of_app in Hq as [Hq|Hq].
    + apply list_elem_of_fmap in Hq as (r & -> & [Hr Hf]%elem_of_filter_bool).
      apply andb_true_iff in Hf as []. by constructor.
    + apply list_elem_of_fmap in Hq as (k & -> & [Hr Hf]%elem_of_filter_bool). by constructor.
  - intros [v r Hv Hr H1 H2|v k Hv Hk H1]; eexists; (split; [exists v; done|]); apply elem_of_app; [left|right];
      apply list_elem_of_fmap; eexists; (split; [done|]); apply elem_of_filter_bool; rewrite ?H1, ?H2; done.
Qed.

(** Best of what was offered so far. *)
Record best_of (seen : list ProjectedRoute) (m : gmap Slot ProjectedRoute) : Prop := {
  bo_from k p : m !! k = Some p -> p ∈ seen /\ slot p = k;
  bo_best q : q ∈ seen -> exists p, m !! slot q = Some p /\ specificity (pr_key q) <= specificity (pr_key p) /\
    (specificity (pr_key q) = specificity (pr_key p) -> pr_selected q = None -> pr_selected p = None)
}.

Lemma put_best seen m q : best_of seen m -> best_of (seen ++ [q]) (put m q).
Proof.
  intros [Hf Hb]. unfold put. destruct (from_option (beats q) true (m !! slot q)) eqn:E.
  - split.
    + intros k p. destruct (decide (k = slot q)) as [->|Hne].
      * rewrite lookup_insert, decide_True by done. intros [= <-]. split; [set_solver|done].
      * rewrite lookup_insert_ne by done. intros [? ?]%Hf. split; [set_solver|done].
    + intros q' [Hq'| ->%list_elem_of_singleton]%elem_of_app.
      * apply Hb in Hq' as (p & Hp & Hle & Ht). destruct (decide (slot q' = slot q)) as [Es|Hne].
        -- rewrite Es in *. rewrite Hp in E. simpl in E. exists q. rewrite lookup_insert, decide_True by done.
           split; [done|]. unfold beats in E. destruct (pr_selected q) eqn:Eq; [|split; [lia|done]].
           split; [lia|]. intros. lia.
        -- exists p. by rewrite lookup_insert_ne.
      * exists q. rewrite lookup_insert, decide_True by done. done.
  - split.
    + intros k p [? ?]%Hf. split; [set_solver|done].
    + intros q' [Hq'| ->%list_elem_of_singleton]%elem_of_app; [by apply Hb|].
      destruct (m !! slot q) as [p|] eqn:Ep; [|done]. simpl in E. exists p. split; [done|].
      unfold beats in E. destruct (pr_selected q) eqn:Eq; [|split; lia]. split; [lia|done].
Qed.

Lemma puts_best l : forall seen m, best_of seen m -> best_of (seen ++ l) (fold_left put l m).
Proof.
  induction l as [|q l IH]; intros seen m H; simpl; [by rewrite app_nil_r|].
  rewrite (cons_middle q seen l), app_assoc. by apply IH, put_best.
Qed.

Lemma elem_of_project views s p : p ∈ project_routes views s <->
  exists k, fold_left put (offers views s) ∅ !! k = Some p.
Proof.
  unfold project_routes. rewrite merge_sort_Permutation, project_put, list_elem_of_fmap. split.
  - intros ([k q] & -> & H%hm_iter_lookup). eauto.
  - intros (k & H). exists (k, p). split; [done|]. by apply hm_iter_lookup.
Qed.

Lemma project_correct views snapshot :
  let out := project_routes views snapshot in
  NoDup (slot <$> out) /\
  (forall p, p ∈ out -> offered views snapshot p) /\
  (forall q, offered views snapshot q -> exists p, p ∈ out /\ slot p = slot q /\
     specificity (pr_key q) <= specificity (pr_key p) /\
     (specificity (pr_key q) = specificity (pr_key p) -> pr_selected q = None -> pr_selected p = None)).
Proof.
  cbv zeta. assert (best_of [] (∅ : gmap Slot ProjectedRoute)) as H0.
  { split; [intros k p H; by rewrite lookup_empty in H|by intros q ?%not_elem_of_nil]. }
  apply (puts_best (offers views snapshot)) in H0 as [Hf Hb]. simpl in *. split_and!.
  - unfold project_routes. rewrite merge_sort_Permutation, project_put.
    set (m := fold_left put _ _) in *.
    assert (slot <$> (hm_iter m).*2 = (hm_iter m).*1) as ->; [|apply hm_iter_NoDup].
    rewrite <- list_fmap_compose. apply list_fmap_ext. intros i [k p] Hi%list_elem_of_lookup_2%hm_iter_lookup.
    simpl. by apply Hf in Hi as [_ ->].
  - intros p (k & Hp)%elem_of_project. apply elem_of_offers. by apply Hf in Hp as [? _].
  - intros q Hq%elem_of_offers. apply Hb in Hq as (p & Hp & Hle & Ht). exists p. split.
    + apply elem_of_project. eauto.
    + split; [|done]. by apply Hf in Hp as [_ ->].
Qed.

(** The result is in the order of table and destination. *)
Lemma project_sorted views snapshot :
  StronglySorted (fun p q => ord_le (slot p) (slot q)) (project_routes views snapshot).
Proof. apply StronglySorted_merge_sort; apply _. Qed.

(** C22. Projection obeys source precedence: the routes come in the order of table
    and destination; each table has at most one route to a destination; every
    route shown was offered by a view of that table (it matches the view's source
    and, if finite, its filter); and whatever a view
    offers is shown or yields to a route with a source at least as specific,
    where at equal specificity a destination held unreachable is never
    replaced by a finite route. *)
Theorem project_routes_correct views snapshot :
  let out := project_routes views snapshot in
  StronglySorted (fun p q => ord_le (slot p) (slot q)) out /\ NoDup (slot <$> out) /\
  (forall p, p ∈ out -> offered views snapshot p) /\
  (forall q, offered views snapshot q -> exists p, p ∈ out /\ slot p = slot q /\
     specificity (pr_key q) <= specificity (pr_key p) /\
     (specificity (pr_key q) = specificity (pr_key p) -> pr_selected q = None -> pr_selected p = None)).
Proof. split; [apply project_sorted|apply project_correct]. Qed.
End Projected.
