(* ===== verification/SourceViews.v ===== *)
(** Tables for source prefixes: what [source_views_with_recovery] allocates,
    and that every source the engine selects routes for has a view. *)
From S2P Require Import Prelude Net Mac Model Metric Wire Api EngineState Rib Engine Invariant EngineSpec Filters DaemonConfig Scheduler Sender Router Projection ProjectionTheorems.
Import Hello.
Local Open Scope Z_scope.

Section Allocation.
Context {NL : IpNetLib} {NC : NetContains} {HO : HashOrder}.

Definition inj_tables (m : gmap IpNet Z) : Prop :=
  forall s1 s2 t, m !! s1 = Some t -> m !! s2 = Some t -> s1 = s2.

(** The search for a free table ends within its fuel. *)
Lemma next_free_spec used : forall fuel next,
  (size (base.filter (fun x : Z => (next <= x)%Z) used) < fuel)%nat -> next <= u32_max ->
  exists r, next_free fuel used next = Some r /\
    match r with
    | Ok t => next <= t <= u32_max /\ t ∉ used /\ forall x, next <= x < t -> x ∈ used
    | Err _ => forall x, next <= x <= u32_max -> x ∈ used
    end.
Proof.
  induction fuel as [|fuel IH]; intros next Hf Hn; [lia|]. simpl. case_bool_decide as Hin.
  - destruct (Z.eqb_spec next u32_max) as [->|Hne].
    + eexists. split; [done|]. simpl. intros x Hx. by replace x with u32_max by lia.
    + destruct (IH (next + 1)) as (r & Hr & Hs).
      * enough (size (base.filter (fun x : Z => (next + 1 <= x)%Z) used) <
                size (base.filter (fun x : Z => (next <= x)%Z) used))%nat by lia.
        apply subset_size. split; [set_solver by lia|]. intros Hsub.
        specialize (Hsub next ltac:(set_solver by lia)). apply elem_of_filter in Hsub as [? _]. lia.
      * lia.
      * exists r. split; [done|]. destruct r as [t|].
        -- destruct Hs as (? & ? & Hx). split_and!; [lia|lia|done|]. intros x Hx'.
           destruct (decide (x = next)) as [->|]; [done|]. apply Hx. lia.
        -- intros x Hx. destruct (decide (x = next)) as [->|]; [done|]. apply Hs. lia.
  - eexists. split; [done|]. simpl. split_and!; [lia|lia|done|]. intros x. lia.
Qed.

(** What holds between two sources of the loop. *)
Record alloc_inv (base : Z) (E : gset Z) (used : gset Z) (next : Z) (m : gmap IpNet Z) : Prop := {
  ai_used : used = E ∪ map_img m;
  ai_inj : inj_tables m;
  ai_range s t : m !! s = Some t -> base <= t <= u32_max /\ t ∉ E;
  ai_next : base <= next <= u32_max;
  ai_below t : base <= t < next -> t ∈ used
}.

Lemma alloc_step base E used next m s t : alloc_inv base E used next m -> m !! s = None ->
  next <= t <= u32_max -> t ∉ used -> (forall x, next <= x < t -> x ∈ used) ->
  alloc_inv base E ({[ t ]} ∪ used) t (<[s := t]> m).
Proof.
  intros [Hu Hi Hr Hn Hb] Hs Ht Hfree Hx. split.
  - rewrite map_img_insert_notin_L by done. set_solver.
  - intros s1 s2 x. rewrite !lookup_insert_Some. intros [[<- <-]|[? H1]] [[<- Ex]|[? H2]]; try done.
    + exfalso. apply Hfree. rewrite Hu. apply elem_of_union_r. by eapply elem_of_map_img_2.
    + subst x. exfalso. apply Hfree. rewrite Hu. apply elem_of_union_r. by eapply elem_of_map_img_2.
    + by eapply Hi.
  - intros s' x. rewrite lookup_insert_Some. intros [[<- <-]|[? H]]; [|by eapply Hr].
    split; [lia|]. set_solver.
  - lia.
  - intros x Hx'. apply elem_of_union_r. destruct (decide (x < next)); [apply Hb; lia|apply Hx; lia].
Qed.

Definition auto_view (m : gmap IpNet Z) (s : IpNet) : option ExportView :=
  t ← m !! s; Some (MkExportView t (Some s) None default_filter).

Lemma allocate_spec base E sources : forall used next m vs, alloc_inv base E used next m ->
  exists m' res used' next', allocate used next m vs sources = Some (m', res) /\
    alloc_inv base E used' next' m' /\ m ⊆ m' /\
    match res with
    | Ok vs' => dom m' = dom m ∪ list_to_set sources /\ vs' = vs ++ omap (auto_view m') sources
    | Err _ => forall t, base <= t <= u32_max -> t ∈ E \/ exists s, m' !! s = Some t
    end.
Proof.
  induction sources as [|s sources IH]; intros used next m vs Hi; cbn [allocate].
  { exists m, (Ok vs), used, next. split_and!; try done; [set_solver|simpl; by rewrite app_nil_r]. }
  destruct (m !! s) as [t|] eqn:Es.
  - destruct (IH used next m (vs ++ [MkExportView t (Some s) None default_filter]) Hi)
      as (m' & res & used' & next' & Ha & Hi' & Hsub & Hres).
    exists m', res, used', next'. split_and!; try done. destruct res as [vs'|]; [|done]. destruct Hres as [Hd ->].
    split; [rewrite Hd; apply elem_of_dom_2 in Es; set_solver|]. cbn [omap list_omap].
    unfold auto_view at 2. rewrite (lookup_weaken _ _ _ _ Es Hsub). simpl. by rewrite <- app_assoc.
  - destruct (next_free_spec used (S (size used)) next) as (r & Hr & Hs).
    { enough (size (base.filter (fun x : Z => (next <= x)%Z) used) <= size used)%nat by lia.
      apply subseteq_size. set_solver. }
    { apply Hi. }
    rewrite Hr. simpl. destruct r as [t|].
    + destruct Hs as (Ht & Hfree & Hx).
      destruct (IH _ t (<[s := t]> m) (vs ++ [MkExportView t (Some s) None default_filter])
        (alloc_step _ _ _ _ _ _ _ Hi Es Ht Hfree Hx)) as (m' & res & used' & next' & Ha & Hi' & Hsub & Hres).
      assert (m ⊆ m') by (etransitivity; [by apply insert_subseteq|done]).
      exists m', res, used', next'. split_and!; try done. destruct res as [vs'|]; [|done]. destruct Hres as [Hd ->].
      split; [rewrite Hd, dom_insert_L; set_solver|]. cbn [omap list_omap].
      unfold auto_view at 2. rewrite (lookup_weaken _ _ _ _ (lookup_insert_eq m s t) Hsub). simpl.
      by rewrite <- app_assoc.
    + exists m, (Err tt), used, next. split_and!; try done. intros t Ht.
      assert (t ∈ used) as Hin by (destruct (decide (t < next)); [apply Hi; lia|apply Hs; lia]).
      rewrite (ai_used _ _ _ _ _ Hi) in Hin. apply elem_of_union in Hin as [?|(x & ?)%elem_of_map_img]; eauto.
Qed.

(** The tables carried over into a round. *)
Definition carried (e : Export) (snapshot : RouteSnapshot) (allocated held : gmap IpNet Z) (s : IpNet) (t : Z) : Prop :=
  (held ∪ allocated) !! s = Some t /\ s ∈ active_sources e snapshot held /\ source_table_base e <= t /\
  t ∉ table <$> views e.

Lemma source_views_spec e snapshot allocated held :
  automatic_sources e = true -> 0 <= source_table_base e <= u32_max ->
  inj_tables (held ∪ allocated) -> map_Forall (fun _ t => t <= u32_max) (held ∪ allocated) ->
  exists allocated' res, source_views_with_recovery e snapshot allocated held = Some (allocated', res) /\
    inj_tables allocated' /\
    (forall s t, allocated' !! s = Some t -> source_table_base e <= t <= u32_max /\ t ∉ table <$> views e) /\
    (forall s t, carried e snapshot allocated held s t -> allocated' !! s = Some t) /\
    match res with
    | Ok vs => dom allocated' = active_sources e snapshot held /\
        forall v, v ∈ vs <-> v ∈ views e \/ exists s t, allocated' !! s = Some t /\
                                 v = MkExportView t (Some s) None default_filter
    | Err _ => forall t, source_table_base e <= t <= u32_max ->
        t ∈ table <$> views e \/ exists s, allocated' !! s = Some t
    end.
Proof.
  intros Ha Hb Hinj Hmax. unfold source_views_with_recovery. rewrite Ha. simpl.
  set (E := list_to_set (table <$> views e) : gset Z). set (S := active_sources e snapshot held).
  set (m := base.filter _ (held ∪ allocated)).
  assert (forall s t, m !! s = Some t <-> carried e snapshot allocated held s t) as Hm.
  { intros s t. unfold m, carried. rewrite map_lookup_filter_Some. simpl. unfold E. rewrite elem_of_list_to_set. tauto. }
  assert (forall t, t ∈ E <-> t ∈ table <$> views e) as HE by (intros t; apply elem_of_list_to_set).
  destruct (allocate_spec (source_table_base e) E (btree_set_iter S) (E ∪ map_img m) (source_table_base e) m (views e))
    as (m' & res & used' & next' & -> & [_ Hi Hr _ _] & Hsub & Hres).
  { split; [done| | |lia|intros; lia].
    - intros s1 s2 t [H1 _]%Hm [H2 _]%Hm. by eapply Hinj.
    - intros s t (H1 & _ & H3 & H4)%Hm. split; [split; [done|by eapply Hmax]|]. by rewrite HE. }
  exists m', res. split; [done|]. split; [done|]. split; [intros s t (? & ?)%Hr; by rewrite <- HE|].
  split; [intros s t Hc%Hm; by eapply lookup_weaken|]. destruct res as [vs|].
  - destruct Hres as [Hd ->].
    assert (dom m' = S) as HS.
    { rewrite Hd. assert (list_to_set (btree_set_iter S) = S) as ->.
      { apply set_eq. intros s. unfold btree_set_iter. rewrite elem_of_list_to_set, merge_sort_Permutation. apply elem_of_elements. }
      assert (dom m ⊆ S); [|set_solver]. intros s [t Ht]%elem_of_dom. apply Hm in Ht. apply Ht. }
    split; [done|]. intros v. rewrite elem_of_app, list_elem_of_omap. split.
    + intros [?|(s & _ & (t & Ht & [= <-])%bind_Some)]; [by left|]. right. eauto.
    + intros [?|(s & t & Ht & ->)]; [by left|]. right. exists s. split.
      * unfold btree_set_iter. rewrite merge_sort_Permutation. apply elem_of_elements. rewrite <- HS.
        by eapply elem_of_dom_2.
      * unfold auto_view. by rewrite Ht.
  - intros t Ht. destruct (Hres t Ht) as [?%HE|]; auto.
Qed.

(** Tables of source prefixes never collide and do not move: with automatic
    sources, unless the table numbers above the base are all in use, the
    result holds the configured views and one view for each other source that
    is in the RIB, held unreachable or recovered; these sources get pairwise
    different tables, at or above the base and different from those of
    configured views, and a source that had such a table keeps it. *)
Theorem source_views_sound e snapshot allocated held :
  automatic_sources e = true -> 0 <= source_table_base e <= u32_max ->
  inj_tables (held ∪ allocated) -> map_Forall (fun _ t => t <= u32_max) (held ∪ allocated) ->
  exists allocated' res, source_views_with_recovery e snapshot allocated held = Some (allocated', res) /\
    inj_tables allocated' /\
    (forall s t, allocated' !! s = Some t -> source_table_base e <= t <= u32_max /\ t ∉ table <$> views e) /\
    (forall s t, carried e snapshot allocated held s t -> allocated' !! s = Some t) /\
    match res with
    | Ok vs => dom allocated' = active_sources e snapshot held /\
        forall v, v ∈ vs <-> v ∈ views e \/ exists s t, allocated' !! s = Some t /\
                                 v = MkExportView t (Some s) None default_filter
    | Err _ => forall t, source_table_base e <= t <= u32_max ->
        t ∈ table <$> views e \/ exists s, allocated' !! s = Some t
    end.
Proof.
  apply source_views_spec.
Qed.
End Allocation.

(** * Together with the engine *)

Section Covered.
Context {NL : IpNetLib} {NC : NetContains} {MI : MetricImpl} {HO : HashOrder} {B : Build}.
Context (release : overflow_checks = false).

(** A selected route was admitted by the policy in force. *)
Lemma selected_admitted e k s : reachable e -> selected e !! k = Some s ->
  sr_key s = k /\ exists ctx, im_key ctx = k /\ accept (cfg_route_policy (EngineState.config e)) ctx = true.
Proof.
  intros Hr Hs. destruct (reachable_Inv release e Hr) as [HI Hb]. destruct (Hb k s Hs) as (n & c & Hc & ->).
  destruct (inv_selected _ HI _ _ Hs) as [S1 S2 S3 S4]. destruct (inv_candidates _ HI _ _ _ Hc) as [C1 C2 C3 C4 C5 C6].
  simpl in *. destruct C5 as [C5|[C5 C5']]; [lia|]. rewrite C1 in *. split; [done|]. eexists. split; [|exact (C4 C5')]. done.
Qed.

Lemma selected_supported c e r : reachable e -> cfg_route_policy (EngineState.config e) = DaemonPolicy c ->
  r ∈ selected_routes e -> supported (export c) (sr_key r) = true.
Proof.
  intros Hr Hp ([k s] & -> & Hs%btree_iter_lookup)%list_elem_of_fmap. simpl.
  destruct (selected_admitted e k s Hr Hs) as (-> & ctx & <- & Ha). rewrite Hp in Ha. simpl in Ha.
  by apply andb_true_iff in Ha as [? _].
Qed.
End Covered.

Section Complete.
Context {NL : IpNetLib} {NC : NetContains} {MI : MetricImpl} {HO : HashOrder} {B : Build}.

Lemma default_allows key : allows_key default_filter key = true.
Proof. done. Qed.

(** The views of a round have one for every supported source. *)
Lemma source_has_view e snapshot allocated held allocated' vs key s :
  source_views_with_recovery e snapshot allocated held = Some (allocated', Ok vs) ->
  0 <= source_table_base e <= u32_max -> inj_tables (held ∪ allocated) ->
  map_Forall (fun _ t => t <= u32_max) (held ∪ allocated) ->
  key ∈ (sr_key <$> sn_routes snapshot) ++ sn_unreachable snapshot -> supported e key = true ->
  source key = Some s ->
  exists v, v ∈ vs /\ view_source v = Some s /\ (v ∈ views e \/ filter v = default_filter).
Proof.
  intros Hv Hb Hi Hm Hk Hsup Hs. unfold supported in Hsup. rewrite Hs in Hsup.
  destruct (automatic_sources e) eqn:Ha.
  - destruct (source_views_spec e snapshot allocated held Ha Hb Hi Hm) as (m' & res & E & _ & _ & _ & Hres).
    rewrite Hv in E. injection E as <- <-. destruct Hres as [Hd Hvs].
    destruct (decide (s ∈ explicit_sources (views e))) as [Hin|Hout].
    + unfold explicit_sources in Hin. apply elem_of_list_to_set, list_elem_of_omap in Hin as (v & Hin & Hvs').
      exists v. split_and!; [|done|by left]. apply Hvs. by left.
    + assert (s ∈ dom allocated') as [t Ht]%elem_of_dom.
      { rewrite Hd. unfold active_sources. apply elem_of_difference. split; [|done]. apply elem_of_union_l.
        apply elem_of_list_to_set, list_elem_of_omap. by exists key. }
      exists (MkExportView t (Some s) None default_filter). split_and!; [|done|by right]. apply Hvs. right. eauto.
  - unfold source_views_with_recovery in Hv. rewrite Ha in Hv. simpl in Hv. injection Hv as <- <-. simpl in Hsup.
    apply existsb_exists in Hsup as (v & Hin%list_elem_of_In & Hv%bool_decide_eq_true). exists v.
    split_and!; [done|done|by left].
Qed.

(** C21. Whatever source-specific route the engine selects, the kernel can honour:
    when the engine runs with the daemon's policy and its RIB is projected
    with the views of that configuration, each selected route with a source
    prefix has a view of exactly that source, in whose table its destination
    is filled with a route of a source at least as specific (in a configured
    view, provided its filter lets the route through). *)
Theorem selected_sources_covered c e generation allocated held allocated' vs r s :
  overflow_checks = false -> reachable e -> cfg_route_policy (EngineState.config e) = DaemonPolicy c ->
  0 <= source_table_base (export c) <= u32_max -> inj_tables (held ∪ allocated) ->
  map_Forall (fun _ t => t <= u32_max) (held ∪ allocated) ->
  let snapshot := MkSnapshot generation (selected_routes e) (unreachable_routes e) in
  source_views_with_recovery (export c) snapshot allocated held = Some (allocated', Ok vs) ->
  r ∈ selected_routes e -> source (sr_key r) = Some s ->
  exists v, v ∈ vs /\ view_source v = Some s /\ (v ∈ views (export c) \/ filter v = default_filter) /\
    (allows_key (filter v) (sr_key r) = true -> exists p, p ∈ project_routes vs snapshot /\
       slot p = (table v, destination (sr_key r)) /\ net_plen s <= specificity (pr_key p)).
Proof.
  intros Hrel Hr Hp Hb Hi Hm snapshot Hv Hin Hs.
  assert (supported (export c) (sr_key r) = true) as Hsup by by eapply selected_supported.
  destruct (source_has_view _ _ _ _ _ _ (sr_key r) s Hv Hb Hi Hm) as (v & Hvin & Hvs & Hf); [|done|done|].
  { apply elem_of_app. left. apply list_elem_of_fmap. by exists r. }
  exists v. split_and!; try done. intros Hal.
  destruct (project_correct vs snapshot) as (_ & _ & Hbest).
  destruct (Hbest (finite_route v r)) as (p & Hpo & Hslot & Hspec & _).
  { constructor; try done. unfold route_matches_view. rewrite Hvs, Hs. apply contains_refl. }
  exists p. split_and!; try done. simpl in Hspec. unfold specificity at 1 in Hspec. by rewrite Hs in Hspec.
Qed.
End Complete.
