(* ===== verification/DaemonTheorems.v ===== *)
(** A configuration that was accepted works: the router starts with it, every
    interface it names gets a valid policy, and the lookup rules of its views
    respect source specificity. *)
From S2P Require Import Prelude Net Mac Model Metric Wire WireRoundtrip Api Filters DaemonConfig Scheduler Sender Router Projection SourceViews.
Import Hello.
Local Open Scope Z_scope.

Section Daemon.
Context {NL : IpNetLib} {NC : NetContains} {L : Libm}.
#[local] Existing Instance builtin_metrics.

(** [WiredMetric::default()]. *)
Definition default_wired : WiredMetric := MkWiredMetric DEFAULT_NOMINAL_COST DEFAULT_RECEIVED DEFAULT_WINDOW.

Lemma default_wired_ok : WiredMetric_default = Some default_wired.
Proof. reflexivity. Qed.

Fixpoint builder_origins (l : list Origin) : result DaemonError (list (RouteKey * Z)) :=
  match l with
  | [] => Ok []
  | o :: rest => key ← origin_key o; rest ← builder_origins rest; Ok ((key, or_metric o) :: rest)
  end.

(** The loop of [run_daemon] over the origins of the configuration. *)
Fixpoint originate_all (l : list Origin) (b : BabelRouterBuilder) : result DaemonError BabelRouterBuilder :=
  match l with
  | [] => Ok b
  | o :: rest => key ← origin_key o; originate_all rest (with_origin key (or_metric o) b)
  end.

(** The builder [run_daemon] fills; the interface manager adds interfaces
    later, so that the builder has none. *)
Definition daemon_builder (c : Config) (id : RouterId) (sequence_number : Z) : result DaemonError BabelRouterBuilder :=
  let b := with_router_id id (builder (PWired default_wired)) in
  let b := with_sequence_number sequence_number b in
  let b := with_route_selection (conf_route_selection c) b in
  let b := with_limits (effective_limits (conf_limits c)) b in
  let b := with_route_policy (DaemonPolicy c) b in
  b ← originate_all (origins c) b;
  Ok (with_shutdown_timeout (shutdown_timeout_ms c) b).

(** Origins are only appended. *)
Lemma originate_all_ok l : forall b, originate_all l b =
  (os ← builder_origins l; Ok (MkBuilder (bd_shutdown_timeout b) (bd_router_id b) (bd_interfaces b) (bd_origins b ++ os)
     (bd_metric b) (bd_metric_algebra b) (bd_route_policy b) (bd_route_selection b) (bd_limits b) (bd_sequence_number b))).
Proof.
  induction l as [|o l IH]; intros b; simpl; [rewrite app_nil_r; by destruct b|].
  destruct (origin_key o) as [key|]; simpl; [|done]. rewrite IH. destruct (builder_origins l) as [os|]; simpl; [|done].
  by rewrite <-app_assoc.
Qed.

(** What the daemon's router is made of. *)
Lemma daemon_builder_ok c id seqno b : daemon_builder c id seqno = Ok b <->
  exists os, builder_origins (origins c) = Ok os /\
    b = MkBuilder (Some (shutdown_timeout_ms c)) (Some id) [] os (PWired default_wired) AdditiveMetric
          (DaemonPolicy c) (Some (conf_route_selection c)) (effective_limits (conf_limits c)) seqno.
Proof.
  unfold daemon_builder. rewrite originate_all_ok. destruct (builder_origins (origins c)) as [os|]; simpl.
  - split; [intros [= <-]; by exists os|by intros (? & [= <-] & ->)].
  - split; [done|by intros (? & ? & _)].
Qed.

(** * Origins *)

Lemma conf_origins_ok l : forall seen, validate_conf_origins seen l = Ok tt ->
  exists origins, builder_origins l = Ok origins /\ validate_builder_origins seen origins = Ok tt.
Proof.
  induction l as [|o l IH]; intros seen H; simpl in H; [by exists []|].
  apply result_bind_Ok in H as (key & Hk & H). destruct (or_metric o =? INFINITY) eqn:Em; [done|].
  case_bool_decide as Hin; [done|]. apply IH in H as (os & Hos & Hv). exists ((key, or_metric o) :: os).
  assert (validate_key key = Ok tt) as Hkey.
  { unfold validate_key. rewrite bool_decide_true; [done|]. eapply RouteKey_new_wf, ok_or_Ok, Hk. }
  simpl. rewrite Hk. simpl. rewrite Hos. split; [done|]. simpl.
  unfold router_validate_origin, validate_origin. rewrite Hkey. simpl. rewrite Em. simpl.
  by rewrite bool_decide_false.
Qed.

(** * Interfaces *)

(** Numbers of a section are unsigned. *)
Definition section_typed (s : InterfaceSection) : Prop :=
  from_option (fun z => 0 <= z) True (hello_interval_ms s) /\
  from_option (fun z => 0 <= z) True (update_interval_ms s).

Lemma effective_interval_range value field z : from_option (fun z => 0 <= z) True value ->
  effective_interval value field = Ok z -> 1 <= z <= u16_max.
Proof.
  unfold effective_interval. set (v := default (DEFAULT_HELLO_INTERVAL_CS * 10) value). intros Hv H.
  assert (0 <= v) by (subst v; destruct value; [done|done]). clearbody v.
  destruct (Z.eqb_spec v 0); [done|]. destruct (Z.ltb_spec (u16_max * 10) v); [done|].
  destruct (Z.eqb_spec (v mod 10) 0); [|done]. simpl in H. injection H as <-. unfold u16_max in *.
  rewrite Z.mod_small; Z.div_mod_to_equations; lia.
Qed.

Lemma update_interval_range s z : section_typed s -> effective_update_interval s = Ok z -> 1 <= z <= u16_max.
Proof.
  intros [H1 H2] H. unfold effective_update_interval in H.
  destruct (update_interval_ms s) as [v|]; [by eapply effective_interval_range|].
  apply result_bind_Ok in H as (h & Hh & H). apply effective_interval_range in Hh; [|done].
  destruct (Z.leb_spec (h * 4) u16_max); [|done]. injection H as <-. lia.
Qed.

(** What [validate] found of one section. *)
Definition section_valid (s : InterfaceSection) : Prop :=
  patterns s <> [] /\
  (exists hello, effective_interval (hello_interval_ms s) "hello_interval_ms" = Ok hello) /\
  (exists update, effective_update_interval s = Ok update) /\
  (exists p, build_metric (section_metric s) = Ok p).

Lemma sections_valid l : forall seen, validate_sections seen l = Ok tt -> Forall section_valid l.
Proof.
  induction l as [|s l IH]; intros seen H; cbn [validate_sections] in H; [constructor|].
  apply result_bind_Ok in H as (seen' & H0 & H). apply result_bind_Ok in H as (hello & H1 & H).
  apply result_bind_Ok in H as (update & H2 & H). apply result_bind_Ok in H as (p & H3 & H).
  constructor; [|by eapply IH]. case_bool_decide; [done|]. split_and!; eauto.
Qed.

Lemma effective_section_ok i s : section_valid s -> section_typed s -> exists e p,
  effective_section i s = Some e /\ section e = i /\ build_policy e = Ok p /\ router_validate_policy p = Ok tt.
Proof.
  intros (_ & (hello & Hh) & (update & Hu) & (p & Hp)) Ht. unfold effective_section. rewrite Hh, Hu. simpl.
  pose proof (effective_interval_range _ _ _ (proj1 Ht) Hh). pose proof (update_interval_range _ _ Ht Hu).
  do 2 eexists. split; [done|]. split; [done|]. unfold build_policy. simpl. rewrite Hp. split; [done|].
  unfold router_validate_policy, validate_interface_policy, validate_intervals. simpl.
  destruct (Z.eqb_spec hello 0); [lia|]. by destruct (Z.eqb_spec update 0); [lia|].
Qed.

(** Whether a section claims a name. *)
Definition claims (s : InterfaceSection) (name : string) : Prop :=
  exists pattern, pattern ∈ patterns s /\ wildcard_match pattern name = true.

Lemma existsb_claims s name : existsb (fun p => wildcard_match p name) (patterns s) = true <-> claims s name.
Proof. rewrite existsb_exists. unfold claims. by setoid_rewrite list_elem_of_In. Qed.

Lemma effective_from_ok l name : forall i, Forall section_valid l -> Forall section_typed l ->
  exists ei, effective_from i l name = Some ei /\
  match ei with
  | None => Forall (fun s => ~ claims s name) l
  | Some e => exists j s p, l !! j = Some s /\ section e = (i + j)%nat /\ claims s name /\
      Forall (fun s => ~ claims s name) (take j l) /\ build_policy e = Ok p /\ router_validate_policy p = Ok tt
  end.
Proof.
  induction l as [|s l IH]; intros i Hv Ht; simpl; [exists None; split; [done|constructor]|].
  apply list.Forall_cons in Hv as [Hv1 Hv]. apply list.Forall_cons in Ht as [Ht1 Ht].
  destruct (existsb _ _) eqn:E.
  - apply existsb_claims in E. destruct (effective_section_ok i s Hv1 Ht1) as (e & p & -> & Hs & Hb & Hr).
    exists (Some e). split; [done|]. exists 0%nat, s, p. rewrite Nat.add_0_r. by split_and!; try constructor.
  - assert (~ claims s name) as Hn by (intros Hc%existsb_claims; congruence).
    destruct (IH (S i) Hv Ht) as (ei & -> & Hei). exists ei. split; [done|]. destruct ei as [e|]; [|by constructor].
    destruct Hei as (j & s' & p & Hj & Hs & Hc & Hf & Hb & Hr). exists (S j), s', p.
    split_and!; try done; [lia|simpl; by constructor].
Qed.

(** * Parsing keeps what it does not normalize *)

Lemma resolve_typed read l l' : resolve_interfaces read l = Ok l' -> Forall section_typed l -> Forall section_typed l'.
Proof.
  revert l'. induction l as [|s l IH]; intros l' H Ht; cbn [resolve_interfaces] in H; [by injection H as <-|].
  apply result_bind_Ok in H as (m & _ & H). apply result_bind_Ok in H as (rest & Hr & [= <-]).
  apply list.Forall_cons in Ht as [Ht1 Ht]. constructor; [exact Ht1|by apply IH].
Qed.

Record parsed (c : Config) : Prop := {
  pd_sections : Forall section_valid (interfaces c);
  pd_timeout : shutdown_timeout_ms c <> 0;
  pd_export : validate_export (export c) = Ok tt;
  pd_origins : validate_conf_origins ∅ (origins c) = Ok tt;
  pd_selection : validate_selection (conf_route_selection c) = Ok tt
}.

Lemma parse_parsed read value c : parse read value = Ok c -> parsed c.
Proof.
  intros (sections & _ & H)%result_bind_Ok. apply result_bind_Ok in H as ([] & H & [= <-]).
  set (c := MkConfig _ _ _ _ _ _ _ _ _ _ _) in *. clearbody c. unfold validate_daemon in H.
  apply result_bind_Ok in H as (? & _ & H). apply result_bind_Ok in H as (? & _ & H).
  apply result_bind_Ok in H as (? & _ & H). destruct (_ <? _); [done|].
  destruct (Z.eqb_spec (shutdown_timeout_ms c) 0); [done|]. case_bool_decide; [done|].
  apply result_bind_Ok in H as ([] & H1 & H). apply result_bind_Ok in H as ([] & H2 & H).
  apply result_bind_Ok in H as ([] & H3 & H). split; try done; [by eapply sections_valid|].
  by destruct (validate_selection _) as [[]|].
Qed.

(** Every interface name is left alone or has a valid policy. *)
Lemma parsed_interfaces read value c : parse read value = Ok c -> Forall section_typed (interfaces value) ->
  forall name, exists ei, effective_interface c name = Some ei /\
    match ei with
    | None => Forall (fun s => ~ claims s name) (interfaces c)
    | Some e => exists s p, interfaces c !! section e = Some s /\ claims s name /\
        Forall (fun s => ~ claims s name) (take (section e) (interfaces c)) /\
        build_policy e = Ok p /\ router_validate_policy p = Ok tt
    end.
Proof.
  intros H Ht. destruct (parse_parsed read value c H) as [Hs Hto _ Ho Hsel].
  assert (Forall section_typed (interfaces c)) as Ht'.
  { apply result_bind_Ok in H as (sections & Hr & H). apply result_bind_Ok in H as ([] & _ & [= <-]).
    simpl. by eapply resolve_typed. }
  intros name. destruct (effective_from_ok (interfaces c) name 0 Hs Ht') as (ei & He & Hei).
  exists ei. split; [done|]. destruct ei as [e|]; [|done].
  destruct Hei as (j & s & p & Hj & -> & Hrest). simpl. by exists s, p.
Qed.

Lemma parsed_builder read value c id seqno : parse read value = Ok c ->
  exists b, daemon_builder c id seqno = Ok b /\ validate_builder b = Ok tt.
Proof.
  intros H. destruct (parse_parsed read value c H) as [Hs Hto _ Ho Hsel].
  destruct (conf_origins_ok _ _ Ho) as (os & Hos & Hv). eexists. split; [apply daemon_builder_ok; eauto|]. unfold validate_builder. simpl.
  rewrite bool_decide_false by congruence. simpl. by rewrite Hsel.
Qed.

(** C23. A configuration the daemon accepts works: its origins, limits and
    selection make a router that starts, whatever identity and sequence number
    the state file gave; and for every interface name the configuration either
    leaves the name alone or yields the first section with a matching pattern
    and a policy that the router accepts, so that none of the [expect]s on
    validated intervals and policies can fail. *)
Theorem parsed_config_works read value c id seqno :
  parse read value = Ok c -> Forall section_typed (interfaces value) ->
  (exists b, daemon_builder c id seqno = Ok b /\ validate_builder b = Ok tt) /\
  (forall name, exists ei, effective_interface c name = Some ei /\
     match ei with
     | None => Forall (fun s => ~ claims s name) (interfaces c)
     | Some e => exists s p, interfaces c !! section e = Some s /\ claims s name /\
         Forall (fun s => ~ claims s name) (take (section e) (interfaces c)) /\
         build_policy e = Ok p /\ router_validate_policy p = Ok tt
     end).
Proof.
  intros H Ht. split; [by eapply parsed_builder|by eapply parsed_interfaces].
Qed.

(** * Lookup order *)

Lemma contains_overlap a b : net_contains a b = true -> prefixes_overlap a b = true.
Proof.
  intros (Hf & Hp & Hm)%net_contains_spec. unfold prefixes_overlap. rewrite Hf, eqb_reflx. simpl.
  apply orb_true_iff. left. apply net_contains_addr_spec. destruct a as [a|a], b as [b|b]; try done; simpl in *.
  - split; [done|]. rewrite v4net_network_trunc, v4net_trunc_addr, mask_mask by done. done.
  - split; [done|]. rewrite v6net_network_trunc, v6net_trunc_addr, mask_mask by done. done.
Qed.

Lemma overlap_sym a b : prefixes_overlap a b = prefixes_overlap b a.
Proof.
  unfold prefixes_overlap. rewrite (orb_comm (net_contains_addr a _)). f_equal.
  by destruct (net_is_ipv4 a), (net_is_ipv4 b).
Qed.

Lemma validate_against_In e v l w : validate_against e v l = Ok tt -> w ∈ l -> validate_pair e v w = Ok tt.
Proof.
  induction l as [|x l IH]; intros H Hin; [by apply not_elem_of_nil in Hin|]. simpl in H.
  apply result_bind_Ok in H as ([] & Hx & H). apply elem_of_cons in Hin as [->|Hin]; [done|by apply IH].
Qed.

(** Two different views of a validated export, in one order or the other. *)
Lemma validate_pairs_In e l v w : validate_pairs e l = Ok tt -> v ∈ l -> w ∈ l -> v <> w ->
  validate_pair e v w = Ok tt \/ validate_pair e w v = Ok tt.
Proof.
  induction l as [|x l IH]; intros H Hv Hw Hne; [by apply not_elem_of_nil in Hv|]. simpl in H.
  apply result_bind_Ok in H as ([] & Hx & H).
  apply elem_of_cons in Hv as [->|Hv], Hw as [Ew|Hw].
  - congruence.
  - left. by eapply validate_against_In.
  - subst w. right. by eapply validate_against_In.
  - by apply IH.
Qed.

Lemma pair_order e v w s t : validate_pair e v w = Ok tt \/ validate_pair e w v = Ok tt ->
  view_source v = Some s -> view_source w = Some t -> net_contains s t = true -> net_plen s < net_plen t ->
  rule_priority e w < rule_priority e v.
Proof.
  intros H Hs Ht Hc Hlt. apply contains_overlap in Hc.
  assert (forall x y, validate_pair e x y = Ok tt -> forall p q, view_source x = Some p -> view_source y = Some q ->
    prefixes_overlap p q = true -> (net_plen p < net_plen q -> rule_priority e y < rule_priority e x) /\
    (net_plen q < net_plen p -> rule_priority e x < rule_priority e y)) as Hpair.
  { intros x y Hxy p q Hp Hq Ho. unfold validate_pair in Hxy. rewrite Hp, Hq in Hxy.
    destruct (_ && (_ || _)); [done|]. case_bool_decide; [done|]. rewrite Ho in Hxy.
    destruct (Z.ltb_spec (net_plen q) (net_plen p)), (Z.ltb_spec (net_plen p) (net_plen q)); simpl in Hxy;
      split; intros; try lia.
    - destruct (Z.leb_spec (rule_priority e y) (rule_priority e x)); [done|lia].
    - destruct (Z.leb_spec (rule_priority e x) (rule_priority e y)); [done|lia]. }
  destruct H as [H|H]; [by apply (Hpair v w H s t Hs Ht Hc)|].
  rewrite overlap_sym in Hc. by apply (Hpair w v H t s Ht Hs Hc).
Qed.

(** The priority every view has when sources are automatic. *)
Lemma default_priority e v : validate_export e = Ok tt -> automatic_sources e = true ->
  v ∈ views e \/ view_rule_priority v = None ->
  rule_priority e v = saturating_add32 (source_rule_priority e) (128 - from_option net_plen 0 (view_source v)).
Proof.
  intros He Ha [Hv|Hv]; [|unfold rule_priority; by rewrite Hv].
  unfold validate_export in He. do 2 (destruct (_ : bool); [done|]). rewrite Ha in He. simpl in He.
  destruct (_ || existsb (odd_priority e) (views e)) eqn:E; [done|].
  apply orb_false_iff in E as [_ E]. assert (odd_priority e v = false) as Ho.
  { apply not_true_iff_false. intros Ho. apply not_true_iff_false in E. apply E, existsb_exists. exists v.
    split; [by apply list_elem_of_In|done]. }
  unfold odd_priority in Ho. destruct (view_rule_priority v) as [p|] eqn:Ep.
  - apply negb_false_iff, Z.eqb_eq in Ho. unfold rule_priority at 1. rewrite Ep. simpl. rewrite Ho. done.
  - unfold rule_priority. by rewrite Ep.
Qed.

Lemma export_checks e : validate_export e = Ok tt ->
  source_rule_priority e <= 32638 /\ validate_pairs e (views e) = Ok tt.
Proof.
  unfold validate_export. intros H. do 3 (destruct (_ : bool); [done|]).
  destruct ((source_rule_priority e =? 0) || (32638 <? source_rule_priority e)) eqn:E; [done|]. simpl in H.
  destruct (existsb _ _); [done|]. apply result_bind_Ok in H as ([] & _ & H).
  apply orb_false_iff in E as [_ E%Z.ltb_ge]. done.
Qed.

(** The kernel asks the most specific view first: in the views of a parsed
    configuration, those allocated for learned sources included, the rule of a
    source inside another, shorter one has the smaller priority number. *)
Theorem rules_most_specific_first {HO : HashOrder} read value c snapshot allocated held allocated' vs v w s t :
  parse read value = Ok c ->
  0 <= source_table_base (export c) <= u32_max -> inj_tables (held ∪ allocated) ->
  map_Forall (fun _ t => t <= u32_max) (held ∪ allocated) ->
  source_views_with_recovery (export c) snapshot allocated held = Some (allocated', Ok vs) ->
  v ∈ vs -> w ∈ vs -> view_source v = Some s -> view_source w = Some t ->
  net_contains s t = true -> net_plen s < net_plen t ->
  rule_priority (export c) w < rule_priority (export c) v.
Proof.
  intros H Hb Hi Hm Hsv Hv Hw Hs Ht Hc Hlt. apply parse_parsed in H as [_ _ He _ _].
  destruct (export_checks _ He) as [Hmax Hpairs].
  destruct (automatic_sources (export c)) eqn:Ha.
  - destruct (source_views_spec (export c) snapshot allocated held Ha Hb Hi Hm) as (m' & res & E & _ & _ & _ & Hres).
    rewrite Hsv in E. injection E as <- <-. destruct Hres as [_ Hvs].
    assert (forall x, x ∈ vs -> x ∈ views (export c) \/ view_rule_priority x = None) as Hx.
    { intros x [?|(? & ? & _ & ->)]%Hvs; auto. }
    rewrite (default_priority _ v), (default_priority _ w) by auto. rewrite Hs, Ht. simpl.
    unfold saturating_add32, u32_max. pose proof (net_plen_range s). pose proof (net_plen_range t). lia.
  - unfold source_views_with_recovery in Hsv. rewrite Ha in Hsv. simpl in Hsv. injection Hsv as <- <-.
    eapply pair_order; try done. eapply validate_pairs_In; try done. intros ->. rewrite Hs in Ht.
    injection Ht as ->. lia.
Qed.
End Daemon.
