(* ===== verification/DaemonDemo.v ===== *)
(** A concrete configuration: two overlapping sources, one of them with a table
    of its own, and an engine that learns a route for the other. *)
From S2P Require Import Prelude Net Mac Model Metric Wire Api EngineState Rib Engine Invariant EngineSpec Demo Filters DaemonConfig Scheduler Sender Router Projection SourceViews DaemonTheorems.
Import Hello.
Local Open Scope Z_scope.

#[local] Existing Instance demo_net.
#[local] Existing Instance demo_metrics.
#[local] Existing Instance demo_order.
#[local] Existing Instance demo_libm.

Definition demo_contains : NetContains := contains_model demo_net.
#[local] Existing Instance demo_contains.

Definition wide_source : option IpNet := NetV4 <$> v4net_new (ipv4 192 0 0 0) 8.
Definition narrow_source : option IpNet := NetV4 <$> v4net_new (ipv4 192 0 2 0) 24.
Definition anywhere : option IpNet := NetV4 <$> v4net_new (ipv4 10 1 0 0) 16.

(** Wired interfaces; the narrow source has an explicit view. *)
Definition demo_export : Export :=
  MkExport default_protocol false true true default_source_table_base default_source_rule_priority
    [MkExportView 100 None None default_filter; MkExportView 101 narrow_source None default_filter].

Definition demo_section : InterfaceSection :=
  MkInterfaceSection ["eth*"; "wg0"] LinkWired None NextHopAuto TransportIpv6 (Some 4000) None None None.

Definition demo_file : Config :=
  MkConfig None "/var/lib/babel-rs/state" default_shutdown_timeout_ms ShutdownClear
    default_restart_recovery_seconds [demo_section] default_route_selection (MkLimits None None None)
    (match anywhere with Some d => [MkOrigin d wide_source 0] | None => [] end)
    (MkPolicies default_filter default_filter) demo_export.

Definition no_files : string -> option (list byte) := fun _ => None.

Definition demo_parsed : option Config := result_ok (parse no_files demo_file).

Lemma demo_parsed_some : exists c, parse no_files demo_file = Ok c.
Proof.
  assert (succeeds demo_parsed = true) as H by (vm_compute; reflexivity).
  unfold demo_parsed in H. destruct (parse no_files demo_file) as [c|]; [by exists c|discriminate H].
Qed.

Lemma demo_section_typed : Forall section_typed (interfaces demo_file).
Proof. constructor; [|constructor]. split; simpl; [lia|done]. Qed.

Lemma parsed_config_works_witness : exists c id,
  (exists b, daemon_builder c id 7 = Ok b /\ validate_builder b = Ok tt) /\
  (forall name, exists ei, effective_interface c name = Some ei /\
     match ei with
     | None => Forall (fun s => ~ claims s name) (interfaces c)
     | Some e => exists s p, interfaces c !! section e = Some s /\ claims s name /\
         Forall (fun s => ~ claims s name) (take (section e) (interfaces c)) /\
         build_policy e = Ok p /\ router_validate_policy p = Ok tt
     end).
Proof.
  destruct demo_parsed_some as [c Hc].
  assert (exists id, own_id = Some id) as [id _] by (apply succeeds_Some; vm_compute; reflexivity).
  exists c, id. exact (parsed_config_works no_files demo_file c id 7 Hc demo_section_typed).
Defined.

(** * An engine with this configuration's policy *)

Definition sourced_key : option RouteKey := d ← anywhere; RouteKey_new d wide_source.

Definition sourced_packet (seqno : Z) : Packet := MkPacket
  [THello false seqno 400 []; TIhu None 96 1200 [];
   TUpdate {| ru_key := sourced_key; ru_router_id := peer_id; ru_next_hop := Some peer_address;
              ru_interval_cs := 1600; ru_seqno := 7; ru_metric := 96;
              ru_v4_via_v6 := true; ru_sub_tlvs := [] |}].

Definition sourced_events : list Event :=
  [InterfaceUp "eth0" [own_address] 1000;
   PacketReceived "eth0" peer_address (sourced_packet 1) 1200;
   PacketReceived "eth0" peer_address (sourced_packet 2) 5200].

Definition daemon_config : option EngineConfig :=
  id ← own_id; profile ← demo_profile; c ← demo_parsed;
  let r := recommended profile id in
  Some (MkEngineConfig (DaemonPolicy c) (ipv4_via_ipv6 r) (cfg_limits r) id (cfg_metric r) (metric_algebra r)
          (cfg_sequence_number r) (cfg_hello_interval_cs r) (cfg_update_interval_cs r) (route_selection r)).

Definition sourced_start : option Engine :=
  c ← daemon_config; match Engine_try_new c with Ok e => Some e | Err _ => None end.

Definition sourced_state : option Engine :=
  e ← sourced_start; snd <$> run (B := release_build) sourced_events e.

Definition sourced_snapshot (e : Engine) : RouteSnapshot :=
  MkSnapshot 1 (selected_routes e) (unreachable_routes e).

(** What the run comes to: the route is selected and its source, which is
    wider than the configured one, keeps the table it had. *)
Definition had_tables : gmap IpNet Z := match wide_source with Some s => {[ s := 1000007 ]} | None => ∅ end.

Record Outcome := MkOutcome {
  oc_config : Config;
  oc_engine : Engine;
  oc_tables : gmap IpNet Z;
  oc_views : list ExportView;
  oc_route : SelectedRoute;
  oc_source : IpNet
}.

Definition sourced_outcome : option Outcome :=
  c ← demo_parsed; e ← sourced_state;
  v ← source_views_with_recovery (export c) (sourced_snapshot e) had_tables ∅;
  vs ← result_ok v.2; r ← head (selected_routes e); s ← source (sr_key r);
  Some (MkOutcome c e v.1 vs r s).

Definition route_policy_of (e : Engine) : RoutePolicy := cfg_route_policy (EngineState.config e).

Lemma sourced_policy : route_policy_of <$> sourced_state = DaemonPolicy <$> demo_parsed.
Proof. vm_cast_no_check (eq_refl (DaemonPolicy <$> demo_parsed)). Qed.

Lemma sourced_reachable e : sourced_state = Some e -> reachable (B := release_build) e.
Proof.
  intros (e0 & (c & _ & H0)%bind_Some & ([rs e'] & Hr & ->)%fmap_Some)%bind_Some.
  destruct (Engine_try_new c) as [e1|] eqn:E; [|discriminate H0]. apply (inj Some) in H0 as ->.
  eapply run_reachable; [by eapply reach_new| |exact Hr].
  repeat (apply Forall_cons_iff; split; [simpl; unfold in_u64, u64_max; lia|]). by apply List.Forall_nil.
Qed.

Lemma sourced_outcome_spec o : sourced_outcome = Some o ->
  demo_parsed = Some (oc_config o) /\ sourced_state = Some (oc_engine o) /\
  source_views_with_recovery (export (oc_config o)) (sourced_snapshot (oc_engine o)) had_tables ∅ =
    Some (oc_tables o, Ok (oc_views o)) /\
  oc_route o ∈ selected_routes (oc_engine o) /\ source (sr_key (oc_route o)) = Some (oc_source o).
Proof.
  intros (c & Hc & (e & He & ([m res] & Hv & (vs & Hvs & (r & Hr & (s & Hs & H)%bind_Some)%bind_Some)
    %bind_Some)%bind_Some)%bind_Some)%bind_Some.
  simpl in H, Hvs. apply (inj Some) in H as <-. simpl. destruct res as [vs'|]; [|discriminate Hvs].
  apply (inj Some) in Hvs as ->. split_and!; try assumption.
  destruct (selected_routes e) as [|r' l]; [discriminate Hr|]. apply (inj Some) in Hr as ->. apply elem_of_cons. by left.
Qed.

Lemma had_tables_ok : inj_tables (∅ ∪ had_tables) /\ map_Forall (fun _ t => t <= u32_max) (∅ ∪ had_tables).
Proof.
  rewrite (left_id_L ∅ (∪)). unfold had_tables. destruct wide_source as [s|].
  - split; [|by apply map_Forall_singleton]. intros s1 s2 t [<- _]%lookup_singleton_Some [<- _]%lookup_singleton_Some. done.
  - split; [intros s1 s2 t []%lookup_empty_Some|apply map_Forall_empty].
Qed.

(** The facts about the export section the witnesses need. *)
Definition demo_checks (c : Config) : bool :=
  automatic_sources (export c)
  && bool_decide (0 <= source_table_base (export c) <= u32_max).

Lemma demo_checked c : demo_parsed = Some c ->
  automatic_sources (export c) = true /\ 0 <= source_table_base (export c) <= u32_max.
Proof.
  assert (from_option demo_checks false demo_parsed = true) as H by vm_cast_no_check (eq_refl true).
  intros Hc. rewrite Hc in H. apply andb_true_iff in H as [H1 H2%bool_decide_eq_true]. exact (conj H1 H2).
Qed.

Lemma sourced_outcome_some : exists o, sourced_outcome = Some o.
Proof. apply succeeds_Some. vm_cast_no_check (eq_refl true). Qed.

Lemma source_views_sound_witness : exists c e allocated' res,
  automatic_sources (export c) = true /\
  source_views_with_recovery (export c) (sourced_snapshot e) had_tables ∅ = Some (allocated', res) /\
  inj_tables allocated' /\
  (forall s t, carried (export c) (sourced_snapshot e) had_tables ∅ s t -> allocated' !! s = Some t).
Proof.
  destruct sourced_outcome_some as [o (Hc & _)%sourced_outcome_spec].
  destruct (demo_checked _ Hc) as [Ha Hb]. destruct had_tables_ok as [Hi Hm].
  destruct (source_views_sound (export (oc_config o)) (sourced_snapshot (oc_engine o)) had_tables ∅ Ha Hb Hi Hm)
    as (m & res & H1 & H2 & _ & H3 & _).
  exists (oc_config o), (oc_engine o), m, res. exact (conj Ha (conj H1 (conj H2 H3))).
Defined.

Lemma selected_sources_covered_witness : exists o, sourced_outcome = Some o /\
  exists v, v ∈ oc_views o /\ view_source v = Some (oc_source o) /\
    (v ∈ views (export (oc_config o)) \/ filter v = default_filter) /\
    (allows_key (filter v) (sr_key (oc_route o)) = true -> exists p,
       p ∈ project_routes (oc_views o) (sourced_snapshot (oc_engine o)) /\
       slot p = (table v, destination (sr_key (oc_route o))) /\ net_plen (oc_source o) <= specificity (pr_key p)).
Proof.
  destruct sourced_outcome_some as [o Ho]. exists o. split; [exact Ho|].
  destruct (sourced_outcome_spec o Ho) as (Hc & He & Hv & Hr & Hs).
  assert (cfg_route_policy (EngineState.config (oc_engine o)) = DaemonPolicy (oc_config o)) as Hp.
  { pose proof sourced_policy as H. rewrite He, Hc in H. exact (inj Some _ _ H). }
  destruct (demo_checked _ Hc) as [_ Hb]. destruct had_tables_ok as [Hi Hm].
  exact (selected_sources_covered (B := release_build) (oc_config o) (oc_engine o) 1 had_tables ∅ (oc_tables o)
    (oc_views o) (oc_route o) (oc_source o) eq_refl (sourced_reachable _ He) Hp Hb Hi Hm Hv Hr Hs).
Defined.

(** The view of the wide source, and the configured one of the narrow source. *)
Definition nested_views (o : Outcome) : option (ExportView * ExportView * IpNet * IpNet) :=
  find_map (fun v => s ← view_source v;
    find_map (fun w => t ← view_source w;
      if bool_decide (net_contains s t = true /\ net_plen s < net_plen t) then Some (v, w, s, t) else None)
    (oc_views o)) (oc_views o).

Lemma nested_views_spec o v w s t : nested_views o = Some (v, w, s, t) ->
  v ∈ oc_views o /\ w ∈ oc_views o /\ view_source v = Some s /\ view_source w = Some t /\
  net_contains s t = true /\ net_plen s < net_plen t.
Proof.
  intros (v' & Hv & (s' & Hs & (w' & Hw & (t' & Ht & H)%bind_Some)%find_map_Some)%bind_Some)%find_map_Some.
  destruct (bool_decide _) eqn:E in H; [|discriminate H]. apply bool_decide_eq_true in E as [E1 E2].
  apply (inj Some) in H. simplify_eq. split_and!; assumption.
Qed.

Lemma rules_most_specific_first_witness : exists c v w s t,
  view_source v = Some s /\ view_source w = Some t /\ net_contains s t = true /\
  rule_priority (export c) w < rule_priority (export c) v.
Proof.
  assert (exists o x, sourced_outcome = Some o /\ nested_views o = Some x) as (o & [[[v w] s] t] & Ho & Hx).
  { assert (succeeds (o ← sourced_outcome; nested_views o) = true) as H by vm_cast_no_check (eq_refl true).
    apply succeeds_Some in H as (x & (o & Ho & Hx)%bind_Some). exists o, x. exact (conj Ho Hx). }
  destruct (sourced_outcome_spec o Ho) as (Hc & _ & Hv & _).
  assert (parse no_files demo_file = Ok (oc_config o)) as Hparse.
  { unfold demo_parsed in Hc. destruct (parse no_files demo_file) as [c|]; [|discriminate Hc].
    apply (inj Some) in Hc as ->. reflexivity. }
  destruct (demo_checked _ Hc) as [_ Hb]. destruct had_tables_ok as [Hi Hm].
  destruct (nested_views_spec o v w s t Hx) as (Hin & Hin' & Hs & Ht & Hst & Hlt).
  exists (oc_config o), v, w, s, t. split; [exact Hs|]. split; [exact Ht|]. split; [exact Hst|].
  exact (rules_most_specific_first no_files demo_file (oc_config o) _ had_tables ∅ (oc_tables o) (oc_views o)
    v w s t Hparse Hb Hi Hm Hv Hin Hin' Hs Ht Hst Hlt).
Defined.
