(* ===== verification/Netlink.v ===== *)
(** Routes and rules of the kernel ([linux/identity.rs] and the netlink requests
    of [linux/netlink.rs]).

    Messages are those of [netlink_packet_route], with the fields and attributes
    the source reads; other attributes are kept as opaque values, so that
    different routes are different messages.  The kernel is a parameter: the
    outcome and the effect of each request, with what the daemon relies on as
    the laws of [NetlinkLaws]. *)
From S2P Require Import Prelude Net.
Local Open Scope Z_scope.

Inductive AddressFamily := AfInet | AfInet6 | AfOther (n : Z).
Inductive RouteType := RtnUnicast | RtnUnreachable | RtnOther (n : Z).
(** [RouteProtocol]: numbers that the crate names, and others. *)
Inductive RouteProtocol := NamedProtocol (n : Z) | OtherProtocol (n : Z).
Inductive RouteScope := ScopeUniverse | ScopeLink.

#[global] Instance AddressFamily_eq_dec : EqDecision AddressFamily.
Proof. solve_decision. Defined.
#[global] Instance RouteType_eq_dec : EqDecision RouteType.
Proof. solve_decision. Defined.
#[global] Instance RouteProtocol_eq_dec : EqDecision RouteProtocol.
Proof. solve_decision. Defined.

Inductive RouteAddress := RaInet (a : Ipv4Addr) | RaInet6 (a : Ipv6Addr) | RaOther.
Inductive RouteVia := ViaInet (a : Ipv4Addr) | ViaInet6 (a : Ipv6Addr) | ViaOther.

#[global] Instance RouteAddress_eq_dec : EqDecision RouteAddress.
Proof. solve_decision. Defined.
#[global] Instance RouteVia_eq_dec : EqDecision RouteVia.
Proof. solve_decision. Defined.

Inductive RouteAttribute :=
| RtaTable (v : Z)
| RtaDestination (a : RouteAddress)
| RtaPriority (v : Z)
| RtaOif (v : Z)
| RtaGateway (a : RouteAddress)
| RtaVia (v : RouteVia)
| RtaOther (bytes : list byte).

#[global] Instance RouteAttribute_eq_dec : EqDecision RouteAttribute.
Proof. solve_decision. Defined.

Record RouteMessage := MkRouteMessage {
  rm_address_family : AddressFamily;
  rm_destination_prefix_length : Z;
  rm_table : Z;
  rm_protocol : RouteProtocol;
  rm_kind : RouteType;
  rm_attributes : list RouteAttribute
}.

#[global] Instance RouteMessage_eq_dec : EqDecision RouteMessage.
Proof. solve_decision. Defined.

Inductive RuleAttribute :=
| FraTable (v : Z)
| FraPriority (v : Z)
| FraSource (a : IpAddr)
| FraProtocol (p : RouteProtocol)
| FraOther (bytes : list byte).

#[global] Instance RuleAttribute_eq_dec : EqDecision RuleAttribute.
Proof. solve_decision. Defined.

Record RuleMessage := MkRuleMessage {
  fm_table : Z;
  fm_src_len : Z;
  fm_attributes : list RuleAttribute
}.

#[global] Instance RuleMessage_eq_dec : EqDecision RuleMessage.
Proof. solve_decision. Defined.

(** An error of [rtnetlink]: the kernel's negative code, or another failure. *)
Inductive NetlinkError := NlError (raw_code : Z) | NlOther.
Definition ESRCH : Z := 3.

Section Identity.
Context {NL : IpNetLib}.

Record RouteIdentity := MkRouteIdentity {
  ri_table : Z;
  ri_destination : IpNet;
  ri_priority : Z;
  ri_output_interface : Z;
  ri_gateway : option IpAddr;
  ri_unreachable : bool
}.

#[global] Instance RouteIdentity_eq_dec : EqDecision RouteIdentity.
Proof. solve_decision. Defined.
#[global] Program Instance RouteIdentity_countable : Countable RouteIdentity :=
  inj_countable' (fun i => (ri_table i, ri_destination i, ri_priority i, ri_output_interface i, ri_gateway i, ri_unreachable i))
    (fun '(a, b, c, d, e, f) => MkRouteIdentity a b c d e f) _.
Next Obligation. by intros []. Qed.

Record RuleIdentity := MkRuleIdentity { ru_table : Z; ru_priority : Z; ru_source : IpNet }.

#[global] Instance RuleIdentity_eq_dec : EqDecision RuleIdentity.
Proof. solve_decision. Defined.
#[global] Program Instance RuleIdentity_countable : Countable RuleIdentity :=
  inj_countable' (fun i => (ru_table i, ru_priority i, ru_source i)) (fun '(a, b, c) => MkRuleIdentity a b c) _.
Next Obligation. by intros []. Qed.

Definition route_address (value : RouteAddress) : option IpAddr :=
  match value with RaInet a => Some (IpV4 a) | RaInet6 a => Some (IpV6 a) | RaOther => None end.

Definition route_net (value : RouteAddress) (prefix : Z) : option IpNet :=
  match value with
  | RaInet a => NetV4 <$> v4net_new a prefix
  | RaInet6 a => NetV6 <$> v6net_new a prefix
  | RaOther => None
  end.

Definition route_table (m : RouteMessage) : Z :=
  default (rm_table m) (find_map (fun a => match a with RtaTable v => Some v | _ => None end) (rm_attributes m)).

(** The destination of a default route is not sent. *)
Definition default_destination (family : AddressFamily) (prefix : Z) : option IpNet :=
  match family with
  | AfInet => if prefix =? 0 then NetV4 <$> v4net_new (ipv4 0 0 0 0) 0 else None
  | AfInet6 => if prefix =? 0 then NetV6 <$> v6net_new (ipv6 [0; 0; 0; 0; 0; 0; 0; 0]) 0 else None
  | AfOther _ => None
  end.

Definition message_destination (m : RouteMessage) : option IpNet :=
  match find_map (fun a => match a with
                           | RtaDestination v => route_net v (rm_destination_prefix_length m)
                           | _ => None
                           end) (rm_attributes m) with
  | Some d => Some d
  | None => default_destination (rm_address_family m) (rm_destination_prefix_length m)
  end.

Definition message_gateway (m : RouteMessage) : option IpAddr :=
  find_map (fun a => match a with
                     | RtaGateway v => route_address v
                     | RtaVia (ViaInet v) => Some (IpV4 v)
                     | RtaVia (ViaInet6 v) => Some (IpV6 v)
                     | _ => None
                     end) (rm_attributes m).

(** [route_identity]; a reject route has no next hop, whatever the kernel says. *)
Definition route_identity (m : RouteMessage) : option RouteIdentity :=
  destination ← message_destination m;
  let priority :=
    default 0 (find_map (fun a => match a with RtaPriority v => Some v | _ => None end) (rm_attributes m)) in
  let output_interface :=
    default 0 (find_map (fun a => match a with RtaOif v => Some v | _ => None end) (rm_attributes m)) in
  let unreachable := bool_decide (rm_kind m = RtnUnreachable) in
  Some (MkRouteIdentity (route_table m) destination priority
          (if unreachable then 0 else output_interface)
          (if unreachable then None else message_gateway m) unreachable).

Definition rule_identity (m : RuleMessage) : option RuleIdentity :=
  let table :=
    default (fm_table m) (find_map (fun a => match a with FraTable v => Some v | _ => None end) (fm_attributes m)) in
  priority ← find_map (fun a => match a with FraPriority v => Some v | _ => None end) (fm_attributes m);
  address ← find_map (fun a => match a with FraSource v => Some v | _ => None end) (fm_attributes m);
  source ← match address with
           | IpV4 a => NetV4 <$> v4net_new a (fm_src_len m)
           | IpV6 a => NetV6 <$> v6net_new a (fm_src_len m)
           end;
  Some (MkRuleIdentity table priority source).

(** The filters of [owned_routes] and [owned_rules]. *)
Definition route_owned (protocol : Z) (m : RouteMessage) : bool :=
  bool_decide (rm_protocol m = OtherProtocol protocol).
Definition rule_owned (protocol : Z) (m : RuleMessage) : bool :=
  bool_decide (FraProtocol (OtherProtocol protocol) ∈ fm_attributes m).
End Identity.
