(* ===== verification/Recovery.v ===== *)
(** Recovery of the forwarding table over restarts ([linux/recovery.rs]): the
    journal of routes found at start-up, their deadlines, and which of them a
    reconciliation keeps.

    The journal file is read and written as a value: its JSON form is
    [serde_json]'s.  [scope_json] is the serialization of an export section and
    an import filter. *)
From S2P Require Import Prelude Net Mac Model Metric Wire Api Filters DaemonConfig Netlink.
Local Open Scope Z_scope.

Definition DYNAMIC_PRIORITY_BASE : Z := 65535.

Inductive LinuxError :=
| LinuxIo
| LinuxNetlink (e : NetlinkError)
| InvalidRoute
| LinuxInterface (name : string).

Section Recovery.
Context {NL : IpNetLib} {NC : NetContains} {L : Libm}.

Record PendingRoute := MkPendingRoute { pd_route : RouteIdentity; deadline_ms : Z }.

Record Journal := MkJournal {
  jr_version : Z;
  jr_boot : string;
  jr_namespace : string;
  jr_protocol : Z;
  jr_export_scope : string;
  pending : list PendingRoute
}.

Definition default_journal : Journal := MkJournal 0 "" "" 0 "" [].

Record Recovery := MkRecovery {
  rc_path : option string;
  journal : Journal;
  rc_rules : list RuleIdentity;
  revoked : bool;
  dirty : bool
}.

Definition default_recovery : Recovery := MkRecovery None default_journal [] false false.

Record JournalWrite := MkJournalWrite { jw_path : string; jw_data : Journal }.

(** What reading the journal file gave. *)
Inductive JournalFile :=
| JournalMissing
| JournalUnreadable
| JournalMalformed
| JournalContent (j : Journal).

Definition set_pending (j : Journal) (l : list PendingRoute) : Journal :=
  MkJournal (jr_version j) (jr_boot j) (jr_namespace j) (jr_protocol j) (jr_export_scope j) l.
Definition set_journal (r : Recovery) (j : Journal) : Recovery :=
  MkRecovery (rc_path r) j (rc_rules r) (revoked r) (dirty r).
Definition set_dirty (r : Recovery) (d : bool) : Recovery :=
  MkRecovery (rc_path r) (journal r) (rc_rules r) (revoked r) d.

(** ** The writer of the journal

    A thread takes the writes from its channel one after the other.  A caller may be
    gone when its write is done. *)

Record JournalWriter := MkJournalWriter { wr_queue : list (nat * JournalWrite); wr_done : list (nat * JournalWrite * bool) }.

Definition writer_new : JournalWriter := MkJournalWriter [] [].

(** [save] sends its write with a reply of its own, here the number of the call. *)
Definition writer_save (id : nat) (write : option JournalWrite) (w : JournalWriter) : JournalWriter :=
  match write with
  | Some j => MkJournalWriter (wr_queue w ++ [(id, j)]) (wr_done w)
  | None => w
  end.

(** One round of the thread; [ok]: the replacement of the file succeeded. *)
Definition writer_round (ok : bool) (w : JournalWriter) : JournalWriter :=
  match wr_queue w with
  | [] => w
  | (id, j) :: rest => MkJournalWriter rest (wr_done w ++ [(id, j, ok)])
  end.

Inductive WriterEvent := SaveCalled (id : nat) (write : option JournalWrite) | WriterRound (ok : bool).
Definition writer_step (w : JournalWriter) (ev : WriterEvent) : JournalWriter :=
  match ev with SaveCalled id write => writer_save id write w | WriterRound ok => writer_round ok w end.
Definition writer_run (evs : list WriterEvent) : JournalWriter := fold_left writer_step evs writer_new.

Definition asked (evs : list WriterEvent) : list (nat * JournalWrite) :=
  omap (fun ev => match ev with SaveCalled id (Some j) => Some (id, j) | _ => None end) evs.

(** Writes are made in the order in which they were asked for, each once, whether or
    not the caller still waits. *)
Lemma writer_in_order evs : (fst <$> wr_done (writer_run evs)) ++ wr_queue (writer_run evs) = asked evs.
Proof.
  unfold writer_run, asked. induction evs as [|ev evs IH] using rev_ind; [done|].
  rewrite fold_left_app, omap_app, <- IH. simpl. set (w := fold_left writer_step evs writer_new). clearbody w.
  destruct ev as [id [j|]|ok]; simpl; rewrite ?app_nil_r, ?app_assoc; try done.
  unfold writer_round. destruct (wr_queue w) as [|[id j] rest] eqn:E; simpl; [by rewrite E|].
  by rewrite fmap_app, <- app_assoc.
Qed.

(** A [HashMap] or [BTreeMap] collected from pairs: the last one wins. *)
Definition collect_map {K A} `{Countable K} (l : list (K * A)) : gmap K A := list_to_map (rev l).

Section Load.
Context (scope_json : Export -> Filter -> string).

Definition recovery_scope (c : Config) : string := scope_json (export c) (pol_import (policy c)).

Definition read_journal (file : JournalFile) : result LinuxError Journal :=
  match file with
  | JournalContent j => Ok j
  | JournalMalformed => Err LinuxIo
  | JournalMissing => Ok default_journal
  | JournalUnreadable => Err LinuxIo
  end.

(** Whether the policy differs from the one the journal was written under. *)
Definition scope_changed_since (c : Config) (previous : Journal) : bool :=
  let scoped := negb (bool_decide (pol_import (policy c) = default_filter))
                || existsb (fun v => negb (bool_decide (filter v = default_filter))) (views (export c)) in
  if bool_decide (jr_export_scope previous = ""%string) then scoped
  else negb (bool_decide (jr_export_scope previous = recovery_scope c)).

Definition compatible (c : Config) (boot namespace : string) (previous : Journal) : bool :=
  (jr_version previous =? 1) && bool_decide (jr_boot previous = boot)
  && bool_decide (jr_namespace previous = namespace) && (jr_protocol previous =? protocol (export c)).

Definition old_deadlines (c : Config) (boot namespace : string) (previous : Journal) : gmap RouteIdentity Z :=
  if compatible c boot namespace previous
  then collect_map (map (fun p => (pd_route p, deadline_ms p)) (pending previous)) else ∅.

Definition new_deadline (c : Config) (previous : Journal) (now : Z) : Z :=
  if scope_changed_since c previous then 0
  else saturating_add64 now (restart_recovery_seconds c * 1000).

(** [Recovery::load]; [boot] and [namespace] are [None] when they cannot be read,
    and [write_ok] is the outcome of [save]. *)
Definition load (c : Config) (routes : list RouteIdentity) (rules : list RuleIdentity) (now : Z)
    (boot namespace : option string) (file : JournalFile) (write_ok : bool) : result LinuxError Recovery :=
  boot ← ok_or boot LinuxIo;
  namespace ← ok_or namespace LinuxIo;
  previous ← read_journal file;
  let rules := if scope_changed_since c previous then [] else rules in
  let old := old_deadlines c boot namespace previous in
  let deadline := new_deadline c previous now in
  let pending := map (fun route => MkPendingRoute route (Z.min (default deadline (old !! route)) deadline)) routes in
  let value := MkRecovery (Some (state_file c +:+ ".fib-recovery.json")%string)
    (MkJournal 1 boot namespace (protocol (export c)) (recovery_scope c) pending) rules false false in
  if write_ok then Ok value else Err LinuxIo.
End Load.

Definition revoke (r : Recovery) : Recovery := MkRecovery (rc_path r) (journal r) (rc_rules r) true (dirty r).

Definition live (r : Recovery) (p : PendingRoute) (now : Z) : bool := negb (revoked r) && (now <? deadline_ms p).

(** [Recovery::sources]. *)
Definition sources (r : Recovery) (now : Z) (e : Export) : gmap IpNet Z :=
  if negb (automatic_sources e) then ∅
  else collect_map (map (fun rule => (ru_source rule, ru_table rule))
    (List.filter (fun rule =>
       negb (existsb (fun v => bool_decide (view_source v = Some (ru_source rule))) (views e))
       && existsb (fun p => (ri_table (pd_route p) =? ru_table rule) && live r p now) (pending (journal r)))
     (rc_rules r))).

(** [Recovery::keep]. *)
Definition keep (r : Recovery) (route : RouteIdentity) (confirmed : gset (Z * IpNet)) (now : Z) : bool :=
  negb (bool_decide ((ri_table route, ri_destination route) ∈ confirmed))
  && existsb (fun p => bool_decide (pd_route p = route) && live r p now) (pending (journal r)).

Definition write_request (r : Recovery) : option JournalWrite :=
  path ← rc_path r; Some (MkJournalWrite path (journal r)).

(** [Recovery::applied]. *)
Definition still_pending (revoked : bool) (current : gset RouteIdentity) (confirmed : gset (Z * IpNet)) (now : Z)
    (p : PendingRoute) : bool :=
  negb revoked && (now <? deadline_ms p) && bool_decide (pd_route p ∈ current)
  && negb (bool_decide ((ri_table (pd_route p), ri_destination (pd_route p)) ∈ confirmed)).

Definition applied (r : Recovery) (current : gset RouteIdentity) (confirmed : gset (Z * IpNet)) (now : Z)
    : Recovery * option JournalWrite :=
  let before := length (pending (journal r)) in
  let rest := List.filter (still_pending (revoked r) current confirmed now) (pending (journal r)) in
  let r := set_journal r (set_pending (journal r) rest) in
  let r := set_dirty r (dirty r || negb (before =? length rest)%nat) in
  (r, if dirty r then write_request r else None).

Definition saved (r : Recovery) : Recovery := set_dirty r false.

(** [Recovery::remaining]. *)
Definition saturating_sub (a b : Z) : Z := Z.max 0 (a - b).
Definition remaining (r : Recovery) (now : Z) : nat * Z :=
  let l := List.filter (fun p => live r p now) (pending (journal r)) in
  (length l, fold_right Z.max 0 (map (fun p => saturating_sub (deadline_ms p) now) l)).

(** [eligible_rule]. *)
Definition eligible_rule (rule : RuleIdentity) (e : Export) : bool :=
  manage_rules e
  && (existsb (fun v => bool_decide (view_source v = Some (ru_source rule)) && (table v =? ru_table rule)
                        && (rule_priority e v =? ru_priority rule)) (views e)
      || (automatic_sources e && (source_table_base e <=? ru_table rule)
          && negb (existsb (fun v => table v =? ru_table rule) (views e))
          && (rule_priority e (MkExportView (ru_table rule) (Some (ru_source rule)) None default_filter)
              =? ru_priority rule))).

(** The filter of [begin_recovery] on the routes of the kernel. *)
Definition recoverable (c : Config) (indices : gset Z) (rules : list RuleIdentity) (r : RouteIdentity) : bool :=
  negb (ri_unreachable r) && (DYNAMIC_PRIORITY_BASE <=? ri_priority r)
  && (ri_priority r <? DYNAMIC_PRIORITY_BASE + INFINITY) && bool_decide (ri_output_interface r ∈ indices)
  && (existsb (fun v => table v =? ri_table r) (views (export c))
      || existsb (fun v => ru_table v =? ri_table r) rules).

(** [allowed_indices]: the interfaces the configuration covers; [names] is the
    directory of links and [index] the index of one.  [None] is a panic. *)
Fixpoint allowed_indices (c : Config) (index : string -> option Z) (names : list string)
    : option (result LinuxError (gset Z)) :=
  match names with
  | [] => Some (Ok ∅)
  | name :: rest =>
      e ← effective_interface c name;
      match e with
      | None => allowed_indices c index rest
      | Some _ =>
          match index name with
          | None => Some (Err (LinuxInterface name))
          | Some i =>
              r ← allowed_indices c index rest;
              Some (match r with Ok s => Ok ({[ i ]} ∪ s) | Err x => Err x end)
          end
      end
  end.

(** The loop of [recovery_interfaces]: a deadline in the past instead of a
    missing entry, until the route is deleted. *)
Definition tombstone (scope_changed : bool) (indices : gset Z) (p : PendingRoute) : PendingRoute :=
  if scope_changed || negb (bool_decide (ri_output_interface (pd_route p) ∈ indices))
  then MkPendingRoute (pd_route p) 0 else p.

Definition recovery_interfaces (scope_json : Export -> Filter -> string) (c : Config) (indices : gset Z)
    (r : Recovery) : Recovery * option JournalWrite :=
  let scope_changed := negb (bool_decide (jr_export_scope (journal r) = recovery_scope scope_json c)) in
  let r := set_journal r (set_pending (journal r) (map (tombstone scope_changed indices) (pending (journal r)))) in
  let r := set_dirty r true in
  (r, write_request r).
End Recovery.
