(* ===== verification/Exporter.v ===== *)
(** The exporter to the kernel ([linux.rs], [linux/netlink.rs]): a snapshot of
    the RIB is projected, missing routes are installed and stale ones removed,
    and the rules of source views follow.

    The system (kernel and journal file) is a parameter [Netlink]: what each
    request answers and the state it leaves, errors included.  Requests that
    change something are logged with their answers, so that their order can be
    stated.  The builder
    of route messages is [rtnetlink]'s and part of the parameter as well. *)
From S2P Require Import Prelude Net Mac Model Metric Wire Api Filters DaemonConfig Scheduler Sender Router Projection Netlink Recovery.
Import Hello.
Local Open Scope Z_scope.

(** What the source hands to [RouteMessageBuilder]. *)
Section Requests.
Context {NL : IpNetLib}.

Record RouteRequest := MkRouteRequest {
  rq_destination : IpNet;
  rq_table : Z;
  rq_protocol : Z;
  rq_priority : Z;
  rq_output_interface : option Z;
  rq_scope : RouteScope;
  rq_gateway : option IpAddr;
  rq_onlink : bool
}.

(** Requests that change something. *)
Inductive Request :=
| ReplaceRoute (m : RouteMessage)
| DelRoute (m : RouteMessage)
| AddRule (m : RuleMessage)
| DelRule (m : RuleMessage)
| WriteJournal (w : JournalWrite).
End Requests.

(** What became of a request: [Unwritten] is a journal that could not be written. *)
Inductive Answer :=
| Done
| Refused (e : NetlinkError)
| Unwritten.

Class Netlink {NL : IpNetLib} {NC : NetContains} : Type := {
  System : Type;
  (** [true] is IPv4. *)
  get_routes : bool -> System -> result NetlinkError (list RouteMessage) * System;
  get_rules : bool -> System -> result NetlinkError (list RuleMessage) * System;
  route_replace : RouteMessage -> System -> result NetlinkError unit * System;
  route_del : RouteMessage -> System -> result NetlinkError unit * System;
  rule_add : RuleMessage -> System -> result NetlinkError unit * System;
  rule_del : RuleMessage -> System -> result NetlinkError unit * System;
  (** [/sys/class/net/<name>/ifindex]. *)
  ifindex : string -> System -> option Z;
  (** [JournalWriter::save] of a request. *)
  write_journal : JournalWrite -> System -> bool * System;
  (** The builder: what it refuses, and the message it makes. *)
  destination_prefix_ok : IpNet -> bool;
  gateway_ok : IpNet -> IpAddr -> bool;
  build_route : RouteRequest -> RouteMessage;
  build_rule : RuleIdentity -> RuleMessage
}.

Section Exporter.
Context {NL : IpNetLib} {NC : NetContains} {NK : Netlink} {HO : HashOrder}.

(** * Requests *)

(** The system, and the requests made so far with their answers. *)
Record World := MkWorld { sys : System; log : list (Request * Answer) }.

(** Computations that make requests and can fail. *)
Definition M (A : Type) : Type := World -> result LinuxError A * World.

#[global] Instance M_ret : MRet M := fun _ a w => (Ok a, w).
#[global] Instance M_bind : MBind M := fun _ _ f m w =>
  match m w with
  | (Ok a, w) => f a w
  | (Err e, w) => (Err e, w)
  end.

Definition fail {A} (e : LinuxError) : M A := fun w => (Err e, w).
Definition lift {A} (r : result LinuxError A) : M A := fun w => (r, w).

(** A request that reads, and one that changes something. *)
Definition query {A} (f : System -> result NetlinkError A * System) : M A := fun w =>
  match f (sys w) with
  | (Ok a, s) => (Ok a, MkWorld s (log w))
  | (Err e, s) => (Err (LinuxNetlink e), MkWorld s (log w))
  end.
Definition request (q : Request) (f : System -> result NetlinkError unit * System) : M unit := fun w =>
  match f (sys w) with
  | (Ok _, s) => (Ok tt, MkWorld s (log w ++ [(q, Done)]))
  | (Err e, s) => (Err (LinuxNetlink e), MkWorld s (log w ++ [(q, Refused e)]))
  end.

Definition interface_index (name : string) : M Z := fun w =>
  (ok_or (ifindex name (sys w)) (LinuxInterface name), w).

Fixpoint for_each {A} (l : list A) (f : A -> M unit) : M unit :=
  match l with [] => mret tt | a :: rest => f a ≫= fun _ => for_each rest f end.

Definition owned_routes (protocol : Z) : M (list RouteMessage) :=
  v4 ← query (get_routes true);
  v6 ← query (get_routes false);
  mret (List.filter (route_owned protocol) (v4 ++ v6)).

Definition owned_rules (protocol : Z) : M (list RuleMessage) :=
  v4 ← query (get_rules true);
  v6 ← query (get_rules false);
  mret (List.filter (rule_owned protocol) (v4 ++ v6)).

(** * Rules *)

(** The rules the views ask for. *)
Definition view_rule (e : Export) (v : ExportView) : option RuleIdentity :=
  source ← view_source v; Some (MkRuleIdentity (table v) (rule_priority e v) source).
Definition desired_rules (e : Export) (retain : bool) : gset RuleIdentity :=
  if retain && manage_rules e then list_to_set (omap (view_rule e) (views e)) else ∅.

Definition add_rule (protocol : Z) (rule : RuleIdentity) : M unit :=
  let m := build_rule rule in
  let m := MkRuleMessage (fm_table m) (fm_src_len m) (fm_attributes m ++ [FraProtocol (OtherProtocol protocol)]) in
  request (AddRule m) (rule_add m).

Definition del_rule (m : RuleMessage) : M unit := request (DelRule m) (rule_del m).

Definition identities {I} `{Countable I} {A} (f : A -> option I) (l : list A) : gset I := list_to_set (omap f l).

(** A message without an identity, or with one that is not wanted. *)
Definition unwanted {I A} (f : A -> option I) (wanted : I -> bool) (m : A) : bool :=
  match f m with Some i => negb (wanted i) | None => true end.

Definition reconcile_rules (e : Export) (retain : bool) : M unit :=
  let desired := desired_rules e retain in
  current ← owned_rules (protocol e);
  let current_identities := identities rule_identity current in
  _ ← for_each (hs_iter (desired ∖ current_identities)) (add_rule (protocol e));
  for_each current (fun m =>
    if unwanted rule_identity (fun i => bool_decide (i ∈ desired)) m then del_rule m else mret tt).

(** The rule belongs to one of the views. *)
Definition rule_of_view (e : Export) (rule : RuleIdentity) : bool :=
  existsb (fun v => bool_decide (view_source v = Some (ru_source rule)) && (table v =? ru_table rule)
                    && (rule_priority e v =? ru_priority rule)) (views e).

Definition remove_stale_rules (e : Export) (retain : bool) : M unit :=
  current ← owned_rules (protocol e);
  for_each current (fun m =>
    let keep := retain && manage_rules e
                && match rule_identity m with Some rule => rule_of_view e rule | None => false end in
    if keep then mret tt else del_rule m).

(** * Routes *)

Definition set_kind (m : RouteMessage) (kind : RouteType) : RouteMessage :=
  MkRouteMessage (rm_address_family m) (rm_destination_prefix_length m) (rm_table m) (rm_protocol m) kind
    (rm_attributes m).

Definition route_priority (p : ProjectedRoute) : Z :=
  DYNAMIC_PRIORITY_BASE + from_option sr_metric INFINITY (pr_selected p).

(** The identity and the message of a projected route. *)
Definition prepare (e : Export) (p : ProjectedRoute) : M (RouteIdentity * RouteMessage) :=
  let destination := destination (pr_key p) in
  let priority := route_priority p in
  if negb (destination_prefix_ok destination) then fail InvalidRoute
  else match pr_selected p with
  | Some selected =>
      index ← interface_index (sr_interface selected);
      if device_only e then
        mret (MkRouteIdentity (pr_table p) destination priority index None false,
              build_route (MkRouteRequest destination (pr_table p) (protocol e) priority (Some index) ScopeLink None false))
      else if negb (gateway_ok destination (sr_next_hop selected)) then fail InvalidRoute
      else
        mret (MkRouteIdentity (pr_table p) destination priority index (Some (sr_next_hop selected)) false,
              build_route (MkRouteRequest destination (pr_table p) (protocol e) priority (Some index) ScopeUniverse
                             (Some (sr_next_hop selected)) true))
  | None =>
      mret (MkRouteIdentity (pr_table p) destination priority 0 None true,
            set_kind (build_route (MkRouteRequest destination (pr_table p) (protocol e) priority None ScopeUniverse
                                     None false)) RtnUnreachable)
  end.

Fixpoint prepare_all (e : Export) (l : list ProjectedRoute) : M (list (RouteIdentity * RouteMessage)) :=
  match l with
  | [] => mret []
  | p :: rest => m ← prepare e p; ms ← prepare_all e rest; mret (m :: ms)
  end.

(** Table and destination of the finite routes. *)
Definition confirmed_of (ms : list (RouteIdentity * RouteMessage)) : gset (Z * IpNet) :=
  list_to_set (omap (fun '(i, _) => if ri_unreachable i then None else Some (ri_table i, ri_destination i)) ms).

Definition install (current : gset RouteIdentity) (im : RouteIdentity * RouteMessage) : M unit :=
  if bool_decide (im.1 ∈ current) then mret tt else request (ReplaceRoute im.2) (route_replace im.2).

(** A route that is gone already is no error. *)
Definition del_route (m : RouteMessage) : M unit := fun w =>
  match request (DelRoute m) (route_del m) w with
  | (Err (LinuxNetlink (NlError code)), w) => if code =? - ESRCH then (Ok tt, w) else (Err (LinuxNetlink (NlError code)), w)
  | r => r
  end.

(** From the removal of stale rules to the rules of the new views: the requests
    of [apply_locked], with the identities found and the slots confirmed. *)
Definition apply_requests (e : Export) (snapshot : RouteSnapshot) (retain : bool) (r : Recovery) (now : Z)
    : M (gset RouteIdentity * gset (Z * IpNet)) :=
  let projected := project_routes (views e) snapshot in
  _ ← remove_stale_rules e retain;
  messages ← prepare_all e projected;
  let desired : gset RouteIdentity := list_to_set messages.*1 in
  let confirmed := confirmed_of messages in
  current ← owned_routes (protocol e);
  let current_identities := identities route_identity current in
  _ ← for_each messages (install current_identities);
  _ ← for_each current (fun m =>
        if unwanted route_identity (fun i => bool_decide (i ∈ desired) || keep r i confirmed now) m
        then del_route m else mret tt);
  _ ← reconcile_rules e retain;
  mret (current_identities, confirmed).

(** * The exporter *)

Record ExportRevision := MkExportRevision { route_generation : Z; rv_config_generation : Z }.

Record ExportState := MkExportState {
  xs_export : Export;
  xs_snapshot : RouteSnapshot;
  retain_rules : bool;
  stopping : bool;
  retired : list Export;
  config_generation : Z;
  last_success_revision : option ExportRevision;
  last_error : option LinuxError
}.

Record LinuxExporter := MkLinuxExporter {
  xstate : ExportState;
  source_tables : gmap IpNet Z;
  recovery : Recovery
}.

Definition empty_snapshot : RouteSnapshot := MkSnapshot 0 [] [].

(** [LinuxExporter::new]. *)
Definition linux_exporter (e : Export) : LinuxExporter :=
  MkLinuxExporter (MkExportState e empty_snapshot true false [] 0 None None) ∅ default_recovery.

Definition revision (s : ExportState) : ExportRevision :=
  MkExportRevision (sn_generation (xs_snapshot s)) (config_generation s).

Definition set_state (x : LinuxExporter) (s : ExportState) : LinuxExporter :=
  MkLinuxExporter s (source_tables x) (recovery x).
Definition set_tables (x : LinuxExporter) (t : gmap IpNet Z) : LinuxExporter :=
  MkLinuxExporter (xstate x) t (recovery x).
Definition set_recovery (x : LinuxExporter) (r : Recovery) : LinuxExporter :=
  MkLinuxExporter (xstate x) (source_tables x) r.

Definition set_retired (s : ExportState) (l : list Export) : ExportState :=
  MkExportState (xs_export s) (xs_snapshot s) (retain_rules s) (stopping s) l (config_generation s)
    (last_success_revision s) (last_error s).

(** [ExportState::record_reconcile]; the time of the success is left out. *)
Definition record_reconcile (s : ExportState) (rev : ExportRevision) (r : result LinuxError unit) : ExportState :=
  match r with
  | Ok _ => MkExportState (xs_export s) (xs_snapshot s) (retain_rules s) (stopping s) (retired s)
              (config_generation s) (Some rev) None
  | Err e => MkExportState (xs_export s) (xs_snapshot s) (retain_rules s) (stopping s) (retired s)
              (config_generation s) (last_success_revision s) (Some e)
  end.

(** [update_export]; recovery is revoked even while stopping. *)
Definition update_export (e : Export) (x : LinuxExporter) : LinuxExporter :=
  let x := set_recovery x (revoke (recovery x)) in
  let s := xstate x in
  if stopping s then x
  else
    let old := xs_export s in
    let retired :=
      if negb (protocol old =? protocol e) && negb (bool_decide (old ∈ retired s)) then retired s ++ [old]
      else retired s in
    let s := set_retired s retired in
    if bool_decide (xs_export s = e) then set_state x s
    else set_state x (MkExportState e (xs_snapshot s) (retain_rules s) (stopping s) retired
           ((config_generation s + 1) mod 2 ^ 64) (last_success_revision s) (last_error s)).

(** What does not wait for the lock of an attempt and can run during it. *)
Inductive Concurrent :=
| CUpdateExport (e : Export)
| CLatchRetain
| CLatchShutdown (s : RouteSnapshot).

Definition latch_retain (s : ExportState) : ExportState :=
  MkExportState (xs_export s) (xs_snapshot s) (retain_rules s) true (retired s) (config_generation s)
    (last_success_revision s) (last_error s).
Definition latch_shutdown (snapshot : RouteSnapshot) (s : ExportState) : ExportState :=
  MkExportState (xs_export s) snapshot false true (retired s) (config_generation s)
    (last_success_revision s) (last_error s).

Definition concurrent (c : Concurrent) (x : LinuxExporter) : LinuxExporter :=
  match c with
  | CUpdateExport e => update_export e x
  | CLatchRetain => set_state x (latch_retain (xstate x))
  | CLatchShutdown s => set_state x (latch_shutdown s (xstate x))
  end.
Definition meanwhile (l : list Concurrent) (x : LinuxExporter) : LinuxExporter :=
  fold_left (fun x c => concurrent c x) l x.

Definition set_views (e : Export) (vs : list ExportView) : Export :=
  MkExport (protocol e) (device_only e) (manage_rules e) (conf_automatic_sources e) (source_table_base e)
    (source_rule_priority e) vs.

(** The journal is written when there is something to write. *)
Definition save_journal (write : option JournalWrite) (w : World) : bool * World :=
  match write with
  | None => (true, w)
  | Some j => let '(ok, s) := write_journal j (sys w) in
              (ok, MkWorld s (log w ++ [(WriteJournal j, if ok then Done else Unwritten)]))
  end.

(** Surroundings of one [apply_locked]: the boot clock, and what runs before the
    recovery state is read, during the requests and during the write of the
    journal. *)
Record ApplyEnv := MkApplyEnv {
  env_before : list Concurrent;
  env_now : option Z;
  env_requests : list Concurrent;
  env_write : list Concurrent
}.

Definition apply_locked (env : ApplyEnv) (e : Export) (snapshot : RouteSnapshot) (retain : bool)
    (x : LinuxExporter) (w : World) : option (result LinuxError unit * LinuxExporter * World) :=
  let x := meanwhile (env_before env) x in
  let captured := recovery x in
  match env_now env with
  | None => Some (Err LinuxIo, x, w)
  | Some now =>
      v ← source_views_with_recovery e snapshot (source_tables x) (sources captured now e);
      let x := set_tables x v.1 in
      match v.2 with
      | Err _ => Some (Err InvalidRoute, x, w)
      | Ok vs =>
          let '(r, w) := apply_requests (set_views e vs) snapshot retain captured now w in
          let x := meanwhile (env_requests env) x in
          match r with
          | Err err => Some (Err err, x, w)
          | Ok (current, confirmed) =>
              let '(rec, write) := applied (recovery x) current confirmed now in
              let x := set_recovery x rec in
              let '(ok, w) := save_journal write w in
              let x := meanwhile (env_write env) x in
              if ok then Some (Ok tt, set_recovery x (saved (recovery x)), w)
              else Some (Err LinuxIo, x, w)
          end
      end
  end.

(** The loop over the exports that were replaced. *)
Fixpoint clean_retired (envs : Export -> ApplyEnv) (l : list Export) (x : LinuxExporter) (w : World)
    : option (result LinuxError unit * LinuxExporter * World) :=
  match l with
  | [] => Some (Ok tt, x, w)
  | e :: rest =>
      r ← apply_locked (envs e) e empty_snapshot false x w;
      match r with
      | (Ok _, x, w) => clean_retired envs rest x w
      | (Err err, x, w) => Some (Err err, x, w)
      end
  end.

(** [reconcile_attempt] of a captured state. *)
Definition reconcile_attempt (env : ApplyEnv) (envs : Export -> ApplyEnv) (s : ExportState)
    (x : LinuxExporter) (w : World) : option (result LinuxError unit * LinuxExporter * World) :=
  r ← apply_locked env (xs_export s) (xs_snapshot s) (retain_rules s) x w;
  match r with
  | (Err err, x, w) => Some (Err err, x, w)
  | (Ok _, x, w) =>
      r ← clean_retired envs (retired s) x w;
      match r with
      | (Err err, x, w) => Some (Err err, x, w)
      | (Ok _, x, w) =>
          let s' := xstate x in
          Some (Ok tt, set_state x (set_retired s'
                  (List.filter (fun e => negb (bool_decide (e ∈ retired s))) (retired s'))), w)
      end
  end.

Definition reconcile_locked (env : ApplyEnv) (envs : Export -> ApplyEnv) (x : LinuxExporter) (w : World)
    : option (result LinuxError unit * LinuxExporter * World) :=
  let attempted := xstate x in
  r ← reconcile_attempt env envs attempted x w;
  let '(res, x, w) := r in
  Some (res, set_state x (record_reconcile (xstate x) (revision attempted) res), w).

(** What runs under the lock; [gap] runs between the first step and the reading of
    the state. *)
Definition reconcile_current (gap : list Concurrent) (env : ApplyEnv) (envs : Export -> ApplyEnv)
    (x : LinuxExporter) (w : World) : option (result LinuxError unit * LinuxExporter * World) :=
  if stopping (xstate x) then Some (Ok tt, x, w) else reconcile_locked env envs (meanwhile gap x) w.

Definition exporter_reconcile (snapshot : RouteSnapshot) (gap : list Concurrent) (env : ApplyEnv)
    (envs : Export -> ApplyEnv) (x : LinuxExporter) (w : World)
    : option (result LinuxError unit * LinuxExporter * World) :=
  let s := xstate x in
  if stopping s then Some (Ok tt, x, w)
  else reconcile_locked env envs (meanwhile gap (set_state x (MkExportState (xs_export s) snapshot true
         (stopping s) (retired s) (config_generation s) (last_success_revision s) (last_error s)))) w.

(** [shutdown] after its latch, which is [CLatchShutdown]. *)
Definition exporter_shutdown (gap : list Concurrent) (env : ApplyEnv) (envs : Export -> ApplyEnv)
    (x : LinuxExporter) (w : World) : option (result LinuxError unit * LinuxExporter * World) :=
  reconcile_locked env envs (meanwhile gap (set_recovery x (revoke (recovery x)))) w.

Inductive Locked :=
| LReconcileCurrent
| LReconcile (s : RouteSnapshot)
| LShutdown.

Definition locked (op : Locked) : list Concurrent -> ApplyEnv -> (Export -> ApplyEnv) ->
    LinuxExporter -> World -> option (result LinuxError unit * LinuxExporter * World) :=
  match op with
  | LReconcileCurrent => reconcile_current
  | LReconcile snapshot => exporter_reconcile snapshot
  | LShutdown => exporter_shutdown
  end.

(** ** The reconciler of the daemon *)

(** What [run_reconciler] waits for: the shutdown, its timer or a notification; and
    what others do meanwhile. *)
Inductive ReconcilerEvent :=
| ReconcilerShutdown (closed value : bool)
| ReconcilerDue (gap : list Concurrent) (env : ApplyEnv) (envs : Export -> ApplyEnv)
| ReconcilerMeanwhile (l : list Concurrent).

(** A failure is logged and tried again later; the flag tells whether it returned. *)
Fixpoint run_reconciler (events : list ReconcilerEvent) (x : LinuxExporter) (w : World)
    : option (bool * LinuxExporter * World) :=
  match events with
  | [] => Some (false, x, w)
  | ReconcilerShutdown closed value :: rest =>
      if closed || value then Some (true, x, w) else run_reconciler rest x w
  | ReconcilerDue gap env envs :: rest =>
      '(_, x, w) ← reconcile_current gap env envs x w; run_reconciler rest x w
  | ReconcilerMeanwhile l :: rest => run_reconciler rest (meanwhile l x) w
  end.

(** The daemon's exporter installs IPv4 routes via IPv6. *)
Definition linux_supports_ipv4_via_ipv6 : bool := true.

(** * Start-up and reload *)

Section Recover.
Context {L : Libm} (scope_json : Export -> Filter -> string).

(** [begin_recovery]; the list of links, the boot clock and the files are read
    from the surroundings.  [None] is a panic. *)
Definition begin_recovery (c : Config) (names : list string) (now : option Z) (boot namespace : option string)
    (file : JournalFile) (write_ok : bool) (x : LinuxExporter) (w : World)
    : option (result LinuxError unit * LinuxExporter * World) :=
  indices ← allowed_indices c (fun name => ifindex name (sys w)) names;
  match indices with
  | Err err => Some (Err err, x, w)
  | Ok indices =>
      let '(r, w) :=
        (rule_messages ← owned_rules (protocol (export c));
         let rules := List.filter (fun r => eligible_rule r (export c)) (omap rule_identity rule_messages) in
         route_messages ← owned_routes (protocol (export c));
         let routes :=
           List.filter (recoverable c indices rules)
             (omap route_identity (List.filter (fun m => bool_decide (rm_kind m = RtnUnicast)) route_messages)) in
         now ← lift (ok_or now LinuxIo);
         lift (load scope_json c routes rules now boot namespace file write_ok)) w in
      match r with
      | Ok rec => Some (Ok tt, set_recovery x rec, w)
      | Err err => Some (Err err, x, w)
      end
  end.

(** [recovery_interfaces], with what runs during the write. *)
Definition update_recovery_interfaces (c : Config) (names : list string) (during : list Concurrent)
    (x : LinuxExporter) (w : World) : option (result LinuxError unit * LinuxExporter * World) :=
  indices ← allowed_indices c (fun name => ifindex name (sys w)) names;
  match indices with
  | Err err => Some (Err err, x, w)
  | Ok indices =>
      let '(rec, write) := recovery_interfaces scope_json c indices (recovery x) in
      let '(ok, w) := save_journal write w in
      let x := meanwhile during (set_recovery x rec) in
      if ok then Some (Ok tt, set_recovery x (saved (recovery x)), w) else Some (Err LinuxIo, x, w)
  end.
End Recover.

(** [health]: what the control socket shows of the exporter. *)
Record ExportHealth := MkExportHealth {
  eh_config_generation : Z;
  eh_last_success_route_generation : option Z;
  eh_last_success_config_generation : option Z;
  eh_last_error : option LinuxError;
  eh_recovering_routes : nat;
  eh_recovery_remaining_ms : Z
}.

Definition health (now : option Z) (x : LinuxExporter) : ExportHealth :=
  let s := xstate x in
  let '(routes, ms) := remaining (recovery x) (default u64_max now) in
  MkExportHealth (config_generation s) (route_generation <$> last_success_revision s)
    (rv_config_generation <$> last_success_revision s) (last_error s) routes ms.
End Exporter.
