(* ===== verification/ExporterOrder.v ===== *)
(** The order of kernel requests, whatever the kernel answers: rules that no
    longer hold go first, routes are installed before others are removed, and
    rules for new views come last. *)
From S2P Require Import Prelude Net Mac Model Metric Wire Api Filters DaemonConfig Scheduler Sender Router Projection Netlink Recovery Exporter.
Import Hello.
Local Open Scope Z_scope.

Section Order.
Context {NL : IpNetLib} {NC : NetContains} {NK : Netlink} {HO : HashOrder}.

(** * Logs *)

(** A computation that makes no request. *)
Definition silent {A} (m : M A) : Prop := forall w res w', m w = (res, w') -> log w' = log w.

Lemma silent_ret {A} (a : A) : silent (mret a).
Proof. by intros w res w' [= _ <-]. Qed.

Lemma silent_bind {A B} (m : M A) (f : A -> M B) : silent m -> (forall a, silent (f a)) -> silent (m ≫= f).
Proof.
  intros Hm Hf w res w' H. unfold mbind, M_bind in H. destruct (m w) as [[a|e] w1] eqn:E.
  - rewrite (Hf _ _ _ _ H). by eapply Hm.
  - injection H as _ <-. by eapply Hm.
Qed.

Lemma silent_query {A} (f : System -> result NetlinkError A * System) : silent (query f).
Proof. intros w res w' H. unfold query in H. destruct (f (sys w)) as [[a|e] s]; by injection H as _ <-. Qed.

Lemma silent_owned_routes p : silent (owned_routes p).
Proof. repeat (apply silent_bind; [apply silent_query|intros ?]). apply silent_ret. Qed.
Lemma silent_owned_rules p : silent (owned_rules p).
Proof. repeat (apply silent_bind; [apply silent_query|intros ?]). apply silent_ret. Qed.

Lemma silent_prepare e p : silent (prepare e p).
Proof.
  unfold prepare. destruct (destination_prefix_ok _); simpl; [|by intros w res w' [= _ <-]].
  destruct (pr_selected p); [|apply silent_ret]. apply silent_bind; [by intros w res w' [= _ <-]|]. intros i.
  destruct (device_only e); [apply silent_ret|]. destruct (gateway_ok _ _); [apply silent_ret|by intros w res w' [= _ <-]].
Qed.

Lemma silent_prepare_all e l : silent (prepare_all e l).
Proof.
  induction l as [|p l IH]; [apply silent_ret|]. apply silent_bind; [apply silent_prepare|]. intros m.
  apply silent_bind; [done|]. intros ms. apply silent_ret.
Qed.

(** The error a request fails with; a route that is gone already is none. *)
Definition failure (x : Request * Answer) : option LinuxError :=
  match x with
  | (_, Done) => None
  | (DelRoute _, Refused (NlError code)) => if code =? - ESRCH then None else Some (LinuxNetlink (NlError code))
  | (_, Refused e) => Some (LinuxNetlink e)
  | (_, Unwritten) => Some LinuxIo
  end.
Definition served (x : Request * Answer) : Prop := failure x = None.
Lemma served_done q : served (q, Done).
Proof. by destruct q. Qed.

(** Every request was served, or the last one failed and its error is the result. *)
Definition halts {A} (l : list (Request * Answer)) (res : result LinuxError A) : Prop :=
  Forall served l \/
  exists l0 x err, l = l0 ++ [x] /\ Forall served l0 /\ failure x = Some err /\ res = Err err.

(** Between two worlds the requests [qs] were made, up to one that failed. *)
Definition logged {A} (w : World) (qs : list Request) (res : result LinuxError A) (w' : World) : Prop :=
  exists l, log w' = log w ++ l /\ l.*1 = qs /\ halts l res.

Lemma logged_silent {A} w (res : result LinuxError A) w' : log w' = log w -> logged w [] res w'.
Proof. intros H. exists []. split; [by rewrite app_nil_r|]. split; [done|]. by left. Qed.

Lemma logged_trans {A B} w (a : A) w1 (res : result LinuxError B) w2 q1 q2 :
  logged w q1 (Ok a) w1 -> logged w1 q2 res w2 -> logged w (q1 ++ q2) res w2.
Proof.
  intros (l1 & E1 & <- & H1) (l2 & E2 & <- & H2). exists (l1 ++ l2). rewrite E2, E1, app_assoc, fmap_app.
  do 2 (split; [done|]). destruct H1 as [H1|(? & ? & ? & _ & _ & _ & [=])].
  destruct H2 as [H2|(l0 & x & err & -> & H2 & Hf & ->)]; [left; by apply Forall_app|].
  right. exists (l1 ++ l0), x, err. rewrite app_assoc. split_and!; try done. by apply Forall_app.
Qed.

(** The result of a failure at any type, and that of a success. *)
Lemma logged_err {A B} w qs e w' : logged w qs (Err e : result LinuxError A) w' -> logged w qs (Err e : result LinuxError B) w'.
Proof.
  intros (l & E & Hq & H). exists l. split; [done|]. split; [done|]. destruct H as [H|(l0 & x & err & ? & ? & ? & [= ->])]; [by left|].
  right. eauto 10.
Qed.
Lemma logged_ok {A B} w qs (a : A) (b : B) w' : logged w qs (Ok a) w' -> logged w qs (Ok b) w'.
Proof. intros (l & E & Hq & H). exists l. split; [done|]. split; [done|]. destruct H as [H|(? & ? & ? & _ & _ & _ & [=])]. by left. Qed.

(** A step that makes the request [q a], if there is one. *)
Definition logs {A} (f : A -> M unit) (q : A -> option Request) : Prop := forall a w res w',
  f a w = (res, w') -> logged w (option_list (q a)) res w' /\ (q a = None -> res = Ok tt).

Lemma logs_for_each {A} (f : A -> M unit) q : logs f q -> forall l w res w',
  for_each l f w = (res, w') -> exists l1 l2, l = l1 ++ l2 /\ logged w (omap q l1) res w' /\ (res = Ok tt -> l2 = []).
Proof.
  intros Hf l. induction l as [|a l IH]; intros w res w' H; cbn [for_each] in H.
  - injection H as <- <-. exists [], []. split_and!; [done|by apply logged_silent|done].
  - unfold mbind, M_bind in H. destruct (f a w) as [r w1] eqn:E. apply Hf in E as [E1 _].
    assert (forall l, omap q (a :: l) = option_list (q a) ++ omap q l) as Ho by (intros; simpl; by destruct (q a)).
    destruct r as [[]|x].
    + apply IH in H as (l1 & l2 & -> & Hl & Hr). exists (a :: l1), l2. split; [done|]. split; [|done].
      rewrite Ho. by eapply logged_trans.
    + injection H as <- <-. exists [a], l. split; [done|]. split; [|done]. rewrite Ho. simpl. by rewrite app_nil_r.
Qed.

Lemma logged_request q f w res w' : request q f w = (res, w') -> (forall e, failure (q, Refused e) = Some (LinuxNetlink e)) ->
  logged w [q] res w'.
Proof.
  unfold request. intros H Hq. destruct (f (sys w)) as [[u|e] s]; injection H as <- <-.
  - exists [(q, Done)]. do 2 (split; [done|]). left. apply Forall_singleton, served_done.
  - exists [(q, Refused e)]. do 2 (split; [done|]). right. exists [], (q, Refused e), (LinuxNetlink e). by split_and!.
Qed.

Lemma logs_request {A} (f : A -> Request) (g : A -> System -> result NetlinkError unit * System) :
  (forall a e, failure (f a, Refused e) = Some (LinuxNetlink e)) ->
  logs (fun a => request (f a) (g a)) (fun a => Some (f a)).
Proof. intros Hf a w res w' H. split; [|done]. by eapply logged_request. Qed.

Lemma logs_if {A} (f : A -> M unit) q (b : A -> bool) : logs f q ->
  logs (fun a => if b a then f a else mret tt) (fun a => if b a then q a else None).
Proof.
  intros Hf a w res w' H. destruct (b a); [by eapply Hf|]. injection H as <- <-. split; [by apply logged_silent|done].
Qed.

Lemma logs_del_route : logs del_route (fun m => Some (DelRoute m)).
Proof.
  intros m w res w' H. split; [|done]. unfold del_route, request in H. destruct (route_del m (sys w)) as [[u|e] s].
  - injection H as <- <-. exists [(DelRoute m, Done)]. do 2 (split; [done|]). left. apply Forall_singleton, served_done.
  - assert (log w' = log w ++ [(DelRoute m, Refused e)] /\
      (served (DelRoute m, Refused e) \/ exists err, failure (DelRoute m, Refused e) = Some err /\ res = Err err)) as [Hl Hr].
    { unfold served. destruct e as [code|]; simpl; [destruct (code =? - ESRCH)|]; injection H as <- <-; eauto. }
    exists [(DelRoute m, Refused e)]. do 2 (split; [done|]). destruct Hr as [Hr|(err & Hr & ->)].
    + left. by apply Forall_singleton.
    + right. exists [], (DelRoute m, Refused e), err. by split_and!.
Qed.

(** Sequencing: the log of the first part, then that of the second. *)
Lemma bind_log {A B} (m : M A) (f : A -> M B) w res w' : (m ≫= f) w = (res, w') ->
  (exists e, m w = (Err e, w') /\ res = Err e) \/
  (exists a w1, m w = (Ok a, w1) /\ f a w1 = (res, w')).
Proof.
  unfold mbind, M_bind. destruct (m w) as [[a|e] w1] eqn:E; intros H; [right; eauto|]. left. injection H as <- <-. eauto.
Qed.

Lemma omap_if {A B} (b : A -> bool) (q : A -> B) l :
  omap (fun a => if b a then Some (q a) else None) l = q <$> List.filter b l.
Proof.
  induction l as [|a l IH]; [done|]. cbn [omap list_omap List.filter]. destruct (b a); [|exact IH].
  cbn [fmap list_fmap]. f_equal. exact IH.
Qed.

(** * Rules *)

(** Whether [remove_stale_rules] leaves a rule. *)
Definition rule_kept (e : Export) (retain : bool) (m : RuleMessage) : bool :=
  retain && manage_rules e && match rule_identity m with Some rule => rule_of_view e rule | None => false end.

Definition rule_message (protocol : Z) (rule : RuleIdentity) : RuleMessage :=
  let m := build_rule rule in
  MkRuleMessage (fm_table m) (fm_src_len m) (fm_attributes m ++ [FraProtocol (OtherProtocol protocol)]).

Lemma owned_rules_owned p w l w' : owned_rules p w = (Ok l, w') -> Forall (fun m => rule_owned p m = true) l.
Proof.
  intros H. apply bind_log in H as [(e & _ & [=])|(v4 & w1 & _ & H)].
  apply bind_log in H as [(e & _ & [=])|(v6 & w2 & _ & H)]. injection H as <- _.
  apply list.Forall_forall. intros m [_ ?]%elem_of_filter_bool. done.
Qed.

Lemma owned_routes_owned p w l w' : owned_routes p w = (Ok l, w') -> Forall (fun m => route_owned p m = true) l.
Proof.
  intros H. apply bind_log in H as [(e & _ & [=])|(v4 & w1 & _ & H)].
  apply bind_log in H as [(e & _ & [=])|(v6 & w2 & _ & H)]. injection H as <- _.
  apply list.Forall_forall. intros m [_ ?]%elem_of_filter_bool. done.
Qed.

(** What was read at the point where the requests [qs] had been made. *)
Definition found {A} (m : M A) (w : World) (qs : list Request) (a : A) : Prop :=
  exists w1 w2, m w1 = (Ok a, w2) /\ logged w qs (Ok tt) w1.

Lemma remove_stale_log e retain w res w' : remove_stale_rules e retain w = (res, w') -> exists rules stale,
  logged w (DelRule <$> stale) res w' /\
  Forall (fun m => rule_owned (protocol e) m = true /\ rule_kept e retain m = false) stale /\
  (res = Ok tt -> found (owned_rules (protocol e)) w [] rules /\
                  stale = List.filter (fun m => negb (rule_kept e retain m)) rules).
Proof.
  intros H. apply bind_log in H as [(x & H & ->)|(current & w1 & Hc & H)].
  - exists [], []. split; [|done]. apply logged_silent. by rewrite (silent_owned_rules _ _ _ _ H).
  - apply (logs_for_each _ (fun m => if negb (rule_kept e retain m) then Some (DelRule m) else None)) in H
      as (l1 & l2 & -> & Hl & Hr).
    2:{ intros m w2 r w3 E. cbn beta zeta in E. fold (rule_kept e retain m) in E.
        destruct (rule_kept e retain m); simpl; [injection E as <- <-; split; [by apply logged_silent|done]|].
        split; [|done]. by apply logged_request in E. }
    rewrite omap_if in Hl. exists (l1 ++ l2), (List.filter (fun m => negb (rule_kept e retain m)) l1).
    split; [|split].
    + eapply (logged_trans w (l1 ++ l2) w1 res w' []); [|exact Hl]. apply logged_silent. by eapply silent_owned_rules.
    + apply owned_rules_owned, list.Forall_app in Hc as [Hc _]. rewrite list.Forall_forall in *.
      intros m [Hm ?%negb_true_iff]%elem_of_filter_bool. auto.
    + intros ->. specialize (Hr eq_refl) as ->. rewrite app_nil_r in *. split; [|done].
      exists w, w1. split; [done|]. by apply logged_silent.
Qed.

Lemma add_rules_log e desired current w res w' :
  for_each (hs_iter (desired ∖ identities rule_identity current)) (add_rule (protocol e)) w = (res, w') ->
  exists new, logged w (AddRule ∘ rule_message (protocol e) <$> new) res w' /\
    Forall (fun rule => rule ∈ desired) new /\
    (res = Ok tt -> new ≡ₚ elements (desired ∖ identities rule_identity current)).
Proof.
  intros E.
  apply (logs_for_each _ _ (logs_request (AddRule ∘ rule_message (protocol e))
    (fun a => rule_add (rule_message (protocol e) a)) (fun _ _ => eq_refl))) in E as (l1 & l2 & El & Hl & Hr).
  exists l1. split; [|split].
  - replace (AddRule ∘ rule_message (protocol e) <$> l1)
      with (omap (fun a => Some ((AddRule ∘ rule_message (protocol e)) a)) l1); [done|].
    clear. by induction l1; simpl; f_equal.
  - apply list.Forall_forall. intros rule Hin.
    assert (rule ∈ hs_iter (desired ∖ identities rule_identity current)) as Hh by (rewrite El; set_solver).
    rewrite hs_iter_perm in Hh. apply elem_of_elements in Hh. set_solver.
  - intros ->. specialize (Hr eq_refl) as ->. rewrite app_nil_r in El. rewrite <- El. apply hs_iter_perm.
Qed.

Lemma reconcile_rules_log e retain w res w' : reconcile_rules e retain w = (res, w') -> exists rules new old,
  logged w ((AddRule ∘ rule_message (protocol e) <$> new) ++ (DelRule <$> old)) res w' /\
  Forall (fun rule => rule ∈ desired_rules e retain) new /\
  Forall (fun m => rule_owned (protocol e) m = true /\
                   unwanted rule_identity (fun i => bool_decide (i ∈ desired_rules e retain)) m = true) old /\
  (res = Ok tt -> found (owned_rules (protocol e)) w [] rules /\
     new ≡ₚ elements (desired_rules e retain ∖ identities rule_identity rules) /\
     old = List.filter (unwanted rule_identity (fun i => bool_decide (i ∈ desired_rules e retain))) rules).
Proof.
  intros H. apply bind_log in H as [(x & H & ->)|(current & w1 & Hc & H)].
  { exists [], [], []. split; [|done]. apply logged_silent. by rewrite (silent_owned_rules _ _ _ _ H). }
  assert (logged w [] (Ok current) w1) as H1 by (apply logged_silent; by eapply silent_owned_rules).
  apply bind_log in H as [(x & H & ->)|([] & w2 & Ha & H)].
  - apply add_rules_log in H as (new & Hl & Hn & _). exists [], new, []. rewrite app_nil_r.
    split; [|done]. exact (logged_trans _ _ _ _ _ [] _ H1 Hl).
  - apply add_rules_log in Ha as (new & Hl & Hn & Hall). specialize (Hall eq_refl).
    apply (logs_for_each _ _ (logs_if del_rule _ _ (logs_request DelRule rule_del (fun _ _ => eq_refl)))) in H
      as (l1 & l2 & -> & Hd & Hr).
    rewrite omap_if in Hd. exists (l1 ++ l2), new. eexists.
    split; [exact (logged_trans _ _ _ _ _ [] _ H1 (logged_trans _ _ _ _ _ _ _ Hl Hd))|]. split; [done|]. split.
    + apply owned_rules_owned, list.Forall_app in Hc as [Hc _].
      rewrite list.Forall_forall in *. intros m [Hm ?]%elem_of_filter_bool. auto.
    + intros ->. specialize (Hr eq_refl) as ->. rewrite app_nil_r in *. split; [|done].
      exists w, w1. split; [done|]. by apply logged_silent.
Qed.

(** * Routes *)

(** The kernel route that stands for a projected one; the index of the interface
    is the system's. *)
Definition identity_for (e : Export) (p : ProjectedRoute) (i : RouteIdentity) : Prop :=
  ri_table i = pr_table p /\ ri_destination i = destination (pr_key p) /\ ri_priority i = route_priority p /\
  match pr_selected p with
  | None => ri_unreachable i = true /\ ri_output_interface i = 0 /\ ri_gateway i = None
  | Some s => ri_unreachable i = false /\ ri_gateway i = if device_only e then None else Some (sr_next_hop s)
  end.

Lemma prepare_identity e p w im w' : prepare e p w = (Ok im, w') -> identity_for e p im.1.
Proof.
  unfold prepare. destruct (destination_prefix_ok _); [|done]. cbn [negb]. unfold identity_for.
  destruct (pr_selected p) as [s|].
  - intros [(x & _ & [=])|(i & w1 & _ & H)]%bind_log. destruct (device_only e); [by injection H as <- _|].
    destruct (gateway_ok _ _); [by injection H as <- _|done].
  - intros [= <- _]. done.
Qed.

Lemma prepare_all_identities e l : forall w ms w', prepare_all e l w = (Ok ms, w') ->
  Forall2 (fun p im => identity_for e p im.1) l ms.
Proof.
  induction l as [|p l IH]; intros w ms w' H; cbn [prepare_all] in H; [injection H as <- _; constructor|].
  apply bind_log in H as [(x & _ & [=])|(m & w1 & Hm & H)].
  apply bind_log in H as [(x & _ & [=])|(rest & w2 & Hr & H)]. injection H as <- _.
  constructor; [by eapply prepare_identity|by eapply IH].
Qed.

(** Whether a route of the kernel is to be removed. *)
Definition route_stale (messages : list (RouteIdentity * RouteMessage)) (r : Recovery) (now : Z) : RouteMessage -> bool :=
  unwanted route_identity (fun i => bool_decide (i ∈ (list_to_set messages.*1 : gset RouteIdentity))
                                    || keep r i (confirmed_of messages) now).

Definition missing (current : list RouteMessage) (im : RouteIdentity * RouteMessage) : bool :=
  negb (bool_decide (im.1 ∈ identities route_identity current)).

Lemma install_log current l w res w' : for_each l (install (identities route_identity current)) w = (res, w') ->
  exists l1 l2, l = l1 ++ l2 /\ logged w (ReplaceRoute ∘ snd <$> List.filter (missing current) l1) res w' /\
    (res = Ok tt -> l2 = []).
Proof.
  intros H.
  apply (logs_for_each _ (fun im => if missing current im then Some (ReplaceRoute im.2) else None)) in H.
  - destruct H as (l1 & l2 & -> & Hl & Hr). exists l1, l2. rewrite omap_if in Hl. done.
  - intros im w1 r w2 E. unfold install, missing in *. destruct (bool_decide _); simpl.
    + injection E as <- <-. split; [by apply logged_silent|done].
    + split; [|done]. by apply logged_request in E.
Qed.

Lemma delete_log (b : RouteMessage -> bool) l w res w' :
  for_each l (fun m => if b m then del_route m else mret tt) w = (res, w') ->
  exists l1 l2, l = l1 ++ l2 /\ logged w (DelRoute <$> List.filter b l1) res w' /\ (res = Ok tt -> l2 = []).
Proof.
  intros H. apply (logs_for_each _ _ (logs_if del_route _ b logs_del_route)) in H as (l1 & l2 & -> & Hl & Hr).
  rewrite omap_if in Hl. eauto.
Qed.

(** What one reconciliation asked for, phase by phase. *)
Record phases := MkPhases {
  ph_rules : list RuleMessage;
  ph_stale : list RuleMessage;
  ph_messages : list (RouteIdentity * RouteMessage);
  ph_current : list RouteMessage;
  ph_installed : list (RouteIdentity * RouteMessage);
  ph_deleted : list RouteMessage;
  ph_later_rules : list RuleMessage;
  ph_new : list RuleIdentity;
  ph_old : list RuleMessage
}.

Definition phase_log (p : Z) (h : phases) : list Request :=
  (DelRule <$> ph_stale h) ++ (ReplaceRoute ∘ snd <$> ph_installed h) ++ (DelRoute <$> ph_deleted h) ++
  (AddRule ∘ rule_message p <$> ph_new h) ++ (DelRule <$> ph_old h).

Record phases_ok (e : Export) (snapshot : RouteSnapshot) (retain : bool) (r : Recovery) (now : Z) (h : phases) : Prop := {
  po_stale : Forall (fun m => rule_owned (protocol e) m = true /\ rule_kept e retain m = false) (ph_stale h);
  po_messages : ph_messages h = [] \/
    Forall2 (fun p im => identity_for e p im.1) (project_routes (views e) snapshot) (ph_messages h);
  po_installed : Forall (fun im => im ∈ ph_messages h /\ missing (ph_current h) im = true) (ph_installed h);
  po_current : Forall (fun m => route_owned (protocol e) m = true) (ph_current h);
  po_deleted : Forall (fun m => m ∈ ph_current h /\ route_stale (ph_messages h) r now m = true) (ph_deleted h);
  po_make_before_break : ph_deleted h <> [] \/ ph_new h <> [] \/ ph_old h <> [] ->
    Forall2 (fun p im => identity_for e p im.1) (project_routes (views e) snapshot) (ph_messages h) /\
    ph_installed h = List.filter (missing (ph_current h)) (ph_messages h);
  po_rules_last : ph_new h <> [] \/ ph_old h <> [] ->
    ph_deleted h = List.filter (route_stale (ph_messages h) r now) (ph_current h);
  po_new : Forall (fun rule => rule ∈ desired_rules e retain) (ph_new h);
  po_old : Forall (fun m => rule_owned (protocol e) m = true /\
    unwanted rule_identity (fun i => bool_decide (i ∈ desired_rules e retain)) m = true) (ph_old h)
}.

(** Everything the round had to do, by what it found in the kernel at each stage. *)
Record phases_complete (e : Export) (snapshot : RouteSnapshot) (retain : bool) (r : Recovery) (now : Z) (w : World)
    (h : phases) : Prop := {
  pc_rules : found (owned_rules (protocol e)) w [] (ph_rules h);
  pc_stale : ph_stale h = List.filter (fun m => negb (rule_kept e retain m)) (ph_rules h);
  pc_messages : Forall2 (fun p im => identity_for e p im.1) (project_routes (views e) snapshot) (ph_messages h);
  pc_current : found (owned_routes (protocol e)) w (DelRule <$> ph_stale h) (ph_current h);
  pc_installed : ph_installed h = List.filter (missing (ph_current h)) (ph_messages h);
  pc_deleted : ph_deleted h = List.filter (route_stale (ph_messages h) r now) (ph_current h);
  pc_later : found (owned_rules (protocol e)) w ((DelRule <$> ph_stale h) ++
    (ReplaceRoute ∘ snd <$> ph_installed h) ++ (DelRoute <$> ph_deleted h)) (ph_later_rules h);
  pc_new : ph_new h ≡ₚ elements (desired_rules e retain ∖ identities rule_identity (ph_later_rules h));
  pc_old : ph_old h =
    List.filter (unwanted rule_identity (fun i => bool_decide (i ∈ desired_rules e retain))) (ph_later_rules h)
}.

Lemma filter_sub {A} (b : A -> bool) l1 l2 : Forall (fun a => a ∈ l1 ++ l2 /\ b a = true) (List.filter b l1).
Proof. apply list.Forall_forall. intros a [? ?]%elem_of_filter_bool. split; [set_solver|done]. Qed.

Definition succeeded {A} (res : result LinuxError A) : Prop := exists a, res = Ok a.

(** A round that ended in an error. *)
Lemma phases_failed {A} e snapshot retain r now (w : World) x w' h :
  logged w (phase_log (protocol e) h) (Err x : result LinuxError A) w' -> phases_ok e snapshot retain r now h ->
  exists h, logged w (phase_log (protocol e) h) (Err x : result LinuxError A) w' /\
    phases_ok e snapshot retain r now h /\ (succeeded (Err x : result LinuxError A) -> phases_complete e snapshot retain r now w h).
Proof. intros H1 H2. exists h. split; [done|]. split; [done|]. by intros [a [=]]. Qed.

Lemma apply_requests_phases e snapshot retain r now w res w' :
  apply_requests e snapshot retain r now w = (res, w') ->
  exists h, logged w (phase_log (protocol e) h) res w' /\ phases_ok e snapshot retain r now h /\
    (succeeded res -> phases_complete e snapshot retain r now w h).
Proof.
  intros H. unfold apply_requests in H. apply bind_log in H as [(x & H & ->)|([] & w1 & H1 & H)].
  { apply remove_stale_log in H as (rules & stale & Hl & Hs & _). apply (phases_failed _ _ _ _ _ _ _ _ (MkPhases [] stale [] [] [] [] [] [] [])).
    - unfold phase_log. simpl. rewrite app_nil_r. by eapply logged_err.
    - split; simpl; auto; naive_solver. }
  apply remove_stale_log in H1 as (rules & stale & Hl1 & Hs & Hc1). destruct (Hc1 eq_refl) as [Hf1 Hst]. clear Hc1.
  apply bind_log in H as [(x & H & ->)|(messages & w2 & H2 & H)].
  { apply silent_prepare_all in H. apply (phases_failed _ _ _ _ _ _ _ _ (MkPhases [] stale [] [] [] [] [] [] [])).
    - unfold phase_log. simpl. by eapply logged_trans; [exact Hl1|apply logged_silent].
    - split; simpl; auto; naive_solver. }
  pose proof (prepare_all_identities _ _ _ _ _ H2) as Hids. apply silent_prepare_all in H2.
  assert (logged w (DelRule <$> stale) (Ok tt) w2) as Hl2.
  { rewrite <- (app_nil_r (DelRule <$> stale)). by eapply logged_trans; [exact Hl1|apply logged_silent]. }
  clear Hl1 H2 w1.
  apply bind_log in H as [(x & H & ->)|(current & w3 & H3 & H)].
  { apply silent_owned_routes in H. apply (phases_failed _ _ _ _ _ _ _ _ (MkPhases [] stale messages [] [] [] [] [] [])).
    - unfold phase_log. simpl. by eapply logged_trans; [exact Hl2|apply logged_silent].
    - split; simpl; auto; naive_solver. }
  assert (found (owned_routes (protocol e)) w (DelRule <$> stale) current) as Hf3 by (by exists w2, w3).
  pose proof (owned_routes_owned _ _ _ _ H3) as Ho. apply silent_owned_routes in H3.
  assert (logged w (DelRule <$> stale) (Ok tt) w3) as Hl3.
  { rewrite <- (app_nil_r (DelRule <$> stale)). by eapply logged_trans; [exact Hl2|apply logged_silent]. }
  clear Hl2 H3 w2.
  apply bind_log in H as [(x & H & ->)|([] & w4 & H4 & H)].
  { apply install_log in H as (l1 & l2 & -> & Hl & _).
    apply (phases_failed _ _ _ _ _ _ _ _ (MkPhases [] stale (l1 ++ l2) current (List.filter (missing current) l1) [] [] [] [])).
    - unfold phase_log. simpl. rewrite app_nil_r. eapply logged_trans; [exact Hl3|]. by eapply logged_err.
    - split; simpl; auto using filter_sub; naive_solver. }
  apply install_log in H4 as (l1 & l2 & -> & Hl4 & Hf). specialize (Hf eq_refl) as ->. rewrite app_nil_r in *.
  pose proof (logged_trans _ _ _ _ _ _ _ Hl3 Hl4) as Hl4'. clear Hl4.
  pose proof (filter_sub (missing current) l1 []) as Hin. rewrite app_nil_r in Hin.
  apply bind_log in H as [(x & H & ->)|([] & w5 & H5 & H)].
  { apply delete_log in H as (d1 & d2 & -> & Hl & _).
    apply (phases_failed _ _ _ _ _ _ _ _ (MkPhases [] stale l1 (d1 ++ d2) (List.filter (missing (d1 ++ d2)) l1)
      (List.filter (route_stale l1 r now) d1) [] [] [])).
    - unfold phase_log. simpl. rewrite app_nil_r, app_assoc. eapply logged_trans; [exact Hl4'|]. by eapply logged_err.
    - split; simpl; auto using filter_sub; naive_solver. }
  apply delete_log in H5 as (d1 & d2 & -> & Hl5 & Hf). specialize (Hf eq_refl) as ->. rewrite app_nil_r in *.
  pose proof (logged_trans _ _ _ _ _ _ _ Hl4' Hl5) as Hl5'. rewrite <- app_assoc in Hl5'. clear Hl4' Hl5.
  pose proof (filter_sub (route_stale l1 r now) d1 []) as Hdel. rewrite app_nil_r in Hdel.
  assert (exists rules new old,
    logged w5 ((AddRule ∘ rule_message (protocol e) <$> new) ++ (DelRule <$> old)) res w' /\
    Forall (fun rule => rule ∈ desired_rules e retain) new /\
    Forall (fun m => rule_owned (protocol e) m = true /\
      unwanted rule_identity (fun i => bool_decide (i ∈ desired_rules e retain)) m = true) old /\
    (succeeded res -> found (owned_rules (protocol e)) w5 [] rules /\
       new ≡ₚ elements (desired_rules e retain ∖ identities rule_identity rules) /\
       old = List.filter (unwanted rule_identity (fun i => bool_decide (i ∈ desired_rules e retain))) rules))
    as (later & new & old & Hl & Hn & Hold & Hc).
  { apply bind_log in H as [(x & H & ->)|([] & w6 & H6 & H)].
    - apply reconcile_rules_log in H as (rules' & new & old & Hl & Hn & Hold & _). exists rules', new, old.
      split; [by eapply logged_err|]. do 2 (split; [done|]). by intros [a [=]].
    - injection H as <- <-. apply reconcile_rules_log in H6 as (rules' & new & old & Hl & Hn & Hold & Hc).
      exists rules', new, old. split; [by eapply logged_ok|]. do 2 (split; [done|]). intros _. by apply Hc. }
  exists (MkPhases rules stale l1 d1 (List.filter (missing d1) l1) (List.filter (route_stale l1 r now) d1) later new old).
  split; [|split].
  - unfold phase_log. simpl. rewrite !app_assoc. rewrite <- (app_assoc _ (AddRule ∘ _ <$> _)). rewrite <- (app_assoc (DelRule <$> stale)).
    by eapply logged_trans.
  - split; simpl; auto.
  - intros Hok. destruct (Hc Hok) as ((w1 & w2 & Hr & Hlr) & Hnew & Ho'). split; simpl; try done.
    exists w1, w2. split; [done|]. rewrite <- (app_nil_r (_ ++ _)). by eapply logged_trans.
Qed.

(** C26. Reconciliation makes before it breaks, whatever the kernel answers and
    whatever runs meanwhile: a round first deletes rules of its own protocol
    that are no longer a view's (their tables may be reused), then installs
    missing routes, and only when every projected route is installed deletes
    routes of its own that are neither wanted nor kept for recovery; only after
    that it adds rules for views and deletes the rest; the journal is written
    last.  The first request that fails is the last one and its error is the
    result (only the deletion of a route that is gone is no failure); a round
    that succeeds, or that got as far as the journal, has made every request that
    what it found in the kernel called for. *)
Theorem reconciliation_order env e snapshot retain x w res x' w' :
  apply_locked env e snapshot retain x w = Some (res, x', w') ->
  let x0 := meanwhile (env_before env) x in
  (log w' = log w /\ exists err, res = Err err) \/
  exists now tables vs h write, env_now env = Some now /\
    source_views_with_recovery e snapshot (source_tables x0) (sources (recovery x0) now e) = Some (tables, Ok vs) /\
    logged w (phase_log (protocol e) h ++ (WriteJournal <$> option_list write)) res w' /\
    phases_ok (set_views e vs) snapshot retain (recovery x0) now h /\
    (res = Ok tt \/ write <> None -> phases_complete (set_views e vs) snapshot retain (recovery x0) now w h).
Proof.
  unfold apply_locked. set (x0 := meanwhile (env_before env) x).
  destruct (env_now env) as [now|]; [|intros [= <- _ <-]; left; eauto].
  intros ([tables [vs|u]] & Hv & H)%bind_Some; [|injection H as <- _ <-; left; eauto]. cbn [fst snd] in H.
  destruct (apply_requests _ _ _ _ _ w) as [r w1] eqn:E.
  apply apply_requests_phases in E as (h & Hl & Hp & Hc). right. exists now, tables, vs, h.
  destruct r as [[current confirmed]|err].
  - specialize (Hc (ex_intro _ _ eq_refl)). destruct (applied _ _ _ _) as [rec write]. exists write. do 2 (split; [done|]).
    split; [|done]. unfold save_journal in H. destruct write as [j|].
    + eapply logged_trans; [exact Hl|]. destruct (write_journal j (sys w1)) as [ok s].
      exists [(WriteJournal j, if ok then Done else Unwritten)]. destruct ok; injection H as <- _ <-; (split; [done|split; [done|]]).
      * left. by apply Forall_singleton.
      * right. exists [], (WriteJournal j, Unwritten), LinuxIo. by split_and!.
    + injection H as <- _ <-. simpl. rewrite app_nil_r. by eapply logged_ok.
  - exists None. injection H as <- _ <-. simpl. rewrite app_nil_r. do 2 (split; [done|]). split; [by eapply logged_err|].
    split; [done|]. by intros [|].
Qed.
End Order.
