(* ===== verification/ExporterSpec.v ===== *)
(** What a successful reconciliation leaves in the kernel.

    [NetlinkLaws] states what the daemon relies on: dumps are complete, a
    replace request installs the route it describes and displaces at most the
    route with the same table, destination and priority, a delete request
    removes the route it names, and a route comes back with the protocol number
    it was given unless [netlink_packet_route] has a name for that number. *)
From S2P Require Import Prelude Net Mac Model Metric Wire WireRoundtrip Api Filters DaemonConfig Scheduler Sender Router Projection ProjectionTheorems Netlink Recovery Exporter ExporterOrder.
Import Hello.
Local Open Scope Z_scope.

Section Laws.
Context {NL : IpNetLib} {NC : NetContains} {NK : Netlink}.

(** The routes and rules in the system, and the family a dump lists them under. *)
Class SystemView : Type := {
  has_route : System -> RouteMessage -> Prop;
  has_rule : System -> RuleMessage -> Prop;
  route_v4 : RouteMessage -> bool;
  rule_v4 : RuleMessage -> bool;
  named_protocol : Z -> bool
}.

(** What the kernel tells routes apart by. *)
Definition kslot (i : RouteIdentity) : Z * IpNet * Z := (ri_table i, ri_destination i, ri_priority i).

(** A route the kernel takes as it is. *)
Definition plain (i : RouteIdentity) : Prop :=
  canonical (ri_destination i) /\ ri_table i <> 0 /\ ri_priority i <> 0.

Definition gone (r : result NetlinkError unit) : Prop := r = Ok tt \/ r = Err (NlError (- ESRCH)).

Context {SV : SystemView}.

Definition same_routes (s s' : System) : Prop := forall m, has_route s' m <-> has_route s m.
Definition same_rules (s s' : System) : Prop := forall m, has_rule s' m <-> has_rule s m.

#[global] Instance same_routes_equivalence : Equivalence same_routes.
Proof. split; [done|intros s s' H m; by rewrite (H m)|intros s s' s2 H H' m; by rewrite (H' m)]. Qed.
#[global] Instance same_rules_equivalence : Equivalence same_rules.
Proof. split; [done|intros s s' H m; by rewrite (H m)|intros s s' s2 H H' m; by rewrite (H' m)]. Qed.
#[global] Instance has_route_proper : Proper (same_routes ==> eq ==> iff) has_route.
Proof. intros s s' H m _ <-. by rewrite (H m). Qed.
#[global] Instance has_rule_proper : Proper (same_rules ==> eq ==> iff) has_rule.
Proof. intros s s' H m _ <-. by rewrite (H m). Qed.

Class NetlinkLaws : Prop := {
  get_routes_law v4 s l s' : get_routes v4 s = (Ok l, s') ->
    same_routes s s' /\ same_rules s s' /\ forall m, m ∈ l <-> has_route s m /\ route_v4 m = v4;
  get_rules_law v4 s l s' : get_rules v4 s = (Ok l, s') ->
    same_routes s s' /\ same_rules s s' /\ forall m, m ∈ l <-> has_rule s m /\ rule_v4 m = v4;
  route_replace_law m s s' i p : route_replace m s = (Ok tt, s') -> route_identity m = Some i -> plain i ->
    rm_protocol m = OtherProtocol p -> named_protocol p = false ->
    same_rules s s' /\ exists m0, has_route s' m0 /\ route_identity m0 = Some i /\ rm_protocol m0 = OtherProtocol p /\
      (forall m', has_route s' m' -> has_route s m' \/ m' = m0) /\
      (forall m', has_route s m' -> (forall i', route_identity m' = Some i' -> kslot i' <> kslot i) -> has_route s' m');
  route_del_law m s r s' : route_del m s = (r, s') -> gone r ->
    same_rules s s' /\ forall m', has_route s' m' <-> has_route s m' /\ m' <> m;
  rule_add_law m s s' i p : rule_add m s = (Ok tt, s') -> rule_identity m = Some i -> rule_owned p m = true ->
    named_protocol p = false -> same_routes s s' /\
    exists m0, rule_identity m0 = Some i /\ rule_owned p m0 = true /\
      (forall m', has_rule s' m' <-> has_rule s m' \/ m' = m0);
  rule_del_law m s s' : rule_del m s = (Ok tt, s') ->
    same_routes s s' /\ forall m', has_rule s' m' <-> has_rule s m' /\ m' <> m;
  write_journal_law j s ok s' : write_journal j s = (ok, s') -> same_routes s s' /\ same_rules s s';
  build_route_law q : destination_prefix_ok (rq_destination q) = true ->
    (forall g, rq_gateway q = Some g -> gateway_ok (rq_destination q) g = true) ->
    rm_protocol (build_route q) = OtherProtocol (rq_protocol q) /\
    route_identity (build_route q) = Some (MkRouteIdentity (rq_table q) (rq_destination q) (rq_priority q)
      (default 0 (rq_output_interface q)) (rq_gateway q) false);
  build_rule_law r : rule_identity (build_rule r) = Some r
}.
End Laws.

Section Converge.
Context {NL : IpNetLib} {NC : NetContains} {NK : Netlink} {SV : SystemView} {LAWS : NetlinkLaws} {HO : HashOrder}.

Abbreviation routes w := (has_route (sys w)).
Abbreviation rules w := (has_rule (sys w)).

(** * Dumps *)

Lemma query_Ok {A} (f : System -> result NetlinkError A * System) w a w' : query f w = (Ok a, w') ->
  f (sys w) = (Ok a, sys w').
Proof. unfold query. destruct (f (sys w)) as [[b|e] s]; [|done]. by intros [= -> <-]. Qed.

Lemma request_Ok q (f : System -> result NetlinkError unit * System) w u w' : request q f w = (Ok u, w') ->
  f (sys w) = (Ok tt, sys w').
Proof. unfold request. destruct (f (sys w)) as [[[]|e] s]; [|done]. by intros [= _ <-]. Qed.

Lemma owned_routes_Ok p w l w' : owned_routes p w = (Ok l, w') ->
  same_routes (sys w) (sys w') /\ same_rules (sys w) (sys w') /\
  forall m, m ∈ l <-> routes w m /\ route_owned p m = true.
Proof.
  intros [(x & _ & [=])|(v4 & w1 & H1 & H)]%bind_log. apply bind_log in H as [(x & _ & [=])|(v6 & w2 & H2 & H)].
  injection H as <- <-. apply query_Ok, get_routes_law in H1 as (A1 & A2 & A3).
  apply query_Ok, get_routes_law in H2 as (B1 & B2 & B3). unfold same_routes, same_rules in *.
  split; [intros m; by rewrite B1|]. split; [intros m; by rewrite B2|]. intros m.
  rewrite elem_of_filter_bool, elem_of_app, A3, B3, A1. destruct (route_v4 m); naive_solver.
Qed.

Lemma owned_rules_Ok p w l w' : owned_rules p w = (Ok l, w') ->
  same_routes (sys w) (sys w') /\ same_rules (sys w) (sys w') /\
  forall m, m ∈ l <-> rules w m /\ rule_owned p m = true.
Proof.
  intros [(x & _ & [=])|(v4 & w1 & H1 & H)]%bind_log. apply bind_log in H as [(x & _ & [=])|(v6 & w2 & H2 & H)].
  injection H as <- <-. apply query_Ok, get_rules_law in H1 as (A1 & A2 & A3).
  apply query_Ok, get_rules_law in H2 as (B1 & B2 & B3). unfold same_routes, same_rules in *.
  split; [intros m; by rewrite B1|]. split; [intros m; by rewrite B2|]. intros m.
  rewrite elem_of_filter_bool, elem_of_app, A3, B3, A2. destruct (rule_v4 m); naive_solver.
Qed.

(** * Deleting *)

Lemma for_each_cons {A} (a : A) l (f : A -> M unit) w w' : for_each (a :: l) f w = (Ok tt, w') ->
  exists w1, f a w = (Ok tt, w1) /\ for_each l f w1 = (Ok tt, w').
Proof. cbn [for_each]. intros [(x & _ & [=])|([] & w1 & H1 & H2)]%bind_log. eauto. Qed.

Lemma del_route_Ok m w w' : del_route m w = (Ok tt, w') ->
  same_rules (sys w) (sys w') /\ forall m', routes w' m' <-> routes w m' /\ m' <> m.
Proof.
  unfold del_route, request. destruct (route_del m (sys w)) as [r s] eqn:E. intros H.
  assert (gone r /\ s = sys w') as [Hg ->]; [|by eapply route_del_law].
  destruct r as [[]|[code|]]; [injection H as <-; split; [by left|done]| |done].
  destruct (Z.eqb_spec code (- ESRCH)) as [->|]; [|done]. injection H as <-. split; [by right|done].
Qed.

(** A loop that deletes the messages with [b]. *)
Lemma delete_all (b : RouteMessage -> bool) l : forall w w',
  for_each l (fun m => if b m then del_route m else mret tt) w = (Ok tt, w') ->
  same_rules (sys w) (sys w') /\ forall m, routes w' m <-> routes w m /\ ~ (m ∈ l /\ b m = true).
Proof.
  induction l as [|a l IH]; intros w w' H.
  { injection H as <-. split; [done|]. intros m. set_solver. }
  apply for_each_cons in H as (w1 & H1 & H2). apply IH in H2 as [R2 D2].
  destruct (b a) eqn:Eb.
  - apply del_route_Ok in H1 as [R1 D1]. split; [intros m; unfold same_rules in *; by rewrite R2|].
    intros m. rewrite D2, D1. destruct (decide (m = a)) as [->|]; set_solver.
  - injection H1 as <-. split; [done|]. intros m. rewrite D2. destruct (decide (m = a)) as [->|]; [|set_solver].
    rewrite Eb. set_solver.
Qed.

Lemma delete_rules (b : RuleMessage -> bool) (f : RuleMessage -> M unit) l :
  (forall m w w', f m w = (Ok tt, w') -> if b m then del_rule m w = (Ok tt, w') else w' = w) -> forall w w',
  for_each l f w = (Ok tt, w') ->
  same_routes (sys w) (sys w') /\ forall m, rules w' m <-> rules w m /\ ~ (m ∈ l /\ b m = true).
Proof.
  intros Hf. induction l as [|a l IH]; intros w w' H.
  { injection H as <-. split; [done|]. intros m. set_solver. }
  apply for_each_cons in H as (w1 & H1 & H2). apply IH in H2 as [R2 D2]. apply Hf in H1.
  destruct (b a) eqn:Eb.
  - apply request_Ok, rule_del_law in H1 as [R1 D1]. split; [intros m; unfold same_routes in *; by rewrite R2|].
    intros m. rewrite D2, D1. destruct (decide (m = a)) as [->|]; set_solver.
  - subst w1. split; [done|]. intros m. rewrite D2. destruct (decide (m = a)) as [->|]; [|set_solver].
    rewrite Eb. set_solver.
Qed.

(** * Rules *)

Lemma find_map_snoc {A B} (f : A -> option B) l a : f a = None -> find_map f (l ++ [a]) = find_map f l.
Proof. intros Ha. induction l as [|x l IH]; simpl; [by rewrite Ha|]. by destruct (f x). Qed.

Lemma rule_message_identity p r : rule_identity (rule_message p r) = Some r.
Proof.
  rewrite <- (build_rule_law r). unfold rule_identity, rule_message. simpl. by rewrite !find_map_snoc.
Qed.

Lemma rule_message_owned p r : rule_owned p (rule_message p r) = true.
Proof. apply bool_decide_eq_true. simpl. set_solver. Qed.

Lemma remove_stale_Ok e retain w w' : remove_stale_rules e retain w = (Ok tt, w') ->
  same_routes (sys w) (sys w') /\
  forall m, rules w' m <-> rules w m /\ ~ (rule_owned (protocol e) m = true /\ rule_kept e retain m = false).
Proof.
  intros [(x & _ & [=])|(l & w1 & H1 & H)]%bind_log. apply owned_rules_Ok in H1 as (A1 & A2 & A3).
  apply (delete_rules (fun m => negb (rule_kept e retain m))) in H as [B1 B2].
  - split; [intros m; unfold same_routes in *; by rewrite B1|]. intros m. rewrite B2, A3, (A2 m), negb_true_iff. tauto.
  - intros m w2 w3 E. cbn beta zeta in E. fold (rule_kept e retain m) in E.
    destruct (rule_kept e retain m); simpl; [by injection E as <-|done].
Qed.

Definition rule_stands (p : Z) (i : RuleIdentity) (m : RuleMessage) : Prop :=
  rule_identity m = Some i /\ rule_owned p m = true.

Lemma add_rules_Ok p l : named_protocol p = false -> forall w w', for_each l (add_rule p) w = (Ok tt, w') ->
  same_routes (sys w) (sys w') /\ (forall m, rules w m -> rules w' m) /\
  (forall m, rules w' m -> rules w m \/ exists i, i ∈ l /\ rule_stands p i m) /\
  (forall i, i ∈ l -> exists m, rules w' m /\ rule_stands p i m).
Proof.
  intros Hp. induction l as [|i l IH]; intros w w' H.
  { injection H as <-. split_and!; try done; [tauto|set_solver]. }
  apply for_each_cons in H as (w1 & H1 & H2). apply IH in H2 as (B1 & B2 & B3 & B4).
  apply request_Ok, (rule_add_law _ _ _ i p) in H1 as (A1 & m0 & M1 & M2 & M3);
    [|apply rule_message_identity|apply rule_message_owned|done].
  split; [intros m; unfold same_routes in *; by rewrite B1|]. split; [intros m Hm; apply B2, M3; by left|]. split.
  - intros m [[Hm| ->]%M3|(j & Hj & Hs)]%B3; [by left| |]; right; [exists i|exists j];
      (split; [apply elem_of_cons; auto|done]).
  - intros j [->|Hj]%elem_of_cons; [|by apply B4]. exists m0. split; [apply B2, M3; by right|done].
Qed.

(** The rules of the protocol are exactly the wanted ones. *)
Definition rules_are (p : Z) (D : gset RuleIdentity) (w : World) : Prop :=
  (forall m, rules w m -> rule_owned p m = true -> exists i, i ∈ D /\ rule_identity m = Some i) /\
  (forall i, i ∈ D -> exists m, rules w m /\ rule_stands p i m).

Lemma reconcile_rules_Ok e retain w w' : named_protocol (protocol e) = false ->
  reconcile_rules e retain w = (Ok tt, w') ->
  same_routes (sys w) (sys w') /\ rules_are (protocol e) (desired_rules e retain) w' /\
  forall m, rule_owned (protocol e) m = false -> rules w' m <-> rules w m.
Proof.
  intros Hp [(x & _ & [=])|(l & w1 & H1 & H)]%bind_log. apply owned_rules_Ok in H1 as (A1 & A2 & A3).
  apply bind_log in H as [(x & _ & [=])|([] & w2 & H2 & H)]. apply add_rules_Ok in H2 as (B1 & B2 & B3 & B4); [|done].
  set (D := desired_rules e retain) in *.
  apply (delete_rules (unwanted rule_identity (fun i => bool_decide (i ∈ D)))) in H as [C1 C2].
  2:{ intros m w3 w4 E. destruct (unwanted _ _ m); [done|by injection E as <-]. }
  assert (forall i, i ∈ hs_iter (D ∖ identities rule_identity l) -> i ∈ D) as Hsub.
  { intros i Hi. rewrite hs_iter_perm in Hi. apply elem_of_elements in Hi. set_solver. }
  unfold same_routes, same_rules in *. split; [intros m; by rewrite C1, B1|]. split; [split|].
  - intros m [Hm Hd]%C2 Ho. apply B3 in Hm as [Hm|(i & Hi & [Hid _])]; [|exists i; auto].
    assert (m ∈ l) as Hl by (apply A3; split; [by apply A2|done]).
    destruct (unwanted rule_identity (fun i => bool_decide (i ∈ D)) m) eqn:Eu; [tauto|].
    unfold unwanted in Eu. destruct (rule_identity m) as [i|]; [|done]. exists i. split; [|done].
    by apply negb_false_iff, bool_decide_eq_true in Eu.
  - intros i Hi. assert (exists m, rules w2 m /\ rule_stands (protocol e) i m) as (m & Hm & Hs).
    { destruct (decide (i ∈ identities rule_identity l)) as [Hin|Hout].
      - apply elem_of_list_to_set, list_elem_of_omap in Hin as (m & Hl & Hid). exists m.
        apply A3 in Hl as [Hr Ho]. split; [by apply B2, A2|done].
      - apply B4. rewrite hs_iter_perm. apply elem_of_elements. set_solver. }
    exists m. split; [|done]. apply C2. split; [done|]. intros [_ Hu]. unfold unwanted in Hu.
    rewrite (proj1 Hs) in Hu. by rewrite bool_decide_true in Hu.
  - intros m Ho. rewrite C2. split.
    + intros [[Hm|(i & _ & [_ ?])]%B3 _]; [by apply A2|congruence].
    + intros Hm. split; [by apply B2, A2|]. intros [[_ ?]%A3 _]. congruence.
Qed.

(** * Routes *)

Lemma set_kind_identity m i : route_identity m = Some i ->
  route_identity (set_kind m RtnUnreachable) =
    Some (MkRouteIdentity (ri_table i) (ri_destination i) (ri_priority i) 0 None true).
Proof.
  unfold route_identity. intros (d & Hd & H)%bind_Some. unfold message_destination in *. simpl in *. rewrite Hd.
  simpl. injection H as <-. done.
Qed.

(** The message says what its identity does. *)
Definition message_ok (p : Z) (im : RouteIdentity * RouteMessage) : Prop :=
  route_identity im.2 = Some im.1 /\ rm_protocol im.2 = OtherProtocol p.

Lemma prepare_message e p w im w' : prepare e p w = (Ok im, w') -> message_ok (protocol e) im /\ w' = w.
Proof.
  unfold prepare. destruct (destination_prefix_ok _) eqn:Ed; [|done]. cbn [negb].
  destruct (pr_selected p) as [s|].
  - intros [(x & _ & [=])|(i & w1 & Hi & H)]%bind_log. injection Hi as _ <-. destruct (device_only e).
    + injection H as <- <-. split; [|done]. split; simpl; by apply build_route_law.
    + destruct (gateway_ok _ _) eqn:Eg; [|done]. injection H as <- <-. split; [|done].
      split; simpl; apply build_route_law; try done; by intros g [= <-].
  - intros [= <- <-]. split; [|done]. split; simpl; [|by apply build_route_law].
    erewrite set_kind_identity; [|by apply build_route_law]. done.
Qed.

Lemma prepare_all_messages e l : forall w ms w', prepare_all e l w = (Ok ms, w') ->
  Forall (message_ok (protocol e)) ms /\ w' = w.
Proof.
  induction l as [|p l IH]; intros w ms w' H; cbn [prepare_all] in H; [by injection H as <- <-|].
  apply bind_log in H as [(x & _ & [=])|(m & w1 & Hm & H)]. apply prepare_message in Hm as [Hm ->].
  apply bind_log in H as [(x & _ & [=])|(rest & w2 & Hr & H)]. apply IH in Hr as [Hr ->]. injection H as <- <-.
  split; [by constructor|done].
Qed.

(** Table and destination. *)
Definition im_slot (im : RouteIdentity * RouteMessage) : Z * IpNet := (ri_table im.1, ri_destination im.1).

Definition route_stands (p : Z) (i : RouteIdentity) (m : RouteMessage) : Prop :=
  route_identity m = Some i /\ rm_protocol m = OtherProtocol p.

Lemma install_all p cur l : named_protocol p = false -> Forall (message_ok p) l -> Forall (fun im => plain im.1) l ->
  NoDup (im_slot <$> l) -> forall w w', for_each l (install cur) w = (Ok tt, w') ->
  same_rules (sys w) (sys w') /\
  (forall m, routes w' m -> routes w m \/ exists im, im ∈ l /\ route_stands p im.1 m) /\
  (forall im, im ∈ l -> im.1 ∉ cur -> exists m, routes w' m /\ route_stands p im.1 m) /\
  (forall m, routes w m -> (forall i, route_identity m = Some i -> forall im, im ∈ l -> im.1 ∉ cur -> kslot im.1 <> kslot i) ->
     routes w' m).
Proof.
  intros Hp. induction l as [|a l IH]; intros Hm Hpl Hn w w' H.
  { injection H as <-. split_and!; try done; [tauto|intros im ?%not_elem_of_nil; done]. }
  apply list.Forall_cons in Hm as [Hm1 Hm]. apply list.Forall_cons in Hpl as [Hpl1 Hpl].
  cbn [fmap list_fmap] in Hn. apply list.NoDup_cons in Hn as [Hn1 Hn].
  assert (forall im, im ∈ l -> kslot im.1 <> kslot a.1) as Hslot.
  { intros im Him Ek. apply Hn1, list_elem_of_fmap. exists im. split; [|done]. injection Ek as E1 E2 _.
    unfold im_slot. by rewrite E1, E2. }
  apply for_each_cons in H as (w1 & H1 & H2). apply (IH Hm Hpl Hn) in H2 as (B1 & B2 & B3 & B4). clear IH.
  unfold install in H1. case_bool_decide as Hin.
  - injection H1 as <-. split; [done|]. split; [|split].
    + intros m [?|(im & ? & ?)]%B2; [by left|]. right. exists im. split; [apply elem_of_cons; by right|done].
    + intros im [->|Him]%elem_of_cons Hc; [done|by apply B3].
    + intros m Hr Hk. apply B4; [done|]. intros i Hi im Him Hc. by apply Hk; [|apply elem_of_cons; right|].
  - apply request_Ok, (route_replace_law _ _ _ a.1 p) in H1 as (A1 & m0 & M1 & M2 & M3 & M4 & M5); [|apply Hm1|done|apply Hm1|done].
    split; [intros m; unfold same_rules in *; by rewrite B1|]. split; [|split].
    + intros m [[?| ->]%M4|(im & ? & ?)]%B2; [by left| |]; right; [exists a|exists im];
        (split; [apply elem_of_cons; auto|done]).
    + intros im [->|Him]%elem_of_cons Hc; [|by apply B3]. exists m0. split; [|done]. apply B4; [done|].
      intros i Hi im Him _. rewrite M2 in Hi. injection Hi as <-. by apply Hslot.
    + intros m Hr Hk. apply B4.
      * apply M5; [done|]. intros i Hi Ek. apply (Hk i Hi a); [apply elem_of_cons; by left|done|by symmetry].
      * intros i Hi im Him Hc. by apply Hk; [|apply elem_of_cons; right|].
Qed.

(** * One reconciliation *)

(** What reaches the exporter: canonical destinations, metrics of 16 bits. *)
Definition snapshot_ok (s : RouteSnapshot) : Prop :=
  Forall (fun k => canonical (destination k)) ((sr_key <$> sn_routes s) ++ sn_unreachable s) /\
  Forall (fun r => 0 <= sr_metric r) (sn_routes s).
#[global] Instance snapshot_ok_dec s : Decision (snapshot_ok s).
Proof. unfold snapshot_ok, canonical. apply _. Defined.
Definition tables_ok (vs : list ExportView) : Prop := Forall (fun v => table v <> 0) vs.

Lemma projected_plain e vs snapshot p i : snapshot_ok snapshot -> tables_ok vs -> p ∈ project_routes vs snapshot ->
  identity_for e p i -> plain i.
Proof.
  intros [Hc Hm] Ht Hp (H1 & H2 & H3 & _). destruct (project_correct vs snapshot) as (_ & Ho & _).
  unfold plain. rewrite H1, H2, H3. unfold route_priority, DYNAMIC_PRIORITY_BASE. unfold tables_ok in Ht.
  rewrite !list.Forall_forall in *. destruct (Ho p Hp) as [v r Hv Hr _ _|v k Hv Hk _]; simpl.
  - split_and!; [apply Hc, elem_of_app; left; apply list_elem_of_fmap; eauto|by apply Ht|]. specialize (Hm r Hr). lia.
  - split_and!; [apply Hc, elem_of_app; by right|by apply Ht|done].
Qed.

(** Slots of the finite routes of a projection. *)
Definition finite_slots (l : list ProjectedRoute) : gset (Z * IpNet) :=
  list_to_set (slot <$> List.filter (fun p => bool_decide (is_Some (pr_selected p))) l).

Lemma confirmed_finite e l ms : Forall2 (fun p im => identity_for e p im.1) l ms -> confirmed_of ms = finite_slots l.
Proof.
  unfold confirmed_of, finite_slots. intros H.
  assert (omap (fun '(i, _) => if ri_unreachable i then None else Some (ri_table i, ri_destination i)) ms =
    slot <$> List.filter (fun p => bool_decide (is_Some (pr_selected p))) l) as ->; [|done].
  induction H as [|p [i m] l ms (H1 & H2 & _ & H4) _ IH]; [done|]. cbn [omap list_omap List.filter]. simpl in *.
  destruct (pr_selected p); [destruct H4 as [-> _]|destruct H4 as [-> _]]; simpl; [|done].
  rewrite H1, H2. f_equal. exact IH.
Qed.

(** The system after a round: [ids] are the routes of the projection. *)
Record converged (e : Export) (snapshot : RouteSnapshot) (retain : bool) (r : Recovery) (now : Z)
    (w w' : World) (ids : list RouteIdentity) : Prop := {
  cv_ids : Forall2 (identity_for e) (project_routes (views e) snapshot) ids;
  cv_owned m : routes w' m -> route_owned (protocol e) m = true -> exists i, route_identity m = Some i /\
    (i ∈ ids \/ routes w m /\ keep r i (finite_slots (project_routes (views e) snapshot)) now = true);
  cv_installed i : i ∈ ids -> exists m, routes w' m /\ route_stands (protocol e) i m;
  cv_kept m i : routes w m -> route_stands (protocol e) i m ->
    keep r i (finite_slots (project_routes (views e) snapshot)) now = true ->
    (forall j, j ∈ ids -> kslot j <> kslot i) -> routes w' m;
  cv_foreign m : route_owned (protocol e) m = false ->
    (routes w' m -> routes w m) /\
    (routes w m -> (forall i j, route_identity m = Some i -> j ∈ ids -> kslot j <> kslot i) -> routes w' m);
  cv_rules : rules_are (protocol e) (desired_rules e retain) w';
  cv_foreign_rules m : rule_owned (protocol e) m = false -> rules w' m <-> rules w m
}.

Lemma owned_stands p m i : route_owned p m = true -> route_identity m = Some i -> route_stands p i m.
Proof. intros H%bool_decide_eq_true Hi. done. Qed.

Lemma messages_slots e l ms : Forall2 (fun p im => identity_for e p im.1) l ms -> im_slot <$> ms = slot <$> l.
Proof.
  induction 1 as [|p im l ms (H1 & H2 & _) _ IH]; [done|]. cbn [fmap list_fmap]. rewrite IH. f_equal.
  unfold im_slot, slot. by rewrite H1, H2.
Qed.

Lemma NoDup_fmap_key {A B} (f : A -> B) l a b : NoDup (f <$> l) -> a ∈ l -> b ∈ l -> f a = f b -> a = b.
Proof.
  intros Hn (i & Ha)%list_elem_of_lookup (j & Hb)%list_elem_of_lookup E.
  assert (i = j) as ->; [|congruence]. eapply NoDup_lookup; [exact Hn|apply list_lookup_fmap_Some; eauto|].
  rewrite E. apply list_lookup_fmap_Some. eauto.
Qed.

(** The routes part of a round, between the two passes over the rules. *)
Lemma routes_Ok e snapshot r now messages current w w1 w2 : named_protocol (protocol e) = false ->
  Forall (message_ok (protocol e)) messages -> Forall (fun im => plain im.1) messages ->
  NoDup (im_slot <$> messages) -> confirmed_of messages = finite_slots (project_routes (views e) snapshot) ->
  (forall m, m ∈ current <-> routes w m /\ route_owned (protocol e) m = true) ->
  for_each messages (install (identities route_identity current)) w = (Ok tt, w1) ->
  for_each current (fun m => if route_stale messages r now m then del_route m else mret tt) w1 = (Ok tt, w2) ->
  let confirmed := finite_slots (project_routes (views e) snapshot) in
  same_rules (sys w) (sys w2) /\
  (forall m, routes w2 m -> route_owned (protocol e) m = true -> exists i, route_identity m = Some i /\
     (i ∈ messages.*1 \/ routes w m /\ keep r i confirmed now = true)) /\
  (forall i, i ∈ messages.*1 -> exists m, routes w2 m /\ route_stands (protocol e) i m) /\
  (forall m i, routes w m -> route_stands (protocol e) i m -> keep r i confirmed now = true ->
     (forall j, j ∈ messages.*1 -> kslot j <> kslot i) -> routes w2 m) /\
  (forall m, route_owned (protocol e) m = false -> (routes w2 m -> routes w m) /\
     (routes w m -> (forall i j, route_identity m = Some i -> j ∈ messages.*1 -> kslot j <> kslot i) -> routes w2 m)).
Proof.
  intros Hp Hm Hpl Hn Hconf Hcur H1 H2. cbv zeta.
  apply (install_all (protocol e)) in H1 as (A1 & A2 & A3 & A4); [|done..].
  apply delete_all in H2 as [B1 B2].
  assert (forall m i, route_identity m = Some i -> route_stale messages r now m = false <->
    i ∈ messages.*1 \/ keep r i (finite_slots (project_routes (views e) snapshot)) now = true) as Hst.
  { intros m i Hi. unfold route_stale, unwanted. rewrite Hi, Hconf, negb_false_iff, orb_true_iff, bool_decide_eq_true.
    by rewrite elem_of_list_to_set. }
  assert (forall im, im ∈ messages -> im.1 ∈ messages.*1) as Hfst
    by (intros im Him; apply list_elem_of_fmap; eauto).
  split; [intros m; unfold same_rules in *; by rewrite B1|]. split_and!.
  - intros m [Hr Hd]%B2 Ho. apply A2 in Hr as [Hr|(im & Him & [Hi _])]; [|exists im.1; auto].
    assert (m ∈ current) as Hc by by apply Hcur. destruct (route_stale messages r now m) eqn:Es; [tauto|].
    destruct (route_identity m) as [i|] eqn:Ei; [|unfold route_stale, unwanted in Es; by rewrite Ei in Es].
    exists i. split; [done|]. apply (Hst m i Ei) in Es as [?|?]; auto.
  - intros i Hi. assert (exists m, routes w1 m /\ route_stands (protocol e) i m) as (m & Hr & Hs).
    { apply list_elem_of_fmap in Hi as (im & -> & Him).
      destruct (decide (im.1 ∈ identities route_identity current)) as [Hin|Hout]; [|by apply A3].
      apply elem_of_list_to_set, list_elem_of_omap in Hin as (m & Hc & Hid). apply Hcur in Hc as [Hr Ho]. exists m.
      split; [|by apply owned_stands]. apply A4; [done|]. intros i Hi im' Him' Hc Ek. rewrite Hid in Hi. injection Hi as <-.
      assert (im' = im) as ->.
      { eapply (NoDup_fmap_key im_slot); [exact Hn|done|done|]. injection Ek as E1 E2 _. unfold im_slot. by rewrite E1, E2. }
      apply Hc, elem_of_list_to_set, list_elem_of_omap. exists m. split; [by apply Hcur|done]. }
    exists m. split; [|done]. apply B2. split; [done|]. intros [_ Hst']. apply not_false_iff_true in Hst'. apply Hst'.
    apply (Hst m i (proj1 Hs)). by left.
  - intros m i Hr Hs Hk Hslot. apply B2. split.
    + apply A4; [done|]. intros j Hj im Him _. rewrite (proj1 Hs) in Hj. injection Hj as <-. by apply Hslot, Hfst.
    + intros [_ Hst']. apply not_false_iff_true in Hst'. apply Hst', (Hst m i (proj1 Hs)). by right.
  - intros m Ho. split.
    + intros [[Hr|(im & _ & [_ Hpr])]%A2 _]%B2; [done|]. unfold route_owned in Ho. by rewrite bool_decide_true in Ho.
    + intros Hr Hslot. apply B2. split; [|intros [[_ ?]%Hcur _]; congruence]. apply A4; [done|].
      intros i Hi im Him _. by apply Hslot, Hfst.
Qed.

Lemma converged_frame e snapshot retain r now w0 w w1 w' ids : converged e snapshot retain r now w w1 ids ->
  same_routes (sys w0) (sys w) -> (forall m, rule_owned (protocol e) m = false -> rules w m <-> rules w0 m) ->
  same_routes (sys w1) (sys w') -> same_rules (sys w1) (sys w') -> converged e snapshot retain r now w0 w' ids.
Proof.
  intros [C1 C2 C3 C4 C5 [C6 C6'] C7] H1 H2 H3 H4. unfold same_routes, same_rules in *. split; [done|..].
  - intros m Hm%H3 Ho. setoid_rewrite <- H1. by apply C2.
  - intros i (m & Hm & Hs)%C3. exists m. split; [by apply H3|done].
  - intros m i Hm%H1 Hs Hk Hj. apply H3. by eapply C4.
  - intros m Ho. destruct (C5 m Ho) as [F1 F2]. split; [intros ?%H3; by apply H1, F1|]. intros Hm%H1 Hj.
    apply H3. by apply F2.
  - split; [intros m Hm%H4; by apply C6|]. intros i (m & Hm & Hs)%C6'. exists m. split; [by apply H4|done].
  - intros m Ho. by rewrite H4, C7, H2.
Qed.

Lemma apply_requests_Ok e snapshot retain r now w current confirmed w' :
  named_protocol (protocol e) = false ->
  (forall p i, p ∈ project_routes (views e) snapshot -> identity_for e p i -> plain i) ->
  apply_requests e snapshot retain r now w = (Ok (current, confirmed), w') ->
  exists ids, converged e snapshot retain r now w w' ids /\
    confirmed = finite_slots (project_routes (views e) snapshot) /\
    forall i, i ∈ current <-> exists m, routes w m /\ route_stands (protocol e) i m.
Proof.
  intros Hp Hplain H. unfold apply_requests in H.
  apply bind_log in H as [(x & _ & [=])|([] & w1 & H1 & H)]. apply remove_stale_Ok in H1 as [A1 A2].
  apply bind_log in H as [(x & _ & [=])|(messages & w2 & H2 & H)].
  pose proof (prepare_all_identities _ _ _ _ _ H2) as Hids. apply prepare_all_messages in H2 as [Hm ->].
  apply bind_log in H as [(x & _ & [=])|(cur & w3 & H3 & H)]. apply owned_routes_Ok in H3 as (B1 & B2 & B3).
  apply bind_log in H as [(x & _ & [=])|([] & w4 & H4 & H)].
  apply bind_log in H as [(x & _ & [=])|([] & w5 & H5 & H)].
  apply bind_log in H as [(x & _ & [=])|([] & w6 & H6 & H)]. injection H as <- <- <-.
  apply reconcile_rules_Ok in H6 as (D1 & D2 & D3); [|done].
  pose proof (confirmed_finite _ _ _ Hids) as Hconf. pose proof (messages_slots _ _ _ Hids) as Hslots.
  assert (Forall (fun im => plain im.1) messages) as Hpl.
  { apply list.Forall_forall. intros im (k & Hk)%list_elem_of_lookup.
    destruct (Forall2_lookup_r _ _ _ _ _ Hids Hk) as (p & Hpk & Hi).
    eapply Hplain; [by eapply list_elem_of_lookup_2|done]. }
  unfold same_routes, same_rules in *.
  assert (forall m, m ∈ cur <-> routes w3 m /\ route_owned (protocol e) m = true) as Hcur
    by (intros m; by rewrite B3, B1).
  destruct (routes_Ok e snapshot r now messages cur w3 w4 w5) as (R1 & R2 & R3 & R4 & R5); try done.
  { rewrite Hslots. apply project_correct. }
  exists messages.*1. split; [|split; [done|]].
  - eapply (converged_frame _ _ _ _ _ w w3 w6 w6); [|intros m; by rewrite B1, A1| |done|done].
    + split; [by apply list.Forall2_fmap_r| | | | |done|].
      * intros m ?%D1. by apply R2.
      * intros i (m & Hr & ?)%R3. exists m. split; [by apply D1|done].
      * intros m i Hr Hst Hk Hj. apply D1. by eapply R4.
      * intros m Ho. destruct (R5 m Ho) as [F1 F2]. split; [intros ?%D1; by apply F1|]. intros Hr Hj. apply D1. by apply F2.
      * intros m Ho. by rewrite D3, (R1 m).
    + intros m Ho. rewrite B2, A2, Ho. split; [tauto|]. intros Hr. split; [done|]. by intros [? _].
  - intros i. unfold identities. rewrite elem_of_list_to_set, list_elem_of_omap. setoid_rewrite B3. setoid_rewrite A1. split.
    + intros (m & [Hr Ho] & Hi). exists m. split; [done|by apply owned_stands].
    + intros (m & Hr & [Hi Hpr]). exists m. split; [|done]. split; [done|]. by apply bool_decide_eq_true.
Qed.
End Converge.
