(* ===== verification/ExporterTheorems.v ===== *)
(** What the exporter guarantees under the laws of the kernel: a reconciliation
    that reports success leaves exactly the projected routes, and an orderly
    shutdown leaves nothing behind. *)
From S2P Require Import Prelude Net Mac Model Metric Wire WireRoundtrip Api Filters DaemonConfig Scheduler Sender Router Projection ProjectionTheorems Netlink Recovery Exporter ExporterOrder ExporterSpec DaemonTheorems.
Import Hello.
Local Open Scope Z_scope.

Section Tables.
Context {NL : IpNetLib} {NC : NetContains} {HO : HashOrder}.

Lemma next_free_ge used : forall fuel next t, next_free fuel used next = Some (Ok t) -> next <= t.
Proof.
  induction fuel as [|fuel IH]; intros next t H; [done|]. simpl in H. case_bool_decide.
  - destruct (next =? u32_max); [done|]. apply IH in H. lia.
  - injection H as <-. lia.
Qed.

Lemma allocate_ge base l : forall used next m vs m' vs', base <= next ->
  map_Forall (fun _ t => base <= t) m -> Forall (fun v => table v <> 0) vs -> 0 < base ->
  allocate used next m vs l = Some (m', Ok vs') -> Forall (fun v => table v <> 0) vs'.
Proof.
  induction l as [|s l IH]; intros used next m vs m' vs' Hn Hm Hv Hb H; cbn [allocate] in H; [by injection H as <- <-|].
  destruct (m !! s) as [t|] eqn:Es.
  - eapply IH; [exact Hn|exact Hm| |done|exact H]. apply list.Forall_app. split; [done|].
    constructor; [|constructor]. simpl. specialize (Hm s t Es). simpl in Hm. lia.
  - apply bind_Some in H as ([t|] & Ht & H); [|done]. apply next_free_ge in Ht.
    eapply IH; [| | |done|exact H]; [lia| |].
    + apply map_Forall_insert_2; [lia|done].
    + apply list.Forall_app. split; [done|]. constructor; [simpl; lia|constructor].
Qed.

Lemma views_tables_ok seen st l : validate_views seen st l = Ok tt -> Forall (fun v => table v <> 0) l.
Proof.
  revert seen st. induction l as [|v l IH]; intros seen st H; [constructor|]. cbn [validate_views] in H.
  destruct (Z.eqb_spec (table v) 0); [done|]. cbn [orb] in H. destruct (_ && _); [done|].
  destruct (_ && _); [done|]. destruct (bool_decide _); [done|].
  constructor; [done|]. destruct (view_source v); [|by eapply IH]. destruct (bool_decide _); [done|by eapply IH].
Qed.

(** Views of an accepted export section have usable tables. *)
Lemma resolved_tables_ok e snapshot allocated held tables vs : validate_export e = Ok tt ->
  source_views_with_recovery e snapshot allocated held = Some (tables, Ok vs) -> Forall (fun v => table v <> 0) vs.
Proof.
  intros He H. assert (Forall (fun v => table v <> 0) (views e) /\ (automatic_sources e = true -> 256 <= source_table_base e))
    as [Hv Hb].
  { unfold validate_export in He. do 2 (destruct (_ : bool); [done|]). destruct (_ && _) eqn:E1 in He; [done|].
    destruct ((source_rule_priority e =? 0) || _ || _) in He; [done|]. apply result_bind_Ok in He as ([] & Hv & _). split; [by eapply views_tables_ok|].
    intros Ha. rewrite Ha in E1. simpl in E1. apply orb_false_iff in E1 as [E1 _].
    apply negb_false_iff, andb_true_iff in E1 as [E1%Z.leb_le _]. done. }
  unfold source_views_with_recovery in H. destruct (automatic_sources e) eqn:Ha; simpl in H; [|by injection H as _ <-].
  specialize (Hb eq_refl). eapply (allocate_ge (source_table_base e)); [| |exact Hv| |exact H]; [lia| |lia].
  intros s t (_ & Hf)%map_lookup_filter_Some. apply Hf.
Qed.
End Tables.

Section Theorems.
Context {NL : IpNetLib} {NC : NetContains} {NK : Netlink} {SV : SystemView} {LAWS : NetlinkLaws} {HO : HashOrder}.

Abbreviation routes w := (has_route (sys w)).
Abbreviation rules w := (has_rule (sys w)).

(** * One round *)

Lemma save_journal_same write w ok w' : save_journal write w = (ok, w') ->
  same_routes (sys w) (sys w') /\ same_rules (sys w) (sys w').
Proof.
  unfold save_journal. destruct write as [j|]; [|by intros [= _ <-]].
  destruct (write_journal j (sys w)) as [b s] eqn:E. intros [= _ <-]. by eapply write_journal_law.
Qed.

Lemma apply_locked_Ok env e snapshot retain x w x' w' : named_protocol (protocol e) = false ->
  apply_locked env e snapshot retain x w = Some (Ok tt, x', w') ->
  let x0 := meanwhile (env_before env) x in
  exists now tables vs, env_now env = Some now /\
    source_views_with_recovery e snapshot (source_tables x0) (sources (recovery x0) now e) = Some (tables, Ok vs) /\
    ((forall p i, p ∈ project_routes vs snapshot -> identity_for (set_views e vs) p i -> plain i) ->
     exists ids, converged (set_views e vs) snapshot retain (recovery x0) now w w' ids).
Proof.
  intros Hp H. unfold apply_locked in H. cbv zeta. set (x0 := meanwhile (env_before env) x) in *.
  destruct (env_now env) as [now|]; [|done]. apply bind_Some in H as ([tables [vs|u]] & Hv & H); [|done].
  exists now, tables, vs. split; [done|]. split; [done|]. intros Hplain. cbn [fst snd] in H.
  destruct (apply_requests _ _ _ _ _ w) as [r w1] eqn:E. destruct r as [[current confirmed]|err]; [|done].
  apply apply_requests_Ok in E as (ids & Hc & _); [|done|done]. exists ids.
  destruct (applied _ _ _ _) as [rec write]. destruct (save_journal write w1) as [ok w2] eqn:Es.
  apply save_journal_same in Es as [S1 S2]. assert (w2 = w') as -> by (destruct ok; [by injection H as _ <-|done]).
  by eapply converged_frame.
Qed.

(** C25. A round that reports success has put the kernel into the state the RIB
    asks for: the routes with the daemon's protocol number are exactly those of
    the projection and the unconfirmed start-up routes whose deadline has not
    passed, its rules are exactly those of the views, and routes and rules of
    other protocols are left alone (a route is displaced only from a slot of
    table, destination and priority that the projection fills). *)
Theorem reconciliation_converges env e snapshot retain x w x' w' :
  named_protocol (protocol e) = false -> validate_export e = Ok tt -> snapshot_ok snapshot ->
  apply_locked env e snapshot retain x w = Some (Ok tt, x', w') ->
  let x0 := meanwhile (env_before env) x in
  exists now tables vs ids, env_now env = Some now /\
    source_views_with_recovery e snapshot (source_tables x0) (sources (recovery x0) now e) = Some (tables, Ok vs) /\
    converged (set_views e vs) snapshot retain (recovery x0) now w w' ids.
Proof.
  intros Hp He Hs H. destruct (apply_locked_Ok _ _ _ _ _ _ _ _ Hp H) as (now & tables & vs & Hn & Hv & Hc).
  destruct Hc as [ids Hc].
  - intros p i Hin Hi. eapply projected_plain; [done| |done|exact Hi]. by eapply resolved_tables_ok.
  - exists now, tables, vs, ids. done.
Qed.

(** * Shutdown *)

(** Nothing with the protocol number is left. *)
Definition cleared (p : Z) (w : World) : Prop :=
  (forall m, routes w m -> route_owned p m = false) /\ (forall m, rules w m -> rule_owned p m = false).

Lemma none_live r now (f : PendingRoute -> bool) l : revoked r = true ->
  existsb (fun p => f p && live r p now) l = false.
Proof.
  intros Hr. induction l as [|p l IH]; [done|]. cbn [existsb]. rewrite IH. unfold live. rewrite Hr.
  by rewrite andb_false_r.
Qed.

Lemma keep_revoked r i confirmed now : revoked r = true -> keep r i confirmed now = false.
Proof.
  intros Hr. unfold keep. apply andb_false_iff. right. by apply (none_live r now (fun p => bool_decide (pd_route p = i))).
Qed.

Definition empty (s : RouteSnapshot) : Prop := sn_routes s = [] /\ sn_unreachable s = [].

Lemma project_empty vs s : empty s -> project_routes vs s = [].
Proof.
  intros [H1 H2]. destruct (project_correct vs s) as (_ & Ho & _). destruct (project_routes vs s) as [|p l]; [done|].
  exfalso. destruct (Ho p) as [v r _ Hr _ _|v k _ Hk _]; [apply elem_of_cons; by left| |].
  - rewrite H1 in Hr. by apply not_elem_of_nil in Hr.
  - rewrite H2 in Hk. by apply not_elem_of_nil in Hk.
Qed.

(** A round for nothing clears its protocol and touches no other. *)
Lemma apply_empty env e snapshot x w x' w' : named_protocol (protocol e) = false -> empty snapshot ->
  revoked (recovery (meanwhile (env_before env) x)) = true ->
  apply_locked env e snapshot false x w = Some (Ok tt, x', w') ->
  cleared (protocol e) w' /\ forall p, cleared p w -> cleared p w'.
Proof.
  intros Hp He Hr H. destruct (apply_locked_Ok _ _ _ _ _ _ _ _ Hp H) as (now & tables & vs & _ & _ & Hc).
  destruct Hc as [ids Hc]; [rewrite project_empty by done; by intros p i ?%not_elem_of_nil|].
  destruct Hc as [C1 C2 C3 C4 C5 [C6 C7] C8]. simpl in *. rewrite project_empty in C1 by done.
  apply Forall2_nil_inv_l in C1 as ->.
  assert (cleared (protocol e) w') as Hcl.
  { split; intros m Hm; apply not_true_iff_false; intros Ho.
    - destruct (C2 m Hm Ho) as (i & _ & [?%not_elem_of_nil|[_ Hk]]); [done|]. by rewrite keep_revoked in Hk.
    - destruct (C6 m Hm Ho) as (i & Hi & _). unfold desired_rules in Hi. simpl in Hi. set_solver. }
  split; [done|]. intros p [Q1 Q2]. split; intros m Hm.
  - destruct (route_owned (protocol e) m) eqn:Ho; [|apply Q1; by apply (C5 m Ho)].
    apply (proj1 Hcl) in Hm. congruence.
  - destruct (rule_owned (protocol e) m) eqn:Ho; [|apply Q2; by apply (C8 m Ho)]. apply (proj2 Hcl) in Hm. congruence.
Qed.

(** ** The latch *)

(** Only an empty snapshot is handed to [shutdown]. *)
Definition quiet (c : Concurrent) : Prop := match c with CLatchShutdown s => empty s | _ => True end.

(** What a stopped exporter keeps whatever runs. *)
Record stopped (e : Export) (l : list Export) (x : LinuxExporter) : Prop := {
  st_stopping : stopping (xstate x) = true;
  st_retain : retain_rules (xstate x) = false;
  st_empty : empty (xs_snapshot (xstate x));
  st_export : xs_export (xstate x) = e;
  st_retired : retired (xstate x) = l;
  st_revoked : revoked (recovery x) = true
}.

Lemma stopped_meanwhile e l cs : Forall quiet cs -> forall x, stopped e l x -> stopped e l (meanwhile cs x).
Proof.
  induction cs as [|c cs IH]; intros Hq x Hx; [done|]. apply list.Forall_cons in Hq as [Hc Hq]. simpl.
  apply IH; [done|]. destruct Hx as [H1 H2 H3 H4 H5 H6]. destruct c as [e'| |s]; simpl.
  - unfold update_export. cbn [xstate set_recovery]. rewrite H1. by split.
  - by split.
  - by split.
Qed.

Lemma stopped_apply e l env e' snapshot retain x w r x' w' : stopped e l x ->
  Forall quiet (env_before env ++ env_requests env ++ env_write env) ->
  apply_locked env e' snapshot retain x w = Some (r, x', w') -> stopped e l x'.
Proof.
  intros Hx (Q1 & (Q2 & Q3)%list.Forall_app)%list.Forall_app H. unfold apply_locked in H.
  pose proof (stopped_meanwhile e l _ Q1 _ Hx) as Hx0. set (x0 := meanwhile (env_before env) x) in *. clearbody x0.
  destruct (env_now env) as [now|]; [|by injection H as _ <- _].
  apply bind_Some in H as ([tables [vs|u]] & Hv & H); cbn [fst snd] in H.
  2:{ injection H as _ <- _. destruct Hx0. by split. }
  assert (stopped e l (set_tables x0 tables)) as Hx1 by (destruct Hx0; by split).
  apply (stopped_meanwhile e l _ Q2) in Hx1. destruct (apply_requests _ _ _ _ _ w) as [res w1].
  destruct res as [[current confirmed]|err]; [|by injection H as _ <- _].
  set (x1 := meanwhile (env_requests env) _) in *. clearbody x1.
  assert (stopped e l (set_recovery x1 (applied (recovery x1) current confirmed now).1)) as Hx2 by (destruct Hx1; by split).
  destruct (applied _ _ _ _) as [rec write]. apply (stopped_meanwhile e l _ Q3) in Hx2.
  destruct (save_journal write w1) as [ok w2]. cbn [fst] in Hx2. destruct ok; injection H as _ <- _; [|done].
  destruct Hx2. by split.
Qed.

Lemma clean_retired_Ok e l envs rs : Forall (fun e => named_protocol (protocol e) = false) rs ->
  (forall e, Forall quiet (env_before (envs e) ++ env_requests (envs e) ++ env_write (envs e))) ->
  forall x w x' w', stopped e l x -> clean_retired envs rs x w = Some (Ok tt, x', w') ->
  stopped e l x' /\ Forall (fun e => cleared (protocol e) w') rs /\ forall p, cleared p w -> cleared p w'.
Proof.
  intros Hn Hq. induction rs as [|a rs IH]; intros x w x' w' Hx H; cbn [clean_retired] in H.
  { injection H as <- <-. done. }
  apply list.Forall_cons in Hn as [Ha Hn]. apply bind_Some in H as ([[[[]|err] x1] w1] & H1 & H); [|done].
  pose proof (stopped_apply _ _ _ _ _ _ _ _ _ _ _ Hx (Hq a) H1) as Hx1.
  apply apply_empty in H1 as [C1 C2]; [|done|done|].
  2:{ specialize (Hq a). apply list.Forall_app in Hq as [Hq _]. by destruct (stopped_meanwhile e l _ Hq _ Hx). }
  destruct (IH Hn _ _ _ _ Hx1 H) as (Hx' & Hrs & Hp). split; [done|]. split; [|auto]. constructor; auto.
Qed.

(** Nothing takes the latch back. *)
Lemma stopping_meanwhile cs : forall x, stopping (xstate x) = true -> stopping (xstate (meanwhile cs x)) = true.
Proof.
  induction cs as [|c cs IH]; intros x Hx; [done|]. simpl. apply IH. destruct c as [e'| |s]; simpl; try done.
  unfold update_export. cbn [xstate set_recovery]. by rewrite Hx.
Qed.

Lemma reconciler_stopped events : forall x w, stopping (xstate x) = true ->
  exists ended x', run_reconciler events x w = Some (ended, x', w).
Proof.
  induction events as [|[closed value|gap env envs|l] rest IH]; intros x w Hx; simpl; [by eexists _, _|..].
  - destruct (closed || value); [by eexists _, _|by apply IH].
  - unfold reconcile_current. rewrite Hx. by apply IH.
  - by apply IH, stopping_meanwhile.
Qed.

(** C27. An orderly shutdown leaves nothing in the kernel, even when configuration
    updates run meanwhile: once [shutdown] with an empty snapshot reports
    success, no route or rule with the protocol number of the current or of a
    replaced export section remains, no later reconciliation sends a request,
    and neither does the daemon's periodic reconciler, whatever runs beside it. *)
Theorem shutdown_clears snapshot gap env envs x w x' w' : empty snapshot -> Forall quiet gap ->
  Forall quiet (env_before env ++ env_requests env ++ env_write env) ->
  (forall e, Forall quiet (env_before (envs e) ++ env_requests (envs e) ++ env_write (envs e))) ->
  Forall (fun e => named_protocol (protocol e) = false) (xs_export (xstate x) :: retired (xstate x)) ->
  locked LShutdown gap env envs (concurrent (CLatchShutdown snapshot) x) w = Some (Ok tt, x', w') ->
  Forall (fun e => cleared (protocol e) w') (xs_export (xstate x) :: retired (xstate x)) /\
  (forall op gap' env' envs', op <> LShutdown -> locked op gap' env' envs' x' w' = Some (Ok tt, x', w')) /\
  forall events, exists ended x'', run_reconciler events x' w' = Some (ended, x'', w').
Proof.
  intros He Hg Hq1 Hq2 Hn H. set (e := xs_export (xstate x)) in *. set (l := retired (xstate x)) in *.
  assert (stopped e l (set_recovery (concurrent (CLatchShutdown snapshot) x)
    (revoke (recovery (concurrent (CLatchShutdown snapshot) x))))) as Hx by by split.
  apply (stopped_meanwhile e l _ Hg) in Hx. cbn [locked] in H. unfold exporter_shutdown in H. set (x0 := meanwhile gap _) in *. clearbody x0.
  unfold reconcile_locked in H. apply bind_Some in H as ([[res x1] w1] & H1 & H). injection H as -> <- <-.
  unfold reconcile_attempt in H1. apply bind_Some in H1 as ([[[[]|err] x2] w2] & H2 & H1); [|done].
  apply bind_Some in H1 as ([[[[]|err] x3] w3] & H3 & H1); [|done]. injection H1 as <- <-.
  rewrite (st_export _ _ _ Hx), (st_retain _ _ _ Hx) in H2. rewrite (st_retired _ _ _ Hx) in H3.
  apply list.Forall_cons in Hn as [Hn1 Hn2].
  pose proof (stopped_apply _ _ _ _ _ _ _ _ _ _ _ Hx Hq1 H2) as Hx2.
  apply apply_empty in H2 as [C1 _]; [|done|apply Hx|].
  2:{ apply list.Forall_app in Hq1 as [Hq1 _]. by destruct (stopped_meanwhile e l _ Hq1 _ Hx). }
  destruct (clean_retired_Ok e l envs l Hn2 Hq2 _ _ _ _ Hx2 H3) as (Hx3 & Hrs & Hp).
  split; [constructor; auto|]. split; [|intros events; apply reconciler_stopped, (st_stopping _ _ _ Hx3)].
  intros op gap' env' envs' Hop. destruct op; [|..|done]; cbn [locked];
    [unfold reconcile_current|unfold exporter_reconcile]; simpl;
    by rewrite (st_stopping _ _ _ Hx3).
Qed.
End Theorems.
