(* ===== verification/RecoveryTheorems.v ===== *)
(** Recovery over restarts: a route found at start-up is kept for a bounded time,
    however often the daemon restarts, and what a round leaves in the kernel is
    accounted for in the journal. *)
From S2P Require Import Prelude Net Mac Model Metric Wire WireRoundtrip Api Filters DaemonConfig Scheduler Sender Router Projection ProjectionTheorems Netlink Recovery Exporter ExporterOrder ExporterSpec DaemonTheorems ExporterTheorems.
Local Open Scope Z_scope.

Section Restarts.
Context {NL : IpNetLib} {NC : NetContains} {L : Libm}.
Context (scope_json : Export -> Filter -> string).

(** The journal files by path and the process, if one runs. *)
Record Life := MkLife { disk : gmap string JournalFile; proc : option Recovery }.

(** The file that [Recovery::load] reads and writes for a configuration. *)
Definition journal_path (c : Config) : string := (state_file c +:+ ".fib-recovery.json")%string.
Definition file_at (d : gmap string JournalFile) (path : string) : JournalFile := default JournalMissing (d !! path).

(** What a write leaves on the disk: the file of its path is replaced as a whole or not at all. *)
Definition written (write : option JournalWrite) (replaced : bool) (d : gmap string JournalFile) : gmap string JournalFile :=
  match write with Some w => if replaced then <[jw_path w := JournalContent (jw_data w)]> d else d | None => d end.

(** Lives of daemons of one boot, namespace and protocol.  A write that reports
    an error may have replaced the file; one that reports success has. *)
Inductive life_step (boot namespace : string) (p : Z) : Life -> Life -> Prop :=
| life_start s c routes rules now r :
    protocol (export c) = p ->
    load scope_json c routes rules now (Some boot) (Some namespace) (file_at (disk s) (journal_path c)) true = Ok r ->
    life_step boot namespace p s (MkLife (<[journal_path c := JournalContent (journal r)]> (disk s)) (Some r))
| life_apply s r current confirmed now r' write (replaced ok : bool) :
    proc s = Some r -> applied r current confirmed now = (r', write) -> (ok -> replaced) ->
    life_step boot namespace p s (MkLife (written write replaced (disk s)) (Some (if ok then saved r' else r')))
| life_interfaces s r c indices r' write (replaced ok : bool) :
    proc s = Some r -> recovery_interfaces scope_json c indices r = (r', write) -> (ok -> replaced) ->
    life_step boot namespace p s (MkLife (written write replaced (disk s)) (Some (if ok then saved r' else r')))
| life_revoke s r : proc s = Some r -> life_step boot namespace p s (MkLife (disk s) (Some (revoke r)))
| life_crash s : life_step boot namespace p s (MkLife (disk s) None).

(** Every entry for the route in the journal has a deadline of at most [d]. *)
Definition bounded (boot namespace : string) (p : Z) (i : RouteIdentity) (d : Z) (j : Journal) : Prop :=
  (jr_version j = 1 /\ jr_boot j = boot /\ jr_namespace j = namespace /\ jr_protocol j = p) /\
  forall q, q ∈ pending j -> pd_route q = i -> deadline_ms q <= d.

Definition on_disk (path : string) (i : RouteIdentity) (s : Life) : Prop :=
  exists j, disk s !! path = Some (JournalContent j) /\ exists q, q ∈ pending j /\ pd_route q = i.

Record held_until (boot namespace path : string) (p : Z) (i : RouteIdentity) (d : Z) (s : Life) : Prop := {
  hu_disk : exists j, disk s !! path = Some (JournalContent j) /\ bounded boot namespace p i d j;
  hu_proc r : proc s = Some r -> rc_path r = Some path -> bounded boot namespace p i d (journal r)
}.

Lemma bounded_filter boot namespace p i d j (f : PendingRoute -> bool) :
  bounded boot namespace p i d j -> bounded boot namespace p i d (set_pending j (List.filter f (pending j))).
Proof. intros [H1 H2]. split; [done|]. intros q [Hq _]%elem_of_filter_bool. by apply H2. Qed.

Lemma bounded_tombstone boot namespace p i d j sc indices : 0 <= d -> bounded boot namespace p i d j ->
  bounded boot namespace p i d (set_pending j (map (tombstone sc indices) (pending j))).
Proof.
  intros Hd [H1 H2]. split; [done|]. intros q Hq Hi. change (q ∈ tombstone sc indices <$> pending j) in Hq.
  apply list_elem_of_fmap in Hq as (q0 & -> & Hq0). unfold tombstone in *. destruct (_ || _); [done|]. by apply H2.
Qed.

Lemma collect_map_in {K A} `{Countable K} (l : list (K * A)) k :
  (exists a, (k, a) ∈ l) -> exists a, collect_map l !! k = Some a /\ (k, a) ∈ l.
Proof.
  intros (a & Ha). unfold collect_map. destruct (list_to_map (M := gmap K A) (rev l) !! k) as [b|] eqn:E.
  - exists b. split; [done|]. apply elem_of_list_to_map_2 in E. by apply list_elem_of_In, in_rev, list_elem_of_In in E.
  - apply not_elem_of_list_to_map_2 in E. exfalso. apply E, list_elem_of_fmap. exists (k, a).
    split; [done|]. by apply list_elem_of_In, in_rev; rewrite rev_involutive; apply list_elem_of_In.
Qed.

(** A restart keeps the deadline of a route that is in the journal. *)
Lemma load_bounded boot namespace c routes rules now j r i d :
  load scope_json c routes rules now (Some boot) (Some namespace) (JournalContent j) true = Ok r ->
  bounded boot namespace (protocol (export c)) i d j -> (exists q, q ∈ pending j /\ pd_route q = i) ->
  bounded boot namespace (protocol (export c)) i d (journal r).
Proof.
  intros H [(H1 & H2 & H3 & H4) Hb] (q0 & Hq0 & Hi0). injection H as <-. split; [done|].
  intros q Hq Hi. simpl in Hq. change (q ∈ (fun route => MkPendingRoute route (Z.min (default (new_deadline scope_json c j now)
    (old_deadlines c boot namespace j !! route)) (new_deadline scope_json c j now))) <$> routes) in Hq.
  apply list_elem_of_fmap in Hq as (route & -> & _). simpl in *. subst route.
  unfold old_deadlines, compatible. rewrite H1, H2, H3, H4, !bool_decide_true by done. rewrite !Z.eqb_refl. simpl.
  destruct (collect_map_in (map (fun p => (pd_route p, deadline_ms p)) (pending j)) i) as (a & -> & Ha).
  { exists (deadline_ms q0). change ((i, deadline_ms q0) ∈ (fun p => (pd_route p, deadline_ms p)) <$> pending j).
    apply list_elem_of_fmap. exists q0. by rewrite Hi0. }
  change ((i, a) ∈ (fun p => (pd_route p, deadline_ms p)) <$> pending j) in Ha.
  apply list_elem_of_fmap in Ha as (q & [= Hq ->] & Hin). simpl. specialize (Hb q Hin (eq_sym Hq)). lia.
Qed.

Lemma write_request_data r w : write_request r = Some w -> jw_data w = journal r /\ rc_path r = Some (jw_path w).
Proof. intros (path & Hp & H)%bind_Some. by injection H as <-. Qed.

Lemma load_path c routes rules now boot namespace file r :
  load scope_json c routes rules now boot namespace file true = Ok r -> rc_path r = Some (journal_path c).
Proof.
  intros (? & _ & (? & _ & (? & _ & H)%result_bind_Ok)%result_bind_Ok)%result_bind_Ok. by injection H as <-.
Qed.

(** A write of the process goes to the file of the process. *)
Lemma written_held boot namespace path p i d s r' write (replaced ok : bool) :
  (exists j, disk s !! path = Some (JournalContent j) /\ bounded boot namespace p i d j) ->
  (rc_path r' = Some path -> bounded boot namespace p i d (journal r')) ->
  (forall w, write = Some w -> jw_data w = journal r' /\ rc_path r' = Some (jw_path w)) ->
  held_until boot namespace path p i d (MkLife (written write replaced (disk s)) (Some (if ok then saved r' else r'))).
Proof.
  intros Hd Hb Hw. split; simpl.
  - destruct write as [w|]; [|done]. destruct replaced; [|done]. destruct (Hw w eq_refl) as [Hj Hp]. simpl.
    destruct (decide (jw_path w = path)) as [<-|Hne]; [|by rewrite lookup_insert_ne].
    exists (jw_data w). rewrite lookup_insert_eq, Hj. auto.
  - intros r [= <-]. by destruct ok.
Qed.

Lemma life_step_held boot namespace path p i d s s' : 0 <= d -> life_step boot namespace p s s' ->
  on_disk path i s -> held_until boot namespace path p i d s -> held_until boot namespace path p i d s'.
Proof.
  intros Hd Hstep (j & Hj & Hq) [(j' & Hj' & Hb) Hp]. rewrite Hj in Hj'. injection Hj' as <-.
  destruct Hstep as [s c routes rules now r <- Hl|s r current confirmed now r' write replaced ok Hr E _
    |s r c indices r' write replaced ok Hr E _|s r Hr|s].
  - pose proof (load_path _ _ _ _ _ _ _ _ Hl) as Hpath. destruct (decide (journal_path c = path)) as [<-|Hne].
    + unfold file_at in Hl. rewrite Hj in Hl. pose proof (load_bounded _ _ _ _ _ _ _ _ _ _ Hl Hb Hq) as Hb'.
      split; simpl; [rewrite lookup_insert_eq; eauto|]. by intros r' [= <-] _.
    + split; simpl; [rewrite lookup_insert_ne; eauto|]. intros r' [= <-]. congruence.
  - apply written_held; [eauto| |].
    + injection E as <- _. intros Hpath. simpl. by apply bounded_filter, Hp.
    + intros w ->. unfold applied in E. injection E as <- E. destruct (_ || _) in E; [|done]. by apply write_request_data in E.
  - apply written_held; [eauto| |].
    + injection E as <- _. intros Hpath. simpl. by apply bounded_tombstone, Hp.
    + intros w ->. injection E as <- E. by apply write_request_data in E.
  - split; simpl; [eauto|]. intros r' [= <-]. exact (Hp r Hr).
  - split; simpl; [eauto|done].
Qed.

Lemma keep_deadline boot namespace p i d r confirmed now : bounded boot namespace p i d (journal r) ->
  keep r i confirmed now = true -> now < d.
Proof.
  intros [_ Hb] [_ Hk]%andb_true_iff. apply existsb_exists in Hk as (q & Hq%list_elem_of_In & Hk).
  apply andb_true_iff in Hk as [Hi%bool_decide_eq_true Hl]. apply andb_true_iff in Hl as [_ Hl%Z.ltb_lt].
  specialize (Hb q Hq Hi). lia.
Qed.

(** C28. Restart loops do not prolong recovery: when a daemon finds a route at
    start-up at time [t0], then as long as the route stays in its journal no
    later daemon of the same boot, namespace, protocol and state file keeps it
    at or after [t0] plus the recovery window, through any sequence of rounds
    (whose journal writes may fail), interface and policy changes, revocations,
    crashes and restarts, whatever their configurations and clocks say, and
    through lives of daemons with other state files in between. *)
Theorem recovery_window_bounded boot namespace c routes rules t0 d0 r0 i s r confirmed now :
  0 <= t0 -> 0 <= restart_recovery_seconds c ->
  load scope_json c routes rules t0 (Some boot) (Some namespace) (file_at d0 (journal_path c)) true = Ok r0 ->
  let s0 := MkLife (<[journal_path c := JournalContent (journal r0)]> d0) (Some r0) in
  rtc (fun s s' => on_disk (journal_path c) i s /\ life_step boot namespace (protocol (export c)) s s') s0 s ->
  proc s = Some r -> rc_path r = Some (journal_path c) -> keep r i confirmed now = true ->
  now < t0 + restart_recovery_seconds c * 1000.
Proof.
  intros Ht Hw Hl s0 Hrun Hr Hpath Hk. set (d := t0 + restart_recovery_seconds c * 1000).
  assert (held_until boot namespace (journal_path c) (protocol (export c)) i d s0) as H0.
  { assert (bounded boot namespace (protocol (export c)) i d (journal r0)) as Hb.
    { apply result_bind_Ok in Hl as (? & [= <-] & Hl). apply result_bind_Ok in Hl as (? & [= <-] & Hl).
      apply result_bind_Ok in Hl as (j & _ & [= <-]). split; [done|]. intros q Hq _. simpl in Hq.
      change (q ∈ (fun route => MkPendingRoute route (Z.min (default (new_deadline scope_json c j t0)
        (old_deadlines c boot namespace j !! route)) (new_deadline scope_json c j t0))) <$> routes) in Hq.
      apply list_elem_of_fmap in Hq as (route & -> & _). simpl. unfold new_deadline, saturating_add64.
      destruct (scope_changed_since _ _ _); lia. }
    split; [exists (journal r0); split; [exact (lookup_insert_eq _ _ _)|done]|]. by intros r' [= <-] _. }
  assert (held_until boot namespace (journal_path c) (protocol (export c)) i d s) as [_ Hp].
  { clear Hr Hpath Hk. induction Hrun as [|s1 s2 s3 [Hon Hstep] _ IH]; [done|].
    apply IH. eapply life_step_held; [|done|done|done]. lia. }
  eapply keep_deadline; [by apply Hp|done].
Qed.
End Restarts.

Section Tracked.
Context {NL : IpNetLib} {NC : NetContains} {NK : Netlink} {SV : SystemView} {LAWS : NetlinkLaws} {HO : HashOrder}.

Abbreviation routes w := (has_route (sys w)).

(** What runs meanwhile does not touch the journal and does not restore a
    revoked recovery. *)
Lemma meanwhile_recovery cs : forall x, journal (recovery (meanwhile cs x)) = journal (recovery x) /\
  (revoked (recovery (meanwhile cs x)) = false -> revoked (recovery x) = false).
Proof.
  induction cs as [|c cs IH]; intros x; [done|]. simpl. destruct (IH (concurrent c x)) as [IH1 IH2].
  assert (journal (recovery (concurrent c x)) = journal (recovery x) /\
    (revoked (recovery (concurrent c x)) = false -> revoked (recovery x) = false)) as [H1 H2].
  { destruct c; simpl; [|done|done]. unfold update_export. destruct (stopping _); [done|].
    by destruct (bool_decide _). }
  split; [by rewrite IH1|auto].
Qed.

Lemma apply_locked_journal env e snapshot retain x w x' w' : named_protocol (protocol e) = false ->
  validate_export e = Ok tt -> snapshot_ok snapshot ->
  apply_locked env e snapshot retain x w = Some (Ok tt, x', w') -> revoked (recovery x') = false ->
  let x0 := meanwhile (env_before env) x in
  exists now vs ids current, env_now env = Some now /\
    converged (set_views e vs) snapshot retain (recovery x0) now w w' ids /\
    (forall i, i ∈ current <-> exists m, routes w m /\ route_stands (protocol e) i m) /\
    pending (journal (recovery x')) = List.filter
      (still_pending false current (finite_slots (project_routes vs snapshot)) now) (pending (journal (recovery x0))).
Proof.
  intros Hp He Hs H Hrev. cbv zeta. unfold apply_locked in H. set (x0 := meanwhile (env_before env) x) in *.
  destruct (env_now env) as [now|]; [|done]. apply bind_Some in H as ([tables [vs|u]] & Hv & H); [|done].
  cbn [fst snd] in H. destruct (apply_requests _ _ _ _ _ w) as [r w1] eqn:E.
  destruct r as [[current confirmed]|err]; [|done]. apply apply_requests_Ok in E as (ids & Hc & -> & Hcur); [|done|].
  2:{ intros q i Hin Hi. eapply projected_plain; [done| |done|exact Hi]. by eapply resolved_tables_ok. }
  exists now, vs, ids, current. split; [done|].
  destruct (applied _ _ _ _) as [rec write] eqn:Ea. destruct (save_journal write w1) as [ok w2] eqn:Es.
  destruct ok; [|done]. injection H as <- <-. apply save_journal_same in Es as [S1 S2].
  split; [by eapply converged_frame|]. split; [exact Hcur|]. simpl in Hrev. cbn [recovery set_recovery saved set_dirty journal].
  destruct (meanwhile_recovery (env_write env) (set_recovery (meanwhile (env_requests env) (set_tables x0 tables)) rec))
    as [-> Hr1]. specialize (Hr1 Hrev).
  destruct (meanwhile_recovery (env_requests env) (set_tables x0 tables)) as [Hj Hr2].
  injection Ea as <- _. simpl in *. rewrite Hj. simpl. by rewrite Hr1.
Qed.

(** Every route a successful round leaves in the kernel is accounted for:
    unless recovery was revoked, a route with the daemon's protocol number is
    either projected from the RIB or still has an entry in the journal whose
    deadline lies in the future; so an entry that leaves the journal has left
    the kernel, and no start-up route outlives its deadline by more than the
    time to the next successful round. *)
Theorem unconfirmed_routes_tracked env e snapshot retain x w x' w' : named_protocol (protocol e) = false ->
  validate_export e = Ok tt -> snapshot_ok snapshot ->
  apply_locked env e snapshot retain x w = Some (Ok tt, x', w') -> revoked (recovery x') = false ->
  exists now vs, env_now env = Some now /\ forall m, routes w' m -> route_owned (protocol e) m = true ->
    exists i, route_identity m = Some i /\
      ((exists p, p ∈ project_routes vs snapshot /\ identity_for (set_views e vs) p i) \/
       (exists q, q ∈ pending (journal (recovery x')) /\ pd_route q = i /\ now < deadline_ms q)).
Proof.
  intros Hp He Hs H Hrev.
  destruct (apply_locked_journal _ _ _ _ _ _ _ _ Hp He Hs H Hrev) as (now & vs & ids & current & Hn & Hc & Hcur & Hj).
  exists now, vs. split; [done|]. intros m Hm Ho. destruct (cv_owned _ _ _ _ _ _ _ _ Hc m Hm Ho) as (i & Hi & Hcase).
  exists i. split; [done|]. destruct Hcase as [(k & Hk)%list_elem_of_lookup|[Hr Hk]]; [left|right].
  - destruct (Forall2_lookup_r _ _ _ _ _ (cv_ids _ _ _ _ _ _ _ _ Hc) Hk) as (p & Hpk & Hid). exists p.
    split; [by eapply list_elem_of_lookup_2|done].
  - apply andb_true_iff in Hk as [Hconf Hk]. apply existsb_exists in Hk as (q & Hq%list_elem_of_In & Hk).
    apply andb_true_iff in Hk as [Hqi%bool_decide_eq_true Hl]. apply andb_true_iff in Hl as [_ Hl].
    exists q. split; [|split; [done|by apply Z.ltb_lt]]. rewrite Hj. apply elem_of_filter_bool. split; [done|].
    unfold still_pending. rewrite Hl, Hqi. simpl in Hconf |- *. rewrite Hconf, bool_decide_true; [done|].
    apply Hcur. exists m. split; [done|by apply owned_stands].
Qed.
End Tracked.
