(* ===== verification/KernelModel.v ===== *)
(** One kernel that satisfies [NetlinkLaws]: lists of routes and rules, in which
    a replace request displaces the route in its slot, and a delete request for
    an absent route answers ESRCH. *)
From S2P Require Import Prelude Net Filters DaemonConfig Netlink Recovery Exporter ExporterOrder ExporterSpec.
Local Open Scope Z_scope.

Section Kernel.
Context {NL : IpNetLib} {NC : NetContains}.
(** The protocol numbers that come back under a name. *)
Context (named : Z -> bool).

Record KernelState := MkKernelState {
  k_routes : list RouteMessage;
  k_rules : list RuleMessage;
  k_links : list (string * Z);
  k_journal : option Journal
}.

Definition echo_protocol (p : RouteProtocol) : RouteProtocol :=
  match p with OtherProtocol n => if named n then NamedProtocol n else p | _ => p end.

Definition echo_route (m : RouteMessage) : RouteMessage :=
  MkRouteMessage (rm_address_family m) (rm_destination_prefix_length m) (rm_table m)
    (echo_protocol (rm_protocol m)) (rm_kind m) (rm_attributes m).

Definition echo_attribute (a : RuleAttribute) : RuleAttribute :=
  match a with FraProtocol p => FraProtocol (echo_protocol p) | _ => a end.
Definition echo_rule (m : RuleMessage) : RuleMessage :=
  MkRuleMessage (fm_table m) (fm_src_len m) (echo_attribute <$> fm_attributes m).

Definition message_v4 (m : RouteMessage) : bool := bool_decide (rm_address_family m = AfInet).
Definition rule_message_v4 (m : RuleMessage) : bool :=
  match find_map (fun a => match a with FraSource v => Some v | _ => None end) (fm_attributes m) with
  | Some (IpV6 _) => false
  | _ => true
  end.

Definition same_slot (m m' : RouteMessage) : bool :=
  bool_decide (kslot <$> route_identity m = kslot <$> route_identity m').

Definition set_routes (s : KernelState) (l : list RouteMessage) : KernelState :=
  MkKernelState l (k_rules s) (k_links s) (k_journal s).
Definition set_rules (s : KernelState) (l : list RuleMessage) : KernelState :=
  MkKernelState (k_routes s) l (k_links s) (k_journal s).

(** ** The builders *)

Definition net_address (n : IpNet) : RouteAddress :=
  match n with NetV4 n => RaInet (v4net_addr n) | NetV6 n => RaInet6 (v6net_addr n) end.
Definition gateway_attribute (a : IpAddr) : RouteAttribute :=
  match a with IpV4 v => RtaGateway (RaInet v) | IpV6 v => RtaVia (ViaInet6 v) end.

Definition model_route (q : RouteRequest) : RouteMessage :=
  MkRouteMessage (if net_is_ipv4 (rq_destination q) then AfInet else AfInet6) (net_plen (rq_destination q)) 0
    (OtherProtocol (rq_protocol q)) RtnUnicast
    ([RtaDestination (net_address (rq_destination q)); RtaTable (rq_table q); RtaPriority (rq_priority q)] ++
     option_list (RtaOif <$> rq_output_interface q) ++ option_list (gateway_attribute <$> rq_gateway q)).

Definition model_rule (r : RuleIdentity) : RuleMessage :=
  MkRuleMessage 0 (net_plen (ru_source r))
    [FraTable (ru_table r); FraPriority (ru_priority r); FraSource (net_addr (ru_source r))].

#[global] Instance kernel_model : Netlink := {|
  System := KernelState;
  get_routes v4 s := (Ok (List.filter (fun m => Bool.eqb (message_v4 m) v4) (k_routes s)), s);
  get_rules v4 s := (Ok (List.filter (fun m => Bool.eqb (rule_message_v4 m) v4) (k_rules s)), s);
  route_replace m s :=
    (Ok tt, set_routes s (echo_route m :: List.filter (fun m' => negb (same_slot m m')) (k_routes s)));
  route_del m s :=
    if bool_decide (m ∈ k_routes s)
    then (Ok tt, set_routes s (List.filter (fun m' => negb (bool_decide (m' = m))) (k_routes s)))
    else (Err (NlError (- ESRCH)), s);
  rule_add m s := (Ok tt, set_rules s (echo_rule m :: k_rules s));
  rule_del m s := (Ok tt, set_rules s (List.filter (fun m' => negb (bool_decide (m' = m))) (k_rules s)));
  ifindex name s := snd <$> List.find (fun p => bool_decide (p.1 = name)) (k_links s);
  write_journal j s := (true, MkKernelState (k_routes s) (k_rules s) (k_links s) (Some (jw_data j)));
  destination_prefix_ok _ := true;
  gateway_ok _ _ := true;
  build_route := model_route;
  build_rule := model_rule
|}.

#[global] Instance kernel_view : SystemView := {|
  has_route s m := m ∈ k_routes s;
  has_rule s m := m ∈ k_rules s;
  route_v4 := message_v4;
  rule_v4 := rule_message_v4;
  named_protocol := named
|}.

(** * The laws *)

Lemma net_new_self n : route_net (net_address n) (net_plen n) = Some n.
Proof.
  destruct n as [n|n]; simpl.
  - pose proof (v4net_plen_range n). by rewrite (proj2 (v4net_new_spec (v4net_addr n) (v4net_plen n) n ltac:(lia)) ltac:(split_and!; [lia|done|done])).
  - pose proof (v6net_plen_range n). by rewrite (proj2 (v6net_new_spec (v6net_addr n) (v6net_plen n) n ltac:(lia)) ltac:(split_and!; [lia|done|done])).
Qed.

Lemma model_route_identity q : route_identity (model_route q) =
  Some (MkRouteIdentity (rq_table q) (rq_destination q) (rq_priority q) (default 0 (rq_output_interface q)) (rq_gateway q) false).
Proof.
  unfold route_identity, message_destination, model_route. simpl. rewrite net_new_self. simpl.
  unfold message_gateway, route_table. simpl.
  destruct (rq_output_interface q), (rq_gateway q) as [[]|]; done.
Qed.

Lemma echo_route_identity m : route_identity (echo_route m) = route_identity m.
Proof. done. Qed.

Lemma echo_rule_identity m : rule_identity (echo_rule m) = rule_identity m.
Proof.
  unfold rule_identity, echo_rule. simpl.
  assert (forall B (f : RuleAttribute -> option B) l, (forall p, f (FraProtocol p) = None) ->
    find_map f (echo_attribute <$> l) = find_map f l) as Hf.
  { intros B f l Hp. induction l as [|a l IH]; [done|].
    rewrite fmap_cons. cbn [find_map]. rewrite IH. destruct a; cbn [echo_attribute]; rewrite ?Hp; done. }
  by rewrite !Hf.
Qed.

Lemma model_rule_identity r : rule_identity (model_rule r) = Some r.
Proof.
  unfold rule_identity, model_rule. simpl. pose proof (net_new_self (ru_source r)) as H.
  destruct r as [t p [s|s]]; simpl in *; by rewrite H.
Qed.

#[global] Instance kernel_laws : NetlinkLaws.
Proof.
  split.
  - intros v4 s l s' [= <- <-]. split_and!; [done|done|]. intros m. rewrite elem_of_filter_bool, eqb_true_iff. done.
  - intros v4 s l s' [= <- <-]. split_and!; [done|done|]. intros m. rewrite elem_of_filter_bool, eqb_true_iff. done.
  - intros m s s' i p [= <-] Hi Hpl Hp Hn. simpl in Hn. split; [done|]. exists (echo_route m). simpl.
    split; [apply elem_of_cons; by left|]. split; [done|]. split; [by rewrite Hp; simpl; rewrite Hn|]. split.
    + intros m' [->|[? _]%elem_of_filter_bool]%elem_of_cons; auto.
    + intros m' Hm' Hs. apply elem_of_cons. right. apply elem_of_filter_bool. split; [done|].
      unfold same_slot. rewrite Hi. apply negb_true_iff, bool_decide_eq_false. simpl. intros E.
      destruct (route_identity m') as [i'|]; [|done]. apply (inj Some) in E. by apply (Hs i' eq_refl).
  - intros m s r s'. simpl. case_bool_decide as Hin; intros [= <- <-] _; (split; [done|]); intros m'.
    + simpl. rewrite elem_of_filter_bool, negb_true_iff, bool_decide_eq_false. done.
    + split; [|tauto]. intros Hm'. split; [done|]. by intros ->.
  - intros m s s' i p [= <-] Hi Ho Hn. simpl in Hn. split; [done|]. exists (echo_rule m). rewrite echo_rule_identity.
    split; [done|]. split.
    + apply bool_decide_eq_true in Ho. apply bool_decide_eq_true. simpl. apply list_elem_of_fmap.
      exists (FraProtocol (OtherProtocol p)). split; [|done]. simpl. by rewrite Hn.
    + intros m'. simpl. rewrite elem_of_cons. tauto.
  - intros m s s' [= <-]. split; [done|]. intros m'. simpl.
    rewrite elem_of_filter_bool, negb_true_iff, bool_decide_eq_false. done.
  - intros j s ok s' [= _ <-]. done.
  - intros q _ _. split; [done|]. apply model_route_identity.
  - apply model_rule_identity.
Qed.
End Kernel.
