(* ===== verification/ExporterDemo.v ===== *)
(** A concrete exporter: the configuration and the engine of [DaemonDemo] on the
    kernel of [KernelModel], with a start-up route, a stale route and a route of
    another daemon. *)
From S2P Require Import Prelude Net Mac Model Metric Wire Api EngineState Rib Engine Demo Filters DaemonConfig Scheduler Sender Router Projection SourceViews Netlink Recovery Exporter ExporterOrder ExporterSpec DaemonTheorems ExporterTheorems RecoveryTheorems KernelModel DaemonDemo.
Import Hello.
Local Open Scope Z_scope.

#[local] Existing Instance demo_net.
#[local] Existing Instance demo_metrics.
#[local] Existing Instance demo_order.
#[local] Existing Instance demo_libm.
#[local] Existing Instance demo_contains.

Definition demo_named : Z -> bool := fun p => p =? 42.
#[local] Instance demo_netlink : Netlink := kernel_model demo_named.
#[local] Instance demo_system : SystemView := kernel_view demo_named.
#[local] Instance demo_laws : NetlinkLaws := kernel_laws demo_named.

Definition kernel_route (dest : option IpNet) (protocol priority : Z) : list RouteMessage :=
  match dest with
  | Some d => [model_route (MkRouteRequest d 100 protocol priority (Some 3) ScopeUniverse (Some peer_address) true)]
  | None => []
  end.

Definition v4_prefix (a b c d plen : Z) : option IpNet := NetV4 <$> v4net_new (ipv4 a b c d) plen.

(** A route found at start-up, one that is not recovered, and a foreign one. *)
Definition demo_kernel : KernelState :=
  MkKernelState (kernel_route (v4_prefix 10 3 0 0 16) 203 65631 ++ kernel_route (v4_prefix 10 4 0 0 16) 203 100 ++
                 kernel_route (v4_prefix 10 5 0 0 16) 17 65631) [] [("eth0", 3); ("lo", 1)] None.
Definition demo_world : World := MkWorld demo_kernel [].

Definition no_scope : Export -> Filter -> string := fun _ _ => "scope"%string.

Definition calm (now : Z) : ApplyEnv := MkApplyEnv [] (Some now) [] [].

(** Start-up, a round and a shutdown. *)
Record Session := MkSession {
  se_config : Config;
  se_snapshot : RouteSnapshot;
  se_started : LinuxExporter;
  se_applied : LinuxExporter;
  se_world : World;
  se_stopped : LinuxExporter;
  se_final : World
}.

Definition ok_of {A B} (o : option (result LinuxError unit * A * B)) : option (A * B) :=
  match o with Some (Ok _, a, b) => Some (a, b) | _ => None end.

Lemma ok_of_Some {A B} (o : option (result LinuxError unit * A * B)) a b :
  ok_of o = Some (a, b) -> o = Some (Ok tt, a, b).
Proof. destruct o as [[[[[]|] a'] b']|]; try discriminate. by intros [= -> ->]. Qed.

Definition demo_session : option Session :=
  o ← sourced_outcome;
  let c := oc_config o in
  let snapshot := sourced_snapshot (oc_engine o) in
  r1 ← ok_of (begin_recovery no_scope c ["lo"; "eth0"]%string (Some 1000) (Some "boot"%string) (Some "net"%string)
                JournalMissing true (linux_exporter (export c)) demo_world);
  r2 ← ok_of (apply_locked (calm 2000) (export c) snapshot true r1.1 demo_world);
  r3 ← ok_of (locked LShutdown [] (calm 3000) (fun _ => calm 3000)
                (concurrent (CLatchShutdown empty_snapshot) r2.1) r2.2);
  Some (MkSession c snapshot r1.1 r2.1 r2.2 r3.1 r3.2).

Definition session_checks (s : Session) : bool :=
  negb (demo_named (protocol (export (se_config s))))
  && bool_decide (snapshot_ok (se_snapshot s))
  && negb (revoked (recovery (se_applied s)))
  && bool_decide (xs_export (xstate (se_applied s)) = export (se_config s))
  && bool_decide (retired (xstate (se_applied s)) = [])
  && bool_decide (length (k_routes (sys (se_world s))) = 4%nat)
  && bool_decide (length (log (se_world s)) = 5%nat)
  && bool_decide (length (k_routes (sys (se_final s))) = 1%nat).

Lemma session_some : exists s, demo_session = Some s /\ session_checks s = true.
Proof.
  assert (from_option session_checks false demo_session = true) as H by vm_cast_no_check (eq_refl true).
  destruct demo_session as [s|]; [|discriminate H]. by exists s.
Qed.

Lemma session_spec s : demo_session = Some s ->
  validate_export (export (se_config s)) = Ok tt /\
  apply_locked (calm 2000) (export (se_config s)) (se_snapshot s) true (se_started s) demo_world =
    Some (Ok tt, se_applied s, se_world s) /\
  locked LShutdown [] (calm 3000) (fun _ => calm 3000) (concurrent (CLatchShutdown empty_snapshot) (se_applied s))
    (se_world s) = Some (Ok tt, se_stopped s, se_final s).
Proof.
  intros (o & Ho & ([x1 w1] & H1%ok_of_Some & ([x2 w2] & H2%ok_of_Some & ([x3 w3] & H3%ok_of_Some & H)%bind_Some)%bind_Some)
    %bind_Some)%bind_Some.
  apply (inj Some) in H as <-. simpl in *. destruct (sourced_outcome_spec o Ho) as (Hc & _).
  assert (parse no_files demo_file = Ok (oc_config o)) as Hparse.
  { unfold demo_parsed in Hc. destruct (parse no_files demo_file) as [c|]; [|discriminate Hc].
    by apply (inj Some) in Hc as ->. }
  split; [exact (pd_export _ (parse_parsed _ _ _ Hparse))|]. split; assumption.
Qed.

Lemma session_checked s : session_checks s = true ->
  named_protocol (protocol (export (se_config s))) = false /\ snapshot_ok (se_snapshot s) /\
  revoked (recovery (se_applied s)) = false /\ xs_export (xstate (se_applied s)) = export (se_config s) /\
  retired (xstate (se_applied s)) = [].
Proof.
  unfold session_checks. rewrite !andb_true_iff, !bool_decide_eq_true, !negb_true_iff.
  intros (((((((H1 & H2) & H3) & H4) & H5) & _) & _) & _). exact (conj H1 (conj H2 (conj H3 (conj H4 H5)))).
Qed.

Lemma reconciliation_order_witness : exists s now tables vs h write, demo_session = Some s /\
  source_views_with_recovery (export (se_config s)) (se_snapshot s) (source_tables (se_started s))
    (sources (recovery (se_started s)) now (export (se_config s))) = Some (tables, Ok vs) /\
  logged demo_world (phase_log (protocol (export (se_config s))) h ++ (WriteJournal <$> option_list write))
    (Ok tt : result LinuxError unit) (se_world s) /\
  phases_complete (set_views (export (se_config s)) vs) (se_snapshot s) true (recovery (se_started s)) now demo_world h.
Proof.
  destruct session_some as (s & Hs & _). destruct (session_spec s Hs) as (_ & Ha & _).
  destruct (reconciliation_order (calm 2000) _ _ _ _ _ _ _ _ Ha) as [[_ [err [=]]]|(now & tables & vs & h & write & _ & H1 & H2 & _ & H3)].
  exists s, now, tables, vs, h, write. exact (conj Hs (conj H1 (conj H2 (H3 (or_introl eq_refl))))).
Defined.

Lemma reconciliation_converges_witness : exists s now tables vs ids,
  source_views_with_recovery (export (se_config s)) (se_snapshot s) (source_tables (se_started s))
    (sources (recovery (se_started s)) now (export (se_config s))) = Some (tables, Ok vs) /\
  converged (set_views (export (se_config s)) vs) (se_snapshot s) true (recovery (se_started s)) now
    demo_world (se_world s) ids.
Proof.
  destruct session_some as (s & Hs & Hc). destruct (session_spec s Hs) as (He & Ha & _).
  destruct (session_checked s Hc) as (Hn & Hok & _).
  destruct (reconciliation_converges (calm 2000) _ _ _ _ _ _ _ Hn He Hok Ha) as (now & tables & vs & ids & _ & H1 & H2).
  exists s, now, tables, vs, ids. exact (conj H1 H2).
Defined.

Lemma unconfirmed_routes_tracked_witness : exists s now vs, Some 2000 = Some now /\
  forall m, has_route (sys (se_world s)) m -> route_owned (protocol (export (se_config s))) m = true ->
    exists i, route_identity m = Some i /\
      ((exists p, p ∈ project_routes vs (se_snapshot s) /\ identity_for (set_views (export (se_config s)) vs) p i) \/
       (exists q, q ∈ pending (journal (recovery (se_applied s))) /\ pd_route q = i /\ now < deadline_ms q)).
Proof.
  destruct session_some as (s & Hs & Hc). destruct (session_spec s Hs) as (He & Ha & _).
  destruct (session_checked s Hc) as (Hn & Hok & Hr & _). exists s.
  exact (unconfirmed_routes_tracked (calm 2000) _ _ _ _ _ _ _ Hn He Hok Ha Hr).
Defined.

Lemma shutdown_clears_witness : exists s,
  Forall (fun e => cleared (protocol e) (se_final s)) (xs_export (xstate (se_applied s)) :: retired (xstate (se_applied s))) /\
  (forall op gap' env' envs', op <> LShutdown ->
    locked op gap' env' envs' (se_stopped s) (se_final s) = Some (Ok tt, se_stopped s, se_final s)) /\
  forall events, exists ended x, run_reconciler events (se_stopped s) (se_final s) = Some (ended, x, se_final s).
Proof.
  destruct session_some as (s & Hs & Hc). destruct (session_spec s Hs) as (_ & _ & Hd).
  destruct (session_checked s Hc) as (Hn & _ & _ & Hx & Hl). exists s.
  apply (shutdown_clears empty_snapshot [] (calm 3000) (fun _ => calm 3000) (se_applied s) (se_world s)); try exact Hd.
  - exact (conj eq_refl eq_refl).
  - constructor.
  - constructor.
  - constructor.
  - rewrite Hx, Hl. constructor; [exact Hn|constructor].
Defined.

(** A restart with the journal of the first start: the deadline stays. *)
Definition startup_route : list RouteIdentity :=
  match v4_prefix 10 3 0 0 16 with Some d => [MkRouteIdentity 100 d 65631 3 (Some peer_address) false] | None => [] end.

Definition restarted : option (Recovery * Recovery * RouteIdentity) :=
  i ← head startup_route; c ← demo_parsed;
  r0 ← result_ok (load no_scope c startup_route [] 1000 (Some "boot"%string) (Some "net"%string) JournalMissing true);
  r1 ← result_ok (load no_scope c startup_route [] 200000 (Some "boot"%string) (Some "net"%string) (JournalContent (journal r0)) true);
  if keep r1 i ∅ 240999 then Some (r0, r1, i) else None.

Lemma recovery_window_bounded_witness : exists c i r, keep r i ∅ 240999 = true /\
  240999 < 1000 + restart_recovery_seconds c * 1000.
Proof.
  assert (succeeds restarted = true) as H by vm_cast_no_check (eq_refl true).
  apply succeeds_Some in H as ([[r0 r1] i] & (i' & Hi & (c & Hc & (r0' & H0 & (r1' & H1 & H)%bind_Some)%bind_Some)%bind_Some)%bind_Some).
  destruct (keep r1' i' ∅ 240999) eqn:Hk; [|discriminate H]. apply (inj Some) in H. simplify_eq.
  destruct (load no_scope c startup_route [] 1000 _ _ _ _) as [r0'|] eqn:E0; [|discriminate H0]. apply (inj Some) in H0 as ->.
  destruct (load no_scope c startup_route [] 200000 _ _ _ _) as [r1'|] eqn:E1; [|discriminate H1]. apply (inj Some) in H1 as ->.
  exists c, i, r1. split; [exact Hk|].
  set (d1 := <[journal_path c := JournalContent (journal r0)]> (∅ : gmap string JournalFile)).
  apply (recovery_window_bounded no_scope "boot" "net" c startup_route [] 1000 ∅ r0 i
    (MkLife (<[journal_path c := JournalContent (journal r1)]> d1) (Some r1)) r1 ∅ 240999);
    [lia| |exact E0| |reflexivity|exact (load_path _ _ _ _ _ _ _ _ _ E1)|exact Hk].
  - assert (from_option (fun c => 0 <=? restart_recovery_seconds c) false demo_parsed = true) as H by vm_cast_no_check (eq_refl true).
    rewrite Hc in H. by apply Z.leb_le in H.
  - eapply rtc_l; [|apply rtc_refl]. split.
    + exists (journal r0). split; [exact (lookup_insert_eq _ _ _)|].
      assert (exists q, q ∈ pending (journal r0) /\ pd_route q ∈ startup_route) as (q & Hq & Hin).
      { destruct startup_route as [|i0 l] eqn:El; [discriminate Hi|]. apply (inj Some) in Hi as ->.
        injection E0 as <-. eexists. split; [apply elem_of_cons; by left|]. simpl. apply elem_of_cons. by left. }
      exists q. split; [exact Hq|]. unfold startup_route in *. destruct (v4_prefix 10 3 0 0 16); [|discriminate Hi].
      apply (inj Some) in Hi as <-. by apply list_elem_of_singleton in Hin.
    + apply (life_start no_scope "boot" "net" (protocol (export c)) (MkLife d1 (Some r0)) c startup_route [] 200000 r1);
        [reflexivity|]. unfold file_at, d1. cbn [disk]. rewrite lookup_insert_eq. exact E1.
Defined.
