(* ===== verification/State.v ===== *)
(** The state file ([state.rs]): the text form of a router-id, the stored
    sequence number, and the atomic replacement of a file.

    Texts are lists of bytes.  TOML is a parameter: [from_toml] and [to_toml] of
    the record on disk, with the law that reading inverts writing. *)
From Stdlib Require Import Ascii.
From stdpp Require Import pretty.
From S2P Require Import Prelude Net Model DaemonConfig.
Local Open Scope Z_scope.

(** * Router-ids *)

Inductive StateError :=
| InvalidRouterId
| UnsupportedVersion (v : Z)
| MissingSequenceNumber
| InvalidState
| Encode
| StateIo.

#[global] Instance StateError_eq_dec : EqDecision StateError.
Proof. solve_decision. Defined.

Definition COLON : byte := b8 58.
Definition PLUS : byte := b8 43.
Definition EQUALS : byte := b8 61.

(** [u8::from_str_radix] on two ASCII characters and radix 16; a sign may stand
    before the digits of an unsigned number. *)
Definition from_str_radix (high low : byte) : option Z :=
  if bool_decide (high = PLUS) then hex_digit low
  else h ← hex_digit high; l ← hex_digit low; Some (h * 16 + l).

Fixpoint parse_pairs (text : list byte) : option (list byte) :=
  match text with
  | [] => Some []
  | high :: low :: rest =>
      b ← from_str_radix high low; bytes ← parse_pairs rest; Some (b8 b :: bytes)
  | _ => None
  end.

Definition is_ascii (text : list byte) : bool := forallb (fun b => u8 b <? 128) text.

(** [parse_router_id]. *)
Definition parse_router_id (value : list byte) : result StateError RouterId :=
  let compact := List.filter (fun b => negb (bool_decide (b = COLON))) value in
  if negb (length compact =? 16)%nat || negb (is_ascii compact) then Err InvalidRouterId
  else
    raw ← ok_or (parse_pairs compact) InvalidRouterId;
    ok_or (RouterId_new (arr_of_list 8 raw)) InvalidRouterId.

(** [format!("{value:02x}")]. *)
Definition show_octet (b : byte) : list byte := [ascii_digit (u8 b / 16); ascii_digit (u8 b mod 16)].
Definition format_router_id (id : RouterId) : list byte := concat (show_octet <$> arr_list (octets id)).

(** * The record on disk *)

Definition STATE_VERSION : Z := 2.

Record DiskState := MkDiskState { version : Z; ds_router_id : list byte; ds_sequence_number : option Z }.

Record LoadedDiskState := MkLoadedDiskState { ld_router_id : RouterId; ld_sequence_number : option Z }.

(** A path whose last component is a file name; [sp_dir] is empty or ends in a
    separator. *)
Record StatePath := MkStatePath { sp_dir : string; sp_name : string }.

Record StateStore := MkStateStore { ss_path : StatePath; ss_router_id : RouterId }.

Record LoadedState := MkLoadedState { ls_router_id : RouterId; ls_sequence_number : Z; ls_store : StateStore }.

Class Toml : Type := {
  from_toml : list byte -> option DiskState;
  to_toml : DiskState -> list byte
}.

(** What the crate promises for this record: writing is inverted by reading, and
    a document with fields has an equals sign. *)
Definition disk_typed (d : DiskState) : Prop :=
  0 <= version d <= 255 /\ from_option (fun n => 0 <= n <= u16_max) True (ds_sequence_number d).

Class TomlLaws {T : Toml} : Prop := {
  toml_round_trip d : disk_typed d -> from_toml (to_toml d) = Some d;
  toml_equals d : EQUALS ∈ to_toml d
}.

Section State.
Context {T : Toml}.

(** [parse_disk_state]; a text without an equals sign is an old file. *)
Definition parse_disk_state (value : list byte) : result StateError LoadedDiskState :=
  if negb (bool_decide (EQUALS ∈ value)) then
    id ← parse_router_id (trim value); Ok (MkLoadedDiskState id None)
  else
    state ← ok_or (from_toml value) InvalidState;
    _ ← (if (version state =? 1) && bool_decide (ds_sequence_number state = None) then Err MissingSequenceNumber
         else if (version state =? 1) || (version state =? STATE_VERSION) then Ok tt
         else Err (UnsupportedVersion (version state)));
    id ← parse_router_id (ds_router_id state);
    Ok (MkLoadedDiskState id (ds_sequence_number state)).

(** [initial_sequence_number]; [random] is drawn only when needed. *)
Definition initial_sequence_number (id : RouterId) (existing : option LoadedDiskState)
    (random : result StateError Z) : result StateError Z :=
  match (s ← existing; if bool_decide (ld_router_id s = id) then ld_sequence_number s else None) with
  | Some n => Ok ((n + 1) mod 65536)
  | None => random
  end.

(** [random_router_id]: draws of eight octets until one is a router-id; [None]
    when the draws given do not suffice. *)
Fixpoint random_router_id (draws : list (option (array 8))) : option (result StateError RouterId) :=
  match draws with
  | [] => None
  | None :: _ => Some (Err StateIo)
  | Some raw :: rest =>
      match RouterId_new raw with Some id => Some (Ok id) | None => random_router_id rest end
  end.

(** What reading the file gave. *)
Inductive StateFile := StateMissing | StateUnreadable | StateText (text : list byte).

(** The text [write_state] hands to [write_atomic]. *)
Definition state_text (s : StateStore) (sequence_number : option Z) : list byte :=
  to_toml (MkDiskState STATE_VERSION (format_router_id (ss_router_id s)) sequence_number).

(** [load_or_create] up to its write: the state, or an error that leaves the file
    alone.  [None] is a loop that has not ended. *)
Definition load_state (explicit : option (list byte)) (path : StatePath) (file : StateFile)
    (draws : list (option (array 8))) (random : result StateError Z) : option (result StateError LoadedState) :=
  let loaded :=
    configured ← match explicit with
                 | Some text => id ← parse_router_id text; Ok (Some id)
                 | None => Ok None
                 end;
    existing ← match file with
               | StateText text => s ← parse_disk_state text; Ok (Some s)
               | StateMissing => Ok None
               | StateUnreadable => Err StateIo
               end;
    Ok (configured, existing) in
  match loaded with
  | Err e => Some (Err e)
  | Ok (configured, existing) =>
      id ← match configured, existing with
           | Some id, _ => Some (Ok id)
           | None, Some s => Some (Ok (ld_router_id s))
           | None, None => random_router_id draws
           end;
      Some (id ← id;
            n ← initial_sequence_number id existing random;
            Ok (MkLoadedState id n (MkStateStore path id)))
  end.

(** How the write of the file ended; a failure may come after the replacement. *)
Inductive WriteOutcome := WriteDone | WriteFailed (replaced : bool).

Definition after_write (o : WriteOutcome) (text : list byte) (file : StateFile) : StateFile :=
  match o with WriteDone | WriteFailed true => StateText text | WriteFailed false => file end.

(** [write_state]. *)
Definition write_state (s : StateStore) (sequence_number : option Z) (o : WriteOutcome) (file : StateFile)
    : result StateError unit * StateFile :=
  (match o with WriteDone => Ok tt | WriteFailed _ => Err StateIo end,
   after_write o (state_text s sequence_number) file).

(** [load_or_create]: a stored sequence number is consumed before it is used. *)
Definition load_or_create (explicit : option (list byte)) (path : StatePath) (file : StateFile)
    (draws : list (option (array 8))) (random : result StateError Z) (o : WriteOutcome)
    : option (result StateError LoadedState * StateFile) :=
  loaded ← load_state explicit path file draws random;
  match loaded with
  | Err e => Some (Err e, file)
  | Ok st =>
      let '(r, file) := write_state (ls_store st) None o file in
      Some (_ ← r; Ok st, file)
  end.

(** [persist], which runs once, at orderly shutdown. *)
Definition persist (s : StateStore) (sequence_number : Z) (o : WriteOutcome) (file : StateFile)
    : result StateError unit * StateFile := write_state s (Some sequence_number) o file.
End State.

(** * Atomic replacement *)

(** Files by path, and the steps of [write_atomic].  Every step can fail, and the
    process can end between two steps. *)
Abbreviation Files := (gmap string (list byte)).

Inductive FsStep :=
| CreateDirs
| CreateNew (path : string)
| WriteAll (path : string) (data : list byte)
| SyncFile
| Rename (from to : string)
| SyncDir
| Remove (path : string).

(** The effect of a step that succeeds. *)
Definition fs_effect (s : FsStep) (f : Files) : Files :=
  match s with
  | CreateNew p => <[p := []]> f
  | WriteAll p d => <[p := d]> f
  | Rename a b => match f !! a with Some d => <[b := d]> (delete a f) | None => f end
  | Remove p => delete p f
  | CreateDirs | SyncFile | SyncDir => f
  end.

(** How a step ends: well, with an error (a write may have written a part), or not
    at all. *)
Inductive Outcome := Done | Failed (part : nat) | Crashed (part : nat).

Definition fs_fail (s : FsStep) (part : nat) (f : Files) : Files :=
  match s with WriteAll p d => <[p := take part d]> f | _ => f end.

(** The parts of a text around the last separator. *)
Fixpoint rsplit (sep : ascii) (s : string) : option (string * string) :=
  match s with
  | EmptyString => None
  | String c rest =>
      match rsplit sep rest with
      | Some (a, b) => Some (String c a, b)
      | None => if Ascii.eqb c sep then Some (EmptyString, rest) else None
      end
  end.

(** [Path::file_stem] of a file name: a dot at the front starts no extension. *)
Definition file_stem (name : string) : string :=
  match rsplit "." name with Some (EmptyString, _) | None => name | Some (a, _) => a end.

Definition path_of (text : string) : StatePath :=
  match rsplit "/" text with Some (dir, name) => MkStatePath (dir +:+ "/") name | None => MkStatePath "" text end.
Definition path_string (p : StatePath) : string := sp_dir p +:+ sp_name p.

(** [set_extension] with [tmp.<pid>.<id>]. *)
Definition candidate (pid : N) (p : StatePath) (id : nat) : string :=
  sp_dir p +:+ file_stem (sp_name p) +:+ ".tmp." +:+ pretty pid +:+ "." +:+ pretty (N.of_nat id).

(** The first name that is free, counted from the process-wide counter. *)
Fixpoint first_free (fuel : nat) (name : nat -> string) (f : Files) (id : nat) : option nat :=
  match fuel with
  | O => None
  | S fuel' => match f !! name id with None => Some id | Some _ => first_free fuel' name f (S id) end
  end.

(** A sequence of steps: files afterwards, and whether all succeeded ([None] when
    the process ended). *)
Fixpoint run_steps (steps : list FsStep) (outcome : FsStep -> Outcome) (f : Files) : Files * option bool :=
  match steps with
  | [] => (f, Some true)
  | s :: rest =>
      match outcome s with
      | Done => run_steps rest outcome (fs_effect s f)
      | Failed part => (fs_fail s part f, Some false)
      | Crashed part => (fs_fail s part f, None)
      end
  end.

(** [write_atomic]; [next] is the counter of temporary names.  The outer [option]
    is the search for a free one. *)
Definition write_atomic (pid : N) (p : StatePath) (value : list byte) (next : nat)
    (outcome : FsStep -> Outcome) (f : Files) : option (Files * option bool) :=
  match outcome CreateDirs with
  | Failed _ => Some (f, Some false)
  | Crashed _ => Some (f, None)
  | Done =>
      id ← first_free (S (size f)) (candidate pid p) f next;
      let temporary := candidate pid p id in
      match outcome (CreateNew temporary) with
      | Failed _ => Some (f, Some false)
      | Crashed _ => Some (f, None)
      | Done =>
          let f := fs_effect (CreateNew temporary) f in
          let '(f, r) := run_steps [WriteAll temporary value; SyncFile; Rename temporary (path_string p); SyncDir] outcome f in
          match r with
          | Some false =>
              match outcome (Remove temporary) with
              | Done => Some (fs_effect (Remove temporary) f, Some false)
              | Failed _ => Some (f, Some false)
              | Crashed _ => Some (f, None)
              end
          | _ => Some (f, r)
          end
      end
  end.
