(* ===== verification/StateTheorems.v ===== *)
(** The state file over restarts: identities survive, a checkpoint is used at
    most once, and a crash leaves the old file or the new one. *)
From Stdlib Require Import Ascii.
From stdpp Require Import pretty.
From S2P Require Import Prelude Net Model DaemonConfig State.
Local Open Scope Z_scope.

(** * Text form of router-ids *)

Lemma hex_digit_ascii d : 0 <= d < 16 -> hex_digit (ascii_digit d) = Some d.
Proof.
  intros H. assert (Forall (fun d => hex_digit (ascii_digit d) = Some d)
    [0; 1; 2; 3; 4; 5; 6; 7; 8; 9; 10; 11; 12; 13; 14; 15]) as Hall by (vm_compute; repeat constructor).
  rewrite list.Forall_forall in Hall. apply Hall.
  assert (d = 0 \/ d = 1 \/ d = 2 \/ d = 3 \/ d = 4 \/ d = 5 \/ d = 6 \/ d = 7 \/ d = 8 \/ d = 9 \/ d = 10 \/ d = 11 \/
    d = 12 \/ d = 13 \/ d = 14 \/ d = 15) as Hd by lia. rewrite !elem_of_cons. tauto.
Qed.

Lemma ascii_digit_range d : 0 <= d < 16 -> 48 <= u8 (ascii_digit d) <= 102 /\ u8 (ascii_digit d) <> 58.
Proof.
  intros H. unfold ascii_digit. destruct (Z.ltb_spec d 10); rewrite u8_b8_small; lia.
Qed.

Lemma octet_digits b : 0 <= u8 b / 16 < 16 /\ 0 <= u8 b mod 16 < 16.
Proof. pose proof (u8_range b). split; Z.div_mod_to_equations; lia. Qed.

(** Characters of a formatted id are neither colons nor signs. *)
Definition plain_char (b : byte) : Prop := u8 b < 128 /\ b <> COLON /\ b <> PLUS.

Lemma digit_plain d : 0 <= d < 16 -> plain_char (ascii_digit d).
Proof.
  intros H. apply ascii_digit_range in H as [H1 H2]. split; [lia|]. split; intros E; rewrite E in *;
    [apply H2; done|]. change (u8 PLUS) with 43 in H1. lia.
Qed.

Lemma parse_shown l : parse_pairs (concat (show_octet <$> l)) = Some l.
Proof.
  induction l as [|b l IH]; [done|]. rewrite fmap_cons. cbn [concat]. destruct (octet_digits b) as [Hh Hl].
  unfold show_octet at 1. cbn [app parse_pairs]. unfold from_str_radix. destruct (digit_plain _ Hh) as (_ & _ & Hp).
  rewrite bool_decide_false, !hex_digit_ascii by done. cbn [mbind option_bind]. rewrite IH. cbn [mbind option_bind].
  do 2 f_equal.
  rewrite <- (b8_u8 b) at 3. f_equal. pose proof (u8_range b). Z.div_mod_to_equations; lia.
Qed.

Lemma shown_plain l : Forall plain_char (concat (show_octet <$> l)).
Proof.
  induction l as [|b l IH]; [constructor|]. cbn [fmap list_fmap concat]. destruct (octet_digits b) as [Hh Hl].
  unfold show_octet. cbn [app]. constructor; [by apply digit_plain|]. constructor; [by apply digit_plain|done].
Qed.

Lemma shown_length l : length (concat (show_octet <$> l)) = (2 * length l)%nat.
Proof. induction l as [|b l IH]; [done|]. cbn [fmap list_fmap concat app length show_octet]. rewrite IH. lia. Qed.

(** Colons anywhere in a text are ignored. *)
Lemma parse_without_colons text : parse_router_id text =
  parse_router_id (List.filter (fun b => negb (bool_decide (b = COLON))) text).
Proof.
  unfold parse_router_id. assert (forall l, List.filter (fun b => negb (bool_decide (b = COLON)))
    (List.filter (fun b => negb (bool_decide (b = COLON))) l) = List.filter (fun b => negb (bool_decide (b = COLON))) l) as E.
  { induction l as [|b l IH]; [done|]. cbn [List.filter]. destruct (negb _) eqn:Eb; [|done]. cbn [List.filter].
    by rewrite Eb, IH. }
  by rewrite E.
Qed.

Lemma filter_id (l : list byte) : Forall plain_char l -> List.filter (fun b => negb (bool_decide (b = COLON))) l = l.
Proof.
  induction 1 as [|b l (_ & Hb & _) _ IH]; [done|]. cbn [List.filter]. rewrite bool_decide_false by done. simpl. by rewrite IH.
Qed.

(** However colons are spread over it, the text of an id is read back. *)
Lemma parse_format id text : List.filter (fun b => negb (bool_decide (b = COLON))) text = format_router_id id ->
  parse_router_id text = Ok id.
Proof.
  intros Ht. rewrite parse_without_colons, Ht. unfold parse_router_id, format_router_id.
  pose proof (shown_plain (arr_list (octets id))) as Hp. rewrite filter_id by done.
  rewrite shown_length, arr_length. simpl.
  assert (is_ascii (concat (show_octet <$> arr_list (octets id))) = true) as ->.
  { apply forallb_forall. intros b Hb%list_elem_of_In. rewrite list.Forall_forall in Hp. apply Z.ltb_lt, Hp, Hb. }
  simpl. rewrite parse_shown. simpl. rewrite arr_of_list_arr_list, RouterId_new_octets. done.
Qed.

Lemma parse_format_self id : parse_router_id (format_router_id id) = Ok id.
Proof. apply parse_format, filter_id, shown_plain. Qed.

(** * Restarts *)

Section Restarts.
Context {T : Toml} {TL : TomlLaws}.

(** The file holds this identity and checkpoint. *)
Definition holds (file : StateFile) (id : RouterId) (checkpoint : option Z) : Prop :=
  exists text, file = StateText text /\ parse_disk_state text = Ok (MkLoadedDiskState id checkpoint).

Lemma state_text_holds path id n : from_option (fun n => 0 <= n <= u16_max) True n ->
  holds (StateText (state_text (MkStateStore path id) n)) id n.
Proof.
  intros Hn. eexists. split; [done|]. unfold parse_disk_state, state_text. cbn [ss_router_id].
  rewrite bool_decide_true by apply toml_equals. cbn [negb]. rewrite toml_round_trip by (split; [done|exact Hn]).
  cbn [ok_or mbind result_bind version ds_router_id ds_sequence_number]. simpl. by rewrite parse_format_self.
Qed.

(** A start without an identity in the configuration. *)
Lemma load_holds path file id c draws random : holds file id c ->
  load_state None path file draws random =
    Some (n ← match c with Some m => Ok ((m + 1) mod 65536) | None => random end;
          Ok (MkLoadedState id n (MkStateStore path id))).
Proof.
  intros (text & -> & Hp). unfold load_state. cbn [mbind result_bind]. rewrite Hp. cbn [mbind result_bind option_bind ld_router_id].
  unfold initial_sequence_number. cbn [mbind option_bind ld_router_id ld_sequence_number]. by rewrite bool_decide_true.
Qed.

(** The file, the process if one runs, and the checkpoint written since the last
    start. *)
Record Daemon := MkDaemon { dm_file : StateFile; dm_proc : option LoadedState; dm_fresh : option Z }.

Inductive daemon_step (path : StatePath) : Daemon -> Daemon -> Prop :=
| daemon_start d draws random o st file :
    load_or_create None path (dm_file d) draws random o = Some (Ok st, file) ->
    daemon_step path d (MkDaemon file (Some st) None)
| daemon_start_failed d draws random o e file :
    load_or_create None path (dm_file d) draws random o = Some (Err e, file) ->
    daemon_step path d (MkDaemon file None (dm_fresh d))
| daemon_persist d st n o r file :
    dm_proc d = Some st -> 0 <= n <= u16_max -> persist (ls_store st) n o (dm_file d) = (r, file) ->
    daemon_step path d (MkDaemon file None (Some n))
| daemon_crash d : daemon_step path d (MkDaemon (dm_file d) None (dm_fresh d)).

Record daemon_inv (path : StatePath) (id : RouterId) (d : Daemon) : Prop := {
  di_file : exists c, holds (dm_file d) id c /\ (c = None \/ c = dm_fresh d);
  di_proc st : dm_proc d = Some st -> ls_router_id st = id /\ ls_store st = MkStateStore path id /\ dm_fresh d = None
}.

Lemma write_holds path id n o file c fresh : from_option (fun n => 0 <= n <= u16_max) True n ->
  holds file id c -> (c = None \/ c = fresh) ->
  exists c', holds (after_write o (state_text (MkStateStore path id) n) file) id c' /\ (c' = n \/ c' = c).
Proof.
  intros Hn Hf Hc. destruct o as [|[]]; simpl.
  - exists n. split; [by apply state_text_holds|auto].
  - exists n. split; [by apply state_text_holds|auto].
  - exists c. auto.
Qed.

Lemma start_inv path id d draws random o res file : daemon_inv path id d ->
  load_or_create None path (dm_file d) draws random o = Some (res, file) ->
  exists c, holds (dm_file d) id c /\ (c = None \/ c = dm_fresh d) /\
    (exists c', holds file id c' /\ (c' = None \/ c' = c)) /\
    match res with
    | Ok st => holds file id None /\ ls_router_id st = id /\ ls_store st = MkStateStore path id /\
        match c with Some m => ls_sequence_number st = (m + 1) mod 65536 | None => random = Ok (ls_sequence_number st) end
    | Err _ => True
    end.
Proof.
  intros [(c & Hf & Hc) _] H. exists c. split; [done|]. split; [done|]. unfold load_or_create in H.
  rewrite (load_holds _ _ _ _ _ _ Hf) in H. cbn [mbind option_bind] in H.
  destruct (match c with Some m => Ok ((m + 1) mod 65536) | None => random end) as [n|e] eqn:En; cbn [mbind result_bind] in H.
  - unfold write_state in H. cbn [ls_store] in H. injection H as <- <-.
    destruct (write_holds path id None o _ c (dm_fresh d) I Hf Hc) as (c' & Hc' & Hor).
    split; [exists c'; auto|]. destruct o; cbn [mbind result_bind]; [|done].
    split; [by apply state_text_holds|]. simpl. split; [done|]. split; [done|]. destruct c; [by injection En as <-|done].
  - injection H as <- <-. split; [|done]. exists c. auto.
Qed.

Lemma daemon_step_inv path id d d' : daemon_step path d d' -> daemon_inv path id d -> daemon_inv path id d'.
Proof.
  intros Hs HI. destruct Hs as [d draws random o st file H|d draws random o e file H|d st n o r file Hp Hn H|d].
  - destruct (start_inv _ _ _ _ _ _ _ _ HI H) as (c & _ & _ & _ & (Hf & Hid & Hst & _)). split; simpl.
    + exists None. auto.
    + by intros st' [= <-].
  - destruct (start_inv _ _ _ _ _ _ _ _ HI H) as (c & _ & Hc & (c' & Hc' & Hor) & _). split; simpl; [|done].
    exists c'. split; [done|]. destruct Hor as [->| ->]; auto.
  - destruct HI as [(c & Hf & Hc) HP]. destruct (HP _ Hp) as (_ & Hst & Hfr). unfold persist, write_state in H.
    injection H as _ <-. rewrite Hst.
    destruct (write_holds path id (Some n) o (dm_file d) c (dm_fresh d) Hn Hf Hc) as (c' & Hc' & Hor).
    split; simpl; [|done]. exists c'. split; [done|]. destruct Hor as [->| ->]; [auto|].
    destruct Hc as [->| ->]; [auto|]. rewrite Hfr. auto.
  - destruct HI as [HF HP]. split; simpl; [done|done].
Qed.

(** C31. The identity survives and no checkpoint is used twice: for configurations
    without a router-id, from a file with an identity, through any sequence of starts, orderly shutdowns and crashes,
    whether or not the writes of the file succeed, every daemon that starts has
    this identity; its sequence number is the successor of the number that was
    stored since the last start, or else drawn at random; and once it runs, the
    file holds no sequence number that a later start could take up. *)
Theorem checkpoint_used_once path id c text d draws random o st file :
  parse_disk_state text = Ok (MkLoadedDiskState id c) ->
  rtc (daemon_step path) (MkDaemon (StateText text) None c) d ->
  load_or_create None path (dm_file d) draws random o = Some (Ok st, file) ->
  ls_router_id st = id /\ holds file id None /\
  ((exists m, dm_fresh d = Some m /\ ls_sequence_number st = (m + 1) mod 65536) \/
   random = Ok (ls_sequence_number st)).
Proof.
  intros Hp Hrun H. assert (daemon_inv path id d) as HI.
  { assert (daemon_inv path id (MkDaemon (StateText text) None c)) as H0.
    { split; simpl; [|done]. exists c. split; [by exists text|auto]. }
    clear H. induction Hrun as [|d1 d2 d3 Hs _ IH]; [done|]. by eapply IH, daemon_step_inv. }
  destruct (start_inv _ _ _ _ _ _ _ _ HI H) as (c' & _ & Hc & _ & (Hf & Hid & _ & Hn)).
  split; [done|]. split; [done|]. destruct c' as [m|]; [|by right]. left. exists m. destruct Hc as [?|Hc]; [done|].
  by rewrite <- Hc.
Qed.
End Restarts.

(** * Atomic replacement *)

Lemma rsplit_None_app sep a b : rsplit sep (a +:+ b) = None -> rsplit sep b = None.
Proof. induction a as [|c a IH]; simpl; [done|]. destruct (rsplit sep (a +:+ b)) as [[]|]; [done|]. auto. Qed.

Lemma rsplit_Some sep s a b : rsplit sep s = Some (a, b) -> s = a +:+ String sep EmptyString +:+ b /\ rsplit sep b = None.
Proof.
  revert a. induction s as [|c s IH]; intros a H; simpl in H; [done|].
  destruct (rsplit sep s) as [[a' b']|] eqn:E.
  - injection H as <- <-. destruct (IH _ eq_refl) as [-> Hb]. done.
  - destruct (Ascii.eqb c sep) eqn:Ec; [|done]. injection H as <- <-. apply Ascii.eqb_eq in Ec as ->. done.
Qed.

Lemma path_of_string text : path_string (path_of text) = text.
Proof.
  unfold path_of, path_string. destruct (rsplit "/" text) as [[dir name]|] eqn:E; [|done]. simpl.
  apply rsplit_Some in E as [-> _]. clear. induction dir as [|c dir IH]; [done|]. exact (f_equal (String c) IH).
Qed.

(** A temporary name is never the name it stands for, and two are not the same. *)
Lemma temporary_fresh pid p id : candidate pid p id <> path_string p.
Proof.
  unfold candidate, path_string. intros H%(inj (String.append (sp_dir p))). unfold file_stem in H.
  assert (forall x y : string, x +:+ "." +:+ y <> x) as Hlen.
  { intros x y E. induction x as [|c x IH]; [done|]. injection E. apply IH. }
  destruct (rsplit "." (sp_name p)) as [[a b]|] eqn:E; [|by apply Hlen in H].
  apply rsplit_Some in E as [E Hb]. destruct a as [|c a]; [by apply Hlen in H|].
  rewrite E in H. apply (inj (String.append (String c a))) in H.
  change (".tmp." +:+ pretty pid +:+ "." +:+ pretty (N.of_nat id))
    with ("." +:+ "tmp." +:+ pretty pid +:+ "." +:+ pretty (N.of_nat id)) in H.
  apply (inj (String.append ".")) in H. rewrite <- H in Hb.
  change ("tmp." +:+ pretty pid +:+ "." +:+ pretty (N.of_nat id))
    with ("tmp" +:+ "." +:+ pretty pid +:+ "." +:+ pretty (N.of_nat id)) in Hb.
  apply (rsplit_None_app "." "tmp") in Hb. simpl in Hb. by destruct (rsplit "." _) as [[]|].
Qed.

#[global] Instance candidate_inj pid p : Inj (=) (=) (candidate pid p).
Proof.
  intros i j H. unfold candidate in H. do 5 apply (inj (String.append _)) in H. apply (inj pretty) in H. lia.
Qed.

(** The search for a free name ends: the taken names are distinct files. *)
Lemma first_free_taken fuel (name : nat -> string) (f : Files) id : first_free fuel name f id = None ->
  forall i, (id <= i < id + fuel)%nat -> name i ∈ dom (D := gset string) f.
Proof.
  revert id. induction fuel as [|fuel IH]; intros id H i Hi; [lia|]. simpl in H.
  destruct (f !! name id) eqn:E; [|done]. destruct (decide (i = id)) as [->|Hn].
  - by apply elem_of_dom_2 in E.
  - apply (IH _ H). lia.
Qed.

Lemma first_free_total (name : nat -> string) (f : Files) id : Inj (=) (=) name ->
  exists n, first_free (S (size f)) name f id = Some n.
Proof.
  intros Hinj. destruct (first_free (S (size f)) name f id) as [n|] eqn:E; [by exists n|].
  pose proof (first_free_taken _ _ _ _ E) as Ht.
  assert (list_to_set (C := gset string) (name <$> seq id (S (size f))) ⊆ dom f) as Hsub.
  { intros q. rewrite elem_of_list_to_set, list_elem_of_fmap. intros (i & -> & Hi%elem_of_seq). apply Ht. lia. }
  apply subseteq_size in Hsub. rewrite size_list_to_set in Hsub by (apply NoDup_fmap_2; [done|apply NoDup_seq]).
  rewrite length_fmap, length_seq, size_dom in Hsub. lia.
Qed.

Lemma first_free_free fuel (name : nat -> string) (f : Files) id n : first_free fuel name f id = Some n -> f !! name n = None.
Proof.
  revert id. induction fuel as [|fuel IH]; intros id H; simpl in H; [done|].
  destruct (f !! name id) eqn:E; [by eapply IH|]. by injection H as <-.
Qed.

(** The files while a temporary one exists: it and possibly the target differ. *)
Lemma attempt_spec (t q : string) (value : list byte) outcome (f : Files) f' r : t <> q -> f !! t = None ->
  run_steps [WriteAll t value; SyncFile; Rename t q; SyncDir] outcome (<[t := []]> f) = (f', r) ->
  (exists d, f' = <[t := d]> f /\ r <> Some true) \/ f' = <[q := value]> f.
Proof.
  intros Htq Ht H. cbn [run_steps] in H.
  destruct (outcome (WriteAll t value)); [|injection H as <- <-; left..]; simpl in *;
    [|rewrite insert_insert_eq; by eexists..].
  rewrite insert_insert_eq in H.
  destruct (outcome SyncFile); [|injection H as <- <-; left; by eexists..].
  destruct (outcome (Rename t q)); [|injection H as <- <-; left; by eexists..].
  right. rewrite lookup_insert_eq, delete_insert_id in H by done. destruct (outcome SyncDir); by injection H as <- _.
Qed.

(** The promise of a replacement that ends with the files [f'] and the result [r]. *)
Record atomic (q : string) (value : list byte) (outcome : FsStep -> Outcome) (f f' : Files) (r : option bool) : Prop := {
  at_target : f' !! q = f !! q \/ f' !! q = Some value;
  at_success : r = Some true -> f' !! q = Some value;
  at_others q' d : q' <> q -> f !! q' = Some d -> f' !! q' = Some d;
  at_temporary q' : q' <> q -> f !! q' = None -> is_Some (f' !! q') ->
    r = None \/ (r = Some false /\ exists part, outcome (Remove q') = Failed part)
}.

Lemma atomic_unchanged q value outcome f r : r <> Some true -> atomic q value outcome f f r.
Proof. intros Hr. split; [by left|done|done|by intros q' _ -> []]. Qed.

Lemma atomic_replaced q value outcome f r : atomic q value outcome f (<[q := value]> f) r.
Proof.
  split; rewrite ?lookup_insert_eq; [by right|done| |]; intros q'.
  - intros d Hq Hf. by rewrite lookup_insert_ne.
  - intros Hq Hf Hs. rewrite lookup_insert_ne, Hf in Hs by done. by destruct Hs.
Qed.

Lemma atomic_left q t d value outcome f r : t <> q -> f !! t = None ->
  r = None \/ (r = Some false /\ exists part, outcome (Remove t) = Failed part) ->
  atomic q value outcome f (<[t := d]> f) r.
Proof.
  intros Hne Ht Hor. split.
  - left. by rewrite lookup_insert_ne.
  - intros ->. by destruct Hor as [|[]].
  - intros q' d' _ Hq. rewrite lookup_insert_ne; [done|congruence].
  - intros q' _ Hq Hs. destruct (decide (q' = t)) as [->|Hqt]; [done|].
    rewrite lookup_insert_ne, Hq in Hs by done. by destruct Hs.
Qed.

(** C32. The file is replaced atomically: however the steps of the replacement
    end, one by one well, with an error, with a partial write or with the end of
    the process, the search for a temporary name ends, the file holds its old
    content or the whole new content, and the new content when success is
    reported; no other file that existed is touched, temporary files of other
    writers included; and a temporary file is left behind only by the end of the
    process or by an error of its own removal. *)
Theorem replacement_atomic pid p value next outcome f :
  exists f' r, write_atomic pid p value next outcome f = Some (f', r) /\ atomic (path_string p) value outcome f f' r.
Proof.
  unfold write_atomic. destruct (outcome CreateDirs); [|eexists _, _; split; [done|]; by apply atomic_unchanged..].
  destruct (first_free_total (candidate pid p) f next _) as [n En]. rewrite En. cbn [mbind option_bind].
  apply first_free_free in En. pose proof (temporary_fresh pid p n) as Hne. set (t := candidate pid p n) in *. clearbody t.
  destruct (outcome (CreateNew t)); [|eexists _, _; split; [done|]; by apply atomic_unchanged..].
  destruct (run_steps _ _ _) as [f' r] eqn:Er.
  destruct (attempt_spec _ _ _ _ _ _ _ Hne En Er) as [(d & -> & Hr)| ->].
  - destruct r as [[]|]; [done| |eexists _, _; split; [done|]; apply atomic_left; auto].
    destruct (outcome (Remove t)) eqn:Erm; eexists _, _; (split; [done|]); [|apply atomic_left; eauto..].
    simpl. rewrite delete_insert_id by done. by apply atomic_unchanged.
  - destruct r as [[]|]; [|destruct (outcome (Remove t))|]; eexists _, _; (split; [done|]); try apply atomic_replaced.
    simpl. rewrite delete_id by (by rewrite lookup_insert_ne). apply atomic_replaced.
Qed.

(** * Runs

    A concrete encoding of the state record and runs the theorems are applied to. *)

(** An encoding with the promised laws: an equals sign, the version, the sequence
    number and the text. *)
Definition demo_seqno (n : option Z) : list byte :=
  match n with None => [b8 0] | Some n => [b8 1; b8 (n / 256); b8 (n mod 256)] end.

Definition demo_from_toml (text : list byte) : option DiskState :=
  match text with
  | _ :: v :: flag :: rest =>
      if u8 flag =? 0 then Some (MkDiskState (u8 v) rest None)
      else match rest with
           | hi :: lo :: rest => Some (MkDiskState (u8 v) rest (Some (u8 hi * 256 + u8 lo)))
           | _ => None
           end
  | _ => None
  end.

#[local] Instance demo_toml : Toml := {
  from_toml := demo_from_toml;
  to_toml d := EQUALS :: b8 (version d) :: demo_seqno (ds_sequence_number d) ++ ds_router_id d
}.

#[local] Instance demo_toml_laws : TomlLaws.
Proof.
  split; [|intros d; apply elem_of_cons; by left].
  intros [v id n] [Hv Hn]. simpl in Hv, Hn. cbn [from_toml to_toml demo_toml demo_from_toml version ds_sequence_number ds_router_id].
  destruct n as [n|]; cbn [demo_seqno app]; [|by rewrite !u8_b8_small by lia]. cbn [from_option] in Hn.
  unfold u16_max in Hn.
  rewrite !(u8_b8_small v), !(u8_b8_small 1) by lia. change (1 =? 0) with false. cbv iota.
  rewrite !u8_b8_small by (Z.div_mod_to_equations; lia). do 3 f_equal. Z.div_mod_to_equations; lia.
Qed.

(** A file from before version 2: the identity alone. *)
Definition demo_old_file : list byte := b8 <$> [48; 48; 48; 48; 48; 48; 48; 48; 58; 48; 48; 48; 48; 48; 48; 48; 49; 10].
Definition demo_state_path : StatePath := MkStatePath "/var/lib/babel/" "state.toml".

Lemma demo_old_identity : exists id, parse_disk_state demo_old_file = Ok (MkLoadedDiskState id None).
Proof.
  assert (match parse_disk_state demo_old_file with Ok (MkLoadedDiskState _ None) => true | _ => false end = true) as H
    by vm_cast_no_check (eq_refl true).
  destruct (parse_disk_state demo_old_file) as [[id [n|]]|]; [done|by exists id|done].
Qed.

Lemma demo_start file id c random n : holds file id c ->
  match c with Some m => Ok ((m + 1) mod 65536) | None => random end = Ok n ->
  load_or_create None demo_state_path file [] random WriteDone =
    Some (Ok (MkLoadedState id n (MkStateStore demo_state_path id)),
          StateText (state_text (MkStateStore demo_state_path id) None)).
Proof. intros Hf Hn. unfold load_or_create. rewrite (load_holds _ _ _ _ _ _ Hf), Hn. reflexivity. Qed.

(** The old file is read and rewritten, the daemon is stopped in order at 65535,
    and its successor starts at 0. *)
Lemma checkpoint_used_once_witness : exists id d st file,
  rtc (daemon_step demo_state_path) (MkDaemon (StateText demo_old_file) None None) d /\
  load_or_create None demo_state_path (dm_file d) [] (Ok 7) WriteDone = Some (Ok st, file) /\
  ls_sequence_number st = 0 /\
  ls_router_id st = id /\ holds file id None /\
  ((exists m, dm_fresh d = Some m /\ ls_sequence_number st = (m + 1) mod 65536) \/
   @Ok StateError Z 7 = Ok (ls_sequence_number st)).
Proof.
  destruct demo_old_identity as [id Hid]. set (s := MkStateStore demo_state_path id).
  assert (holds (StateText demo_old_file) id None) as Hold by (exists demo_old_file; auto).
  assert (0 <= 65535 <= u16_max) as Hn by (unfold u16_max; lia).
  exists id, (MkDaemon (StateText (state_text s (Some 65535))) None (Some 65535)), (MkLoadedState id 0 s),
    (StateText (state_text s None)).
  assert (rtc (daemon_step demo_state_path) (MkDaemon (StateText demo_old_file) None None)
    (MkDaemon (StateText (state_text s (Some 65535))) None (Some 65535))) as Hrun.
  { eapply rtc_l; [eapply (daemon_start _ _ [] (Ok 41) WriteDone), (demo_start _ _ _ _ 41 Hold eq_refl)|].
    eapply rtc_l; [|apply rtc_refl]. by eapply (daemon_persist _ _ _ 65535 WriteDone). }
  assert (load_or_create None demo_state_path (StateText (state_text s (Some 65535))) [] (Ok 7) WriteDone =
    Some (Ok (MkLoadedState id 0 s), StateText (state_text s None))) as Hload
    by exact (demo_start _ _ _ (Ok 7) 0 (state_text_holds demo_state_path id (Some 65535) Hn) eq_refl).
  split; [exact Hrun|]. split; [exact Hload|]. split; [reflexivity|].
  exact (checkpoint_used_once demo_state_path id None demo_old_file _ [] (Ok 7) WriteDone _ _ Hid Hrun Hload).
Defined.

(** Every pair of the identifier may carry a sign: [from_str_radix] takes one,
    so eight times "+1" stands for the identifier of eight ones. *)
Lemma router_id_takes_signs :
  parse_router_id (concat (repeat [Byte.x2b; Byte.x31] 8)) =
  parse_router_id (concat (repeat [Byte.x30; Byte.x31] 8)) /\
  exists id, parse_router_id (concat (repeat [Byte.x2b; Byte.x31] 8)) = Ok id.
Proof. split; [vm_compute; reflexivity|]. eexists. vm_compute. reflexivity. Qed.
