(* ===== verification/Handle.v ===== *)
(** What the tasks of the daemon rely on in a handle of the router: the calls, the
    interfaces that are attached and with which policy, and that the router's loop
    keeps these promises while it serves other inputs between two calls. *)
From S2P Require Import Prelude Net Mac Model Metric Wire WireDecode Api EngineState Neighbors Engine OutputSpec Invariant EngineSpec Scheduler Sender Router RouterLoop BatchSpec RouterTheorems.
Import Hello.
Local Open Scope Z_scope.

Section Handle.
Context {NL : IpNetLib} {MI : MetricImpl} {HO : HashOrder} {B : Build}.

(** * The interface *)

Class Handle (S : Type) : Type := { call : Call -> S -> S * result RouterError Reply }.

(** [view s v]: the router runs, and the interfaces it serves have the policies [v]. *)
Class HandleLaws (S : Type) {H : Handle S} : Type := {
  view : S -> gmap string InterfacePolicy -> Prop;
  call_status s v : view s v -> exists s' st, call CallStatus s = (s', Ok (StatusReply st)) /\ view s' v /\
    (forall n, n ∈ rst_interfaces st <-> is_Some (v !! n));
  call_remove s v n : view s v -> exists s', view s' (delete n v) /\
    (call (CallRemoveInterface n) s = (s', Ok (Replied (Ok tt))) \/
     call (CallRemoveInterface n) s = (s', Err (InterfaceNotFound n)));
  call_update s v n p q reset : view s v -> v !! n = Some q -> control_transport q = control_transport p ->
    router_validate_policy p = Ok tt ->
    exists s', call (CallUpdateInterfacePolicy n p reset) s = (s', Ok (Replied (Ok tt))) /\ view s' (<[n := p]> v);
  call_add s v n p mac : view s v -> v !! n = None -> router_validate_policy p = Ok tt ->
    exists s', (call (CallAddInterfaceWithMac n p mac) s = (s', Ok (Replied (Ok tt))) /\ view s' (<[n := p]> v)) \/
      (call (CallAddInterfaceWithMac n p mac) s = (s', Err (OpenInterface n)) /\ view s' v)
}.

(** * The loop behind a handle *)

(** What happens around a call: the inputs the loop serves before it, and the
    environment the command meets. *)
Record CallEnv := MkCallEnv {
  ce_between : list Input;
  ce_env : Env;
  ce_open : string -> ControlTransport -> option Socket;
  ce_totals : OutputCounters;
  ce_now : Z
}.

(** The socket an addition opens, for the transport of the policy it will have. *)
Definition socket_for (e : CallEnv) (default : InterfacePolicy) (c : Command) : option Socket :=
  match c with
  | CAddInterface n configured _ => ce_open e n (control_transport (from_option id default configured))
  | _ => None
  end.

(** A loop that ended drops its commands: every call then fails with [Stopped]. *)
Definition serve_call (e : CallEnv) (c : Call) (m : option Router) : option Router * result RouterError Reply :=
  match issue c with
  | Err error => (m ≫= loop (ce_between e), Err error)
  | Ok command =>
      match r ← m; r ← loop (ce_between e) r;
            on_command (ce_env e) command (socket_for e (default_policy r) command) (ce_totals e) (ce_now e) r with
      | None => (None, Err RouterStopped)
      | Some (r, Replied (Err error)) => (Some r, Err error)
      | Some (r, reply) => (Some r, Ok reply)
      end
  end.

(** The router, with the number of calls so far: [around k] is what happens around
    the [k]th. *)
Context (around : nat -> CallEnv).

#[global] Instance router_handle : Handle (option Router * nat) := {
  call c s := let '(m, reply) := serve_call (around s.2) c s.1 in ((m, S s.2), reply)
}.

(** Other tasks neither add, change nor remove interfaces; a socket that fails is
    not quiet. *)
Definition quiet (i : Input) : bool :=
  match i with
  | IFailed _ _ _ _ _ => false
  | ICall _ c _ _ _ =>
      match c with
      | CallAddInterface _ | CallAddInterfaceWithMac _ _ _ | CallUpdateInterfacePolicy _ _ _
      | CallRemoveInterface _ => false
      | _ => true
      end
  | _ => true
  end.

Record calm (e : CallEnv) : Prop := {
  calm_times : Forall times_ok (ce_between e);
  calm_quiet : Forall (fun i => quiet i = true) (ce_between e);
  calm_now : in_u64 (ce_now e);
  calm_open n t s : ce_open e n t = Some s -> so_transport s = t
}.

(** * What inputs keep *)

(** The tables of interfaces and the names in the status; addresses may change. *)
Record kept (r r' : Router) : Prop := {
  kp_policies : policies r' = policies r;
  kp_names : rst_interfaces (status_of r') = rst_interfaces (status_of r);
  kp_transports : so_transport <$> sockets r' = so_transport <$> sockets r
}.

#[global] Instance kept_preorder : PreOrder kept.
Proof. split; [by split|]. intros r1 r2 r3 [A B' C] [D E F]. split; congruence. Qed.

Lemma apply_from_names env acts : forall i o, rst_interfaces (rstatus (apply_from i env o acts)) = rst_interfaces (rstatus o).
Proof.
  induction acts as [|a acts IH]; intros i o; simpl; [done|]. rewrite IH.
  destruct a as [|n| |]; simpl; try done. by destruct (outbound o !! n).
Qed.

Lemma dispatch_kept env ev r r' : dispatch env ev r = Some r' -> kept r r'.
Proof.
  unfold dispatch. intros ([acts e] & _ & [= <-])%bind_Some. split; simpl; [done| |done]. apply apply_from_names.
Qed.

Lemma refresh_kept r now r' : refresh_neighbours r now = Some r' -> kept r r'.
Proof. unfold refresh_neighbours. intros (d & _ & [= <-])%bind_Some. by split. Qed.

Lemma scan_interface_kept env clock lookup r n r' : scan_interface env clock lookup r n = Some r' -> kept r r'.
Proof.
  unfold scan_interface. destruct (lookup n) as [addresses|]; [|by intros [= <-]].
  destruct (sockets r !! n) as [s|] eqn:E; [|by intros [= <-]]. case_bool_decide as Hb; [by intros [= <-]|].
  intros H%dispatch_kept. etrans; [|exact H]. split; [done|done|]. simpl. rewrite fmap_insert. simpl.
  apply insert_id. by rewrite lookup_fmap, E.
Qed.

Lemma scan_kept env clock lookup names : forall r r', scan_interfaces env clock lookup names r = Some r' -> kept r r'.
Proof.
  induction names as [|n names IH]; intros r r' H; simpl in H; [by injection H as <-|].
  apply bind_Some in H as (r1 & H1%scan_interface_kept & H2%IH). by etrans.
Qed.

Lemma tick_kept env tick_env clock lookup totals r r' : on_tick env tick_env clock lookup totals r = Some r' -> kept r r'.
Proof.
  unfold on_tick. intros (r1 & H1 & H)%bind_Some. apply bind_Some in H as (r2 & H2%dispatch_kept & H).
  apply bind_Some in H as (r3 & H3%refresh_kept & [= <-]).
  transitivity r1; [destruct (_ <=? _); [apply scan_kept in H1; etrans; [|exact H1]; by split|by injection H1 as <-]|].
  etrans; [|etrans; [exact H2|etrans; [exact H3|by split]]]. by destruct (negb _ && _).
Qed.

Lemma packet_kept env i so src bytes ts now st r r' : on_packet env i so src bytes ts now st r = Some r' -> kept r r'.
Proof.
  unfold on_packet. case_bool_decide; [|by intros [= <-]]. destruct (decode_packet bytes src); [|by intros [= <-]].
  intros (r1 & H1%dispatch_kept & H2%refresh_kept)%bind_Some. by etrans.
Qed.

(** Commands that leave the interfaces alone. *)
Lemma command_kept env c opened totals now r r' reply :
  match c with CAddInterface _ _ _ | CUpdateInterfacePolicy _ _ _ | CRemoveInterface _ => False | _ => True end ->
  on_command env c opened totals now r = Some (r', reply) -> kept r r'.
Proof.
  intros Hc H. destruct c; try done; simpl in H;
    try (apply bind_Some in H as (r1 & H%dispatch_kept & [= <- _]); exact H).
  - by injection H as <- _.
  - apply bind_Some in H as (r1 & H%refresh_kept & [= <- _]). etrans; [exact H|by split].
Qed.

Lemma quiet_kept i r r' : quiet i = true -> loop_step i r = Some r' -> kept r r'.
Proof.
  intros Hq H. destruct i as [env tenv clock lookup totals|env i so src bytes ts now st|env i so now st|env c opened totals now];
    simpl in *; [by eapply tick_kept|by eapply packet_kept|done|].
  destruct (issue c) as [cmd|] eqn:E; [|by injection H as <-]. apply bind_Some in H as ([r1 reply] & H & [= <-]).
  eapply command_kept; [|exact H]. destruct c; try done; simpl in E;
    repeat (let u := fresh "u" in apply result_bind_Ok in E as (u & _ & E)); try (by injection E as <-).
  - destruct (validate_key key); [by injection E as <-|done].
  - destruct (ms =? 0); [done|by injection E as <-].
Qed.

Lemma loop_kept inputs : forall r r', Forall (fun i => quiet i = true) inputs -> loop inputs r = Some r' -> kept r r'.
Proof.
  induction inputs as [|i inputs IH]; intros r r' Hq H; simpl in H; [by injection H as <-|].
  apply list.Forall_cons in Hq as [Hi Hq]. apply bind_Some in H as (r1 & H1%quiet_kept & H2); [|done].
  etrans; [exact H1|by apply IH].
Qed.

(** * The promises hold *)

(** The status lists the open sockets, and every one serves the transport of its
    interface's policy. *)
Record named (r : Router) : Prop := {
  nm_status n : n ∈ rst_interfaces (status_of r) <-> is_Some (sockets r !! n);
  nm_transports : so_transport <$> sockets r = control_transport <$> policies r
}.

Lemma kept_named r r' : kept r r' -> named r -> named r'.
Proof.
  intros [Hp Hn Ht] [Hs Hc]. split; [|congruence]. intros n. rewrite Hn, Hs, <- !(fmap_is_Some so_transport), <- !lookup_fmap.
  by rewrite Ht.
Qed.

Lemma named_socket r n : named r -> is_Some (sockets r !! n) <-> is_Some (policies r !! n).
Proof.
  intros [_ Hc]. by rewrite <- (fmap_is_Some so_transport), <- (fmap_is_Some control_transport), <- !lookup_fmap, Hc.
Qed.

Lemma sorted_names (m : gmap string Socket) n : n ∈ sorted_interface_names m <-> is_Some (m !! n).
Proof.
  unfold sorted_interface_names. rewrite merge_sort_Permutation, hm_iter_perm, list_elem_of_fmap. split.
  - intros ([n' s] & -> & Hs%elem_of_map_to_list). by exists s.
  - intros [s Hs]. exists (n, s). split; [done|]. by apply elem_of_map_to_list.
Qed.

(** The interface leaves the tables and the status. *)
Lemma detach_named env n now r r' : named r -> detach env n now r = Some r' -> named r' /\ policies r' = delete n (policies r).
Proof.
  intros [_ Hc] H. unfold detach in H. apply bind_Some in H as (r1 & [Hp Hn Ht]%dispatch_kept & [= <-]). simpl in *.
  split; [|done]. split; simpl; [intros; apply sorted_names|]. rewrite Ht, Hp, !fmap_delete. by rewrite Hc.
Qed.

Lemma attach_named env n p s totals now r r' : named r -> so_transport s = control_transport p ->
  attach env n p s totals now r = Some r' -> named r' /\ policies r' = <[n := p]> (policies r).
Proof.
  intros [_ Hc] Hs H. unfold attach in H. apply bind_Some in H as (r1 & [Hp Hn Ht]%dispatch_kept & [= <-]). simpl in *.
  split; [|done]. split; simpl; [intros; apply sorted_names|]. rewrite Ht, Hp, !fmap_insert. by rewrite Hc, Hs.
Qed.

Lemma start_origins_tables env now l : forall i r r', start_origins env now i l r = Some r' ->
  sockets r' = sockets r /\ policies r' = policies r.
Proof.
  induction l as [|[key m] l IH]; intros i r r' H; simpl in H; [by injection H as <-|].
  apply bind_Some in H as (r1 & H1 & H). apply IH in H as [-> ->]. unfold start_event in H1.
  by apply bind_Some in H1 as ([acts e] & _ & [= <-]).
Qed.

(** Other tasks and failing sockets, but no call on interfaces. *)
Definition undirected (i : Input) : bool :=
  match i with IFailed _ _ _ _ _ => true | _ => quiet i end.

(** A router that runs, with its interfaces. *)
Definition router_view (s : option Router * nat) (v : gmap string InterfacePolicy) : Prop :=
  exists r, s.1 = Some r /\ router_inv r /\ named r /\ policies r = v.

Lemma undirected_named i r r' : undirected i = true -> named r -> loop_step i r = Some r' ->
  named r' /\ policies r' ⊆ policies r.
Proof.
  intros Hu Hn H. destruct (quiet i) eqn:Eq.
  { pose proof (quiet_kept _ _ _ Eq H) as Hk. split; [by eapply kept_named|]. by rewrite (kp_policies _ _ Hk). }
  destruct i as [| |env n so now st|]; simpl in *; [congruence..| |congruence]. unfold on_failed in H.
  case_bool_decide; [|injection H as <-; by split]. apply bind_Some in H as (r1 & H1 & Hk%refresh_kept).
  apply detach_named in H1 as [Hn1 Hp1]; [|done]. split; [by eapply kept_named|].
  rewrite (kp_policies _ _ Hk), Hp1. apply delete_subseteq.
Qed.

Section Laws.
Context (release : overflow_checks = false) (all_calm : forall k, calm (around k)).

(** Inputs between two rounds can only lose interfaces. *)
Lemma undirected_view inputs : forall r k v, Forall times_ok inputs -> Forall (fun i => undirected i = true) inputs ->
  router_view (Some r, k) v -> exists r' v', loop inputs r = Some r' /\ router_view (Some r', k) v' /\ v' ⊆ v.
Proof.
  induction inputs as [|i inputs IH]; intros r k v Ht Hu Hv; simpl; [by exists r, v|].
  apply list.Forall_cons in Ht as [Hi Ht]. apply list.Forall_cons in Hu as [Hui Hu].
  destruct Hv as (r0 & [= <-] & Hinv & Hn & <-).
  destruct (loop_follows release [i] r r (proj2 (Forall_singleton _ _) Hi) Hinv (fun x => x)) as (r1 & H1 & Hinv1 & _).
  simpl in H1. apply bind_Some in H1 as (r1' & H1 & [= ->]). rewrite H1. simpl.
  destruct (undirected_named _ _ _ Hui Hn H1) as [Hn1 Hs1].
  destruct (IH r1 k (policies r1) Ht Hu) as (r' & v' & Hr' & Hv' & Hs'); [by exists r1|].
  exists r', v'. split; [done|]. split; [done|]. by etrans.
Qed.

(** A command reaches a router with the same interfaces, and does not stop it. *)
Lemma serve_reaches c cmd s v : router_view s v -> issue c = Ok cmd -> exists r r' reply,
  named r /\ policies r = v /\ router_inv r' /\
  on_command (ce_env (around s.2)) cmd (socket_for (around s.2) (default_policy r) cmd) (ce_totals (around s.2))
    (ce_now (around s.2)) r = Some (r', reply) /\
  call c s = ((Some r', S s.2), match reply with Replied (Err error) => Err error | _ => Ok reply end).
Proof.
  intros (r0 & Hs & Hi & Hn & Hp) Hc. destruct (all_calm s.2) as [Ht Hq Hnow _].
  destruct (loop_follows release _ r0 r0 Ht Hi (fun x => x)) as (r & Hr & Hi1 & _).
  pose proof (loop_kept _ _ _ Hq Hr) as Hk.
  destruct (command_follows release (ce_env (around s.2)) cmd (socket_for (around s.2) (default_policy r) cmd)
    (ce_totals (around s.2)) _ r Hnow (issue_ok _ _ Hc) Hi1) as (r' & H & Hi' & _).
  apply bind_Some in H as ([r2 reply] & H & [= ->]).
  exists r, r', reply. split; [by eapply kept_named|]. split; [rewrite <- Hp; apply Hk|]. split; [done|]. split; [done|].
  unfold call, router_handle, serve_call. rewrite Hc, Hs. cbn [mbind option_bind]. rewrite Hr. cbn [mbind option_bind].
  rewrite H. by destruct reply as [|[]|].
Qed.

Lemma view_status s v : router_view s v -> exists s' st, call CallStatus s = (s', Ok (StatusReply st)) /\ router_view s' v /\
  (forall n, n ∈ rst_interfaces st <-> is_Some (v !! n)).
Proof.
  intros H. destruct (serve_reaches CallStatus CStatus s v H eq_refl) as (r & r' & reply & Hn & Hp & Hi & Hr & ->).
  pose proof (command_kept _ CStatus _ _ _ _ _ _ I Hr) as Hk. pose proof (kept_named _ _ Hk Hn) as Hn'. simpl in Hr.
  apply bind_Some in Hr as (r1 & H1 & Hr). injection Hr as <- <-.
  eexists _, _. split; [done|]. split; [eexists; split; [done|]; split; [done|]; split; [done|]; by rewrite (kp_policies _ _ Hk)|].
  intros n. rewrite <- Hp, <- (kp_policies _ _ Hk), <- (named_socket _ _ Hn'). apply (nm_status _ Hn').
Qed.

Lemma view_remove s v n : router_view s v -> exists s', router_view s' (delete n v) /\
  (call (CallRemoveInterface n) s = (s', Ok (Replied (Ok tt))) \/
   call (CallRemoveInterface n) s = (s', Err (InterfaceNotFound n))).
Proof.
  intros H. destruct (serve_reaches (CallRemoveInterface n) (CRemoveInterface n) s v H eq_refl)
    as (r & r' & reply & Hn & Hp & Hi & Hr & ->). simpl in Hr. case_bool_decide as Hb.
  - apply bind_Some in Hr as (r1 & H1 & [= <- <-]). apply detach_named in H1 as [Hn1 Hp1]; [|done].
    eexists. split; [|by left]. eexists. split; [done|]. split; [done|]. split; [done|]. by rewrite Hp1, Hp.
  - injection Hr as <- <-. eexists. split; [|by right]. eexists. split; [done|]. split; [done|]. split; [done|].
    rewrite Hp, delete_id; [done|]. apply eq_None_not_Some. by rewrite <- Hp, <- named_socket.
Qed.

Lemma view_update s v n p q reset : router_view s v -> v !! n = Some q ->
  control_transport q = control_transport p -> router_validate_policy p = Ok tt ->
  exists s', call (CallUpdateInterfacePolicy n p reset) s = (s', Ok (Replied (Ok tt))) /\ router_view s' (<[n := p]> v).
Proof.
  intros H Hq Ht Hv.
  assert (issue (CallUpdateInterfacePolicy n p reset) = Ok (CUpdateInterfacePolicy n p reset)) as Hc by (simpl; by rewrite Hv).
  destruct (serve_reaches _ _ s v H Hc) as (r & r' & reply & Hn & Hp & Hi & Hr & ->). simpl in Hr.
  assert (is_Some (sockets r !! n)) as [so Hso] by (apply named_socket; [done|]; rewrite Hp; by exists q).
  assert (so_transport so = control_transport p) as Hso'.
  { pose proof (f_equal (lookup n) (nm_transports _ Hn)) as E. rewrite !lookup_fmap, Hso, Hp, Hq in E.
    injection E as E. congruence. }
  rewrite Hso, bool_decide_true in Hr by done. cbn [negb] in Hr. apply bind_Some in Hr as (r1 & [K1 K2 K3]%dispatch_kept & [= <- <-]).
  eexists. split; [done|]. eexists. split; [done|]. split; [done|]. simpl. split; [|by rewrite K1, Hp].
  split; simpl.
  - intros m. destruct Hn as [Hst _]. unfold status_of in *. simpl in *. rewrite K2, Hst.
    by rewrite <- !(fmap_is_Some so_transport), <- !lookup_fmap, K3.
  - rewrite K3, fmap_insert, K1. rewrite (nm_transports _ Hn). symmetry. apply insert_id.
    by rewrite lookup_fmap, Hp, Hq, <- Ht.
Qed.

Lemma view_add s v n p mac : router_view s v -> v !! n = None -> router_validate_policy p = Ok tt ->
  exists s', (call (CallAddInterfaceWithMac n p mac) s = (s', Ok (Replied (Ok tt))) /\ router_view s' (<[n := p]> v)) \/
    (call (CallAddInterfaceWithMac n p mac) s = (s', Err (OpenInterface n)) /\ router_view s' v).
Proof.
  intros H Hv Hp0.
  assert (issue (CallAddInterfaceWithMac n p mac) = Ok (CAddInterface n (Some p) mac)) as Hc by (simpl; by rewrite Hp0).
  destruct (serve_reaches _ _ s v H Hc) as (r & r' & reply & Hn & Hp & Hi & Hr & ->). simpl in Hr.
  rewrite bool_decide_false in Hr by (rewrite named_socket, Hp, Hv by done; by apply is_Some_None).
  destruct (ce_open _ _ _) as [so|] eqn:E.
  - apply (calm_open _ (all_calm s.2)) in E. apply bind_Some in Hr as (r1 & H1 & [= <- <-]).
    apply attach_named in H1 as [Hn1 Hp1]; [|done|done].
    eexists. left. split; [done|]. eexists. split; [done|]. split; [done|]. split; [done|]. by rewrite Hp1, Hp.
  - injection Hr as <- <-. eexists. right. split; [done|]. by exists r.
Qed.

(** A router started without interfaces. *)
Lemma started_view b via env now k : validate_builder b = Ok tt -> bd_interfaces b = [] -> (forall j, in_u64 (now j)) ->
  exists r, start b via ∅ env now = Some (Ok r) /\ router_view (Some r, k) ∅.
Proof.
  intros Hb Hi Ht. destruct (start_ok release b via ∅ env now Hb Ht) as (r & Hr & Hinv & _). exists r. split; [done|].
  exists r. split; [done|]. split; [done|]. unfold start in Hr. destruct (validate_builder b) as [[]|]; [|done].
  simpl in Hr. destruct (bd_router_id b); [|done]. simpl in Hr. destruct (Engine_try_new _); [|done].
  rewrite Hi in Hr. cbn [start_interfaces] in Hr. apply bind_Some in Hr as (r1 & [= <-] & Hr). apply bind_Some in Hr as (r2 & H2 & [= <-]).
  apply start_origins_tables in H2 as [Hs Hp]. simpl in Hs, Hp. split; simpl; [|done]. split; simpl.
  - intros n. apply sorted_names.
  - by rewrite Hs, Hp, !fmap_empty.
Qed.

#[global] Instance router_handle_laws : HandleLaws (option Router * nat) := {
  view := router_view;
  call_status := view_status;
  call_remove := view_remove;
  call_update := view_update;
  call_add := view_add
}.
End Laws.
End Handle.
