(* ===== verification/Interfaces.v ===== *)
(** The interface manager of the daemon ([interfaces.rs]): what it reads of the
    system's interfaces, one round of reconciliation, and its loop.

    The content of [/sys/class/net] and the answer of [getifaddrs] are given. *)
From S2P Require Import Prelude Net Mac Model Metric Wire Api Scheduler Sender Router RouterLoop DaemonConfig State Handle.
Import Hello.
Local Open Scope Z_scope.

Record InterfaceSignature := MkSignature {
  sg_index : Z;
  sg_up : bool;
  link_local_addresses : list Ipv6Addr;
  ipv4_addresses : list Ipv4Addr
}.

Record AttachedInterface := MkAttached { signature : InterfaceSignature; at_policy : EffectiveInterface }.

#[global] Instance MacConfig_eq_dec : EqDecision MacConfig.
Proof. solve_decision. Defined.
#[global] Instance EffectiveInterface_eq_dec : EqDecision EffectiveInterface.
Proof. solve_decision. Defined.

Inductive InterfaceManagerError := Monitor | Enumerate | ManagerRouterStopped.

(** * The system's interfaces *)

(** [u32::from_str_radix]: a sign, digits, and no overflow. *)
Fixpoint u32_digits (radix acc : Z) (text : list byte) : option Z :=
  match text with
  | [] => Some acc
  | b :: rest =>
      d ← hex_digit b;
      if (d <? radix) && (acc * radix + d <? 4294967296) then u32_digits radix (acc * radix + d) rest else None
  end.

Definition u32_from_str_radix (radix : Z) (text : list byte) : option Z :=
  match text with
  | [] => None
  | b :: rest =>
      if bool_decide (b = PLUS) then if bool_decide (rest = []) then None else u32_digits radix 0 rest
      else u32_digits radix 0 text
  end.

(** [trim_start_matches("0x")] removes every such prefix. *)
Fixpoint trim_start_0x (text : list byte) : list byte :=
  match text with
  | a :: b :: rest => if bool_decide (a = b8 48) && bool_decide (b = b8 120) then trim_start_0x rest else text
  | _ => text
  end.

(** An entry of the directory: its name when it is UTF-8, and the texts of two files. *)
Record NetEntry := MkNetEntry {
  ne_name : option string;
  ne_ifindex : option (list byte);
  ne_flags : option (list byte)
}.

Definition push_address {A} (m : gmap string (list A)) (n : string) (a : A) : gmap string (list A) :=
  <[n := default [] (m !! n) ++ [a]]> m.

(** [Vec::dedup]: consecutive equal elements become one. *)
Fixpoint dedup_addresses {A} `{EqDecision A} (l : list A) : list A :=
  match l with
  | a :: (b :: _) as l' => if bool_decide (a = b) then dedup_addresses l' else a :: dedup_addresses l'
  | l => l
  end.

(** [interface_address_map], of the names and addresses in the order they were
    reported. *)
Fixpoint collect_addresses (items : list (string * option IpAddr))
    (v6 : gmap string (list Ipv6Addr)) (v4 : gmap string (list Ipv4Addr))
    : gmap string (list Ipv6Addr) * gmap string (list Ipv4Addr) :=
  match items with
  | [] => (v6, v4)
  | (_, None) :: rest => collect_addresses rest v6 v4
  | (n, Some (IpV6 a)) :: rest =>
      collect_addresses rest (if is_unicast_link_local a then push_address v6 n a else v6) v4
  | (n, Some (IpV4 a)) :: rest =>
      collect_addresses rest v6
        (if negb (v4_is_loopback a) && negb (v4_is_unspecified a) && negb (v4_is_multicast a)
         then push_address v4 n a else v4)
  end.

Definition interface_address_map (items : list (string * option IpAddr))
    : gmap string (list Ipv6Addr) * gmap string (list Ipv4Addr) :=
  let '(v6, v4) := collect_addresses items ∅ ∅ in
  (v6, (fun l => dedup_addresses (merge_sort ord_le l)) <$> v4).

(** [snapshot_interfaces]; an entry that cannot be read is left out. *)
Fixpoint snapshot_entries (v6 : gmap string (list Ipv6Addr)) (v4 : gmap string (list Ipv4Addr))
    (entries : list NetEntry) (result : gmap string InterfaceSignature) : gmap string InterfaceSignature :=
  match entries with
  | [] => result
  | e :: rest =>
      let item :=
        n ← ne_name e;
        index ← (text ← ne_ifindex e; u32_from_str_radix 10 (trim text));
        flags ← (text ← ne_flags e; u32_from_str_radix 16 (trim_start_0x (trim text)));
        Some (n, MkSignature index (negb (Z.land flags 1 =? 0))
                   (merge_sort ord_le (default [] (v6 !! n))) (default [] (v4 !! n))) in
      snapshot_entries v6 v4 rest (match item with Some (n, sg) => <[n := sg]> result | None => result end)
  end.

(** [None] when the addresses or the directory cannot be read. *)
Definition snapshot_interfaces (items : option (list (string * option IpAddr))) (entries : option (list NetEntry))
    : option (gmap string InterfaceSignature) :=
  items ← items; entries ← entries;
  let '(v6, v4) := interface_address_map items in
  Some (snapshot_entries v6 v4 entries ∅).

(** * Reconciliation *)

Section Reconcile.
Context {NL : IpNetLib} {L : Libm}.
#[local] Existing Instance builtin_metrics.
Context {S : Type} {H : Handle S}.

(** What a round reports. *)
Inductive ManagerEvent :=
| Detached (n : string)
| DetachFailed (n : string)
| Updated (n : string) (reset_metric : bool)
| UpdateFailed (n : string)
| Attached (n : string) (index : Z)
| NotReady (n : string).

Definition event_name (e : ManagerEvent) : string :=
  match e with
  | Detached n | DetachFailed n | Updated n _ | UpdateFailed n | Attached n _ | NotReady n => n
  end.

Definition Round : Type := S * gmap string AttachedInterface * list ManagerEvent * result InterfaceManagerError unit.

(** The link changed, as far as the transport in use sees it. *)
Definition link_changed (transport : ControlTransport) (value old : InterfaceSignature) : bool :=
  negb (sg_index value =? sg_index old) || negb (bool_decide (sg_up value = sg_up old)) ||
  match transport with
  | TransportIpv6 => negb (bool_decide (link_local_addresses value = link_local_addresses old))
  | TransportIpv4 => negb (bool_decide (ipv4_addresses value = ipv4_addresses old))
  end.

Definition is_stale (effective : option EffectiveInterface) (current : option InterfaceSignature)
    (a : AttachedInterface) : bool :=
  match effective with
  | None => true
  | Some p => negb (bool_decide (ei_control_transport p = ei_control_transport (at_policy a)))
              || negb (bool_decide (ei_mac p = ei_mac (at_policy a)))
  end ||
  match current with
  | None => true
  | Some value => link_changed (ei_control_transport (at_policy a)) value (signature a)
  end.

(** The names of the attached interfaces that must go. *)
Fixpoint stale_names (c : Config) (current : gmap string InterfaceSignature)
    (l : list (string * AttachedInterface)) : option (list string) :=
  match l with
  | [] => Some []
  | (n, a) :: rest =>
      effective ← effective_interface c n;
      names ← stale_names c current rest;
      Some (if is_stale effective (current !! n) a then n :: names else names)
  end.

Fixpoint detach_stale (names : list string) (attached : gmap string AttachedInterface) (s : S) : Round :=
  match names with
  | [] => (s, attached, [], Ok tt)
  | n :: rest =>
      let '(s, r) := call (CallRemoveInterface n) s in
      match r with
      | Err RouterStopped => (s, attached, [], Err ManagerRouterStopped)
      | _ =>
          let log := match r with Ok _ | Err (InterfaceNotFound _) => [] | _ => [DetachFailed n] end in
          let '(s, attached, events, result) := detach_stale rest (delete n attached) s in
          (s, attached, log ++ Detached n :: events, result)
      end
  end.

(** The attached interfaces whose policy changed, and whether its metric did. *)
Fixpoint changed_policies (c : Config) (l : list (string * AttachedInterface))
    : option (list (string * EffectiveInterface * bool)) :=
  match l with
  | [] => Some []
  | (n, a) :: rest =>
      effective ← effective_interface c n;
      changed ← changed_policies c rest;
      Some (match effective with
            | Some e => if bool_decide (e = at_policy a) then changed
                        else (n, e, negb (bool_decide (ei_metric e = ei_metric (at_policy a)))) :: changed
            | None => changed
            end)
  end.

Fixpoint update_changed (l : list (string * EffectiveInterface * bool)) (attached : gmap string AttachedInterface)
    (s : S) : option Round :=
  match l with
  | [] => Some (s, attached, [], Ok tt)
  | (n, e, reset_metric) :: rest =>
      policy ← result_ok (build_policy e);
      let '(s, r) := call (CallUpdateInterfacePolicy n policy reset_metric) s in
      match r with
      | Ok _ =>
          a ← attached !! n;
          '(s, attached, events, result) ← update_changed rest (<[n := MkAttached (signature a) e]> attached) s;
          Some (s, attached, Updated n reset_metric :: events, result)
      | Err RouterStopped => Some (s, attached, [], Err ManagerRouterStopped)
      | Err _ =>
          '(s, attached, events, result) ← update_changed rest attached s;
          Some (s, attached, UpdateFailed n :: events, result)
      end
  end.

(** Up, with an address for the transport. *)
Definition usable (transport : ControlTransport) (sg : InterfaceSignature) : bool :=
  sg_up sg &&
  match transport with
  | TransportIpv6 => negb (bool_decide (link_local_addresses sg = []))
  | TransportIpv4 => negb (bool_decide (ipv4_addresses sg = []))
  end.

Fixpoint attach_new (c : Config) (l : list (string * InterfaceSignature)) (attached : gmap string AttachedInterface)
    (s : S) : option Round :=
  match l with
  | [] => Some (s, attached, [], Ok tt)
  | (n, sg) :: rest =>
      effective ← effective_interface c n;
      match effective with
      | None => attach_new c rest attached s
      | Some e =>
          if bool_decide (is_Some (attached !! n)) || negb (usable (ei_control_transport e) sg)
          then attach_new c rest attached s
          else
            policy ← result_ok (build_policy e);
            let '(s, r) := call (CallAddInterfaceWithMac n policy (ei_mac e)) s in
            match r with
            | Ok _ =>
                '(s, attached, events, result) ← attach_new c rest (<[n := MkAttached sg e]> attached) s;
                Some (s, attached, Attached n (sg_index sg) :: events, result)
            | Err RouterStopped => Some (s, attached, [], Err ManagerRouterStopped)
            | Err _ =>
                '(s, attached, events, result) ← attach_new c rest attached s;
                Some (s, attached, NotReady n :: events, result)
            end
      end
  end.

(** The next phase of a round, unless the router stopped. *)
Definition next_phase (r : Round) (f : gmap string AttachedInterface -> S -> option Round) : option Round :=
  let '(s, attached, events, result) := r in
  match result with
  | Err e => Some (s, attached, events, Err e)
  | Ok _ =>
      '(s, attached, more, result) ← f attached s;
      Some (s, attached, events ++ more, result)
  end.

(** [reconcile]; [None] is a panic. *)
Definition reconcile (c : Config) (current : option (gmap string InterfaceSignature))
    (attached : gmap string AttachedInterface) (s : S) : option Round :=
  match current with
  | None => Some (s, attached, [], Err Enumerate)
  | Some current =>
      let '(s, status) := call CallStatus s in
      match status with
      | Ok (StatusReply st) =>
          let attached := base.filter (fun p => p.1 ∈ rst_interfaces st) attached in
          stale ← stale_names c current (btree_iter attached);
          next_phase (detach_stale stale attached s) (fun attached s =>
            changed ← changed_policies c (btree_iter attached);
            r ← update_changed changed attached s;
            next_phase r (attach_new c (btree_iter current)))
      | _ => Some (s, attached, [], Err ManagerRouterStopped)
      end
  end.

(** * The loop *)

(** What the loop selects on. *)
Inductive ManagerInput :=
| ShutdownChanged (closed value : bool)
| ConfigChanged (closed : bool)
| LinkMessage (ended : bool)
| IntervalTick.

(** One turn of [run]: the round it makes, or the result it returns. *)
Definition manager_turn (events_open : bool) (i : ManagerInput) (c : Config)
    (current : option (gmap string InterfaceSignature)) (attached : gmap string AttachedInterface) (s : S)
    : option (result InterfaceManagerError unit + bool * gmap string AttachedInterface * S * list ManagerEvent) :=
  let round events_open :=
    '(s, attached, events, result) ← reconcile c current attached s;
    Some (match result with
          | Err ManagerRouterStopped => inl (Err ManagerRouterStopped)
          | _ => inr (events_open, attached, s, events)
          end) in
  match i with
  | ShutdownChanged closed value => if closed || value then Some (inl (Ok tt)) else round events_open
  | ConfigChanged closed => if closed then Some (inl (Ok tt)) else round events_open
  | LinkMessage ended => round (events_open && negb ended)
  | IntervalTick => round events_open
  end.
End Reconcile.
