(* ===== verification/InterfaceTheorems.v ===== *)
(** A round of the interface manager brings the router's interfaces into agreement
    with the system and the configuration, and leaves alone what agrees already. *)
From S2P Require Import Prelude Net Mac Model Metric Wire WireDecode Api EngineState Neighbors Engine OutputSpec Invariant EngineSpec Scheduler Sender Router RouterLoop BatchSpec RouterTheorems Filters DaemonConfig Projection SourceViews DaemonTheorems State Handle Interfaces.
Import Hello.
Local Open Scope Z_scope.

Section Interfaces.
Context {NL : IpNetLib} {L : Libm}.
#[local] Existing Instance builtin_metrics.

(** * Against the interface *)

Section Round.
Context {HO : HashOrder} {B : Build} {S : Type} {H : Handle S} {HL : HandleLaws S}.
Context (c : Config) (eff : string -> option EffectiveInterface) (cur : gmap string InterfaceSignature).
Context (eff_ok : forall n, effective_interface c n = Some (eff n)).
Context (eff_valid : forall n e, eff n = Some e -> exists p, build_policy e = Ok p /\ router_validate_policy p = Ok tt).

(** What the manager knows of an interface is what the router runs. *)
Definition agrees (a : option AttachedInterface) (p : option InterfacePolicy) : Prop :=
  match a, p with
  | Some a, Some p => build_policy (at_policy a) = Ok p /\ usable (ei_control_transport (at_policy a)) (signature a) = true
  | None, None => True
  | _, _ => False
  end.
Definition exact (att : gmap string AttachedInterface) (v : gmap string InterfacePolicy) : Prop :=
  forall n, agrees (att !! n) (v !! n).

Lemma build_transport e p : build_policy e = Ok p -> control_transport p = ei_control_transport e.
Proof. unfold build_policy. destruct (build_metric (ei_metric e)); [|done]. by intros [= <-]. Qed.

(** ** Detaching *)

Definition removed {A} (names : list string) (m : gmap string A) : gmap string A := foldl (fun m n => delete n m) m names.

Lemma lookup_removed {A} names : forall (m : gmap string A) n, removed names m !! n = if bool_decide (n ∈ names) then None else m !! n.
Proof.
  induction names as [|x names IH]; intros m n; simpl; [done|]. rewrite IH.
  destruct (decide (n = x)) as [->|Hn]; [|rewrite lookup_delete_ne by done].
  - rewrite lookup_delete_eq, (bool_decide_true (x ∈ x :: names)) by constructor. by case_bool_decide.
  - apply (f_equal (fun b : bool => if b then _ else _)), bool_decide_ext. rewrite elem_of_cons. tauto.
Qed.

Lemma detach_spec names : forall att v s, view s v -> exists s',
  detach_stale names att s = (s', removed names att, Detached <$> names, Ok tt) /\ view s' (removed names v).
Proof.
  induction names as [|n names IH]; intros att v s Hv; cbn [detach_stale]; [by exists s|].
  destruct (call_remove s v n Hv) as (s1 & Hv1 & Hc). destruct (IH (delete n att) _ _ Hv1) as (s' & E & Hv').
  exists s'. split; [|done]. destruct Hc as [-> | ->]; cbn [app]; by rewrite E.
Qed.

Lemma stale_spec l : exists names, stale_names c cur l = Some names /\
  (forall n, n ∈ names <-> exists a, (n, a) ∈ l /\ is_stale (eff n) (cur !! n) a = true).
Proof.
  induction l as [|[n a] l (names & E & IH)]; cbn [stale_names].
  - exists []. split; [done|]. intros n. rewrite elem_of_nil. split; [done|]. intros (a & Ha%elem_of_nil & _). done.
  - rewrite eff_ok, E. cbn [mbind option_bind]. eexists. split; [done|]. intros m. destruct (is_stale _ _ a) eqn:Es.
    + rewrite elem_of_cons, IH. split.
      * intros [->|(b & Hb & Hs)]; [exists a; split; [by left|done]|exists b; split; [by right|done]].
      * intros (b & [[= -> ->]|Hb]%elem_of_cons & Hs); [by left|right; by exists b].
    + rewrite IH. split; intros (b & Hb & Hs).
      * exists b. split; [by right|done].
      * apply elem_of_cons in Hb as [[= -> ->]|Hb]; [congruence|by exists b].
Qed.

(** ** New policies *)

Lemma changed_spec l : NoDup l.*1 -> exists ch, changed_policies c l = Some ch /\ NoDup ch.*1.*1 /\
  (forall n e r, (n, e, r) ∈ ch -> exists a, (n, a) ∈ l /\ eff n = Some e /\ e <> at_policy a) /\
  (forall n e a, (n, a) ∈ l -> eff n = Some e -> e <> at_policy a -> n ∈ ch.*1.*1).
Proof.
  induction l as [|[n a] l IH]; cbn [changed_policies]; rewrite ?fmap_cons; [|intros [Hn Hd]%list.NoDup_cons].
  { intros _. exists []. split_and!; [done|constructor|by intros ??? ?%elem_of_nil|by intros ??? ?%elem_of_nil]. }
  destruct (IH Hd) as (ch & E & Hnd & H1 & H2). rewrite eff_ok, E. cbn [mbind option_bind].
  assert (forall n' e r, (n', e, r) ∈ ch -> exists b, (n', b) ∈ (n, a) :: l /\ eff n' = Some e /\ e <> at_policy b) as H1'.
  { intros n' e r Hin. destruct (H1 _ _ _ Hin) as (b & Hb & Hr). exists b. split; [by right|done]. }
  destruct (eff n) as [e|] eqn:Ee; [case_bool_decide as He|]; (eexists; split; [done|]).
  - split_and!; [done|done|]. intros n' e' b [[= -> ->]|Hin]%elem_of_cons He' Hb; [congruence|by eapply H2].
  - split_and!.
    + rewrite !fmap_cons. constructor; [|done]. intros ([n' e'] & En & ([[n2 e2] r2] & [= -> ->] & Hin)%list_elem_of_fmap)%list_elem_of_fmap.
      simpl in En. subst n2. destruct (H1 _ _ _ Hin) as (b & Hb & _). apply Hn. apply list_elem_of_fmap. by exists (n, b).
    + intros n' e' r' [[= -> -> ->]|Hin]%elem_of_cons; [|by eapply H1']. exists a. split; [by left|done].
    + intros n' e' b Hin He' Hb. rewrite !fmap_cons. apply elem_of_cons in Hin as [[= -> ->]|Hin]; [by left|right; by eapply H2].
  - split_and!; [done|done|]. intros n' e' b [[= -> ->]|Hin]%elem_of_cons He' Hb; [congruence|by eapply H2].
Qed.

Lemma update_spec l : forall att v s, view s v -> exact att v -> NoDup l.*1.*1 ->
  (forall n e r, (n, e, r) ∈ l -> exists a, att !! n = Some a /\ eff n = Some e /\
     ei_control_transport e = ei_control_transport (at_policy a)) ->
  exists s' att' v', update_changed l att s = Some (s', att', (fun x => Updated x.1.1 x.2) <$> l, Ok tt) /\
    view s' v' /\ exact att' v' /\
    (forall n e r, (n, e, r) ∈ l -> exists a, att !! n = Some a /\ att' !! n = Some (MkAttached (signature a) e)) /\
    (forall n, n ∉ l.*1.*1 -> att' !! n = att !! n).
Proof.
  induction l as [|[[n e] r] l IH]; intros att v s Hv Hx Hnd Hl; cbn [update_changed].
  { exists s, att, v. split_and!; try done. by intros ??? ?%elem_of_nil. }
  rewrite !fmap_cons in Hnd. apply list.NoDup_cons in Hnd as [Hn Hnd]. simpl in Hn.
  destruct (Hl n e r) as (a & Ha & He & Ht); [by left|]. destruct (eff_valid _ _ He) as (p & Hp & Hval).
  pose proof (Hx n) as Hxn. rewrite Ha in Hxn. destruct (v !! n) as [q|] eqn:Eq; [|done]. destruct Hxn as [Hq Hu].
  rewrite Hp. cbn [result_ok mbind option_bind].
  destruct (call_update s v n p q r Hv Eq) as (s1 & -> & Hv1);
    [rewrite (build_transport _ _ Hp), (build_transport _ _ Hq); congruence|done|]. rewrite Ha. cbn [mbind option_bind].
  destruct (IH (<[n := MkAttached (signature a) e]> att) _ s1 Hv1) as (s' & att' & v' & -> & Hv' & Hx' & H1 & H2).
  - intros m. destruct (decide (m = n)) as [->|Hm]; [rewrite !lookup_insert_eq|rewrite !lookup_insert_ne by done; apply Hx].
    simpl. split; [done|]. by rewrite Ht.
  - done.
  - intros m e' r' Hin. assert (m <> n) as Hm.
    { intros ->. apply Hn, list_elem_of_fmap. exists (n, e'). split; [done|]. apply list_elem_of_fmap. by exists (n, e', r'). }
    rewrite lookup_insert_ne by done. apply (Hl m e' r'). by right.
  - exists s', att', v'. split; [done|]. split; [done|]. split; [done|]. split.
    + intros m e' r' [[= -> -> ->]|Hin]%elem_of_cons.
      * exists a. split; [done|]. rewrite H2 by done. by rewrite lookup_insert_eq.
      * destruct (H1 _ _ _ Hin) as (b & Hb & Hb'). destruct (decide (m = n)) as [->|Hm].
        -- rewrite lookup_insert_eq in Hb. injection Hb as <-. by exists a.
        -- rewrite lookup_insert_ne in Hb by done. by exists b.
    + intros m. rewrite !fmap_cons, not_elem_of_cons. intros [Hm Hl']. rewrite H2 by done. by rewrite lookup_insert_ne.
Qed.

(** ** Attaching *)

(** What becomes of the interfaces of the system that were not attached. *)
Record attach_ok (l : list (string * InterfaceSignature)) (att att' : gmap string AttachedInterface)
    (log : list ManagerEvent) : Prop := {
  ao_kept n a : att !! n = Some a -> att' !! n = Some a;
  ao_new n a : att' !! n = Some a -> att !! n = Some a \/ ((n, signature a) ∈ l /\ eff n = Some (at_policy a));
  ao_all n sg e : (n, sg) ∈ l -> eff n = Some e -> usable (ei_control_transport e) sg = true ->
    is_Some (att' !! n) \/ NotReady n ∈ log;
  ao_log n : n ∈ event_name <$> log -> att !! n = None
}.

Lemma attach_ok_skip n sg l att att' log : attach_ok l att att' log ->
  (forall e, eff n = Some e -> usable (ei_control_transport e) sg = true -> is_Some (att !! n)) ->
  attach_ok ((n, sg) :: l) att att' log.
Proof.
  intros [H1 H2 H3 H4] Hs. split; [done| | |done].
  - intros m a Hm. destruct (H2 _ _ Hm) as [?|[Hin ?]]; [by left|]. right. split; [by right|done].
  - intros m sg' e [[= -> ->]|Hin]%elem_of_cons He Hu; [|by eapply H3]. left. destruct (Hs e He Hu) as [a Ha]. exists a. auto.
Qed.

Lemma attach_ok_add n sg e l att att' log : attach_ok l (<[n := MkAttached sg e]> att) att' log ->
  att !! n = None -> eff n = Some e -> attach_ok ((n, sg) :: l) att att' (Attached n (sg_index sg) :: log).
Proof.
  intros [H1 H2 H3 H4] Ea Ee. split.
  - intros m a Hm. apply H1. rewrite lookup_insert_ne; [done|congruence].
  - intros m a Hm. destruct (H2 _ _ Hm) as [Hi|[Hin ?]]; [|right; split; [by right|done]].
    apply lookup_insert_Some in Hi as [[<- <-]|[_ Hi]]; [right; split; [by left|done]|by left].
  - intros m sg' e' [[= -> ->]|Hin]%elem_of_cons He Hu.
    + left. exists (MkAttached sg e). apply H1. by rewrite lookup_insert_eq.
    + destruct (H3 _ _ _ Hin He Hu) as [?|?]; [by left|right; by right].
  - intros m. rewrite fmap_cons. intros [->|Hin]%elem_of_cons; [done|]. apply H4 in Hin.
    by apply lookup_insert_None in Hin as [Hin _].
Qed.

Lemma attach_ok_fail n sg l att att' log : attach_ok l att att' log -> att !! n = None ->
  attach_ok ((n, sg) :: l) att att' (NotReady n :: log).
Proof.
  intros [H1 H2 H3 H4] Ea. split; [done| | |].
  - intros m a Hm. destruct (H2 _ _ Hm) as [?|[Hin ?]]; [by left|]. right. split; [by right|done].
  - intros m sg' e' [[= -> ->]|Hin]%elem_of_cons He Hu; [right; by left|].
    destruct (H3 _ _ _ Hin He Hu) as [?|?]; [by left|right; by right].
  - intros m. rewrite fmap_cons. intros [->|Hin]%elem_of_cons; [done|by apply H4].
Qed.

Lemma attach_spec l : forall att v s, view s v -> exact att v -> NoDup l.*1 ->
  exists s' att' v' log, attach_new c l att s = Some (s', att', log, Ok tt) /\ view s' v' /\ exact att' v' /\
    attach_ok l att att' log.
Proof.
  induction l as [|[n sg] l IH]; intros att v s Hv Hx Hnd; cbn [attach_new].
  { exists s, att, v, []. split_and!; try done. split; [done|by left|by intros ??? ?%elem_of_nil|by intros ? ?%elem_of_nil]. }
  rewrite fmap_cons in Hnd. apply list.NoDup_cons in Hnd as [Hn Hnd]. simpl in Hn. rewrite eff_ok. cbn [mbind option_bind].
  destruct (IH att v s Hv Hx Hnd) as (s0 & att0 & v0 & log0 & E0 & Hv0 & Hx0 & Hok0).
  destruct (eff n) as [e|] eqn:Ee; [destruct (bool_decide _ || _) eqn:Eb|].
  - exists s0, att0, v0, log0. split_and!; [done..|]. apply attach_ok_skip; [done|]. intros e' He' Hu.
    rewrite Ee in He'. injection He' as <-. rewrite Hu in Eb. simpl in Eb. rewrite orb_false_r in Eb.
    by apply bool_decide_eq_true in Eb.
  - clear s0 att0 v0 log0 E0 Hv0 Hx0 Hok0.
    apply orb_false_iff in Eb as [Ea%bool_decide_eq_false Eu%negb_false_iff]. apply eq_None_not_Some in Ea.
    destruct (eff_valid _ _ Ee) as (p & Hp & Hval). rewrite Hp. cbn [result_ok mbind option_bind].
    pose proof (Hx n) as Hxn. rewrite Ea in Hxn. destruct (v !! n) eqn:Ev; [done|].
    destruct (call_add s v n p (ei_mac e) Hv Ev Hval) as (s1 & [[-> Hv1]|[-> Hv1]]).
    + destruct (IH (<[n := MkAttached sg e]> att) _ s1 Hv1) as (s' & att' & v' & log & -> & Hv' & Hx' & Hok); [|done|].
      { intros m. destruct (decide (m = n)) as [->|Hm]; [by rewrite !lookup_insert_eq|rewrite !lookup_insert_ne by done; apply Hx]. }
      exists s', att', v', (Attached n (sg_index sg) :: log). split_and!; [done..|]. by eapply attach_ok_add.
    + destruct (IH att _ s1 Hv1 Hx Hnd) as (s' & att' & v' & log & -> & Hv' & Hx' & Hok).
      exists s', att', v', (NotReady n :: log). split_and!; [done..|]. by apply attach_ok_fail.
  - exists s0, att0, v0, log0. split_and!; [done..|]. apply attach_ok_skip; [done|]. congruence.
Qed.

(** ** A round *)

(** The manager knows every interface of the router, and may know some that the
    router lost since. *)
Record tracks (att : gmap string AttachedInterface) (v : gmap string InterfacePolicy) : Prop := {
  tr_known n p : v !! n = Some p -> exists a, att !! n = Some a /\ build_policy (at_policy a) = Ok p;
  tr_usable n a : att !! n = Some a -> usable (ei_control_transport (at_policy a)) (signature a) = true
}.

Lemma tracks_subseteq att v v' : v' ⊆ v -> tracks att v -> tracks att v'.
Proof. intros Hs [H1 H2]. split; [|done]. intros n p Hn. apply H1. by eapply lookup_weaken. Qed.

Lemma exact_tracks att v : exact att v -> tracks att v.
Proof.
  intros Hx. split; intros n x Hn; specialize (Hx n); rewrite Hn in Hx.
  - destruct (att !! n) as [a|]; [|done]. exists a. by destruct Hx.
  - destruct (v !! n); [by destruct Hx|done].
Qed.

(** The interface is what the system and the configuration ask for. *)
Record served (n : string) (a : AttachedInterface) (p : option InterfacePolicy) : Prop := {
  sv_policy : eff n = Some (at_policy a);
  sv_link : exists sg, cur !! n = Some sg /\ usable (ei_control_transport (at_policy a)) sg = true /\
    link_changed (ei_control_transport (at_policy a)) sg (signature a) = false;
  sv_router : exists q, p = Some q /\ build_policy (at_policy a) = Ok q
}.

(** The promise of a round. *)
Record converged (att : gmap string AttachedInterface) (v : gmap string InterfacePolicy)
    (att' : gmap string AttachedInterface) (v' : gmap string InterfacePolicy) (log : list ManagerEvent) : Prop := {
  cv_tracks : tracks att' v';
  cv_served n a : att' !! n = Some a -> served n a (v' !! n);
  cv_rest n : att' !! n = None -> v' !! n = None /\
    (forall sg e, cur !! n = Some sg -> eff n = Some e -> usable (ei_control_transport e) sg = true -> NotReady n ∈ log);
  cv_undisturbed n a : att !! n = Some a -> served n a (v !! n) -> att' !! n = Some a /\ n ∉ event_name <$> log
}.

Lemma link_same_usable t sg old : link_changed t sg old = false -> usable t sg = usable t old.
Proof.
  unfold link_changed, usable. intros [[_ Hu%negb_false_iff%bool_decide_eq_true]%orb_false_iff Ha]%orb_false_iff. rewrite Hu.
  by destruct t; apply negb_false_iff, bool_decide_eq_true in Ha as ->.
Qed.

Lemma link_unchanged t sg : link_changed t sg sg = false.
Proof. unfold link_changed. rewrite Z.eqb_refl. by destruct t; rewrite !bool_decide_true. Qed.

Lemma fresh_spec n a : is_stale (eff n) (cur !! n) a = false <-> exists e sg,
  eff n = Some e /\ ei_control_transport e = ei_control_transport (at_policy a) /\ ei_mac e = ei_mac (at_policy a) /\
  cur !! n = Some sg /\ link_changed (ei_control_transport (at_policy a)) sg (signature a) = false.
Proof.
  unfold is_stale. split.
  - destruct (eff n) as [e|]; [|done]. destruct (cur !! n) as [sg|]; [|by rewrite orb_true_r].
    intros [[Ht%negb_false_iff%bool_decide_eq_true Hm%negb_false_iff%bool_decide_eq_true]%orb_false_iff Hl]%orb_false_iff.
    by exists e, sg.
  - intros (e & sg & -> & Ht & Hm & -> & Hl). rewrite Hl. by rewrite !bool_decide_true.
Qed.

Lemma served_fresh n a p : served n a p -> is_stale (eff n) (cur !! n) a = false.
Proof. intros [He (sg & Hs & _ & Hl) _]. apply fresh_spec. by exists (at_policy a), sg. Qed.

Lemma exact_removed names att v : exact att v -> exact (removed names att) (removed names v).
Proof. intros Hx n. rewrite !lookup_removed. case_bool_decide; [done|apply Hx]. Qed.

(** The interfaces of the router the manager knows. *)
Lemma active_exact att v (st : list string) : tracks att v -> (forall n, n ∈ st <-> is_Some (v !! n)) ->
  exact (base.filter (fun p => p.1 ∈ st) att) v /\
  (forall n a, base.filter (fun p => p.1 ∈ st) att !! n = Some a <-> att !! n = Some a /\ is_Some (v !! n)).
Proof.
  intros [Hk Hu] Hst. assert (forall n a, base.filter (fun p => p.1 ∈ st) att !! n = Some a <-> att !! n = Some a /\ is_Some (v !! n)) as Hf.
  { intros n a. rewrite map_lookup_filter_Some. by rewrite Hst. }
  split; [|done]. intros n. destruct (base.filter _ att !! n) as [a|] eqn:Ea.
  - apply Hf in Ea as [Ea [p Hp]]. rewrite Hp. simpl. split; [|by eapply Hu]. destruct (Hk _ _ Hp) as (b & Hb & Hp'). congruence.
  - destruct (v !! n) as [p|] eqn:Ep; [|done]. destruct (Hk _ _ Ep) as (b & Hb & _).
    assert (base.filter (fun p => p.1 ∈ st) att !! n = Some b) as E by (apply Hf; rewrite Ep; eauto). congruence.
Qed.

(** After the first two phases, what stays has its configured policy and its link. *)
Definition settled (att att' : gmap string AttachedInterface) : Prop :=
  (forall n a', att' !! n = Some a' -> exists a, att !! n = Some a /\ is_stale (eff n) (cur !! n) a = false /\
     signature a' = signature a /\ eff n = Some (at_policy a')) /\
  (forall n a, att !! n = Some a -> eff n = Some (at_policy a) -> is_stale (eff n) (cur !! n) a = false -> att' !! n = Some a).

Lemma settle att v s : view s v -> exact att v -> exists s' att' v' log names,
  stale_names c cur (btree_iter att) = Some names /\
  next_phase (detach_stale names att s) (fun att s => ch ← changed_policies c (btree_iter att); update_changed ch att s) =
    Some (s', att', log, Ok tt) /\
  view s' v' /\ exact att' v' /\ settled att att' /\
  (forall n a, att !! n = Some a -> eff n = Some (at_policy a) -> is_stale (eff n) (cur !! n) a = false -> n ∉ event_name <$> log).
Proof.
  intros Hv Hx. destruct (stale_spec (btree_iter att)) as (names & En & Hnames).
  destruct (detach_spec names att v s Hv) as (s1 & E1 & Hv1). pose proof (exact_removed names _ _ Hx) as Hx1.
  assert (forall n a, removed names att !! n = Some a <-> att !! n = Some a /\ is_stale (eff n) (cur !! n) a = false) as Hat.
  { intros n a. rewrite lookup_removed. case_bool_decide as Hb.
    - apply Hnames in Hb as (b & Hb%btree_iter_lookup & Hs). split; [done|]. intros [? ?]. congruence.
    - split; [|by intros []]. intros Ha. split; [done|]. apply not_true_iff_false. intros Hs. apply Hb, Hnames. exists a.
      by rewrite btree_iter_lookup. }
  destruct (changed_spec (btree_iter (removed names att)) (btree_iter_NoDup _)) as (ch & Ec & Hnd & Hc1 & Hc2).
  destruct (update_spec ch (removed names att) (removed names v) s1 Hv1 Hx1 Hnd) as (s2 & att2 & v2 & E2 & Hv2 & Hx2 & Hu1 & Hu2).
  { intros n e r Hin. destruct (Hc1 _ _ _ Hin) as (a & Ha%btree_iter_lookup & He & _). exists a. split; [done|]. split; [done|].
    apply Hat in Ha as [_ (e' & sg & He' & Ht & _)%fresh_spec]. congruence. }
  assert (forall n a, att !! n = Some a -> eff n = Some (at_policy a) -> is_stale (eff n) (cur !! n) a = false -> n ∉ ch.*1.*1) as Hnc.
  { intros n a Ha He Hs ([n' e'] & -> & ([[n2 e2] r] & [= -> ->] & Hin)%list_elem_of_fmap)%list_elem_of_fmap. simpl in *.
    destruct (Hc1 _ _ _ Hin) as (b & Hb%btree_iter_lookup & He2 & Hne). apply Hat in Hb as [Hb _]. congruence. }
  exists s2, att2, v2, ((Detached <$> names) ++ ((fun x => Updated x.1.1 x.2) <$> ch)), names.
  split; [done|]. split; [|split; [done|]; split; [done|]; split].
  - rewrite E1. cbn [next_phase]. rewrite Ec. cbn [mbind option_bind]. rewrite E2. done.
  - split.
    + intros n a' Ha'. destruct (decide (n ∈ ch.*1.*1)) as [([n' e'] & -> & ([[n2 e2] r] & [= -> ->] & Hin)%list_elem_of_fmap)%list_elem_of_fmap|Hn].
      * simpl in *. destruct (Hu1 _ _ _ Hin) as (a & Ha & Ha2). rewrite Ha2 in Ha'. injection Ha' as <-.
        apply Hat in Ha as [Ha Hs]. destruct (Hc1 _ _ _ Hin) as (_ & _ & He & _). by exists a.
      * rewrite (Hu2 _ Hn) in Ha'. pose proof Ha' as [Ha Hs]%Hat. exists a'. split_and!; try done.
        apply fresh_spec in Hs as (e & sg & He & _). destruct (decide (e = at_policy a')) as [->|Hne]; [done|].
        exfalso. apply Hn. eapply Hc2; [by apply btree_iter_lookup|done|done].
    + intros n a Ha He Hs. rewrite Hu2 by (by eapply Hnc). by apply Hat.
  - intros n a Ha He Hs. rewrite fmap_app, elem_of_app, !list_elem_of_fmap.
    intros [(ev & -> & (m & -> & Hm)%list_elem_of_fmap)|(ev & -> & ([[m e] r] & -> & Hm)%list_elem_of_fmap)].
    + simpl in *. apply Hnames in Hm as (b & Hb%btree_iter_lookup & Hs'). congruence.
    + simpl in *. eapply Hnc; [exact Ha|exact He|exact Hs|]. apply list_elem_of_fmap. exists (m, e). split; [done|].
      apply list_elem_of_fmap. by exists (m, e, r).
Qed.

Lemma round_converges att v s : view s v -> tracks att v -> exists s' att' v' log,
  reconcile c (Some cur) att s = Some (s', att', log, Ok tt) /\ view s' v' /\ converged att v att' v' log.
Proof.
  intros Hv Ht. unfold reconcile. destruct (call_status s v Hv) as (s0 & st & -> & Hv0 & Hst).
  destruct (active_exact att v _ Ht Hst) as [Hx Hf]. set (att0 := base.filter _ att) in *. clearbody att0. clear Hst.
  destruct (settle att0 v s0 Hv0 Hx) as (s1 & att1 & v1 & log1 & names & En & E1 & Hv1 & Hx1 & [Hs1 Hs2] & Hl1).
  destruct (attach_spec (btree_iter cur) att1 v1 s1 Hv1 Hx1 (btree_iter_NoDup _)) as (s2 & att2 & v2 & log2 & E2 & Hv2 & Hx2 & [H1 H2 H3 H4]).
  rewrite En. cbn [mbind option_bind]. exists s2, att2, v2, (log1 ++ log2). split; [|split; [done|split]].
  - destruct (detach_stale names att0 s0) as [[[sd attd] logd] [[]|e]]; cbn [next_phase] in *; [|done].
    destruct (changed_policies c (btree_iter attd)) as [ch'|]; cbn [mbind option_bind] in *; [|done].
    destruct (update_changed ch' attd sd) as [[[[su attu] logu] ru]|]; cbn [mbind option_bind] in *; [|done].
    injection E1 as -> -> <- ->. cbn [next_phase]. rewrite E2. cbn [mbind option_bind]. by rewrite app_assoc.
  - by apply exact_tracks.
  - intros n a Ha. pose proof (Hx2 n) as Hxn. rewrite Ha in Hxn. destruct (v2 !! n) as [q|] eqn:Eq; [|done]. destruct Hxn as [Hq Hu].
    destruct (H2 _ _ Ha) as [Ha1|[Hin%btree_iter_lookup He]].
    + destruct (Hs1 _ _ Ha1) as (b & Hb & (e & sg & He & Htr & _ & Hsg & Hlk)%fresh_spec & Hsig & He').
      rewrite He in He'. injection He' as ->. split; [done| |by exists q].
      exists sg. rewrite Htr, Hsig. split; [done|]. split; [|done]. rewrite (link_same_usable _ _ _ Hlk), <- Hsig, <- Htr. done.
    + split; [done| |by exists q]. exists (signature a). split; [done|]. split; [done|]. apply link_unchanged.
  - intros n Hn. pose proof (Hx2 n) as Hxn. rewrite Hn in Hxn. split; [by destruct (v2 !! n)|].
    intros sg e Hsg He Hu. destruct (H3 n sg e) as [[a Ha]|Hin]; [by apply btree_iter_lookup|done|done|congruence|].
    apply elem_of_app. by right.
  - intros n a Ha Hsv. assert (att0 !! n = Some a) as Ha0.
    { apply Hf. split; [done|]. destruct (sv_router _ _ _ Hsv) as (q & -> & _). by exists q. }
    pose proof (served_fresh _ _ _ Hsv) as Hfr. destruct Hsv as [He _ _].
    pose proof (Hs2 _ _ Ha0 He Hfr) as Ha1. split; [by apply H1|]. rewrite fmap_app, elem_of_app. intros [Hin|Hin%H4]; [|congruence].
    by eapply Hl1.
Qed.
End Round.
(** * With the router *)

Section Managed.
Context {HO : HashOrder} {B : Build} {NC : NetContains}.
Context (release : overflow_checks = false).
Context (read : string -> option (list byte)) (around : nat -> CallEnv) (all_calm : forall k, calm (around k)).

(** The policy of a name, for a configuration that was parsed. *)
Definition policy_of (c : Config) (n : string) : option EffectiveInterface := default None (effective_interface c n).

Definition loaded (c : Config) : Prop := exists value, parse read value = Ok c /\ Forall section_typed (interfaces value).

(** The router of the daemon and what the manager knows, from the start through
    rounds and whatever happens between them; the configuration may be another one
    in every round. *)
Inductive managed : option Router * nat -> gmap string AttachedInterface -> Prop :=
| managed_start c id seqno b via env now r :
    loaded c -> daemon_builder c id seqno = Ok b -> (forall j, in_u64 (now j)) ->
    start b via ∅ env now = Some (Ok r) -> managed (Some r, 0%nat) ∅
| managed_inputs r k att inputs r' :
    managed (Some r, k) att -> Forall times_ok inputs -> Forall (fun i => undirected i = true) inputs ->
    loop inputs r = Some r' -> managed (Some r', k) att
| managed_round s att c current s' att' events result :
    managed s att -> loaded c ->
    reconcile (H := router_handle around) c current att s = Some (s', att', events, result) -> managed s' att'.

#[local] Existing Instance router_handle_laws.

Lemma loaded_round c current att v s : loaded c -> router_view s v -> tracks att v ->
  exists s' att' v' log, reconcile (H := router_handle around) c (Some current) att s = Some (s', att', log, Ok tt) /\
    router_view s' v' /\ converged (policy_of c) current att v att' v' log.
Proof.
  intros (value & Hp & Hty) Hv Ht. pose proof (parsed_interfaces read value c Hp Hty) as Hall.
  assert (forall n, effective_interface c n = Some (policy_of c n)) as Heff.
  { intros n. destruct (Hall n) as (ei & He & _). unfold policy_of. by rewrite He. }
  apply (round_converges (HL := router_handle_laws around release all_calm) c (policy_of c) current); [done| |done|done].
  intros n e He. destruct (Hall n) as (ei & He' & Hei). unfold policy_of in He. rewrite He' in He. simpl in He. subst ei.
  destruct Hei as (_ & p & _ & _ & _ & Hb & Hval). by exists p.
Qed.

Lemma managed_inv s att : managed s att -> exists v, router_view s v /\ tracks att v.
Proof.
  induction 1 as [c id seqno b via env now r (value & Hp & _) Hb Ht Hr|r k att inputs r' _ (v & Hv & Htr) Ht Hu Hl|
    s att c current s' att' events result _ (v & Hv & Htr) Hc Hrec].
  - exists ∅. split; [|split; intros n x Hn; by rewrite lookup_empty in Hn].
    destruct (parsed_builder read value c id seqno Hp) as (b' & Hb' & Hval). rewrite Hb in Hb'. injection Hb' as <-.
    destruct (started_view release b via env now 0 Hval) as (r' & Hr' & Hv); [|done|by rewrite Hr in Hr'; injection Hr' as <-].
    by apply daemon_builder_ok in Hb as (os & _ & ->).
  - destruct (undirected_view release inputs r k v Ht Hu Hv) as (r1 & v1 & Hl1 & Hv1 & Hs). rewrite Hl in Hl1. injection Hl1 as <-.
    exists v1. split; [done|]. by eapply tracks_subseteq.
  - destruct current as [current|]; [|injection Hrec as <- <- _ _; by exists v].
    destruct (loaded_round c current att v s Hc Hv Htr) as (s1 & att1 & v1 & log & E & Hv1 & [Ht1 _ _ _]).
    rewrite Hrec in E. injection E as -> -> _ _. by exists v1.
Qed.

(** C29. The interface manager converges, together with the router: at any time of
    a daemon's life, after any earlier rounds and configurations and any packets,
    ticks, socket failures and other calls, a round with a configuration that was
    accepted and the interfaces the system has now ends without an error or a
    panic, while the router goes on serving its other inputs between the calls, as
    long as no socket fails and nobody else attaches or detaches interfaces during
    the round.
    Afterwards the router serves exactly the interfaces that the manager holds;
    each of these exists, is up, has an address of its transport, runs the policy
    its section asks for, and has not changed its link since it was attached; an
    interface that should be served and is not was reported as not ready; and one
    that was served like this before is not touched. *)
Theorem interfaces_converge s att c current : managed s att -> loaded c ->
  exists v s' att' v' log, router_view s v /\
    reconcile (H := router_handle around) c (Some current) att s = Some (s', att', log, Ok tt) /\
    router_view s' v' /\ converged (policy_of c) current att v att' v' log.
Proof.
  intros (v & Hv & Ht)%managed_inv Hc. exists v.
  destruct (loaded_round c current att v s Hc Hv Ht) as (s' & att' & v' & log & H). by exists s', att', v', log.
Qed.
End Managed.
End Interfaces.
