(* ===== verification/Control.v ===== *)
(** The control socket of the daemon ([control.rs]): JSON values, frames,
    requests, the commands and their answers, a client's session, and the client of
    the command line.

    JSON is a parameter ([Json]), and so are the texts of networks (from [ipnet])
    and of the diagnostics in error responses. *)
From Stdlib Require Import String.
From stdpp Require Import pretty.
From S2P Require Import Prelude Net Mac Model Metric Wire Api Scheduler Sender Router RouterLoop DaemonConfig Recovery Exporter State.
Local Open Scope Z_scope.

(** * Texts *)

Definition show_number (n : Z) : string := pretty (Z.to_N n).

(** [to_string] of an address. *)
Definition show_ip (a : IpAddr) : string := String.string_of_list_byte (addr_to_string a).

(** [Display] of [RouterId]: the octets, with colons. *)
Definition show_router_id (id : RouterId) : string :=
  String.string_of_list_byte (join_bytes COLON (show_octet <$> arr_list (octets id))).

(** * Values *)

(** A JSON text as a tree, fields in the order of the text; a number that is not an
    integer of 64 bits is kept as its text. *)
Inductive Value :=
| JNull
| JBool (b : bool)
| JNumber (n : Z)
| JFloat (text : string)
| JString (s : string)
| JArray (l : list Value)
| JObject (fields : list (string * Value)).

(** [Value::get]: a map keeps the last of the fields with a name. *)
Fixpoint last_field (name : string) (fields : list (string * Value)) : option Value :=
  match fields with
  | [] => None
  | (n, v) :: rest =>
      match last_field name rest with
      | Some w => Some w
      | None => if bool_decide (n = name) then Some v else None
      end
  end.
Definition get (name : string) (v : Value) : option Value :=
  match v with JObject fields => last_field name fields | _ => None end.

(** What [serde_json] writes and reads back: integers of 64 bits, and no deeper than
    its limit of recursion. *)
Fixpoint plain (depth : nat) (v : Value) : bool :=
  match depth with
  | O => false
  | S depth =>
      match v with
      | JNull | JBool _ | JString _ => true
      | JNumber n => (-9223372036854775808 <=? n) && (n <=? 18446744073709551615)
      | JFloat _ => false
      | JArray l => forallb (plain depth) l
      | JObject fields => forallb (fun p => plain depth p.2) fields
      end
  end.
Definition JSON_DEPTH : nat := 127.

Class Json : Type := {
  to_vec : Value -> list byte;
  parse_json : list byte -> option Value
}.

(** Compact output has no control characters (those in strings are escaped), and is
    read back; an empty text is no value. *)
Class JsonLaws {J : Json} : Prop := {
  json_round_trip v : plain JSON_DEPTH v = true -> parse_json (to_vec v) = Some v;
  json_printable v : Forall (fun b => 32 <= u8 b) (to_vec v);
  json_empty : parse_json [] = None
}.

Definition jopt {A} (f : A -> Value) (o : option A) : Value := match o with Some a => f a | None => JNull end.
Definition jnat (n : nat) : Value := JNumber (Z.of_nat n).

(** * Constants *)

Definition API_VERSION : Z := 1.
Definition MAX_FRAME : Z := 1024 * 1024.
Definition CLIENT_IO_TIMEOUT : Z := 30000.

Definition LF : byte := b8 10.
Definition CR : byte := b8 13.

(** * Frames *)

Inductive IoError := FrameTooLong | ResponseTooLong | TimedOut | StreamError.

(** [take(limit).read_until]: the bytes up to the first line feed, and the rest. *)
Fixpoint read_until (limit : Z) (s : list byte) : list byte * list byte :=
  match s with
  | [] => ([], [])
  | b :: rest =>
      if limit <=? 0 then ([], s)
      else if bool_decide (b = LF) then ([b], rest)
      else let '(frame, rest) := read_until (limit - 1) rest in (b :: frame, rest)
  end.

Fixpoint pop_line_ends (reversed : list byte) : list byte :=
  match reversed with
  | b :: rest => if bool_decide (b = LF) || bool_decide (b = CR) then pop_line_ends rest else reversed
  | [] => []
  end.

(** [read_frame]: no frame at the end of the stream. *)
Definition read_frame (s : list byte) : result IoError (option (list byte)) * list byte :=
  let '(frame, rest) := read_until (MAX_FRAME + 1) s in
  let length := Z.of_nat (length frame) in
  (if length =? 0 then Ok None
   else if MAX_FRAME <? length then Err FrameTooLong
   else Ok (Some (reverse (pop_line_ends (reverse frame)))), rest).

(** An operation on a stream: how it ends, and after how many milliseconds
    ([None]: never). *)
Definition Operation (A : Type) : Type := result IoError A * option Z.

(** [io_timeout]: how the operation ends under its deadline, and the time it takes. *)
Definition io_timeout {A} (operation : Operation A) : result IoError A * Z :=
  match operation.2 with
  | Some ms => if ms <=? CLIENT_IO_TIMEOUT then (operation.1, ms) else (Err TimedOut, CLIENT_IO_TIMEOUT)
  | None => (Err TimedOut, CLIENT_IO_TIMEOUT)
  end.

Section Control.
Context {NL : IpNetLib} {J : Json}.

(** [write_json]: a frame that is too long is refused at once; [written] is false when
    the stream fails, and [took] the time it takes. *)
Definition write_json (v : Value) (written : bool) (took : option Z) : Operation (list byte) :=
  let data := to_vec v ++ [LF] in
  if MAX_FRAME <? Z.of_nat (length data) then (Err ResponseTooLong, Some 0)
  else (if written then Ok data else Err StreamError, took).

(** * The server *)

Definition MAX_CLIENTS : nat := 64.

Inductive PrepareError := NoParent | PrepareIo | NotASocket | SocketInUse.
Inductive SocketStep := CreateParent | RestrictParent | RemoveSocket | BindSocket | RestrictSocket.

(** What [prepare_socket] finds; [pe_socket] is the type of what is there. *)
Record PrepareEnv := MkPrepareEnv {
  pe_has_parent : bool;
  pe_parent_existed : bool;
  pe_create_ok : bool;
  pe_restrict_ok : bool;
  pe_exists : bool;
  pe_socket : option bool;
  pe_accepting : bool;
  pe_remove_ok : bool
}.

(** [prepare_socket]: the steps taken, and how it ends. *)
Definition prepare_socket (e : PrepareEnv) : result PrepareError unit * list SocketStep :=
  if negb (pe_has_parent e) then (Err NoParent, [])
  else if negb (pe_create_ok e) then (Err PrepareIo, [])
  else
    let steps := CreateParent :: if pe_parent_existed e then [] else [RestrictParent] in
    if negb (pe_parent_existed e) && negb (pe_restrict_ok e) then (Err PrepareIo, [CreateParent])
    else if negb (pe_exists e) then (Ok tt, steps)
    else
      match pe_socket e with
      | None => (Err PrepareIo, steps)
      | Some false => (Err NotASocket, steps)
      | Some true =>
          if pe_accepting e then (Err SocketInUse, steps)
          else if pe_remove_ok e then (Ok tt, steps ++ [RemoveSocket]) else (Err PrepareIo, steps)
      end.

(** A file is removed only if it is a socket on which nobody accepts. *)
Lemma prepare_removes e r steps : prepare_socket e = (r, steps) -> In RemoveSocket steps ->
  pe_exists e = true /\ pe_socket e = Some true /\ pe_accepting e = false.
Proof.
  unfold prepare_socket. destruct e as [p pe c rs ex so ac rm]. simpl.
  destruct p, c, pe, rs, ex, so as [[]|], ac, rm; simpl; intros [= <- <-]; simpl; intuition congruence.
Qed.

(** The accept loop of [serve]: clients that hold a permit. *)
Inductive ServerEvent := ClientConnected | AcceptFailed | ClientGone | ServerShutdown (closed value : bool).

(** [None] ends the loop; a client without a permit is dropped. *)
Definition serve_event (clients : nat) (ev : ServerEvent) : option nat :=
  match ev with
  | ClientConnected => Some (if (clients <? MAX_CLIENTS)%nat then S clients else clients)
  | AcceptFailed => Some clients
  | ClientGone => Some (clients - 1)%nat
  | ServerShutdown closed value => if closed || value then None else Some clients
  end.

Lemma serve_bounded clients ev clients' : (clients <= MAX_CLIENTS)%nat -> serve_event clients ev = Some clients' ->
  (clients' <= MAX_CLIENTS)%nat.
Proof.
  intros Hc. destruct ev as [| | |c v]; simpl; [destruct (Nat.ltb_spec clients MAX_CLIENTS)| | |destruct (c || v)];
    intros [= <-]; lia.
Qed.

Fixpoint serve_events (clients : nat) (events : list ServerEvent) : option nat :=
  match events with
  | [] => Some clients
  | ev :: rest => clients ← serve_event clients ev; serve_events clients rest
  end.

Inductive ControlError := ControlPrepare (e : PrepareError) | ControlBind.

(** How a server is: it could not be started, it serves some clients, or it has ended. *)
Inductive Server := ServerFailed (e : ControlError) | Serving (clients : nat) | ServerEnded.

(** [serve]: the socket is bound and restricted to its owner before the first client,
    and removed again at the end; [bound] and [restricted] are the answers of the
    system. *)
Definition serve (e : PrepareEnv) (bound restricted : bool) (events : list ServerEvent) : Server * list SocketStep :=
  let '(prepared, steps) := prepare_socket e in
  match prepared with
  | Err error => (ServerFailed (ControlPrepare error), steps)
  | Ok _ =>
      if negb bound then (ServerFailed ControlBind, steps)
      else if negb restricted then (ServerFailed (ControlPrepare PrepareIo), steps ++ [BindSocket])
      else
        let steps := steps ++ [BindSocket; RestrictSocket] in
        match serve_events 0 events with
        | Some clients => (Serving clients, steps)
        | None => (ServerEnded, steps ++ [RemoveSocket])
        end
  end.

Lemma serve_events_bounded events : forall clients clients', (clients <= MAX_CLIENTS)%nat ->
  serve_events clients events = Some clients' -> (clients' <= MAX_CLIENTS)%nat.
Proof.
  induction events as [|ev rest IH]; intros clients clients' Hc H; simpl in H; [by injection H as <-|].
  apply bind_Some in H as (c & Hev & H). eapply IH; [|exact H]. by eapply serve_bounded.
Qed.

(** A server with clients has a socket that only its owner can use, and at most as
    many clients as allowed; one that has ended has removed its socket. *)
Lemma serve_owned e bound restricted events server steps : serve e bound restricted events = (server, steps) ->
  match server with
  | Serving clients => (clients <= MAX_CLIENTS)%nat /\ exists before, steps = before ++ [BindSocket; RestrictSocket]
  | ServerEnded => exists before, steps = before ++ [BindSocket; RestrictSocket; RemoveSocket]
  | ServerFailed _ => RestrictSocket ∉ steps
  end.
Proof.
  unfold serve. destruct (prepare_socket e) as [prepared before] eqn:E.
  assert (RestrictSocket ∉ before) as Hb.
  { revert E. unfold prepare_socket. destruct e as [p pe c rs ex so ac rm]. simpl.
    destruct p, c, pe, rs, ex, so as [[]|], ac, rm; simpl; intros [= <- <-]; set_solver. }
  destruct prepared as [u|]; [|by intros [= <- <-]]. destruct bound; [|by intros [= <- <-]].
  destruct restricted; simpl; [|intros [= <- <-]; set_solver].
  destruct (serve_events 0 events) as [clients|] eqn:Ev; intros [= <- <-].
  - split; [eapply serve_events_bounded; [|exact Ev]; unfold MAX_CLIENTS; lia|by eexists].
  - exists before. by rewrite <- app_assoc.
Qed.

(** * Requests and responses *)

Record Request := MkRequest { rq_api_version : Z; rq_id : Z; rq_command : string; rq_params : Value }.

(** Fields with a name; more than one is an error of the derived deserializer. *)
Definition fields_named (name : string) (fields : list (string * Value)) : list Value :=
  (List.filter (fun p => bool_decide (p.1 = name)) fields).*2.

Definition unsigned (max : Z) (v : Value) : option Z :=
  match v with JNumber n => if (0 <=? n) && (n <=? max) then Some n else None | _ => None end.

Definition u32_max : Z := 4294967295.

(** The derived [Deserialize]: an object, unknown fields ignored, or the fields in
    order; [params] may be missing. *)
Definition request_of (v : Value) : option Request :=
  match v with
  | JObject fields =>
      match fields_named "api_version" fields, fields_named "id" fields, fields_named "command" fields,
            fields_named "params" fields with
      | [version], [id], [JString command], ([] | [_]) as params =>
          version ← unsigned u32_max version; id ← unsigned u64_max id;
          Some (MkRequest version id command (default JNull (head params)))
      | _, _, _, _ => None
      end
  | JArray (version :: id :: JString command :: ([] | [_]) as params) =>
      version ← unsigned u32_max version; id ← unsigned u64_max id;
      Some (MkRequest version id command (default JNull (head params)))
  | _ => None
  end.

(** The text of an error; the diagnostics of [serde] and of other components are
    texts of theirs. *)
Inductive Message :=
| VersionUnsupported (version : Z)
| CommandUnknown (command : string)
| DaemonStopping
| MessageText (text : string).

Record ErrorBody := MkErrorBody { code : string; message : Message }.

Record Response := MkResponse {
  rp_api_version : Z;
  rp_id : Z;
  rp_ok : bool;
  rp_result : option Value;
  rp_error : option ErrorBody
}.

Definition failure (id : Z) (code : string) (message : Message) : Response :=
  MkResponse API_VERSION id false None (Some (MkErrorBody code message)).

Class Texts : Type := {
  show_net : IpNet -> string;
  show_message : Message -> string
}.
Context {X : Texts}.

(** The derived [Serialize]: absent fields are skipped. *)
Definition error_value (e : ErrorBody) : Value :=
  JObject [("code", JString (code e)); ("message", JString (show_message (message e)))].
Definition response_value (r : Response) : Value :=
  JObject ([("api_version", JNumber (rp_api_version r)); ("id", JNumber (rp_id r)); ("ok", JBool (rp_ok r))]
           ++ match rp_result r with Some v => [("result", v)] | None => [] end
           ++ match rp_error r with Some e => [("error", error_value e)] | None => [] end).

(** * What the commands show *)

Record RuntimeMetadata := MkRuntimeMetadata {
  md_shutdown_timeout_ms : Z;
  md_config_generation : Z;
  md_active_config_sha256 : string;
  md_last_reload_error : option string
}.

Record ReloadResult := MkReloadResult { rr_config_generation : Z; rr_active_config_sha256 : string }.

Record RouterInterfaceStatus := MkRouterInterfaceStatus {
  is_name : string;
  is_index : Z;
  is_local_addresses : list IpAddr;
  is_control_transport : ControlTransport;
  is_mtu : Z;
  is_udp_payload_budget : Z;
  is_mac_mode : string;
  is_metric : string;
  is_hello_interval_ms : Z;
  is_update_interval_ms : Z;
  is_split_horizon : bool;
  is_ipv4_next_hop : Ipv4NextHop;
  is_ipv4_address : option Ipv4Addr;
  is_output : OutputStatus
}.

(** What becomes of a command sent to the daemon. *)
Inductive ReloadReply := ReloadNotSent | ReloadDropped | ReloadAnswered (r : result string ReloadResult).
Inductive ShutdownReply := ShutdownNotSent | ShutdownDropped | ShutdownAccepted.

(** What a request meets when it is dispatched. *)
Record Shared := MkShared {
  sh_server_version : string;
  sh_uptime_seconds : Z;
  sh_metadata : RuntimeMetadata;
  sh_status : result string (RouterStatus * list RouterInterfaceStatus);
  sh_health : ExportHealth * option Z * option string;
  sh_snapshot : RouteSnapshot;
  sh_reload : ReloadReply;
  sh_shutdown : ShutdownReply
}.

Definition CommandResult : Type := result (string * Message) Value.

Definition status_or_stopped (s : Shared) : result (string * Message) (RouterStatus * list RouterInterfaceStatus) :=
  match sh_status s with Ok st => Ok st | Err text => Err ("router_stopped", MessageText text) end.

Definition health_value (h : ExportHealth * option Z * option string) : Value :=
  let '(health, age, error) := h in
  JObject [("config_generation", JNumber (eh_config_generation health));
           ("last_success_route_generation", jopt JNumber (eh_last_success_route_generation health));
           ("last_success_config_generation", jopt JNumber (eh_last_success_config_generation health));
           ("last_success_age_seconds", jopt JNumber age);
           ("last_error", jopt JString error);
           ("recovering_routes", jnat (eh_recovering_routes health));
           ("recovery_remaining_ms", JNumber (eh_recovery_remaining_ms health))].

Definition status_command (s : Shared) : CommandResult :=
  '(router, _) ← status_or_stopped s;
  let metadata := sh_metadata s in
  let resources := rst_resources router in
  Ok (JObject [
    ("version", JString (sh_server_version s));
    ("uptime_seconds", JNumber (sh_uptime_seconds s));
    ("ready", JBool true);
    ("config_generation", JNumber (md_config_generation metadata));
    ("active_config_sha256", JString (md_active_config_sha256 metadata));
    ("last_reload_error", jopt JString (md_last_reload_error metadata));
    ("shutdown_timeout_ms", JNumber (md_shutdown_timeout_ms metadata));
    ("metric", JString (rst_metric router));
    ("sequence_number", JNumber (rst_sequence_number router));
    ("attached_interfaces", jnat (length (rst_interfaces router)));
    ("neighbors", jnat (rst_neighbours router));
    ("route_generation", JNumber (rst_route_generation router));
    ("selected_routes", jnat (rst_selected_routes router));
    ("limits", JObject [
       ("max_neighbors", jnat (max_neighbors (rs_limits resources)));
       ("max_candidates", jnat (max_candidates (rs_limits resources)));
       ("max_candidates_per_neighbor", jnat (max_candidates_per_neighbor (rs_limits resources)))]);
    ("candidates", jnat (rs_candidates resources));
    ("sources", jnat (rs_sources resources));
    ("pending_requests", jnat (rs_pending_requests resources));
    ("unreachable_routes", jnat (rs_unreachable resources));
    ("rejected_neighbors", JNumber (rejected_neighbors resources));
    ("rejected_candidates_global", JNumber (rejected_candidates_global resources));
    ("rejected_candidates_per_neighbor", JNumber (rejected_candidates_per_neighbor resources));
    ("dropped_outbound_datagrams", JNumber (rst_dropped_outbound_datagrams router));
    ("missed_outbound_deadlines", JNumber (rst_missed_outbound_deadlines router));
    ("export", health_value (sh_health s))]).

Definition transport_str (t : ControlTransport) : string := match t with TransportIpv6 => "ipv6" | TransportIpv4 => "ipv4" end.
Definition next_hop_str (n : Ipv4NextHop) : string :=
  match n with NextHopAuto => "auto" | NextHopIpv4 => "ipv4" | NextHopIpv6 => "ipv6" end.

Definition effective_next_hop (item : RouterInterfaceStatus) : string :=
  if bool_decide (is_Some (is_ipv4_address item)) then "ipv4"
  else if bool_decide (is_ipv4_next_hop item = NextHopIpv4)
          || bool_decide (is_control_transport item = TransportIpv4)
             && negb (existsb (fun a => match a with IpV6 ip => is_unicast_link_local ip | IpV4 _ => false end)
                        (is_local_addresses item))
  then "unavailable" else "ipv6".

Definition output_value (o : OutputStatus) : Value :=
  JObject [("budget_bytes", JNumber (st_budget_bytes o)); ("used_bytes", JNumber (st_used_bytes o));
           ("rejected_batches", JNumber (st_rejected_batches o)); ("rejected_tlvs", JNumber (st_rejected_tlvs o));
           ("expired_batches", JNumber (st_expired_batches o)); ("dropped_datagrams", JNumber (st_dropped_datagrams o));
           ("expired_datagrams", JNumber (st_expired_datagrams o)); ("send_timeouts", JNumber (st_send_timeouts o));
           ("missed_deadlines", JNumber (st_missed_deadlines o))].

Definition interface_value (item : RouterInterfaceStatus) : Value :=
  JObject [
    ("name", JString (is_name item));
    ("ifindex", JNumber (is_index item));
    ("local_addresses", JArray ((fun a => JString (show_ip a)) <$> is_local_addresses item));
    ("mtu", JNumber (is_mtu item));
    ("udp_payload_budget", JNumber (is_udp_payload_budget item));
    ("mac_mode", JString (is_mac_mode item));
    ("metric", JString (is_metric item));
    ("hello_interval_ms", JNumber (is_hello_interval_ms item));
    ("update_interval_ms", JNumber (is_update_interval_ms item));
    ("split_horizon", JBool (is_split_horizon item));
    ("ipv4_next_hop", JString (next_hop_str (is_ipv4_next_hop item)));
    ("control_transport", JString (transport_str (is_control_transport item)));
    ("effective_ipv4_next_hop", JString (effective_next_hop item));
    ("ipv4_next_hop_address", jopt (fun a => JString (show_ip (IpV4 a))) (is_ipv4_address item));
    ("output", output_value (is_output item));
    ("attached", JBool true)].

Definition interfaces_command (s : Shared) : CommandResult :=
  '(_, details) ← status_or_stopped s; Ok (JArray (interface_value <$> details)).

Definition neighbor_value (item : NeighborStatus) : Value :=
  JObject [
    ("interface", JString (ns_interface item));
    ("address", JString (show_ip (ns_address item)));
    ("candidates", jnat (ns_candidates item));
    ("rejected_candidates", JNumber (ns_rejected_candidates item));
    ("algorithm", JString (ns_algorithm item));
    ("reachable", JBool (negb (ns_link_cost item =? INFINITY)));
    ("hello_received", JNumber (hello_received item));
    ("hello_expected", JNumber (hello_expected item));
    ("multicast_hello_history", JNumber (multicast_hello_history item));
    ("unicast_hello_history", JNumber (unicast_hello_history item));
    ("receive_cost", JNumber (ns_receive_cost item));
    ("transmit_cost", JNumber (ns_transmit_cost item));
    ("link_cost", JNumber (ns_link_cost item));
    ("last_rtt_us", jopt JNumber (ns_last_rtt_us item));
    ("smoothed_rtt_us", jopt JNumber (ns_smoothed_rtt_us item));
    ("rtt_penalty", JNumber (ns_rtt_penalty item));
    ("last_hello_age_ms", JNumber (last_hello_age_ms item))].

Definition neighbors_command (s : Shared) : CommandResult :=
  '(router, _) ← status_or_stopped s; Ok (JArray (neighbor_value <$> rst_neighbour_details router)).

(** ** Routes *)

Record RouteFilter := MkRouteFilter { rf_destination : option string; rf_source : option string; rf_interface : option string }.

(** [Option<String>]: absent and null are [None]. *)
Definition text_field (v : option Value) : option (option string) :=
  match v with
  | None | Some JNull => Some None
  | Some (JString s) => Some (Some s)
  | Some _ => None
  end.

(** [serde_json::from_value]. *)
Definition filter_of (v : Value) : option RouteFilter :=
  match v with
  | JObject _ =>
      d ← text_field (get "destination" v); s ← text_field (get "source" v); i ← text_field (get "interface" v);
      Some (MkRouteFilter d s i)
  | JArray [d; s; i] =>
      d ← text_field (Some d); s ← text_field (Some s); i ← text_field (Some i); Some (MkRouteFilter d s i)
  | _ => None
  end.

Definition passes (f : RouteFilter) (r : SelectedRoute) : bool :=
  from_option (fun v => bool_decide (v = show_net (Model.destination (sr_key r)))) true (rf_destination f)
  && from_option (fun v => bool_decide (show_net <$> Model.source (sr_key r) = Some v)) true (rf_source f)
  && from_option (fun v => bool_decide (v = sr_interface r)) true (rf_interface f).

Definition route_entry (r : SelectedRoute) : Value :=
  JObject [
    ("destination", JString (show_net (Model.destination (sr_key r))));
    ("source", jopt (fun n => JString (show_net n)) (Model.source (sr_key r)));
    ("router_id", JString (show_router_id (sr_router_id r)));
    ("sequence_number", JNumber (sr_seqno r));
    ("metric", JNumber (sr_metric r));
    ("next_hop", JString (show_ip (sr_next_hop r)));
    ("interface", JString (sr_interface r));
    ("selected", JBool true)].

Definition route_value (snapshot : RouteSnapshot) (f : RouteFilter) : Value :=
  JObject [("generation", JNumber (sn_generation snapshot));
           ("routes", JArray (route_entry <$> List.filter (passes f) (sn_routes snapshot)))].

Definition routes_command (s : Shared) (params : Value) (text : string) : CommandResult :=
  match filter_of params with
  | Some f => Ok (route_value (sh_snapshot s) f)
  | None => Err ("invalid_params", MessageText text)
  end.

(** ** Commands to the daemon *)

Definition reload_command (s : Shared) : CommandResult :=
  match sh_reload s with
  | ReloadNotSent | ReloadDropped => Err ("daemon_stopping", DaemonStopping)
  | ReloadAnswered (Ok r) =>
      Ok (JObject [("config_generation", JNumber (rr_config_generation r));
                   ("active_config_sha256", JString (rr_active_config_sha256 r))])
  | ReloadAnswered (Err text) => Err ("reload_rejected", MessageText text)
  end.

(** The answer, and whether the daemon waits for it to be flushed. *)
Definition shutdown_command (s : Shared) : CommandResult * bool :=
  match sh_shutdown s with
  | ShutdownNotSent | ShutdownDropped => (Err ("daemon_stopping", DaemonStopping), false)
  | ShutdownAccepted => (Ok (JObject [("accepted", JBool true)]), true)
  end.

Definition command_names : Value :=
  JArray (JString <$> ["status"; "interfaces"; "neighbors"; "routes"; "reload"; "shutdown"]).

(** The match on the name of a command; [text] is a diagnostic of [serde]. *)
Definition run_command (q : Request) (s : Shared) (text : string) : CommandResult * bool :=
  let c := rq_command q in
  if bool_decide (c = "capabilities") then
    (Ok (JObject [("api_version", JNumber API_VERSION); ("server_version", JString (sh_server_version s));
                  ("commands", command_names)]), false)
  else if bool_decide (c = "status") then (status_command s, false)
  else if bool_decide (c = "interfaces") then (interfaces_command s, false)
  else if bool_decide (c = "neighbors") || bool_decide (c = "neighbours") then (neighbors_command s, false)
  else if bool_decide (c = "routes") then (routes_command s (rq_params q) text, false)
  else if bool_decide (c = "reload") then (reload_command s, false)
  else if bool_decide (c = "shutdown") then shutdown_command s
  else (Err ("unknown_command", CommandUnknown c), false).

(** [dispatch]: the response, and whether the session ends after it is flushed. *)
Definition dispatch_request (q : Request) (s : Shared) (text : string) : Response * bool :=
  if negb (rq_api_version q =? API_VERSION)
  then (failure (rq_id q) "unsupported_version" (VersionUnsupported (rq_api_version q)), false)
  else
    let '(r, after_flush) := run_command q s text in
    (match r with
     | Ok v => MkResponse API_VERSION (rq_id q) true (Some v) None
     | Err (c, m) => failure (rq_id q) c m
     end, after_flush).

(** * A session *)

(** What happens around a turn: how long reading, the command and writing take ([None]:
    for ever), whether the stream takes the response, and what the request meets. *)
Record Turn := MkTurn {
  tn_read : option Z;
  tn_command : option Z;
  tn_write : option Z;
  tn_written : bool;
  tn_shared : Shared;
  tn_text : string
}.

(** How a session ends; [Flushed] also tells the daemon, and [Waiting] is a session that
    waits for a command which never answers. *)
Inductive Ending := Closed | Flushed | Waiting | Broken (e : IoError).

(** The commands that await the router or the daemon; the others are answered from what
    the server has. *)
Definition waits (q : Request) : bool :=
  (rq_api_version q =? API_VERSION)
  && existsb (fun c => bool_decide (rq_command q = c)) ["status"; "interfaces"; "neighbors"; "neighbours"; "reload"; "shutdown"].

(** The response to a frame, and the time until it is there. *)
Definition answer (frame : list byte) (t : Turn) : Response * bool * option Z :=
  match (v ← parse_json frame; request_of v) with
  | Some q => (dispatch_request q (tn_shared t) (tn_text t), if waits q then tn_command t else Some 0)
  | None => (failure 0 "invalid_request" (MessageText (tn_text t)), false, Some 0)
  end.

(** A session: the frames written, how it ends and after how many milliseconds. *)
Record Session := MkSession { ss_written : list (list byte); ss_ending : Ending; ss_elapsed : Z }.

(** The loop of [handle_client]; [None] when the fuel does not suffice. *)
Fixpoint serve_frames (fuel : nat) (turns : nat -> Turn) (k : nat) (s : list byte) : option Session :=
  match fuel with
  | O => None
  | S fuel =>
      let t := turns k in
      let '(frame, rest) := read_frame s in
      let '(frame, read_ms) := io_timeout (frame, tn_read t) in
      match frame with
      | Err e => Some (MkSession [] (Broken e) read_ms)
      | Ok None => Some (MkSession [] Closed read_ms)
      | Ok (Some frame) =>
          let '(response, after_flush, took) := answer frame t in
          match took with
          | None => Some (MkSession [] Waiting read_ms)
          | Some command_ms =>
              let '(data, write_ms) := io_timeout (write_json (response_value response) (tn_written t) (tn_write t)) in
              let ms := read_ms + command_ms + write_ms in
              match data with
              | Err e => Some (MkSession [] (Broken e) ms)
              | Ok data =>
                  if after_flush then Some (MkSession [data] Flushed ms)
                  else
                    next ← serve_frames fuel turns (S k) rest;
                    Some (MkSession (data :: ss_written next) (ss_ending next) (ms + ss_elapsed next))
              end
          end
      end
  end.

Definition hello_value (server_version : string) : Value :=
  JObject [("type", JString "hello"); ("api_version", JNumber API_VERSION);
           ("server_version", JString server_version); ("capabilities", command_names)].

(** [handle_client] on everything the client sends. *)
Definition handle_client (server_version : string) (turns : nat -> Turn) (s : list byte) : option Session :=
  let t := turns 0%nat in
  let '(data, ms) := io_timeout (write_json (hello_value server_version) (tn_written t) (tn_write t)) in
  match data with
  | Err e => Some (MkSession [] (Broken e) ms)
  | Ok data =>
      next ← serve_frames (S (length s)) turns 1 s;
      Some (MkSession (data :: ss_written next) (ss_ending next) (ms + ss_elapsed next))
  end.

(** * The client *)

Inductive ControlClientError :=
| ClientIo (e : IoError)
| ClientJson
| ClientClosed
| ClientVersion (hello : Value)
| ClientRejected (response : Value).

Definition client_io {A} (r : result IoError A) : result ControlClientError A :=
  match r with Ok a => Ok a | Err e => Err (ClientIo e) end.

(** [read_frame] under its deadline, and the text as a value. *)
Definition client_read (took : option Z) (s : list byte) : result ControlClientError Value * list byte :=
  let '(frame, rest) := read_frame s in
  (frame ← client_io (io_timeout (frame, took)).1; frame ← ok_or frame ClientClosed; ok_or (parse_json frame) ClientJson, rest).

Definition request_value (command : string) (params : Value) : Value :=
  JObject [("api_version", JNumber API_VERSION); ("id", JNumber 1); ("command", JString command); ("params", params)].

Definition is_number (n : Z) (v : option Value) : bool := match v with Some (JNumber m) => m =? n | _ => false end.
Definition is_true (v : option Value) : bool := match v with Some (JBool b) => b | _ => false end.

(** [request], with what the server sends ([received] after the request it gets). *)
Definition request (hello_took write_took response_took : option Z) (written : bool) (command : string) (params : Value)
    (greeting : list byte) (received : list byte -> list byte) : result ControlClientError Value :=
  let '(hello, rest) := client_read hello_took greeting in
  hello ← hello;
  if negb (is_number API_VERSION (get "api_version" hello)) then Err (ClientVersion hello)
  else
    data ← client_io (io_timeout (write_json (request_value command params) written write_took)).1;
    response ← (client_read response_took (rest ++ received data)).1;
    if is_true (get "ok" response) then Ok (default JNull (get "result" response))
    else Err (ClientRejected response).
End Control.
