(* ===== verification/ControlTheorems.v ===== *)
(** Sessions of the control socket: over bytes they are what they should be over
    messages, and the client of the command line sees what the daemon dispatched. *)
From stdpp Require Import countable.
From S2P Require Import Prelude Net Mac Model Metric Wire Api Demo Scheduler Sender Router RouterLoop DaemonConfig Recovery Exporter State Control.
Local Open Scope Z_scope.

(** * Lines *)

(** A stream as its lines, terminators included. *)
Fixpoint lines (s : list byte) : list (list byte) :=
  match s with
  | [] => []
  | b :: rest =>
      if bool_decide (b = LF) then [b] :: lines rest
      else match lines rest with [] => [[b]] | l :: ls => (b :: l) :: ls end
  end.

Lemma lines_concat s : concat (lines s) = s.
Proof.
  induction s as [|b s IH]; simpl; [done|]. case_bool_decide; simpl; [by rewrite IH|].
  destruct (lines s) as [|l ls]; simpl in *; by rewrite <- IH.
Qed.

Lemma lines_nil s : lines s = [] <-> s = [].
Proof. split; [|by intros ->]. intros H. by rewrite <- (lines_concat s), H. Qed.

Lemma lines_nonempty s l : l ∈ lines s -> l <> [].
Proof.
  revert l. induction s as [|b s IH]; intros l; simpl; [by intros ?%elem_of_nil|].
  case_bool_decide; [intros [->|Hl]%elem_of_cons; [done|by apply IH]|].
  destruct (lines s) as [|l' ls]; intros [->|Hl]%elem_of_cons; try done; [by apply elem_of_nil in Hl|].
  apply IH. by right.
Qed.

(** Reading up to a terminator takes the first line, or as much as allowed. *)
Lemma read_until_line s : forall limit l ls, 0 <= limit -> lines s = l :: ls ->
  (Z.of_nat (length l) <= limit -> read_until limit s = (l, concat ls) /\ lines (concat ls) = ls) /\
  (limit < Z.of_nat (length l) -> Z.of_nat (length (read_until limit s).1) = limit).
Proof.
  induction s as [|b s IH]; intros limit l ls Hlim Hl; simpl in Hl; [done|]. cbn [read_until].
  destruct (Z.leb_spec limit 0) as [Hz|Hz].
  { assert (l <> []) as Hne by (apply (lines_nonempty (b :: s)); simpl; rewrite Hl; by left).
    split; [|simpl; lia]. destruct l; [done|]. simpl. lia. }
  case_bool_decide as Hb.
  - injection Hl as <- <-. simpl. split; [|lia]. intros _. by rewrite lines_concat.
  - destruct (lines s) as [|l' ls'] eqn:El.
    + injection Hl as <- <-. apply lines_nil in El as ->. simpl. split; [done|lia].
    + injection Hl as <- <-. destruct (IH (limit - 1) l' ls') as [H1 H2]; [lia|done|]. simpl. split; intros Hlen.
      * destruct H1 as [-> H1]; [lia|]. done.
      * destruct (read_until (limit - 1) s) as [f r]. simpl in *. lia.
Qed.

(** The content of a line. *)
Definition content (l : list byte) : list byte := reverse (pop_line_ends (reverse l)).

Lemma read_frame_lines s : read_frame s =
  match lines s with
  | [] => (Ok None, [])
  | l :: ls =>
      if MAX_FRAME <? Z.of_nat (length l) then (Err FrameTooLong, (read_frame s).2)
      else (Ok (Some (content l)), concat ls)
  end.
Proof.
  destruct (lines s) as [|l ls] eqn:El; [by apply lines_nil in El as ->|]. unfold read_frame.
  assert (l <> []) as Hne by (apply (lines_nonempty s); rewrite El; by left).
  destruct (read_until_line s (MAX_FRAME + 1) l ls) as [H1 H2]; [done|done|].
  destruct (Z.ltb_spec MAX_FRAME (Z.of_nat (length l))) as [Hlt|Hle].
  - destruct (read_until (MAX_FRAME + 1) s) as [f r] eqn:Er. simpl.
    assert (MAX_FRAME < Z.of_nat (length f)) as Hf.
    { destruct (Z.le_gt_cases (Z.of_nat (length l)) (MAX_FRAME + 1)) as [Hc|Hc].
      - destruct (H1 Hc) as [[= <- <-] _]. done.
      - apply H2 in Hc. simpl in Hc. lia. }
    rewrite (proj2 (Z.eqb_neq _ _)) by (unfold MAX_FRAME in *; lia). by rewrite (proj2 (Z.ltb_lt _ _)).
  - destruct H1 as [-> _]; [lia|]. rewrite (proj2 (Z.eqb_neq _ _)) by (destruct l; simpl; [done|lia]).
    by rewrite (proj2 (Z.ltb_ge _ _)).
Qed.

Lemma read_frame_rest s l ls : lines s = l :: ls -> Z.of_nat (length l) <= MAX_FRAME -> lines (concat ls) = ls.
Proof. intros El Hle. destruct (read_until_line s (MAX_FRAME + 1) l ls) as [H1 _]; [done|done|]. apply H1. lia. Qed.

(** A printable text with a terminator is one line. *)
Lemma printable_lines t rest : Forall (fun b => 32 <= u8 b) t -> lines (t ++ LF :: rest) = (t ++ [LF]) :: lines rest.
Proof.
  induction 1 as [|b t Hb _ IH]; simpl; [done|]. rewrite bool_decide_false.
  - by rewrite IH.
  - intros ->. change (u8 LF) with 10 in Hb. lia.
Qed.

Lemma printable_content t : Forall (fun b => 32 <= u8 b) t -> content (t ++ [LF]) = t.
Proof.
  intros Ht. unfold content. rewrite reverse_app. simpl. apply Forall_reverse in Ht.
  rewrite <- (reverse_involutive t) at 2. f_equal. destruct Ht as [|b r Hb _]; [done|]. simpl.
  rewrite !bool_decide_false; [done|..]; intros ->; [change (u8 CR) with 13 in Hb|change (u8 LF) with 10 in Hb]; lia.
Qed.

Section Sessions.
Context {NL : IpNetLib} {J : Json} {X : Texts}.

(** * Rules of a session *)

(** An operation is done in time, after some milliseconds, or it is not. *)
Definition in_time (took : option Z) (ms : Z) : Prop := took = Some ms /\ ms <= CLIENT_IO_TIMEOUT.
Definition late (took : option Z) : Prop := forall ms, took = Some ms -> CLIENT_IO_TIMEOUT < ms.

Definition frame_of (v : Value) : list byte := to_vec v ++ [LF].

(** A value is written, in a turn: as a frame after some milliseconds, or the stream is
    given up. *)
Inductive writing (t : Turn) (v : Value) : result IoError (list byte) -> Z -> Prop :=
| writing_long : MAX_FRAME < Z.of_nat (length (frame_of v)) -> writing t v (Err ResponseTooLong) 0
| writing_blocked : Z.of_nat (length (frame_of v)) <= MAX_FRAME -> late (tn_write t) ->
    writing t v (Err TimedOut) CLIENT_IO_TIMEOUT
| writing_failed ms : Z.of_nat (length (frame_of v)) <= MAX_FRAME -> in_time (tn_write t) ms -> tn_written t = false ->
    writing t v (Err StreamError) ms
| writing_done ms : Z.of_nat (length (frame_of v)) <= MAX_FRAME -> in_time (tn_write t) ms -> tn_written t = true ->
    writing t v (Ok (frame_of v)) ms.

(** A line is read and its response there after some milliseconds. *)
Record taken (t : Turn) (l : list byte) (r : Response) (last : bool) (ms : Z) : Prop := {
  tk_short : Z.of_nat (length l) <= MAX_FRAME;
  tk_times : exists read_ms command_ms, in_time (tn_read t) read_ms /\
    answer (content l) t = (r, last, Some command_ms) /\ ms = read_ms + command_ms
}.

(** The session over the lines of a stream, from a turn on: the responses written, how
    it ends and when. *)
Inductive session (turns : nat -> Turn) (k : nat) : list (list byte) -> list Response -> Ending -> Z -> Prop :=
| session_idle ls : late (tn_read (turns k)) -> session turns k ls [] (Broken TimedOut) CLIENT_IO_TIMEOUT
| session_end ms : in_time (tn_read (turns k)) ms -> session turns k [] [] Closed ms
| session_long l ls ms : in_time (tn_read (turns k)) ms -> MAX_FRAME < Z.of_nat (length l) ->
    session turns k (l :: ls) [] (Broken FrameTooLong) ms
| session_waits l ls ms r last : in_time (tn_read (turns k)) ms -> Z.of_nat (length l) <= MAX_FRAME ->
    answer (content l) (turns k) = (r, last, None) -> session turns k (l :: ls) [] Waiting ms
| session_broken l ls r last e ms ms' : taken (turns k) l r last ms ->
    writing (turns k) (response_value r) (Err e) ms' -> session turns k (l :: ls) [] (Broken e) (ms + ms')
| session_last l ls r data ms ms' : taken (turns k) l r true ms ->
    writing (turns k) (response_value r) (Ok data) ms' -> session turns k (l :: ls) [r] Flushed (ms + ms')
| session_next l ls r data rs e ms ms' ms'' : taken (turns k) l r false ms ->
    writing (turns k) (response_value r) (Ok data) ms' -> session turns (S k) ls rs e ms'' ->
    session turns k (l :: ls) (r :: rs) e (ms + ms' + ms'').

(** * The server follows the rules *)

Lemma io_timeout_spec {A} (r : result IoError A) took :
  (late took /\ io_timeout (r, took) = (Err TimedOut, CLIENT_IO_TIMEOUT)) \/
  (exists ms, in_time took ms /\ io_timeout (r, took) = (r, ms)).
Proof.
  unfold io_timeout, late, in_time. simpl. destruct took as [ms|]; [|by left].
  destruct (Z.leb_spec ms CLIENT_IO_TIMEOUT); [right; eauto|left]. split; [|done]. by intros ? [= <-].
Qed.

Lemma write_json_spec t v r ms : io_timeout (write_json v (tn_written t) (tn_write t)) = (r, ms) -> writing t v r ms.
Proof.
  unfold write_json. fold (frame_of v). destruct (Z.ltb_spec MAX_FRAME (Z.of_nat (length (frame_of v)))) as [Hl|Hl].
  { intros [= <- <-]. by constructor. }
  destruct (io_timeout_spec (if tn_written t then Ok (frame_of v) else Err StreamError) (tn_write t))
    as [[H1 ->]|(ms' & H1 & ->)]; intros [= <- <-]; [by constructor|].
  destruct (tn_written t) eqn:Ew; by constructor.
Qed.

Lemma writing_frame t v data ms : writing t v (Ok data) ms -> data = frame_of v.
Proof. by inversion 1. Qed.

Lemma serve_session turns : forall s k fuel, (length s < fuel)%nat -> exists out rs,
  serve_frames fuel turns k s = Some out /\ session turns k (lines s) rs (ss_ending out) (ss_elapsed out) /\
  ss_written out = (fun r => frame_of (response_value r)) <$> rs.
Proof.
  intros s k fuel. revert s k. induction fuel as [|fuel IH]; intros s k Hf; [lia|]. cbn [serve_frames].
  rewrite read_frame_lines. destruct (lines s) as [|l ls] eqn:El.
  { destruct (io_timeout_spec (@Ok IoError (option (list byte)) None) (tn_read (turns k))) as [[H1 ->]|(ms & H1 & ->)];
      eexists _, []; (split; [reflexivity|]); split; [by constructor|done|by constructor|done]. }
  destruct (Z.ltb_spec MAX_FRAME (Z.of_nat (length l))) as [Hl|Hl].
  { destruct (io_timeout_spec (@Err IoError (option (list byte)) FrameTooLong) (tn_read (turns k))) as [[H1 ->]|(ms & H1 & ->)];
      eexists _, []; (split; [reflexivity|]); split; [by constructor|done|by constructor|done]. }
  destruct (io_timeout_spec (@Ok IoError _ (Some (content l))) (tn_read (turns k))) as [[H1 ->]|(ms & H1 & ->)].
  { eexists _, []. split; [reflexivity|]. split; [by constructor|done]. }
  destruct (answer (content l) (turns k)) as [[r last] [command_ms|]] eqn:Ea.
  2:{ eexists _, []. split; [reflexivity|]. split; [by eapply session_waits|done]. }
  assert (taken (turns k) l r last (ms + command_ms)) as Ht by (split; [done|by exists ms, command_ms]).
  destruct (io_timeout (write_json _ _ _)) as [data write_ms] eqn:Ew. apply write_json_spec in Ew.
  destruct data as [data|e]; [pose proof (writing_frame _ _ _ _ Ew) as ->|].
  2:{ eexists _, []. split; [reflexivity|]. split; [by eapply session_broken|done]. }
  destruct last; [eexists _, [r]; split; [reflexivity|]; split; [by eapply session_last|done]|].
  assert (length (concat ls) < fuel)%nat as Hlt.
  { assert (l <> []) as Hne by (apply (lines_nonempty s); rewrite El; by left).
    rewrite <- (lines_concat s), El in Hf. simpl in Hf. rewrite length_app in Hf. destruct l; [done|]. simpl in Hf. lia. }
  destruct (IH (concat ls) (S k) Hlt) as (out & rs & -> & Hs & Hw). rewrite (read_frame_rest _ _ _ El Hl) in Hs.
  eexists _, (r :: rs). split; [reflexivity|]. cbn [ss_ending ss_elapsed ss_written]. split; [by eapply session_next|].
  by rewrite Hw.
Qed.

(** The form of a response to a line. *)
Record responds (l : list byte) (r : Response) : Prop := {
  rs_version : rp_api_version r = API_VERSION;
  rs_id : rp_id r = from_option rq_id 0 (v ← parse_json (content l); request_of v);
  rs_one : (rp_ok r = true /\ is_Some (rp_result r) /\ rp_error r = None) \/
           (rp_ok r = false /\ rp_result r = None /\ is_Some (rp_error r))
}.

Lemma answer_responds l t r last took : answer (content l) t = (r, last, took) -> responds l r.
Proof.
  unfold answer. destruct (v ← parse_json (content l); request_of v) as [q|] eqn:E.
  - unfold dispatch_request. destruct (negb _).
    + intros [= <- _ _]. split; [done|by rewrite E|]. right. by split_and!.
    + destruct (run_command q (tn_shared t) (tn_text t)) as [[v|[c m]] fl]; intros [= <- _ _]; (split; [done|by rewrite E|]).
      * left. by split_and!.
      * right. by split_and!.
  - intros [= <- _ _]. split; [done|by rewrite E|]. right. by split_and!.
Qed.

Lemma taken_responds t l r last ms : taken t l r last ms -> responds l r.
Proof. intros [_ (? & ? & _ & H & _)]. by eapply answer_responds. Qed.

Lemma session_responds turns k ls rs e ms : session turns k ls rs e ms ->
  (length rs <= length ls)%nat /\ (forall i l r, ls !! i = Some l -> rs !! i = Some r -> responds l r).
Proof.
  induction 1 as [| | | | |k l ls r data ms ms' Ht _|k l ls r data rs e ms ms' ms'' Ht _ _ [IH1 IH2]]; simpl;
    try (split; [lia|done]); apply taken_responds in Ht; (split; [lia|]); intros [|i] l' r'; simpl;
    try (by intros [= <-] [= <-]); [done|apply IH2].
Qed.

(** The time the commands of the first lines take. *)
Definition command_ms (t : Turn) (l : list byte) : Z := Z.max 0 (default 0 (answer (content l) t).2).
Fixpoint commands_ms (turns : nat -> Turn) (k n : nat) (ls : list (list byte)) : Z :=
  match n, ls with
  | S n, l :: ls => command_ms (turns k) l + commands_ms turns (S k) n ls
  | _, _ => 0
  end.

Lemma commands_ms_nonneg turns n : forall k ls, 0 <= commands_ms turns k n ls.
Proof.
  induction n as [|n IH]; intros k [|l ls]; simpl; try lia. specialize (IH (S k) ls). unfold command_ms. lia.
Qed.

Lemma writing_ms t v r ms : writing t v r ms -> ms <= CLIENT_IO_TIMEOUT.
Proof. intros [? | ? | ? ? [_ ?] ? | ? ? [_ ?] ?]; unfold CLIENT_IO_TIMEOUT in *; lia. Qed.

Lemma taken_ms t l r last ms : taken t l r last ms -> ms <= CLIENT_IO_TIMEOUT + command_ms t l.
Proof. intros [_ (r_ms & c_ms & [_ Hr] & Ha & ->)]. unfold command_ms. rewrite Ha. simpl. lia. Qed.

Lemma session_ms turns k ls rs e ms : session turns k ls rs e ms ->
  ms <= (2 + 2 * Z.of_nat (length rs)) * CLIENT_IO_TIMEOUT + commands_ms turns k (S (length rs)) ls.
Proof.
  induction 1 as [k ls _|k ms [_ H]|k l ls ms [_ H] _|k l ls ms r last [_ H] _ _|k l ls r last e ms ms' Ht%taken_ms Hw%writing_ms
    |k l ls r data ms ms' Ht%taken_ms Hw%writing_ms|k l ls r data rs e ms ms' ms'' Ht%taken_ms Hw%writing_ms _ IH].
  all: repeat match goal with |- context [commands_ms ?t ?k ?n ?l] =>
    lazymatch goal with H : 0 <= commands_ms t k n l |- _ => fail | _ => pose proof (commands_ms_nonneg t n k l) end end.
  all: unfold CLIENT_IO_TIMEOUT in *; cbn [length] in *; try lia.
  all: cbn [commands_ms] in *; try lia.
  destruct ls; unfold command_ms in *; lia.
Qed.

(** C33. A session of the control socket: whatever bytes a client sends, in whatever
    time, the session follows the rules over the lines of the stream: every line is
    read, answered and its answer written before the next one is read, until the
    stream ends, an operation on it is not done within its thirty seconds (it is
    then given up at the thirtieth), a line or an answer exceeds one MiB, the stream
    fails, or a shutdown was accepted and its answer is out; only a command that
    awaits the router or the daemon can hold a session up.  The answers come in the
    order of the lines, at most one for each; every answer repeats the version, the
    id of its request (0 when it is none) and has exactly one of a result and an
    error.  The session takes at most thirty seconds for each operation on the
    stream, the greeting, and a read and a write for each answer and for the line
    that was not answered, besides the time of the commands. *)
Theorem session_over_messages version turns s : exists out, handle_client version turns s = Some out /\
  exists hello greeting_ms, writing (turns 0%nat) (hello_value version) hello greeting_ms /\
  match hello with
  | Err e => out = MkSession [] (Broken e) greeting_ms /\ greeting_ms <= CLIENT_IO_TIMEOUT
  | Ok data => exists rs ms, session turns 1 (lines s) rs (ss_ending out) ms /\
      ss_written out = data :: ((fun r => frame_of (response_value r)) <$> rs) /\ ss_elapsed out = greeting_ms + ms /\
      (length rs <= length (lines s))%nat /\
      (forall i l r, lines s !! i = Some l -> rs !! i = Some r -> responds l r) /\
      ss_elapsed out <= (3 + 2 * Z.of_nat (length rs)) * CLIENT_IO_TIMEOUT + commands_ms turns 1 (S (length rs)) (lines s)
  end.
Proof.
  unfold handle_client. destruct (io_timeout _) as [hello ms] eqn:E. apply write_json_spec in E.
  pose proof (writing_ms _ _ _ _ E) as Hms. destruct hello as [data|e].
  - destruct (serve_session turns s 1 (S (length s))) as (out & rs & -> & Hs & Hw); [lia|].
    eexists. split; [reflexivity|]. exists (Ok data), ms. split; [done|]. cbn [ss_ending ss_written ss_elapsed].
    exists rs, (ss_elapsed out). pose proof (session_ms _ _ _ _ _ _ Hs). destruct (session_responds _ _ _ _ _ _ Hs) as [H1 H2].
    split_and!; [done|by rewrite Hw|done|done|done|unfold CLIENT_IO_TIMEOUT in *; lia].
  - eexists. split; [reflexivity|]. by exists (Err e), ms.
Qed.

(** * The client *)

Section Client.
Context {JL : JsonLaws}.

(** A value as one frame of a stream. *)
Definition fits (v : Value) : Prop := plain JSON_DEPTH v = true /\ Z.of_nat (length (to_vec v) + 1) <= MAX_FRAME.

Lemma frame_lines v rest : lines (frame_of v ++ rest) = frame_of v :: lines rest.
Proof. unfold frame_of. rewrite <- app_assoc. apply printable_lines, json_printable. Qed.

Lemma read_frame_value v rest : fits v -> read_frame (frame_of v ++ rest) = (Ok (Some (to_vec v)), rest).
Proof.
  intros [_ Hf]. rewrite read_frame_lines, frame_lines, lines_concat.
  unfold frame_of at 1 3. rewrite length_app. simpl. rewrite (proj2 (Z.ltb_ge _ _)) by done.
  by rewrite printable_content by apply json_printable.
Qed.

Lemma reads {A} ms (r : result IoError A) : ms <= CLIENT_IO_TIMEOUT -> io_timeout (r, Some ms) = (r, ms).
Proof. intros Hms. unfold io_timeout. cbn [fst snd]. by rewrite (proj2 (Z.leb_le _ _)). Qed.

Lemma client_reads ms v rest : fits v -> ms <= CLIENT_IO_TIMEOUT -> client_read (Some ms) (frame_of v ++ rest) = (Ok v, rest).
Proof.
  intros Hf Hms. unfold client_read. rewrite read_frame_value, reads by done.
  cbn [client_io mbind result_bind ok_or fst]. by rewrite json_round_trip by apply Hf.
Qed.

Lemma writes ms v : fits v -> ms <= CLIENT_IO_TIMEOUT -> io_timeout (write_json v true (Some ms)) = (Ok (frame_of v), ms).
Proof.
  intros [_ Hf] Hms. unfold write_json. rewrite length_app. cbn [length]. rewrite (proj2 (Z.ltb_ge _ _)) by done.
  by apply reads.
Qed.

(** The request of the client is read as what it asks. *)
Lemma request_read command params : request_of (request_value command params) = Some (MkRequest API_VERSION 1 command params).
Proof. reflexivity. Qed.

(** What the client makes of a response. *)
Definition client_result (r : Response) : result ControlClientError Value :=
  if rp_ok r then Ok (default JNull (rp_result r)) else Err (ClientRejected (response_value r)).

Lemma response_seen (r : Response) : (rp_ok r = true /\ is_Some (rp_result r) /\ rp_error r = None) \/
    (rp_ok r = false /\ rp_result r = None /\ is_Some (rp_error r)) ->
  (if is_true (get "ok" (response_value r)) then Ok (default JNull (get "result" (response_value r)))
   else Err (ClientRejected (response_value r))) = client_result r.
Proof.
  destruct r as [version id ok res err]. unfold client_result. simpl.
  intros [(-> & [v ->] & ->)|(-> & -> & [e ->])]; reflexivity.
Qed.

(** A server that is in time while it serves one request and sees the stream end, and
    whose commands answer. *)
Record prompt (t : Turn) : Prop := {
  pr_command : is_Some (tn_command t);
  pr_read : exists ms, tn_read t = Some ms /\ ms <= CLIENT_IO_TIMEOUT;
  pr_write : exists ms, tn_write t = Some ms /\ ms <= CLIENT_IO_TIMEOUT;
  pr_written : tn_written t = true
}.

(** C34. The command line sees what the daemon did: a client that connects, and
    sends a command with its parameters to a server which answers in time, gets
    the result of the command that was dispatched for it, or the whole response of
    a command that was rejected, as long as greeting, request and response are
    within one MiB; and the server has written nothing but greeting and response. *)
Theorem client_sees_dispatch version turns command params hello_ms write_ms response_ms :
  (forall k, prompt (turns k)) ->
  hello_ms <= CLIENT_IO_TIMEOUT -> write_ms <= CLIENT_IO_TIMEOUT -> response_ms <= CLIENT_IO_TIMEOUT ->
  let '(r, last) := dispatch_request (MkRequest API_VERSION 1 command params) (tn_shared (turns 1%nat)) (tn_text (turns 1%nat)) in
  fits (hello_value version) -> fits (request_value command params) -> fits (response_value r) ->
  (exists ms, handle_client version turns (frame_of (request_value command params)) =
    Some (MkSession [frame_of (hello_value version); frame_of (response_value r)] (if last then Flushed else Closed) ms)) /\
  request (Some hello_ms) (Some write_ms) (Some response_ms) true command params (frame_of (hello_value version))
    (fun data => match handle_client version turns data with Some (MkSession (_ :: replies) _ _) => concat replies | _ => [] end)
    = client_result r.
Proof.
  intros Hp Hh Hw Hr. destruct (dispatch_request _ _ _) as [r last] eqn:Ed. intros Fh Fq Fr.
  assert (exists took, answer (to_vec (request_value command params)) (turns 1%nat) = (r, last, Some took)) as (took & Ea).
  { unfold answer. rewrite json_round_trip by apply Fq. cbn [mbind option_bind]. rewrite request_read, Ed.
    destruct (Hp 1%nat) as [(took & ->) _ _ _]. destruct (waits _); eauto. }
  assert (exists ms, handle_client version turns (frame_of (request_value command params)) =
    Some (MkSession [frame_of (hello_value version); frame_of (response_value r)] (if last then Flushed else Closed) ms)) as (ms & Hs).
  { unfold handle_client. destruct (Hp 0%nat) as [_ _ (w & -> & Hw0) ->]. rewrite writes by done.
    destruct (length (frame_of (request_value command params))) as [|n] eqn:En;
      [unfold frame_of in En; rewrite length_app in En; simpl in En; lia|]. cbn [serve_frames].
    rewrite <- (app_nil_r (frame_of (request_value command params))), read_frame_value by done.
    destruct (Hp 1%nat) as [_ (rd & -> & Hr1) (w1 & -> & Hw1) ->]. rewrite reads by done. rewrite Ea, writes by done.
    destruct last; [by eexists|]. destruct (Hp 2%nat) as [_ (rd2 & -> & Hr2) _ _]. cbn [serve_frames].
    change (read_frame []) with (@Ok IoError (option (list byte)) None, @nil byte). cbv iota beta.
    rewrite reads by done. by eexists. }
  split; [by exists ms|]. unfold request. rewrite <- (app_nil_r (frame_of (hello_value version))), client_reads by done.
  cbn [mbind result_bind]. change (is_number API_VERSION (get "api_version" (hello_value version))) with true. cbn [negb].
  rewrite writes by done. cbn [client_io mbind result_bind app fst]. rewrite Hs. cbn [concat].
  rewrite client_reads by done. cbn [fst mbind result_bind]. apply response_seen.
  rewrite <- (printable_content (to_vec (request_value command params))) in Ea by apply json_printable.
  destruct (answer_responds _ _ _ _ _ Ea) as [_ _ H]. exact H.
Qed.
End Client.
End Sessions.

(** * A session

    A concrete coding of JSON values with the promised laws, and a session in which
    a client asks for the routes. *)

#[local] Existing Instance demo_net.

(** ** A coding *)

(** Values as trees, trees as numbers, and numbers as texts of two digits. *)
Fixpoint to_tree (v : Value) : gen_tree (bool + Z + string) :=
  match v with
  | JNull => GenNode 0 []
  | JBool b => GenNode 1 [GenLeaf (inl (inl b))]
  | JNumber n => GenNode 2 [GenLeaf (inl (inr n))]
  | JFloat t => GenNode 3 [GenLeaf (inr t)]
  | JString s => GenNode 4 [GenLeaf (inr s)]
  | JArray l => GenNode 5 (map to_tree l)
  | JObject fields => GenNode 6 (map (fun p => GenNode 7 [GenLeaf (inr p.1); to_tree p.2]) fields)
  end.

Fixpoint of_tree (t : gen_tree (bool + Z + string)) : Value :=
  match t with
  | GenNode 1 [GenLeaf (inl (inl b))] => JBool b
  | GenNode 2 [GenLeaf (inl (inr n))] => JNumber n
  | GenNode 3 [GenLeaf (inr s)] => JFloat s
  | GenNode 4 [GenLeaf (inr s)] => JString s
  | GenNode 5 l => JArray (map of_tree l)
  | GenNode 6 l => JObject (map (fun t => match t with GenNode _ [GenLeaf (inr k); v] => (k, of_tree v) | _ => (EmptyString, JNull) end) l)
  | _ => JNull
  end.

Fixpoint of_to_tree (v : Value) : of_tree (to_tree v) = v.
Proof.
  destruct v as [|b|n|t|s|l|fields]; try reflexivity.
  - cbn [to_tree of_tree]. f_equal. induction l as [|v l IH]; [reflexivity|]. cbn [map]. by rewrite of_to_tree, IH.
  - cbn [to_tree of_tree]. f_equal. induction fields as [|[k v] l IH]; [reflexivity|]. cbn [map fst snd]. by rewrite of_to_tree, IH.
Qed.

Fixpoint pos_digits (p : positive) : list byte :=
  match p with
  | xH => []
  | xO q => b8 48 :: pos_digits q
  | xI q => b8 49 :: pos_digits q
  end.
Fixpoint digits_pos (l : list byte) : positive :=
  match l with
  | [] => xH
  | b :: rest => if bool_decide (b = b8 48) then xO (digits_pos rest) else xI (digits_pos rest)
  end.

Lemma digits_pos_digits p : digits_pos (pos_digits p) = p.
Proof. induction p as [q IH|q IH|]; simpl; rewrite ?IH; reflexivity. Qed.

#[local] Instance demo_json : Json := {
  to_vec v := b8 118 :: pos_digits (encode (to_tree v));
  parse_json l := match l with [] => None | _ :: rest => of_tree <$> decode (digits_pos rest) end
}.

#[local] Instance demo_json_laws : JsonLaws.
Proof.
  split.
  - intros v _. cbn [to_vec parse_json demo_json]. rewrite digits_pos_digits, decode_encode. cbn [fmap option_fmap option_map].
    by rewrite of_to_tree.
  - intros v. cbn [to_vec demo_json]. constructor; [by vm_compute|]. induction (encode (to_tree v)) as [q IH|q IH|]; simpl;
      [constructor; [by vm_compute|done]|constructor; [by vm_compute|done]|constructor].
  - reflexivity.
Qed.

#[local] Instance demo_texts : Texts := {
  show_net n := "net";
  show_message m := match m with MessageText t => t | _ => "error" end
}.

(** * A session *)

Definition demo_health : ExportHealth * option Z * option string := (MkExportHealth 0 None None None 0 0, None, None).
Definition demo_shared : Shared :=
  MkShared "0.8.1" 12 (MkRuntimeMetadata 5000 1 "digest" None) (Err "router stopped") demo_health empty_snapshot
    ReloadNotSent ShutdownAccepted.
Definition demo_turns (k : nat) : Turn := MkTurn (Some 5) (Some 7) (Some 5) true demo_shared "text".

Lemma demo_prompt k : prompt (demo_turns k).
Proof. split; [by exists 7|by exists 5|by exists 5|done]. Qed.

Definition fits_b (v : Value) : bool := plain JSON_DEPTH v && (Z.of_nat (length (to_vec v) + 1) <=? MAX_FRAME).
Lemma fits_b_true v : fits_b v = true -> fits v.
Proof. unfold fits_b. intros [H1 H2%Z.leb_le]%andb_prop. by split. Qed.

(** The client asks for the routes, and gets the empty table. *)
Lemma client_sees_dispatch_witness :
  (exists ms, handle_client "0.8.1" demo_turns (frame_of (request_value "routes" (JObject []))) =
    Some (MkSession [frame_of (hello_value "0.8.1");
           frame_of (response_value (MkResponse 1 1 true (Some (JObject [("generation", JNumber 0); ("routes", JArray [])])) None))]
          Closed ms)) /\
  request (Some 5) (Some 5) (Some 5) true "routes" (JObject []) (frame_of (hello_value "0.8.1"))
    (fun data => match handle_client "0.8.1" demo_turns data with Some (MkSession (_ :: replies) _ _) => concat replies | _ => [] end)
    = Ok (JObject [("generation", JNumber 0); ("routes", JArray [])]).
Proof.
  assert (5 <= CLIENT_IO_TIMEOUT) as H by done.
  exact (client_sees_dispatch "0.8.1" demo_turns "routes" (JObject []) 5 5 5 demo_prompt H H H
    (fits_b_true _ (eq_refl true <: fits_b (hello_value "0.8.1") = true))
    (fits_b_true _ (eq_refl true <: fits_b (request_value "routes" (JObject [])) = true))
    (fits_b_true _ (eq_refl true <: fits_b (response_value (MkResponse 1 1 true
       (Some (JObject [("generation", JNumber 0); ("routes", JArray [])])) None)) = true))).
Defined.
