(* ===== verification/Transport.v ===== *)
(** The sockets of an interface ([transport.rs], [transport/datagrams.rs]) and the
    workers of [router/io.rs] that receive from them and that hand route snapshots to
    the exporter.

    A call of the system is a [SysCall] with its success, a datagram from the kernel
    a [Message] with its metadata; the content of [/sys] and the answer of
    [getifaddrs] are given.  A [None] result is a panic. *)
From S2P Require Import Prelude Net Model Metric Wire Api Scheduler Sender Router RouterLoop DaemonConfig State Handle Interfaces Control Mac.
Import Hello.
Local Open Scope Z_scope.

Definition IPV6_HEADER_BYTES : Z := 40.
Definition UDP_HEADER_BYTES : Z := 8.
Definition IPV6_MINIMUM_MTU : Z := 1280.
Definition MAX_UDP_PAYLOAD : Z := 65527.

(** The kinds of [io::Error] the module makes; [IoSystem] is a failed call. *)
Inductive IoError := IoSystem | IoInvalidInput | IoInvalidData | IoAddrNotAvailable | IoOther.

Record InterfaceSocket := MkInterfaceSocket {
  sk_name : string;
  sk_transport : ControlTransport;
  sk_index : Z;
  sk_addresses : list IpAddr;
  sk_mtu : Z;
  sk_authentication : option MacSession
}.

Definition set_session (s : InterfaceSocket) (m : option MacSession) : InterfaceSocket :=
  MkInterfaceSocket (sk_name s) (sk_transport s) (sk_index s) (sk_addresses s) (sk_mtu s) m.
Definition set_addresses (s : InterfaceSocket) (l : list IpAddr) : InterfaceSocket :=
  MkInterfaceSocket (sk_name s) (sk_transport s) (sk_index s) l (sk_mtu s) (sk_authentication s).

(** * Interface attributes *)

(** A file of [/sys/class/net/<name>] that holds a number. *)
Definition read_number (text : option (list byte)) : result IoError Z :=
  text ← ok_or text IoSystem; ok_or (u32_from_str_radix 10 (trim text)) IoInvalidData.
Definition interface_index (text : option (list byte)) : result IoError Z := read_number text.
Definition interface_mtu (text : option (list byte)) : result IoError Z := read_number text.

Definition payload_budget_for_mtu (mtu : Z) : result IoError Z :=
  if mtu <? IPV6_MINIMUM_MTU then Err IoInvalidInput
  else Ok (Z.min (mtu - IPV6_HEADER_BYTES - UDP_HEADER_BYTES) MAX_UDP_PAYLOAD).

Definition payload_budget_for_transport (mtu : Z) (transport : ControlTransport) : result IoError Z :=
  match transport with
  | TransportIpv6 => payload_budget_for_mtu mtu
  | TransportIpv4 => Ok (Z.min (Z.max (saturating_sub mtu 28) 512) 65507)
  end.

(** An entry of [getifaddrs]; addresses of other families are [None]. *)
Record IfAddr := MkIfAddr {
  if_name : string;
  if_address : option IpAddr;
  if_destination : option IpAddr;
  if_netmask : option IpAddr
}.

Definition interface_addresses (name : string) (items : option (list IfAddr)) : result IoError (list IpAddr) :=
  items ← ok_or items IoSystem;
  let addresses := omap (fun i => if bool_decide (if_name i = name) then if_address i else None) items in
  Ok (dedup_addresses (merge_sort ord_le addresses)).

(** [u32::from] of an address. *)
Definition v4_bits (a : Ipv4Addr) : Z := be_value (arr_list (v4_octets a)).

Definition as_v4 (a : option IpAddr) : option Ipv4Addr :=
  match a with Some (IpV4 a) => Some a | _ => None end.

Definition ipv4_on_link (name : string) (items : option (list IfAddr)) (source : Ipv4Addr) : bool :=
  match items with
  | None => false
  | Some items =>
      existsb (fun item =>
        match as_v4 (if_address item) with
        | None => false
        | Some local =>
            bool_decide (as_v4 (if_destination item) = Some source)
            || match as_v4 (if_netmask item) with
               | Some mask => Z.land (v4_bits local) (v4_bits mask) =? Z.land (v4_bits source) (v4_bits mask)
               | None => false
               end
        end) (List.filter (fun i => bool_decide (if_name i = name)) items)
  end.

(** An address that packets may be sent from. *)
Definition usable_source (transport : ControlTransport) (a : IpAddr) : bool :=
  match transport, a with
  | TransportIpv6, IpV6 ip => is_unicast_link_local ip
  | TransportIpv4, IpV4 ip => negb (v4_is_unspecified ip) && negb (v4_is_loopback ip) && negb (v4_is_multicast ip)
  | _, _ => false
  end.

(** * Opening *)

Inductive SysCall :=
| NewSocket (transport : ControlTransport)
| RecvPacketInfo (transport : ControlTransport)
| SetReuseAddress
| BindDevice (name : string)
| SetOnlyV6
| BindUnspecified (transport : ControlTransport) (port : Z)
| JoinMulticast (group : IpAddr) (index : Z)
| SetMulticastIf (index : Z)
| SetMulticastHops (transport : ControlTransport) (hops : Z)
| SetUnicastHops (transport : ControlTransport) (hops : Z)
| SetNonblocking
| RegisterSocket.

Definition socket_calls (name : string) (transport : ControlTransport) (index : Z) : list SysCall :=
  [NewSocket transport; RecvPacketInfo transport; SetReuseAddress; BindDevice name] ++
  match transport with
  | TransportIpv6 =>
      [SetOnlyV6; BindUnspecified transport PORT;
       JoinMulticast (IpV6 (ipv6 [0xff02; 0; 0; 0; 0; 0; 1; 6])) index; SetMulticastIf index;
       SetMulticastHops transport 1; SetUnicastHops transport 1]
  | TransportIpv4 =>
      [BindUnspecified transport PORT; JoinMulticast (IpV4 (ipv4 224 0 0 111)) index;
       SetMulticastHops transport 1; SetUnicastHops transport 1]
  end ++ [SetNonblocking; RegisterSocket].

(** The calls in turn, up to the first that fails. *)
Fixpoint perform (ok : SysCall -> bool) (calls : list SysCall) : result IoError unit :=
  match calls with
  | [] => Ok tt
  | c :: rest => if ok c then perform ok rest else Err IoSystem
  end.

Definition open_authenticated (name : string) (transport : ControlTransport) (mac : option MacConfig)
    (max_peers : nat) (index_text mtu_text : option (list byte)) (items : option (list IfAddr))
    (ok : SysCall -> bool) (random : result MacError (array 16)) : result IoError InterfaceSocket :=
  index ← interface_index index_text;
  mtu ← interface_mtu mtu_text;
  _ ← payload_budget_for_transport mtu transport;
  addresses ← interface_addresses name items;
  if negb (existsb (usable_source transport) addresses) then Err IoAddrNotAvailable
  else
    _ ← perform ok (socket_calls name transport index);
    session ← match mac with
              | None => Ok None
              | Some config => match mac_session config max_peers random with
                               | Ok s => Ok (Some s)
                               | Err _ => Err IoOther
                               end
              end;
    Ok (MkInterfaceSocket name transport index addresses mtu session).

(** * Datagrams *)

Section Transport.
Context {NL : IpNetLib} {ML : MacLib}.

(** [InterfaceSocket::destination]. *)
Definition socket_destination (s : InterfaceSocket) (address : IpAddr) : SocketAddr :=
  match address with
  | IpV6 ip => SockV6 ip PORT 0 (sk_index s)
  | IpV4 ip => SockV4 ip PORT
  end.

(** [payload_budget]; the MTU is read anew. *)
Definition payload_budget (s : InterfaceSocket) (mtu_text : option (list byte)) : result IoError Z :=
  mtu ← interface_mtu mtu_text;
  budget ← payload_budget_for_transport mtu (sk_transport s);
  let overhead := match sk_authentication s with Some m => Z.of_nat (overhead (config m)) | None => 0 end in
  if (overhead <=? budget) && (198 <=? budget - overhead) then Ok (budget - overhead) else Err IoOther.

Definition authenticate (s : InterfaceSocket) (bytes : list byte) (endpoints : DatagramEndpoints) (now_ms : Z)
    (random : result MacError (array 16)) : option (InterfaceSocket * MacReception) :=
  match sk_authentication s with
  | None => Some (s, MkReception true [])
  | Some mac =>
      '(mac, r) ← receive mac bytes endpoints now_ms random;
      Some (set_session s (Some mac), r)
  end.

(** What the kernel is asked to send: octets, destination, and the source address
    and interface that are pinned. *)
Record OutDatagram := MkOutDatagram {
  od_bytes : list byte;
  od_destination : SocketAddr;
  od_source : IpAddr;
  od_index : Z
}.

(** [as i32] of an interface index. *)
Definition as_i32 (z : Z) : Z := if z <? 2147483648 then z else z - 4294967296.

Definition socket_send (s : InterfaceSocket) (packet : list byte) (destination : IpAddr)
    (random : result MacError (array 16)) : option (InterfaceSocket * result IoError OutDatagram) :=
  match List.find (usable_source (sk_transport s)) (sk_addresses s) with
  | None => Some (s, Err IoAddrNotAvailable)
  | Some source =>
      let endpoints := MkEndpoints (socket_destination s source) (socket_destination s destination) in
      let out bytes := MkOutDatagram bytes (Mac.destination endpoints) source
                         (if is_ipv4 source then as_i32 (sk_index s) else sk_index s) in
      match sk_authentication s with
      | None => Some (s, Ok (out packet))
      | Some mac =>
          '(mac, signed) ← sign mac packet endpoints random;
          Some (set_session s (Some mac), match signed with Ok bytes => Ok (out bytes) | Err _ => Err IoOther end)
      end
  end.

(** A datagram as [recvmsg] reports it; [None] for an address of another family,
    or control data that cannot be read. *)
Inductive ControlMessage :=
| Ipv6PacketInfo (address : Ipv6Addr) (index : Z)
| Ipv4PacketInfo (address : Ipv4Addr) (index : Z)
| OtherControl.

Record Message := MkMessage {
  msg_truncated : bool;
  msg_address : option SocketAddr;
  msg_control : option (list ControlMessage);
  msg_bytes : list byte
}.

(** The last control message of this interface gives the destination. *)
Definition packet_destination (s : InterfaceSocket) (acc : option SocketAddr) (c : ControlMessage)
    : option SocketAddr :=
  match c with
  | Ipv6PacketInfo a i => if i =? sk_index s then Some (SockV6 a PORT 0 (sk_index s)) else acc
  | Ipv4PacketInfo a i => if i =? as_i32 (sk_index s) then Some (SockV4 a PORT) else acc
  | OtherControl => acc
  end.

Definition socket_receive (s : InterfaceSocket) (message : option Message)
    : result IoError (list byte * DatagramEndpoints) :=
  m ← ok_or message IoSystem;
  if msg_truncated m then Err IoInvalidData
  else
    source ← ok_or (msg_address m) IoOther;
    control ← ok_or (msg_control m) IoSystem;
    destination ← ok_or (fold_left (packet_destination s) control None) IoOther;
    Ok (msg_bytes m, MkEndpoints source destination).

(** * The receiver of an interface *)

Definition RECEIVED_PER_INTERFACE : nat := 4.

Inductive Received :=
| ReceivedPacket (source : IpAddr) (bytes : list byte) (received_timestamp_us : Z)
| ReceivedFailed (error : IoError).

(** Where the receiver waits: for a slot, for a datagram, for the end of a send of a
    control packet (with what is to be handed over then), for room in the channel of
    the router, or not any more.  In all but the first and last it holds a slot. *)
Inductive ReceiverPhase :=
| Acquiring
| Listening
| Answering (controls : list (list byte)) (to : IpAddr) (item : option Received)
| Handing (item : Received)
| ReceiverEnded.

(** [rc_outstanding] are the packets the router was given and has not dropped yet,
    each with its slot. *)
Record Receiver := MkReceiver {
  rc_socket : InterfaceSocket;
  rc_slots : nat;
  rc_outstanding : nat;
  rc_phase : ReceiverPhase
}.

Definition receiver_new (s : InterfaceSocket) : Receiver := MkReceiver s RECEIVED_PER_INTERFACE 0 Acquiring.

Definition set_socket (r : Receiver) (s : InterfaceSocket) : Receiver :=
  MkReceiver s (rc_slots r) (rc_outstanding r) (rc_phase r).

(** The slot the receiver holds goes back. *)
Definition holds_slot (p : ReceiverPhase) : nat :=
  match p with Acquiring | ReceiverEnded => 0 | Answering _ _ _ | Listening | Handing _ => 1 end.
Definition to_phase (r : Receiver) (p : ReceiverPhase) : Receiver :=
  MkReceiver (rc_socket r) (rc_slots r + (holds_slot (rc_phase r) - holds_slot p)) (rc_outstanding r) p.

(** A datagram or an error of the socket arrives. *)
Definition on_datagram (r : Receiver) (message : option Message) (items : option (list IfAddr))
    (timestamp_us now_ms : Z) (random : result MacError (array 16)) : option Receiver :=
  let s := rc_socket r in
  match socket_receive s message with
  | Err error => Some (to_phase r (Handing (ReceivedFailed error)))
  | Ok (bytes, endpoints) =>
      if negb (valid_socket_source (sk_transport s) (sk_addresses s) (ipv4_on_link (sk_name s) items)
                 (source endpoints))
      then Some (to_phase r Acquiring)
      else
        '(s, reception) ← authenticate s bytes endpoints now_ms random;
        let item := ReceivedPacket (sock_ip (source endpoints)) bytes (timestamp_us mod 4294967296) in
        Some (to_phase (set_socket r s)
                (Answering (controls reception) (sock_ip (source endpoints))
                   (if accepted reception then Some item else None)))
  end.

(** The next control packet, or what comes after the last. *)
Definition on_answer (r : Receiver) (controls : list (list byte)) (to : IpAddr) (item : option Received)
    (random : result MacError (array 16)) : option Receiver :=
  match controls with
  | [] => Some (to_phase r (match item with Some item => Handing item | None => Acquiring end))
  | c :: rest =>
      '(s, _) ← socket_send (rc_socket r) c to random;
      Some (to_phase (set_socket r s) (Answering rest to item))
  end.

(** There is room in the channel: a packet takes its slot along, a failure is the end. *)
Definition on_room (r : Receiver) (item : Received) : Receiver :=
  match item with
  | ReceivedPacket _ _ _ => MkReceiver (rc_socket r) (rc_slots r) (S (rc_outstanding r)) Acquiring
  | ReceivedFailed _ => to_phase r ReceiverEnded
  end.

(** What happens to a receiver: its own steps, and what others do to the socket (the
    sender signs with the same session, the router refreshes the addresses) and to
    the packets they were given.  A label is what the router gets. *)
Inductive receiver_step (r : Receiver) : option Received -> Receiver -> Prop :=
| rstep_acquire n : rc_phase r = Acquiring -> rc_slots r = S n ->
    receiver_step r None (MkReceiver (rc_socket r) n (rc_outstanding r) Listening)
| rstep_datagram message items timestamp_us now_ms random r' : rc_phase r = Listening ->
    on_datagram r message items timestamp_us now_ms random = Some r' -> receiver_step r None r'
| rstep_answer controls to item random r' : rc_phase r = Answering controls to item ->
    on_answer r controls to item random = Some r' -> receiver_step r None r'
| rstep_hand item : rc_phase r = Handing item -> receiver_step r (Some item) (on_room r item)
| rstep_stop : receiver_step r None (to_phase r ReceiverEnded)
| rstep_release n : rc_outstanding r = S n ->
    receiver_step r None (MkReceiver (rc_socket r) (S (rc_slots r)) n (rc_phase r))
| rstep_sender packet to random s res : socket_send (rc_socket r) packet to random = Some (s, res) ->
    receiver_step r None (set_socket r s)
| rstep_addresses l : receiver_step r None (set_socket r (set_addresses (rc_socket r) l)).

(** * Exporters *)

(** The trait [RouteExporter], over what an exporter keeps. *)
Class RouteExporter (S : Type) : Type := {
  supports_ipv4_via_ipv6 : bool;
  export_reconcile : RouteSnapshot -> S -> result string unit * S;
  export_retain : S -> result string unit * S;
  export_release : RouteSnapshot -> S -> result string unit * S
}.

(** The methods a trait gives when an exporter does not. *)
Definition supports_by_default : bool := false.
Definition retain_by_default {S} (s : S) : result string unit * S := (Ok tt, s).
Definition release_by_default {S} (reconcile : RouteSnapshot -> S -> result string unit * S)
    : RouteSnapshot -> S -> result string unit * S := reconcile.

(** [MemoryExporter] keeps the snapshot it was given last. *)
Definition memory_reconcile (snapshot : RouteSnapshot) (kept : RouteSnapshot) : result string unit * RouteSnapshot :=
  (Ok tt, snapshot).
#[export] Instance memory_exporter : RouteExporter RouteSnapshot := {
  supports_ipv4_via_ipv6 := true;
  export_reconcile := memory_reconcile;
  export_retain := retain_by_default;
  export_release := release_by_default memory_reconcile
}.

(** * The exporter of the router *)

Definition EXPORT_RETRY_MS : Z := 2000.

(** Where the worker is: at the top of its loop, in a call of the exporter, waiting
    since some time, or ended. *)
Inductive ExportPhase :=
| ExportTop
| Reconciling (snapshot : RouteSnapshot)
| ExportWaiting (since_ms : Z)
| ExportEnded.

(** The watch channel ([ew_snapshot], its version, and whether the router still has
    the other end), the version the worker saw, and its state. *)
Record ExportWorker := MkExportWorker {
  ew_snapshot : RouteSnapshot;
  ew_version : nat;
  ew_seen : nat;
  ew_last_generation : option Z;
  ew_shutdown : bool;
  ew_open : bool;
  ew_phase : ExportPhase
}.

Definition export_worker_new : ExportWorker := MkExportWorker empty_snapshot 0 0 None false true ExportTop.

Definition at_phase (w : ExportWorker) (p : ExportPhase) : ExportWorker :=
  MkExportWorker (ew_snapshot w) (ew_version w) (ew_seen w) (ew_last_generation w) (ew_shutdown w) (ew_open w) p.

(** The second half of a round: the shutdown is looked at again before the wait. *)
Definition export_wait (w : ExportWorker) (now_ms : Z) : ExportWorker :=
  at_phase w (if ew_shutdown w then ExportEnded else ExportWaiting now_ms).

(** The first half of a round, up to the call of the exporter or the wait. *)
Definition export_top (w : ExportWorker) (now_ms : Z) : ExportWorker :=
  if ew_shutdown w then at_phase w ExportEnded
  else
    let w := MkExportWorker (ew_snapshot w) (ew_version w) (ew_version w) (ew_last_generation w) (ew_shutdown w)
               (ew_open w) (ew_phase w) in
    if bool_decide (ew_last_generation w = Some (sn_generation (ew_snapshot w))) then export_wait w now_ms
    else at_phase w (Reconciling (ew_snapshot w)).

(** The call has returned. *)
Definition export_done (w : ExportWorker) (snapshot : RouteSnapshot) (success : bool) (now_ms : Z) : ExportWorker :=
  export_wait (MkExportWorker (ew_snapshot w) (ew_version w) (ew_seen w)
                 (if success then Some (sn_generation snapshot) else ew_last_generation w) (ew_shutdown w)
                 (ew_open w) (ew_phase w)) now_ms.

(** What the exporter is called for, and how it went. *)
Inductive ExportLabel :=
| ExportTau
| ExportCall (snapshot : RouteSnapshot)
| ExportReturn (snapshot : RouteSnapshot) (success : bool).

(** [send_replace] of the router. *)
Definition export_publish (w : ExportWorker) (snapshot : RouteSnapshot) : ExportWorker :=
  MkExportWorker snapshot (S (ew_version w)) (ew_seen w) (ew_last_generation w) (ew_shutdown w) (ew_open w) (ew_phase w).
Definition export_shutdown (w : ExportWorker) : ExportWorker :=
  MkExportWorker (ew_snapshot w) (ew_version w) (ew_seen w) (ew_last_generation w) true (ew_open w) (ew_phase w).
(** The router is gone. *)
Definition export_close (w : ExportWorker) : ExportWorker :=
  MkExportWorker (ew_snapshot w) (ew_version w) (ew_seen w) (ew_last_generation w) (ew_shutdown w) false (ew_phase w).

(** The steps of the worker. *)
Inductive export_step (w : ExportWorker) : ExportLabel -> ExportWorker -> Prop :=
| estep_top now_ms : ew_phase w = ExportTop ->
    export_step w (match ew_phase (export_top w now_ms) with Reconciling s => ExportCall s | _ => ExportTau end)
      (export_top w now_ms)
| estep_done s success now_ms : ew_phase w = Reconciling s ->
    export_step w (ExportReturn s success) (export_done w s success now_ms)
| estep_changed t : ew_phase w = ExportWaiting t -> ew_seen w <> ew_version w ->
    export_step w ExportTau (at_phase w ExportTop)
| estep_shutdown t : ew_phase w = ExportWaiting t -> ew_shutdown w = true ->
    export_step w ExportTau (at_phase w ExportEnded)
| estep_closed t : ew_phase w = ExportWaiting t -> ew_open w = false ->
    export_step w ExportTau (at_phase w ExportEnded)
| estep_timer t now_ms : ew_phase w = ExportWaiting t -> t + EXPORT_RETRY_MS <= now_ms ->
    export_step w ExportTau (at_phase w ExportTop).

(** The calls of a worker answered by an exporter; [None]: not as the exporter
    answers. *)
Definition succeeded {E} (r : result E unit) : bool := match r with Ok _ => true | Err _ => false end.
Fixpoint serve_labels {S} {X : RouteExporter S} (ls : list ExportLabel) (s : S) : option S :=
  match ls with
  | [] => Some s
  | ExportReturn snapshot success :: rest =>
      let '(r, s) := export_reconcile snapshot s in
      if Bool.eqb (succeeded r) success then serve_labels rest s else None
  | _ :: rest => serve_labels rest s
  end.

(** * The status of the interfaces *)

Section Status.
Context {MI : MetricImpl} {HO : HashOrder}.

Definition mac_mode (m : option MacSession) : string :=
  match m with
  | None => "disabled"
  | Some m => if is_strict (config m) then "strict" else "migration"
  end.

Definition default_output_status : OutputStatus := MkOutputStatus 0 0 0 0 0 0 0 0 0.

(** One entry; [mtu_text] is what the system says of the MTU now. *)
Definition socket_status (policies : gmap string InterfacePolicy) (fallback : InterfacePolicy)
    (mtu_text : string -> option (list byte)) (s : InterfaceSocket) : RouterInterfaceStatus :=
  let policy := default fallback (policies !! sk_name s) in
  MkRouterInterfaceStatus (sk_name s) (sk_index s) (sk_addresses s) (sk_transport s)
    (match interface_mtu (mtu_text (sk_name s)) with Ok mtu => mtu | Err _ => sk_mtu s end)
    (match payload_budget s (mtu_text (sk_name s)) with Ok budget => budget | Err _ => 0 end)
    (mac_mode (sk_authentication s)) (profile_name (ip_metric policy)) (ip_hello_interval_cs policy * 10)
    (ip_update_interval_cs policy * 10) (split_horizon policy) (ip_ipv4_next_hop policy)
    (ipv4_address (ip_ipv4_next_hop policy) (sk_addresses s)) default_output_status.

Definition interface_status (sockets : gmap string InterfaceSocket) (policies : gmap string InterfacePolicy)
    (fallback : InterfacePolicy) (mtu_text : string -> option (list byte)) : list RouterInterfaceStatus :=
  merge_sort (fun a b => ord_le (is_name a) (is_name b))
    ((fun p => socket_status policies fallback mtu_text p.2) <$> hm_iter sockets).

(** The status command adds what the queues report. *)
Definition with_output (outbound : gmap string System) (item : RouterInterfaceStatus) : RouterInterfaceStatus :=
  match outbound !! is_name item with
  | None => item
  | Some s =>
      MkRouterInterfaceStatus (is_name item) (is_index item) (is_local_addresses item) (is_control_transport item)
        (is_mtu item) (is_udp_payload_budget item) (is_mac_mode item) (is_metric item) (is_hello_interval_ms item)
        (is_update_interval_ms item) (is_split_horizon item) (is_ipv4_next_hop item) (is_ipv4_address item)
        (status (queue s) (available_permits s))
  end.
End Status.

(** * The end of a shutdown *)

Definition SEQUENCE_CHECKPOINT_TIMEOUT : Z := 1000.

Inductive ShutdownError := TaskFailed (text : string) | ShutdownTimeout | CleanupFailed (text : string) | SequenceStore (text : string).

(** [checkpoint_sequence_number], of the time the store takes and what it answers. *)
Definition checkpoint_sequence_number (took_ms : Z) (persisted : result string unit) : result ShutdownError unit :=
  if took_ms <=? SEQUENCE_CHECKPOINT_TIMEOUT then
    match persisted with Ok _ => Ok tt | Err error => Err (SequenceStore error) end
  else Err (SequenceStore "checkpoint timed out").

(** [NoopSequenceStore]. *)
Definition noop_persist (sequence_number : Z) : result string unit := Ok tt.

(** [Worker::join]. *)
Definition join (ended : result string unit) : result ShutdownError unit :=
  match ended with Ok _ => Ok tt | Err error => Err (TaskFailed error) end.

Fixpoint join_all (workers : list (result string unit)) : result ShutdownError unit :=
  match workers with
  | [] => Ok tt
  | w :: rest => _ ← join w; join_all rest
  end.

(** The result of the cleanup: the exporter's worker is joined before the exporter
    releases its state, the others after; a failed checkpoint is reported last. *)
Definition cleanup_result (took_ms timeout_ms : Z) (checkpoint : result ShutdownError unit)
    (export_worker : result string unit) (exported : result string unit) (workers : list (result string unit))
    : result ShutdownError unit :=
  if timeout_ms <? took_ms then Err ShutdownTimeout
  else
    _ ← join export_worker;
    let exported := match exported with Ok _ => Ok tt | Err error => Err (CleanupFailed error) end in
    _ ← join_all workers;
    _ ← exported;
    checkpoint.

(** [BabelRouter::wait]: the result of the task, or that it was lost. *)
Definition wait (ended : result string (result ShutdownError unit)) : result ShutdownError unit :=
  match ended with Ok r => r | Err error => Err (TaskFailed error) end.
End Transport.
