(* ===== verification/TransportTheorems.v ===== *)
(** What crosses a link between two sockets, what a receiver hands to the router, and
    what the exporter of the router ends up with. *)
From S2P Require Import Prelude Net Model Metric Wire WireDecode WireRoundtrip WireSound WireStamp Api EngineState Rib Engine OutputSpec Invariant EngineSpec Demo EngineTheorems Scheduler Sender Router RouterLoop BatchSpec RouterTheorems DaemonConfig State Handle Interfaces Control Mac MacSpec MacTheorems MacExchange MacDemo Transport.
Import Hello.
Local Open Scope Z_scope.

(** * Decoding a signed packet *)

Section Decoding.
Context {NL : IpNetLib}.

(** Whatever decodes may stand before other TLVs. *)
Lemma decoded_composes n : forall body st acc ts st', tlv_loop n body st acc = Ok (ts, st') ->
  (length body <= n)%nat -> exists new, ts = acc ++ new /\ tlvs_decode body st st' new.
Proof.
  induction n as [n IH] using lt_wf_ind. intros body st acc ts st' H Hn.
  destruct (next_frame body) as [|rest|t|t v rest] eqn:F.
  - assert (body = []) as ->.
    { destruct body as [|b body]; [done|]. simpl in F. by repeat case_match. }
    destruct n; simpl in H; injection H as <- <-; exists []; (split; [by rewrite app_nil_r|apply tlvs_decode_nil]).
  - apply next_frame_pad_inv in F as E. subst body. destruct n as [|n]; [simpl in Hn; lia|].
    cbn [tlv_loop] in H. rewrite F in H. apply IH in H as (new & -> & Hd); [|lia|simpl in Hn; lia].
    exists (TPad1 :: new). split; [by rewrite <- app_assoc|].
    exact (tlvs_decode_app [b8 0] rest _ _ _ [TPad1] new (tlvs_decode_pad st) Hd).
  - destruct n; simpl in H; by rewrite F in H.
  - apply next_frame_tlv_inv in F as E. destruct E as (-> & Ht & Hl).
    destruct n as [|n]; [simpl in Hn; lia|]. cbn [tlv_loop] in H. rewrite F in H.
    apply result_bind_Ok in H as ([o st1] & Hd & H).
    apply IH in H as (new & -> & Hd'); [|lia|rewrite !length_app in Hn; simpl in Hn; lia].
    exists ((match o with Some t => [t] | None => [] end) ++ new). split; [by rewrite <- app_assoc|].
    rewrite app_assoc. eapply tlvs_decode_app; [by apply tlvs_decode_frame|done].
Qed.

(** Octets behind the announced length are not looked at. *)
Lemma decode_header body extra src : Z.of_nat (length body) <= u16_max ->
  decode_packet (b8 42 :: b8 2 :: to_be16 (Z.of_nat (length body)) ++ body ++ extra) src =
  r ← decode_body body (ParserState_new src); Ok (MkPacket (fst r)).
Proof.
  unfold u16_max. intros Hl. unfold decode_packet. simpl length. simpl Nat.ltb.
  change (at_ 0 _) with MAGIC. change (at_ 1 _) with VERSION. simpl.
  unfold slice, to_be16. simpl. rewrite be16_field by (unfold in_u16; lia).
  rewrite Nat2Z.id, length_app. case_match eqn:E; [apply Nat.ltb_lt in E; lia|].
  by rewrite Nat.sub_0_r, drop_0, take_app_length.
Qed.

(** The counter that a signature adds is one more TLV, of a type the protocol leaves
    alone; the digests stand behind the body and are not decoded. *)
Lemma decode_framed packet body c i macs src ts :
  signable packet body -> Z.of_nat (length packet) + 18 <= u16_max ->
  decode_packet packet src = Ok (MkPacket ts) ->
  decode_packet (framed packet c i ++ macs) src = Ok (MkPacket (ts ++ [TUnknown PC (counter_value c i)])).
Proof.
  intros Hs Hf Hd. assert (length (counter_value c i) = 20%nat) as Hc
    by (unfold counter_value; rewrite length_app, arr_length; done).
  pose proof (proj1 Hs) as He. apply body_end_Ok in He as (h & l & rest & -> & Hlast & _).
  assert (decode_body rest (ParserState_new src) ≫= (fun r => Ok (MkPacket r.1)) = Ok (MkPacket ts)) as Hb.
  { revert Hd. unfold decode_packet. simpl Nat.ltb.
    change (at_ 0 _) with MAGIC. change (at_ 1 _) with VERSION. simpl negb. cbv iota.
    replace (be16 (slice 2 4 (b8 42 :: b8 2 :: h :: l :: rest))) with (be_value [h; l]) by reflexivity.
    simpl length in *. assert (Z.to_nat (be_value [h; l]) = length rest) as -> by lia.
    rewrite Nat.ltb_irrefl. unfold slice. simpl. by rewrite Nat.sub_0_r, drop_0, take_ge. }
  apply result_bind_Ok in Hb as ([ts' st'] & Hb & [= ->]). unfold decode_body in Hb.
  apply decoded_composes in Hb as (new & Hts & Hdec); [|done]. simpl in Hts. subst ts.
  set (v := counter_value c i) in *.
  assert (tlvs_decode (rest ++ [b8 PC; b8 20] ++ v) (ParserState_new src) st' (new ++ [TUnknown PC v])) as Hall.
  { eapply tlvs_decode_app; [exact Hdec|].
    pose proof (tlvs_decode_tlv PC v st' st' (TUnknown PC v)) as H. rewrite Hc in H. apply H; [unfold PC; lia|lia|done]. }
  apply tlvs_decode_body in Hall.
  assert (length (rest ++ [b8 PC; b8 20] ++ v) = (length rest + 22)%nat) as Hlen
    by (rewrite !length_app, Hc; simpl; lia).
  unfold framed. fold v. simpl drop. rewrite drop_0.
  set (tail := rest ++ [b8 PC; b8 20] ++ v) in *. clearbody tail. simpl length in *.
  replace (([b8 42; b8 2] ++ to_be16 (Z.of_nat (S (S (S (S (length rest)))) + 18)) ++ tail) ++ macs)
    with (b8 42 :: b8 2 :: (to_be16 (Z.of_nat (length tail)) ++ tail ++ macs)).
  2:{ rewrite Hlen. simpl. repeat f_equal; lia. }
  rewrite decode_header by (unfold u16_max in *; lia). by rewrite Hall.
Qed.
End Decoding.

(** * Across a link *)

Section Link.
Context {NL : IpNetLib} {ML : MacLib}.

(** Only addresses and ports are signed: the scope and the flow label may differ
    between the ends. *)
Definition same_wire (e f : DatagramEndpoints) : Prop :=
  sock_ip (Mac.source e) = sock_ip (Mac.source f) /\ sock_port (Mac.source e) = sock_port (Mac.source f) /\
  sock_ip (Mac.destination e) = sock_ip (Mac.destination f) /\ sock_port (Mac.destination e) = sock_port (Mac.destination f).

Lemma sign_same_wire s packet e f random : same_wire e f -> sign s packet e random = sign s packet f random.
Proof.
  intros (H1 & H2 & H3 & H4). assert (forall p, authenticated_bytes e p = authenticated_bytes f p) as H.
  { intros p. unfold authenticated_bytes. by rewrite H1, H2, H3, H4. }
  unfold sign. destruct (body_end packet) as [last|]; [|done]. case_match; [done|].
  destruct (tlvs _) as [body|]; [|done]. case_match; [done|].
  match goal with |- context [match ?x with Ok _ => _ | Err _ => _ end] => destruct x as [[i c]|] end; [|done].
  cbv zeta. by rewrite H.
Qed.

(** What the kernel promises of a datagram that it delivers: octets unchanged, the
    address that was pinned and the port the socket is bound to as its source, and
    the destination on the receiving interface in the control data. *)
Record carries (dg : OutDatagram) (b : InterfaceSocket) (m : Message) (from : SocketAddr) : Prop := {
  cy_whole : msg_truncated m = false;
  cy_address : msg_address m = Some from;
  cy_source : sock_ip from = od_source dg /\ sock_port from = PORT;
  cy_control : msg_control m = Some [match sock_ip (od_destination dg) with
                                     | IpV6 d => Ipv6PacketInfo d (sk_index b)
                                     | IpV4 d => Ipv4PacketInfo d (as_i32 (sk_index b))
                                     end];
  cy_bytes : msg_bytes m = od_bytes dg
}.

(** The receiver may take packets from this address: it is none of its own, and an
    IPv4 address is on the link. *)
Definition neighbouring (b : InterfaceSocket) (items : option (list IfAddr)) (from : SocketAddr) : Prop :=
  (sock_ip from ∉ sk_addresses b) /\
  match from with
  | SockV4 ip _ => v4_is_broadcast ip = false /\ ipv4_on_link (sk_name b) items ip = true
  | SockV6 _ _ _ _ => True
  end.

(** The receiver knows the session the packet was signed in ([ma], afterwards), shares a key
    with it and has seen only smaller counters. *)
Definition acquainted (ma : MacSession) (mb : MacSession) (e : DatagramEndpoints) (now : Z) : Prop :=
  mac_inv mb /\ is_strict (config mb) = true /\ (exists k, k ∈ keys (config ma) /\ k ∈ keys (config mb)) /\
  exists p, peers mb !! Mac.source e = Some p /\ now < expires p /\ index p = Some (arr_list (own_index ma)) /\
    counter_for e p < own_counter ma - 1.

Definition authenticates (a a' b : InterfaceSocket) (e : DatagramEndpoints) (now : Z) : Prop :=
  match sk_authentication a, sk_authentication a', sk_authentication b with
  | Some m, Some ma, Some mb => mac_inv m /\ acquainted ma mb e now
  | None, _, None => True
  | _, _, _ => False
  end.

(** Octets of a packet with its headers, on a link of this MTU.  An IPv4 link of any
    MTU is taken to carry the 540 octets of the protocol's smallest packet. *)
Definition fits_link (transport : ControlTransport) (mtu : Z) (bytes : list byte) : Prop :=
  match transport with
  | TransportIpv6 => Z.of_nat (length bytes) + IPV6_HEADER_BYTES + UDP_HEADER_BYTES <= mtu
  | TransportIpv4 => Z.of_nat (length bytes) + 28 <= Z.max mtu 540
  end.

Lemma budget_fits s text mtu budget bytes :
  interface_mtu text = Ok mtu -> payload_budget s text = Ok budget ->
  Z.of_nat (length bytes) <= budget + match sk_authentication s with
                                      | Some m => Z.of_nat (overhead (config m))
                                      | None => 0
                                      end -> fits_link (sk_transport s) mtu bytes.
Proof.
  intros Hm. unfold payload_budget. rewrite Hm. cbn [mbind result_bind].
  unfold payload_budget_for_transport, payload_budget_for_mtu, fits_link, saturating_sub.
  destruct (sk_transport s); try destruct (mtu <? IPV6_MINIMUM_MTU); cbn [mbind result_bind]; try done;
    match goal with |- (if ?c then _ else _) = _ -> _ => destruct c; [|done] end; intros [= <-] H;
    unfold IPV6_HEADER_BYTES, UDP_HEADER_BYTES, MAX_UDP_PAYLOAD in *; lia.
Qed.

Lemma sent_from s packet dest random s' dg : socket_send s packet dest random = Some (s', Ok dg) ->
  usable_source (sk_transport s) (od_source dg) = true /\
  od_destination dg = socket_destination s dest /\
  match sk_authentication s with
  | None => od_bytes dg = packet /\ s' = s
  | Some m => exists m', s' = set_session s (Some m') /\
      sign m packet (MkEndpoints (socket_destination s (od_source dg)) (socket_destination s dest)) random =
        Some (m', Ok (od_bytes dg))
  end.
Proof.
  unfold socket_send. destruct (List.find _ _) as [source|] eqn:F; [|done]. apply List.find_some in F as [_ F].
  destruct (sk_authentication s) as [m|]; [|by intros [= <- <-]].
  intros ([m' [bytes|]] & Hs & [= <- <-])%bind_Some. simpl. split; [done|]. split; [done|]. by exists m'.
Qed.

Lemma received_from b m dg from a dest : carries dg b m from -> od_destination dg = socket_destination a dest ->
  exists e, socket_receive b (Some m) = Ok (od_bytes dg, e) /\ Mac.source e = from /\
    same_wire (MkEndpoints (socket_destination a (od_source dg)) (socket_destination a dest)) e.
Proof.
  intros [Hw Ha [Hs Hp] Hc Hb] Hd. exists (MkEndpoints from (socket_destination b dest)).
  unfold socket_receive. cbn [ok_or mbind result_bind]. rewrite Hw, Ha, Hc. cbn [ok_or mbind result_bind].
  rewrite Hd, Hb. split; [|split; [done|]].
  - destruct dest; simpl; by rewrite Z.eqb_refl.
  - unfold same_wire. simpl. rewrite Hs, Hp. by destruct dest, (od_source dg).
Qed.

Lemma neighbour_admitted b dg from items : usable_source (sk_transport b) (od_source dg) = true ->
  sock_ip from = od_source dg -> sock_port from = PORT -> neighbouring b items from ->
  valid_socket_source (sk_transport b) (sk_addresses b) (ipv4_on_link (sk_name b) items) from = true.
Proof.
  intros Hu Hs Hp [Hn Hx]. rewrite <- Hs in Hu. unfold valid_socket_source, valid_babel_source.
  destruct (sk_transport b), from as [ip port|ip port fl sc]; simpl in *; try done; subst port.
  - rewrite Hu, Z.eqb_refl. simpl. by rewrite bool_decide_eq_false_2.
  - destruct Hx as [Hb Hl]. apply andb_prop in Hu as [[H1 H2]%andb_prop H3].
    rewrite H1, H2, H3, Hb, Hl, Z.eqb_refl. simpl. by rewrite bool_decide_eq_false_2.
Qed.

(** C18. A packet crosses a link: what a socket sends for a packet within its payload
    budget fits the MTU of the link (an IPv4 link is taken to carry at least 540
    octets, since the budget is never less than 512); when the kernel delivers it to a socket of the
    same transport, that socket reads the same octets, admits their source, and
    authenticates them, provided both use no authentication or the receiver shares a
    key with the sender and is in step with it; and what they decode to is what the
    packet decodes to, but for a counter TLV that the protocol leaves alone.  The
    interface index of the two ends, and with it the scope of their addresses, need
    not be the same. *)
Theorem datagram_crosses_link a b packet dest rnd a' dg m from items now random :
  socket_send a packet dest rnd = Some (a', Ok dg) -> carries dg b m from ->
  sk_transport b = sk_transport a -> neighbouring b items from ->
  (forall e, socket_receive b (Some m) = Ok (od_bytes dg, e) -> authenticates a a' b e now) ->
  (forall text mtu budget, interface_mtu text = Ok mtu -> payload_budget a text = Ok budget ->
     Z.of_nat (length packet) <= budget -> fits_link (sk_transport a) mtu (od_bytes dg)) /\
  exists e b' r, socket_receive b (Some m) = Ok (od_bytes dg, e) /\
    valid_socket_source (sk_transport b) (sk_addresses b) (ipv4_on_link (sk_name b) items) (Mac.source e) = true /\
    authenticate b (od_bytes dg) e now random = Some (b', r) /\ accepted r = true /\
    forall src ts, decode_packet packet src = Ok (MkPacket ts) ->
      exists counter, decode_packet (od_bytes dg) src = Ok (MkPacket (ts ++ counter)) /\
        (length counter <= 1)%nat /\ Forall (fun t => exists v, t = TUnknown PC v) counter.
Proof.
  intros Hs Hc Ht Hn Hau. destruct (sent_from _ _ _ _ _ _ Hs) as (Hu & Hd & Hbytes).
  destruct (received_from _ _ _ _ a dest Hc Hd) as (e & He & Hf & Hw). specialize (Hau e He).
  assert (valid_socket_source (sk_transport b) (sk_addresses b) (ipv4_on_link (sk_name b) items) (Mac.source e) = true)
    as Hv by (rewrite Hf; apply (neighbour_admitted b dg); rewrite ?Ht; by try apply Hc).
  unfold authenticates, authenticate in *. destruct (sk_authentication a) as [ma|] eqn:Ea.
  - destruct Hbytes as (ma' & -> & Hsg). simpl in Hau. destruct (sk_authentication b) as [mb|]; [|done].
    destruct Hau as (Hia & Hib & Hst & (k & Hka & Hkb) & p & Hp & Hx & Hi & Hlt).
    rewrite (sign_same_wire _ _ _ e _ Hw) in Hsg. pose proof (sign_Ok _ _ _ _ _ _ Hsg) as Hok.
    assert (config ma' = config ma) as Hcf by (by rewrite (sg_state _ _ _ _ _ _ Hok)). rewrite Hcf in Hka.
    destruct (signed_packet_accepted ma packet e rnd ma' (od_bytes dg) mb now random k p)
      as (b' & r & Hr & Hacc & _); try done.
    split.
    + intros text mtu budget Hm Hb Hl. eapply budget_fits; [done..|]. rewrite Ea.
      destruct (signed_out _ _ _ _ _ _ Hia Hsg) as [-> _]. lia.
    + exists e, (set_session b (Some b')), r. rewrite Hr. do 4 (split; [done|]). intros src ts Hdec.
      destruct (sg_body _ _ _ _ _ _ Hok) as (body & Hsb).
      destruct (sg_out _ _ _ _ _ _ Hok) as (data & macs & _ & _ & ->).
      eexists. split; [exact (decode_framed _ _ _ _ _ _ _ Hsb (sg_fits _ _ _ _ _ _ Hok) Hdec)|].
      split; [simpl; lia|]. apply Forall_singleton. eauto.
  - destruct Hbytes as [Hpk ->]. destruct (sk_authentication b) eqn:Eb; [done|]. split.
    + intros text mtu budget Hm Hb Hl. eapply budget_fits; [done..|]. rewrite Ea, Hpk. lia.
    + exists e, b, (MkReception true []). do 4 (split; [done|]). intros src ts Hdec. exists [].
      rewrite app_nil_r, Hpk. split; [done|]. split; [simpl; lia|constructor].
Qed.
End Link.

(** * What a receiver hands over *)

Section Receiver.
Context {NL : IpNetLib} {ML : MacLib}.

Inductive receiver_run (s0 : InterfaceSocket) : list Received -> Receiver -> Prop :=
| rrun_start : receiver_run s0 [] (receiver_new s0)
| rrun_step given r l r' : receiver_run s0 given r -> receiver_step r l r' ->
    receiver_run s0 (given ++ match l with Some item => [item] | None => [] end) r'.

(** The packets a run of a session accepted, and those among the items of a receiver. *)
Definition accepted_packet (x : MacOp * MacOut) : option (IpAddr * list byte) :=
  match x with
  | (OpReceive packet e _ _, MacTheorems.Received r) =>
      if accepted r then Some (sock_ip (Mac.source e), packet) else None
  | _ => None
  end.
Definition accepted_packets (ops : list MacOp) (outs : list MacOut) : list (IpAddr * list byte) :=
  omap accepted_packet (zip ops outs).
Definition item_packet (item : Received) : option (IpAddr * list byte) :=
  match item with ReceivedPacket source bytes _ => Some (source, bytes) | ReceivedFailed _ => None end.
Definition packets (items : list Received) : list (IpAddr * list byte) := omap item_packet items.

(** What a receiver still has to hand over. *)
Definition pending_items (p : ReceiverPhase) : list Received :=
  match p with Answering _ _ (Some item) | Handing item => [item] | _ => [] end.

(** A source a neighbour on a link of this transport can have. *)
Definition admissible (transport : ControlTransport) (source : IpAddr) : Prop :=
  match transport, source with
  | TransportIpv6, IpV6 ip => is_unicast_link_local ip = true
  | TransportIpv4, IpV4 ip => v4_is_unspecified ip = false /\ v4_is_multicast ip = false /\
      v4_is_loopback ip = false /\ v4_is_broadcast ip = false
  | _, _ => False
  end.

Lemma valid_admissible transport local on_link source :
  valid_socket_source transport local on_link source = true -> admissible transport (sock_ip source).
Proof.
  unfold valid_socket_source, valid_babel_source. destruct transport, source; simpl; try done;
    rewrite !andb_true_iff, ?negb_true_iff; tauto.
Qed.

Lemma mac_run_snoc s ops : forall s' outs op s'' o, mac_run s ops = Some (s', outs) -> mac_step s' op = Some (s'', o) ->
  mac_run s (ops ++ [op]) = Some (s'', outs ++ [o]) /\
  accepted_packets (ops ++ [op]) (outs ++ [o]) =
    accepted_packets ops outs ++ match accepted_packet (op, o) with Some p => [p] | None => [] end.
Proof.
  revert s. induction ops as [|x ops IH]; intros s s' outs op s'' o H Ho.
  - injection H as <- <-. simpl. rewrite Ho. split; [done|]. unfold accepted_packets. simpl. by case_match.
  - cbn [mac_run] in H. apply bind_Some in H as ([s1 o1] & H1 & H). apply bind_Some in H as ([s2 os] & H2 & H).
    injection H as <- <-. destruct (IH _ _ _ _ _ _ H2 Ho) as [Hr Ha].
    cbn [app mac_run]. rewrite H1. cbn [mbind option_bind]. rewrite Hr. split; [done|].
    unfold accepted_packets in *. cbn [app zip zip_with]. change (omap accepted_packet (?a :: ?l)) with (match accepted_packet a with Some b => b :: omap accepted_packet l | None => omap accepted_packet l end). rewrite Ha. by destruct (accepted_packet (x, o1)).
Qed.

(** The session of a socket that sends takes at most one step, and accepts nothing. *)
Lemma send_session s packet dest random m : sk_authentication s = Some m -> mac_inv m ->
  exists s' res, socket_send s packet dest random = Some (s', res) /\
    (s' = s \/ exists e m' r, mac_step m (OpSign packet e random) = Some (m', Signed r) /\
                 s' = set_session s (Some m')).
Proof.
  intros Hm Hi. unfold socket_send. destruct (List.find _ _) as [source|]; [|eauto]. rewrite Hm.
  set (e := MkEndpoints _ _). destruct (mac_step_ok m (OpSign packet e random) Hi) as (m' & o & Hs & _).
  cbn [mac_step] in Hs. apply bind_Some in Hs as ([m1 r] & Hs & [= <- <-]). rewrite Hs.
  do 2 eexists. split; [reflexivity|]. right. exists e, m1, r. cbn [mac_step]. by rewrite Hs.
Qed.

(** The record of a receiver's life: its session ran, what it accepted is what was
    handed over, what is to be handed over, and at most one packet that a stop lost. *)
Record receives (s0 : InterfaceSocket) (m0 : MacSession) (given : list Received) (r : Receiver)
    (ops : list MacOp) (outs : list MacOut) (m : MacSession) : Prop := {
  rv_session : sk_authentication (rc_socket r) = Some m;
  rv_run : mac_run m0 ops = Some (m, outs);
  rv_packets : exists lost, accepted_packets ops outs = packets given ++ packets (pending_items (rc_phase r)) ++ lost /\
    (length lost <= 1)%nat /\ (lost <> [] -> rc_phase r = ReceiverEnded);
  rv_transport : sk_transport (rc_socket r) = sk_transport s0;
  rv_sources : Forall (fun p => admissible (sk_transport s0) p.1) (accepted_packets ops outs);
  rv_failure : exists before last, given = before ++ last /\ Forall (fun i => is_Some (item_packet i)) before /\
    (last = [] \/ exists error, last = [ReceivedFailed error] /\ rc_phase r = ReceiverEnded);
  rv_slots : (rc_slots r + rc_outstanding r + holds_slot (rc_phase r) = RECEIVED_PER_INTERFACE)%nat
}.

Section Life.
Context (s0 : InterfaceSocket) (m0 : MacSession) (good : mac_inv m0).

Lemma receives_inv given r ops outs m : receives s0 m0 given r ops outs m -> mac_inv m.
Proof.
  intros H. destruct (mac_run_ok ops m0 good) as (m' & os & Hr & _ & Hi & _).
  rewrite (rv_run _ _ _ _ _ _ _ H) in Hr. by injection Hr as <- _.
Qed.

(** Steps that leave session and packets alone. *)
Lemma receives_move given r ops outs m r' : receives s0 m0 given r ops outs m ->
  sk_authentication (rc_socket r') = sk_authentication (rc_socket r) ->
  sk_transport (rc_socket r') = sk_transport (rc_socket r) ->
  packets (pending_items (rc_phase r')) = packets (pending_items (rc_phase r)) ->
  (rc_phase r = ReceiverEnded -> rc_phase r' = ReceiverEnded) ->
  (rc_slots r' + rc_outstanding r' + holds_slot (rc_phase r') =
   rc_slots r + rc_outstanding r + holds_slot (rc_phase r))%nat ->
  receives s0 m0 given r' ops outs m.
Proof.
  intros [Hs Hr (lost & Hp & Hl & He) Ht Hsrc (b & la & -> & Hb & Hf) Hn] E1 E2 E3 E4 E5.
  split; try done; try congruence.
  - exists lost. rewrite E3. auto.
  - exists b, la. split; [done|]. split; [done|]. destruct Hf as [?|(er & ? & ?)]; [by left|]. right. exists er. auto.
Qed.

Lemma receives_signed given r ops outs m packet e random m' res : receives s0 m0 given r ops outs m ->
  mac_step m (OpSign packet e random) = Some (m', Signed res) ->
  receives s0 m0 given (set_socket r (set_session (rc_socket r) (Some m'))) (ops ++ [OpSign packet e random])
    (outs ++ [Signed res]) m'.
Proof.
  intros [Hs Hr Hp Ht Hsrc Hf Hn] Hstep. destruct (mac_run_snoc _ _ _ _ _ _ _ Hr Hstep) as [Hr' Ha].
  simpl in Ha. rewrite app_nil_r in Ha. split; simpl; try done; by rewrite Ha.
Qed.

Lemma receives_send given r ops outs m packet dest random s res : receives s0 m0 given r ops outs m ->
  socket_send (rc_socket r) packet dest random = Some (s, res) ->
  exists ops outs m, receives s0 m0 given (set_socket r s) ops outs m.
Proof.
  intros H Hs. destruct (send_session _ packet dest random m (rv_session _ _ _ _ _ _ _ H) (receives_inv _ _ _ _ _ H))
    as (s' & res' & Hs' & Hc). rewrite Hs in Hs'. injection Hs' as <- <-. destruct Hc as [->|(e & m' & r' & Hstep & ->)].
  - exists ops, outs, m. by destruct r.
  - do 3 eexists. by eapply receives_signed.
Qed.

(** A packet that the session accepted is the next to be handed over. *)
Lemma receives_received given r ops outs m bytes e now random m' rec controls to ts : receives s0 m0 given r ops outs m ->
  rc_phase r = Listening -> admissible (sk_transport s0) (sock_ip (Mac.source e)) ->
  receive m bytes e now random = Some (m', rec) ->
  receives s0 m0 given
    (to_phase (set_socket r (set_session (rc_socket r) (Some m')))
       (Answering controls to
          (if accepted rec then Some (ReceivedPacket (sock_ip (Mac.source e)) bytes ts) else None)))
    (ops ++ [OpReceive bytes e now random]) (outs ++ [MacTheorems.Received rec]) m'.
Proof.
  intros [Hs Hr (lost & Hp & Hl & He) Ht Hsrc (b & la & -> & Hb & Hf) Hn] Hph Ha Hrec.
  assert (mac_step m (OpReceive bytes e now random) = Some (m', MacTheorems.Received rec)) as Hstep
    by (simpl; by rewrite Hrec).
  destruct (mac_run_snoc _ _ _ _ _ _ _ Hr Hstep) as [Hr' Hacc]. rewrite Hph in *.
  assert (lost = []) as -> by (destruct lost; [done|]; by discriminate He). assert (la = []) as -> by (by destruct Hf as [?|(? & _ & ?)]).
  simpl in Hp, Hacc. rewrite !app_nil_r in Hp. split; simpl; rewrite ?Hacc; try done.
  - exists []. rewrite Hp, !app_nil_r. split; [|by split; [simpl; lia|]]. by destruct (accepted rec).
  - apply Forall_app. split; [done|]. destruct (accepted rec); repeat constructor. done.
  - exists b, []. split; [done|]. auto.
  - rewrite Hph. simpl in *. lia.
Qed.

Lemma receives_handed given r ops outs m item : receives s0 m0 given r ops outs m -> rc_phase r = Handing item ->
  receives s0 m0 (given ++ [item]) (on_room r item) ops outs m.
Proof.
  intros [Hs Hr (lost & Hp & Hl & He) Ht Hsrc (b & la & -> & Hb & Hf) Hn] Hph. rewrite Hph in *.
  assert (lost = []) as -> by (destruct lost; [done|]; by discriminate He).
  assert (la = []) as -> by (by destruct Hf as [?|(? & _ & ?)]). rewrite !app_nil_r in *.
  assert (packets (b ++ [item]) = packets b ++ packets [item]) as Hpk by apply omap_app.
  destruct item as [src bytes ts|error]; split; try done.
  - exists []. rewrite Hp, Hpk, !app_nil_r. split; [done|]. by split; [simpl; lia|].
  - exists (b ++ [ReceivedPacket src bytes ts]), []. rewrite app_nil_r. split; [done|]. split; [|auto].
    apply Forall_app. split; [done|]. apply Forall_singleton. eauto.
  - simpl in *. lia.
  - exists []. rewrite Hp, Hpk, !app_nil_r. split; [done|]. by split; [simpl; lia|].
  - exists b, [ReceivedFailed error]. split; [done|]. split; [done|]. right. by exists error.
  - simpl. rewrite Hph. simpl in *. lia.
Qed.

(** A stop loses at most the packet that was to be handed over. *)
Lemma receives_stopped given r ops outs m : receives s0 m0 given r ops outs m ->
  receives s0 m0 given (to_phase r ReceiverEnded) ops outs m.
Proof.
  intros [Hs Hr (lost & Hp & Hl & He) Ht Hsrc (b & la & -> & Hb & Hf) Hn]. split; try done.
  - exists (packets (pending_items (rc_phase r)) ++ lost). split; [done|]. split; [|done].
    rewrite length_app. destruct lost as [|x lost].
    + destruct (rc_phase r) as [| |? ? [[]|]|[]|]; simpl; lia.
    + rewrite He by done. simpl in *. lia.
  - exists b, la. split; [done|]. split; [done|]. destruct Hf as [?|(er & ? & ?)]; eauto.
  - simpl. destruct (rc_phase r); simpl in *; lia.
Qed.

Lemma receives_datagram given r ops outs m message items ts now random r' : receives s0 m0 given r ops outs m ->
  rc_phase r = Listening -> on_datagram r message items ts now random = Some r' ->
  exists ops outs m, receives s0 m0 given r' ops outs m.
Proof.
  intros H Hph. unfold on_datagram. destruct (socket_receive _ _) as [[bytes e]|error].
  - destruct (valid_socket_source _ _ _ _) eqn:Hv; simpl.
    + intros ([s rec] & Ha & [= <-])%bind_Some. unfold authenticate in Ha. rewrite (rv_session _ _ _ _ _ _ _ H) in Ha.
      apply bind_Some in Ha as ([m' rec'] & Hr & [= <- <-]). do 3 eexists. eapply receives_received; try done.
      rewrite <- (rv_transport _ _ _ _ _ _ _ H). by eapply valid_admissible.
    + intros [= <-]. exists ops, outs, m. eapply receives_move; [exact H|..]; simpl; rewrite ?Hph; simpl; done || lia.
  - intros [= <-]. exists ops, outs, m. eapply receives_move; [exact H|..]; simpl; rewrite ?Hph; simpl; done || lia.
Qed.

Lemma receives_answer given r ops outs m controls to item random r' : receives s0 m0 given r ops outs m ->
  rc_phase r = Answering controls to item -> on_answer r controls to item random = Some r' ->
  exists ops outs m, receives s0 m0 given r' ops outs m.
Proof.
  intros H Hph. unfold on_answer. destruct controls as [|c rest].
  - intros [= <-]. exists ops, outs, m. eapply receives_move; [exact H|..]; simpl; rewrite ?Hph; destruct item; simpl; done || lia.
  - intros ([s res] & Hs & [= <-])%bind_Some. destruct (receives_send _ _ _ _ _ _ _ _ _ _ H Hs) as (ops' & outs' & m' & H').
    exists ops', outs', m'. eapply receives_move; [exact H'|..]; simpl; rewrite ?Hph; destruct item; simpl; done || lia.
Qed.

Lemma receives_step given r ops outs m l r' : receives s0 m0 given r ops outs m -> receiver_step r l r' ->
  exists ops outs m, receives s0 m0 (given ++ match l with Some i => [i] | None => [] end) r' ops outs m.
Proof.
  intros H Hstep. destruct Hstep as [n Hph Hsl|message items ts now random r' Hph Hd|controls to item random r' Hph Ha
    |item Hph| |n Ho|packet to random s res Hs|l]; rewrite ?app_nil_r.
  - exists ops, outs, m. eapply receives_move; [exact H|..]; simpl; rewrite ?Hph, ?Hsl; simpl; done || lia.
  - by eapply receives_datagram.
  - by eapply receives_answer.
  - exists ops, outs, m. by apply receives_handed.
  - exists ops, outs, m. by apply receives_stopped.
  - exists ops, outs, m. eapply receives_move; [exact H|..]; simpl; rewrite ?Ho; simpl; done || lia.
  - by eapply receives_send.
  - exists ops, outs, m. eapply receives_move; [exact H|..]; simpl; done || lia.
Qed.

Lemma receives_run given r : sk_authentication s0 = Some m0 -> receiver_run s0 given r ->
  exists ops outs m, receives s0 m0 given r ops outs m.
Proof.
  intros Hm. induction 1 as [|given r l r' _ (ops & outs & m & H) Hs]; [|by eapply receives_step].
  exists [], [], m0. split; try done.
  - exists []. split; [done|]. by split; [simpl; lia|].
  - exists [], []. split; [done|]. auto.
Qed.
End Life.

(** C19. The receiver of an interface that authenticates, with whatever datagrams and
    errors the kernel reports, whatever the sender signs in the same session, and
    however long the router holds its packets: the receiver never panics.  Its session
    and the sender's make one run of the session, so that all that is proved of runs
    holds.  The router is given exactly the packets the session accepted, in their
    order and once each, except for at most one that a stop lost, all from sources
    that a neighbour on the link can have; it holds at most four at a time.  After a
    failure of the socket nothing more is given. *)
Theorem receiver_refines_session s0 m0 given r :
  mac_inv m0 -> sk_authentication s0 = Some m0 -> receiver_run s0 given r ->
  (exists ops outs m lost, sk_authentication (rc_socket r) = Some m /\ mac_run m0 ops = Some (m, outs) /\
     accepted_packets ops outs = packets given ++ packets (pending_items (rc_phase r)) ++ lost /\
     (length lost <= 1)%nat /\ (lost <> [] -> rc_phase r = ReceiverEnded) /\
     Forall (fun p => admissible (sk_transport s0) p.1) (accepted_packets ops outs)) /\
  (rc_outstanding r <= RECEIVED_PER_INTERFACE)%nat /\
  (forall before error after, given = before ++ ReceivedFailed error :: after ->
     after = [] /\ rc_phase r = ReceiverEnded) /\
  (forall message items timestamp_us now_ms random, is_Some (on_datagram r message items timestamp_us now_ms random)) /\
  (forall controls to item random, is_Some (on_answer r controls to item random)).
Proof.
  intros Hi Hm Hrun. destruct (receives_run s0 m0 Hi given r Hm Hrun) as (ops & outs & m & H).
  pose proof (receives_inv s0 m0 Hi _ _ _ _ _ H) as Him.
  destruct H as [Hs Hr (lost & Hp & Hl & He) Ht Hsrc (b & la & -> & Hb & Hf) Hn].
  split; [exists ops, outs, m, lost; by split_and!|]. split; [rewrite <- Hn; lia|]. split_and!.
  - intros before error after E. destruct Hf as [->|(er & -> & Hph)].
    + rewrite app_nil_r in E. subst b. apply Forall_app in Hb as [_ Hb]. apply list.Forall_cons in Hb as [[? ?] _]. done.
    + split; [|done]. destruct after as [|x after] using rev_ind; [done|]. clear IHafter.
      change (ReceivedFailed error :: after ++ [x]) with ((ReceivedFailed error :: after) ++ [x]) in E.
      rewrite app_assoc in E. apply app_inj_tail in E as [-> _]. apply Forall_app in Hb as [_ Hb].
      apply list.Forall_cons in Hb as [[? ?] _]. done.
  - intros message items ts now random. unfold on_datagram. destruct (socket_receive _ _) as [[bytes e]|]; [|done].
    case_match; [done|]. unfold authenticate. rewrite Hs.
    destruct (receive_cases m bytes e now random Him) as (m' & rec & -> & _). done.
  - intros [|c rest] to item random; [done|]. cbn [on_answer].
    destruct (send_session _ c to random m Hs Him) as (s' & res & -> & _). done.
Qed.
End Receiver.

(** * What the exporter ends up with *)

Section Exporting.
Context {NL : IpNetLib} {MI : MetricImpl} {HO : HashOrder} {B : Build}.

(** The snapshots that applying actions publishes. *)
Definition published (acts : list Action) : list RouteSnapshot :=
  omap (fun a => match a with RoutesChanged g routes unreachable => Some (MkSnapshot g routes unreachable) | _ => None end)
    acts.

(** The engine, the router that applies its actions one by one, and the worker, in any
    interleaving: the snapshots the channel held, what the worker did, the engine, the
    snapshots to be published, and the worker.  The router starts with a snapshot of
    its own. *)
Inductive export_run : list RouteSnapshot -> list ExportLabel -> Engine -> list RouteSnapshot -> ExportWorker -> Prop :=
| xrun_start cfg e : Engine_try_new cfg = Ok e -> export_run [empty_snapshot] [] e [empty_snapshot] export_worker_new
| xrun_event h ls e w ev acts e' : export_run h ls e [] w -> in_u64 (event_time ev) ->
    engine_handle ev e = Some (acts, e') -> export_run h ls e' (published (batch_send_actions acts)) w
| xrun_publish h ls e s todo w : export_run h ls e (s :: todo) w ->
    export_run (h ++ [s]) ls e todo (export_publish w s)
| xrun_shutdown h ls e todo w : export_run h ls e todo w -> export_run h ls e todo (export_shutdown w)
| xrun_close h ls e todo w : export_run h ls e todo w -> export_run h ls e todo (export_close w)
| xrun_step h ls e todo w l w' : export_run h ls e todo w -> export_step w l w' ->
    export_run h (ls ++ [l]) e todo w'.

Inductive export_steps : ExportWorker -> list ExportLabel -> ExportWorker -> Prop :=
| xsteps_nil w : export_steps w [] w
| xsteps_cons w l w1 ls w2 : export_step w l w1 -> export_steps w1 ls w2 -> export_steps w (l :: ls) w2.

(** The calls of the exporter, those that returned, and the last success. *)
Definition calls (ls : list ExportLabel) : list RouteSnapshot :=
  omap (fun l => match l with ExportCall s => Some s | _ => None end) ls.
Definition returns (ls : list ExportLabel) : list RouteSnapshot :=
  omap (fun l => match l with ExportReturn s _ => Some s | _ => None end) ls.
Definition last_success (ls : list ExportLabel) : option RouteSnapshot :=
  hd_error (rev (omap (fun l => match l with ExportReturn s true => Some s | _ => None end) ls)).
Definition successful (l : ExportLabel) : Prop := match l with ExportReturn _ ok => ok = true | _ => True end.
Definition in_flight (p : ExportPhase) : list RouteSnapshot := match p with Reconciling s => [s] | _ => [] end.

(** ** Generations *)

(** A channel holds a snapshot until one of the next generation replaces it. *)
Inductive history : list RouteSnapshot -> Prop :=
| hist_start : history [empty_snapshot]
| hist_same h s : history (h ++ [s]) -> history ((h ++ [s]) ++ [s])
| hist_next h s s' : history (h ++ [s]) -> sn_generation s' = wrapping_add64 (sn_generation s) 1 ->
    history ((h ++ [s]) ++ [s']).

(** Before the generations wrap around, a later snapshot is the same or newer. *)
Record newest (h : list RouteSnapshot) (s : RouteSnapshot) : Prop := {
  nw_in : s ∈ h;
  nw_range : 0 <= sn_generation s < Z.of_nat (length h);
  nw_max : forall x, x ∈ h -> sn_generation x < sn_generation s \/ x = s
}.

Lemma history_newest h s : history (h ++ [s]) -> Z.of_nat (length h) <= u64_max -> newest (h ++ [s]) s.
Proof.
  remember (h ++ [s]) as l eqn:E. intros Hh. revert h s E.
  induction Hh as [|h s Hh IH|h s s' Hh IH Hg]; intros h0 s0 E Hl.
  - change [empty_snapshot] with ([] ++ [empty_snapshot]) in E. apply app_inj_tail in E as [<- <-].
    split; simpl; [set_solver|lia|set_solver].
  - apply app_inj_tail in E as [<- <-]. rewrite length_app in Hl. simpl in Hl.
    destruct (IH h s eq_refl) as [Hi Hr Hm]; [lia|].
    split; [set_solver|rewrite length_app; simpl; lia|]. intros x [Hx|Hx]%elem_of_app; [auto|set_solver].
  - apply app_inj_tail in E as [<- <-]. rewrite length_app in Hl. simpl in Hl.
    destruct (IH h s eq_refl) as [Hi Hr Hm]; [lia|]. rewrite length_app in Hr. simpl in Hr.
    assert (sn_generation s' = sn_generation s + 1) as Hg'.
    { rewrite Hg. unfold wrapping_add64, u64_max in *. rewrite Z.mod_small; lia. }
    split; [set_solver|rewrite !length_app; simpl; lia|].
    intros x [Hx|Hx]%elem_of_app; [|set_solver]. left. destruct (Hm x Hx) as [?| ->]; lia.
Qed.

Lemma history_prefix h t : history (h ++ t) -> h <> [] -> history h.
Proof.
  induction t as [|x t IH] using rev_ind; intros H Hn; [by rewrite app_nil_r in H|]. apply IH; [|done].
  rewrite app_assoc in H. remember ((h ++ t) ++ [x]) as l eqn:E. destruct H as [|h' s H|h' s s' H _].
  - destruct h; [done|]. simpl in E. injection E as _ E. by destruct (h ++ t).
  - by apply app_inj_tail in E as [<- _].
  - by apply app_inj_tail in E as [<- _].
Qed.

(** What an event publishes continues the history, up to the new view of the host. *)
Lemma published_history acts : forall h host host', host_run acts host = Some host' ->
  history (h ++ [host_snapshot host]) ->
  exists h', h ++ [host_snapshot host] ++ published acts = h' ++ [host_snapshot host'] /\ history (h' ++ [host_snapshot host']).
Proof.
  induction acts as [|a acts IH]; intros h host host' Hr Hh.
  - injection Hr as <-. exists h. by rewrite app_nil_r.
  - cbn [host_run] in Hr. apply bind_Some in Hr as (h1 & H1 & Hr).
    destruct a as [|i d p t|g routes un|q]; cbn [host_apply] in H1.
    + injection H1 as <-. exact (IH h host host' Hr Hh).
    + injection H1 as <-. exact (IH h host host' Hr Hh).
    + case_match eqn:Eg; [|done]. injection H1 as <-. apply Z.eqb_eq in Eg.
      destruct (IH (h ++ [host_snapshot host]) (MkHost routes un g (h_seqno host)) host' Hr) as (h' & E & Hh').
      { by apply hist_next. }
      exists h'. split; [|done]. rewrite <- E, <- app_assoc. done.
    + case_match; [|done]. injection H1 as <-. exact (IH h _ host' Hr Hh).
Qed.

Lemma published_batch acts : published (batch_send_actions acts) = published acts.
Proof.
  assert (forall l, published (List.filter is_other l) = published l) as H.
  { induction l as [|a l IH]; [done|]. destruct a; simpl; try done; by rewrite IH. }
  by rewrite <- H, batch_other, H.
Qed.

(** ** The worker against the history *)

Definition older (a b : RouteSnapshot) : Prop := sn_generation a <= sn_generation b.

Lemma StronglySorted_snoc {X} (R : X -> X -> Prop) l x :
  StronglySorted R l -> Forall (fun y => R y x) l -> StronglySorted R (l ++ [x]).
Proof.
  induction 1 as [|y l Hl IH Hy]; intros Hx; [repeat constructor|]. apply list.Forall_cons in Hx as [H1 H2]. simpl.
  constructor; [by apply IH|]. apply Forall_app. split; [done|]. by apply Forall_singleton.
Qed.

(** Nothing but the newest snapshot is ever handed over, one call at a time, and the
    worker remembers the last success; while the generations have not wrapped around
    it does not call twice for what it knows to be done. *)
Record exports_newest (h : list RouteSnapshot) (ls : list ExportLabel) (e : Engine) (todo : list RouteSnapshot)
    (w : ExportWorker) : Prop := {
  xi_reachable : reachable e;
  xi_history : history (h ++ todo);
  xi_view : exists h', h ++ todo = h' ++ [host_snapshot (host_of e)];
  xi_current : exists h', h = h' ++ [ew_snapshot w];
  xi_calls : calls ls = returns ls ++ in_flight (ew_phase w);
  xi_members : Forall (fun s => s ∈ h) (calls ls);
  xi_last : ew_last_generation w = sn_generation <$> last_success ls;
  xi_ended : ew_phase w = ExportEnded -> ew_shutdown w = true \/ ew_open w = false;
  xi_order : Z.of_nat (length (h ++ todo)) <= u64_max -> StronglySorted older (calls ls);
  xi_fresh : Z.of_nat (length (h ++ todo)) <= u64_max -> forall s g, ew_phase w = Reconciling s ->
    ew_last_generation w = Some g -> g < sn_generation s
}.

Lemma omap_snoc {X Y} (f : X -> option Y) l x : omap f (l ++ [x]) = omap f l ++ match f x with Some y => [y] | None => [] end.
Proof. rewrite omap_app. simpl. by destruct (f x). Qed.

Lemma current_newest h ls e todo w : exports_newest h ls e todo w -> Z.of_nat (length (h ++ todo)) <= u64_max ->
  newest h (ew_snapshot w).
Proof.
  intros H Hl. destruct (xi_current _ _ _ _ _ H) as [h' Eh]. pose proof (xi_history _ _ _ _ _ H) as Hh.
  apply history_prefix in Hh; [|rewrite Eh; by destruct h']. rewrite length_app in Hl.
  rewrite Eh in *. apply history_newest; [done|]. rewrite length_app in Hl. lia.
Qed.

Lemma success_member h ls e todo w s : exports_newest h ls e todo w -> last_success ls = Some s -> s ∈ h.
Proof.
  intros H Hs. pose proof (xi_members _ _ _ _ _ H) as Hm. rewrite (xi_calls _ _ _ _ _ H) in Hm.
  apply Forall_app in Hm as [Hm _]. rewrite list.Forall_forall in Hm. apply Hm. unfold last_success in Hs.
  assert (s ∈ omap (fun l => match l with ExportReturn s true => Some s | _ => None end) ls) as Hin.
  { apply list_elem_of_In, in_rev. destruct (rev _); [done|]. injection Hs as <-. by left. }
  apply list_elem_of_omap in Hin as (l & Hl & E). apply list_elem_of_omap. exists l. split; [done|].
  by destruct l as [| |? []].
Qed.

(** Steps that leave the exporter alone. *)
Lemma newest_quiet h ls e todo w w' : exports_newest h ls e todo w ->
  ew_snapshot w' = ew_snapshot w -> ew_last_generation w' = ew_last_generation w ->
  in_flight (ew_phase w') = in_flight (ew_phase w) ->
  (ew_phase w' = ExportEnded -> ew_shutdown w' = true \/ ew_open w' = false) ->
  exports_newest h ls e todo w'.
Proof.
  intros [Hr Hh Hv Hc Hk Hm Hl He Ho Hf] E1 E2 E3 E4. split; try done; rewrite ?E1, ?E2, ?E3; try done.
  intros Hb s g Hp. rewrite Hp in E3. destruct (ew_phase w) eqn:Ep; try done. injection E3 as <-. by apply Hf.
Qed.

Lemma newest_tau h ls e todo w : exports_newest h ls e todo w -> exports_newest h (ls ++ [ExportTau]) e todo w.
Proof.
  intros [Hr Hh Hv Hc Hk Hm Hl He Ho Hf]. unfold calls, returns, last_success in *.
  split; unfold calls, returns, last_success; rewrite ?omap_snoc, ?app_nil_r; done.
Qed.

(** The call of the exporter. *)
Lemma newest_called h ls e todo w w' : exports_newest h ls e todo w -> in_flight (ew_phase w) = [] ->
  ew_last_generation w <> Some (sn_generation (ew_snapshot w)) ->
  ew_snapshot w' = ew_snapshot w -> ew_last_generation w' = ew_last_generation w ->
  ew_phase w' = Reconciling (ew_snapshot w) ->
  exports_newest h (ls ++ [ExportCall (ew_snapshot w)]) e todo w'.
Proof.
  intros H Hi Hn E1 E2 E3. pose proof (current_newest _ _ _ _ _ H) as Hw.
  pose proof (fun s => success_member _ _ _ _ _ s H) as Hsm.
  destruct H as [Hr Hh Hv Hc Hk Hm Hl He Ho Hf]. unfold calls, returns, last_success in *. rewrite Hi in Hk.
  split; unfold calls, returns, last_success; rewrite ?omap_snoc, ?E1, ?E2, ?E3, ?app_nil_r in *; try done.
  - by rewrite Hk.
  - apply Forall_app. split; [done|]. apply Forall_singleton. destruct Hc as [h' ->]. set_solver.
  - intros Hb. apply StronglySorted_snoc; [by apply Ho|]. eapply Forall_impl; [|exact Hm]. simpl. intros x Hx.
    unfold older. destruct (nw_max _ _ (Hw Hb) x Hx) as [?| ->]; lia.
  - intros Hb s g [= <-] Hg. rewrite Hl in Hg. apply fmap_Some in Hg as (x & Hx & ->).
    destruct (nw_max _ _ (Hw Hb) x (Hsm x Hx)) as [?| ->]; [done|]. destruct Hn. rewrite Hl. by rewrite Hx.
Qed.

Lemma newest_returned h ls e todo w s ok w' : exports_newest h ls e todo w -> ew_phase w = Reconciling s ->
  ew_snapshot w' = ew_snapshot w ->
  ew_last_generation w' = (if ok : bool then Some (sn_generation s) else ew_last_generation w) ->
  in_flight (ew_phase w') = [] -> (ew_phase w' = ExportEnded -> ew_shutdown w' = true \/ ew_open w' = false) ->
  exports_newest h (ls ++ [ExportReturn s ok]) e todo w'.
Proof.
  intros [Hr Hh Hv Hc Hk Hm Hl He Ho Hf] Hp E1 E2 E3 E4. unfold calls, returns, last_success in *. rewrite Hp in Hk.
  split; unfold calls, returns, last_success; rewrite ?omap_snoc, ?E1, ?E2, ?E3, ?app_nil_r in *; try done.
  - destruct ok; [by rewrite rev_unit|]. by rewrite app_nil_r.
  - intros _ s' g Hs. by rewrite Hs in E3.
Qed.

Lemma newest_step h ls e todo w l w' : exports_newest h ls e todo w -> export_step w l w' ->
  exports_newest h (ls ++ [l]) e todo w'.
Proof.
  intros H Hs. destruct Hs as [now Hp|s ok now Hp|t Hp Hv|t Hp Hv|t Hp Hv|t now Hp Hv].
  - unfold export_top, export_wait. destruct (ew_shutdown w) eqn:Es; simpl.
    { apply newest_tau. eapply newest_quiet; [exact H|..]; simpl; rewrite ?Hp; auto. }
    case_bool_decide as Hg; simpl.
    + apply newest_tau. eapply newest_quiet; [exact H|..]; simpl; rewrite ?Hp; done.
    + eapply newest_called; [exact H|..]; by rewrite ?Hp.
  - unfold export_done, export_wait. destruct (ew_shutdown w) eqn:Es; simpl; rewrite ?Es;
      (eapply newest_returned; [exact H|done|..]; simpl; auto; done).
  - apply newest_tau. eapply newest_quiet; [exact H|..]; simpl; rewrite ?Hp; done.
  - apply newest_tau. eapply newest_quiet; [exact H|..]; simpl; rewrite ?Hp; auto.
  - apply newest_tau. eapply newest_quiet; [exact H|..]; simpl; rewrite ?Hp; auto.
  - apply newest_tau. eapply newest_quiet; [exact H|..]; simpl; rewrite ?Hp; done.
Qed.

Lemma newest_published h ls e s todo w : exports_newest h ls e (s :: todo) w ->
  exports_newest (h ++ [s]) ls e todo (export_publish w s).
Proof.
  intros [Hr Hh Hv Hc Hk Hm Hl He Ho Hf].
  assert ((h ++ [s]) ++ todo = h ++ s :: todo) as E by (by rewrite <- app_assoc).
  split; rewrite ?E; try done; [by eexists|]. eapply Forall_impl; [|exact Hm]. simpl. set_solver.
Qed.

Section Run.
Context (release : overflow_checks = false).

Lemma newest_event h ls e w ev acts e' : exports_newest h ls e [] w -> in_u64 (event_time ev) ->
  engine_handle ev e = Some (acts, e') -> exports_newest h ls e' (published (batch_send_actions acts)) w.
Proof.
  intros [Hr Hh (h' & Eh) Hc Hk Hm Hl He Ho Hf] Ht Hv. rewrite app_nil_r in *.
  unfold engine_handle in Hv. apply bind_Some in Hv as ([res e1] & Hv & Hx). destruct res as [acts'|]; [|done]. injection Hx as <- <-.
  destruct (reachable_Inv release _ Hr) as [HI Hb]. destruct (try_handle_spec release ev e Ht HI Hb) as (res & e2 & Hh2 & Hres).
  rewrite Hv in Hh2. injection Hh2 as <- <-. destruct Hres as [_ Hok]. rewrite published_batch. subst h.
  destruct (published_history acts' h' _ _ (ev_host _ _ _ _ Hok) Hh) as (h2 & E & Hh2). rewrite app_assoc in E.
  assert (forall n : nat, Z.of_nat (length ((h' ++ [host_snapshot (host_of e)]) ++ published acts')) <= u64_max ->
    Z.of_nat (length (h' ++ [host_snapshot (host_of e)])) <= u64_max) as Hle by (intros _; rewrite (length_app (h' ++ _)); lia).
  split; try done.
  - by eapply (reach_step _).
  - by rewrite E.
  - eauto.
  - intros Hbd. apply Ho. by apply (Hle 0%nat).
  - intros Hbd. apply Hf. by apply (Hle 0%nat).
Qed.

Lemma run_newest h ls e todo w : export_run h ls e todo w -> exports_newest h ls e todo w.
Proof.
  induction 1 as [cfg e He|h ls e w ev acts e' _ IH Ht Hv|h ls e s todo w _ IH|h ls e todo w _ IH|h ls e todo w _ IH
    |h ls e todo w l w' _ IH Hs].
  - assert (host_snapshot (host_of e) = empty_snapshot) as Ev.
    { unfold Engine_try_new in He. apply result_bind_Ok in He as (u & _ & H). by injection H as <-. }
    split; try done.
    + by eapply reach_new.
    + exact (hist_same [] empty_snapshot hist_start).
    + exists [empty_snapshot]. by rewrite Ev.
    + by exists [].
    + constructor.
  - by eapply newest_event.
  - by apply newest_published.
  - eapply newest_quiet; [exact IH|..]; simpl; auto.
  - eapply newest_quiet; [exact IH|..]; simpl; auto.
  - by eapply newest_step.
Qed.

(** ** Convergence *)

(** How many steps of its own the worker needs at most. *)
Definition steps_left (w : ExportWorker) : nat :=
  if bool_decide (ew_last_generation w = Some (sn_generation (ew_snapshot w))) then 0
  else match ew_phase w with
       | Reconciling s => if sn_generation s =? sn_generation (ew_snapshot w) then 1 else 4
       | ExportWaiting _ => 3
       | ExportTop => 2
       | ExportEnded => 0
       end.

Lemma step_converges h ls e todo w l w' : exports_newest h ls e todo w -> Z.of_nat (length (h ++ todo)) <= u64_max ->
  ew_shutdown w = false -> ew_open w = true -> export_step w l w' -> successful l ->
  ew_snapshot w' = ew_snapshot w /\ ew_shutdown w' = false /\ ew_open w' = true /\ (steps_left w' <= steps_left w - 1)%nat.
Proof.
  intros H Hb Hsh Hop Hs Hok. pose proof (xi_fresh _ _ _ _ _ H Hb) as Hf. pose proof (current_newest _ _ _ _ _ H Hb) as Hn.
  destruct Hs as [now Hp|s ok now Hp|t Hp Hv|t Hp Hv|t Hp Hv|t now Hp Hv].
  - unfold export_top, export_wait. rewrite Hsh. simpl. case_bool_decide as Hg; simpl; rewrite ?Hsh; split_and!; try done;
      unfold steps_left; simpl; rewrite ?Hp; rewrite ?Z.eqb_refl; repeat case_bool_decide; first [lia | congruence].
  - simpl in Hok. subst ok. unfold export_done, export_wait. simpl. rewrite Hsh. simpl. split_and!; try done.
    unfold steps_left. simpl. rewrite Hp.
    assert (ew_last_generation w <> Some (sn_generation (ew_snapshot w))) as Hne.
    { intros Hg. specialize (Hf s _ Hp Hg). assert (s ∈ h) as Hin.
      { pose proof (xi_members _ _ _ _ _ H) as Hm. rewrite (xi_calls _ _ _ _ _ H), Hp in Hm.
        apply Forall_app in Hm as [_ Hm]. simpl in Hm. by apply list.Forall_cons in Hm as [Hm _]. }
      destruct (nw_max _ _ Hn s Hin) as [?| ->]; lia. }
    rewrite (bool_decide_eq_false_2 _ Hne). case_bool_decide as E1; [lia|].
    destruct (Z.eqb_spec (sn_generation s) (sn_generation (ew_snapshot w))) as [E2|]; [|lia]. by rewrite E2 in E1.
  - simpl. split_and!; try done. unfold steps_left. simpl. rewrite Hp. case_bool_decide; lia.
  - congruence.
  - congruence.
  - simpl. split_and!; try done. unfold steps_left. simpl. rewrite Hp. case_bool_decide; lia.
Qed.

Lemma steps_converge w ls' w' : export_steps w ls' w' -> forall h ls e todo, exports_newest h ls e todo w ->
  Z.of_nat (length (h ++ todo)) <= u64_max -> ew_shutdown w = false -> ew_open w = true -> Forall successful ls' ->
  exports_newest h (ls ++ ls') e todo w' /\ ew_snapshot w' = ew_snapshot w /\ ew_shutdown w' = false /\ ew_open w' = true /\
  (steps_left w' <= steps_left w - length ls')%nat.
Proof.
  induction 1 as [w|w l w1 ls' w2 Hs Hss IH]; intros h ls e todo H Hb Hsh Hop Hok.
  - rewrite app_nil_r. split_and!; try done. simpl. lia.
  - apply list.Forall_cons in Hok as [Hl Hok].
    destruct (step_converges _ _ _ _ _ _ _ H Hb Hsh Hop Hs Hl) as (E1 & Hsh1 & Hop1 & Hle).
    destruct (IH _ (ls ++ [l]) _ _ (newest_step _ _ _ _ _ _ _ H Hs) Hb Hsh1 Hop1 Hok) as (H2 & E2 & Hsh2 & Hop2 & Hle2).
    rewrite <- app_assoc in H2. split_and!; try done; [congruence|]. simpl in *. lia.
Qed.

Lemma converged_success h ls e todo w : exports_newest h ls e todo w -> Z.of_nat (length (h ++ todo)) <= u64_max ->
  ew_shutdown w = false -> ew_open w = true -> steps_left w = 0%nat -> last_success ls = Some (ew_snapshot w).
Proof.
  intros H Hb Hsh Hop. unfold steps_left. case_bool_decide as Hg.
  - intros _. rewrite (xi_last _ _ _ _ _ H) in Hg. apply fmap_Some in Hg as (s & Hs & Hg). rewrite Hs.
    destruct (nw_max _ _ (current_newest _ _ _ _ _ H Hb) s (success_member _ _ _ _ _ _ H Hs)) as [?| ->]; [lia|done].
  - destruct (ew_phase w) eqn:Ep; try done; [by case_match|]. intros _.
    destruct (xi_ended _ _ _ _ _ H Ep); congruence.
Qed.

(** The exporter that keeps its snapshots in memory never fails, and keeps the last. *)
Lemma memory_serves ls : forall m m', serve_labels ls m = Some m' ->
  Forall successful ls /\ m' = default m (last_success ls).
Proof.
  unfold last_success. induction ls as [|l ls IH]; intros m m' H; [by injection H as <-|].
  destruct l as [|s|s ok]; [by apply IH in H as [? ->]; split; [constructor|]|
    by apply IH in H as [? ->]; split; [constructor|]|].
  cbn in H. destruct ok; [|done]. apply IH in H as [Hf ->]. split; [by constructor|].
  cbn [omap list_omap rev]. by destruct (rev _).
Qed.

(** C20. The exporter follows the engine: however events, publications, the calls of
    the exporter and their failures interleave, the exporter is called for one
    snapshot at a time, each was published, and none is older than the one before.
    The worker is never stuck as long as the router runs.  And it converges: once the
    engine is at rest and the exporter succeeds, the snapshot of the last success is
    exactly the RIB of the engine after at most four steps of the worker, whatever
    failed before and whatever it was doing; that snapshot is then also what a
    [MemoryExporter] holds. *)
Theorem exporter_converges h ls e w : export_run h ls e [] w -> Z.of_nat (length h) <= u64_max ->
  calls ls = returns ls ++ in_flight (ew_phase w) /\ Forall (fun s => s ∈ h) (calls ls) /\
  StronglySorted older (calls ls) /\
  (ew_shutdown w = false -> ew_open w = true ->
     (exists l w', export_step w l w') /\
     forall ls' w', export_steps w ls' w' -> Forall successful ls' -> (4 <= length ls')%nat ->
       last_success (ls ++ ls') = Some (host_snapshot (host_of e)) /\
       forall m0 m, serve_labels (ls ++ ls') m0 = Some m -> m = host_snapshot (host_of e)).
Proof.
  intros Hrun Hb. pose proof (run_newest _ _ _ _ _ Hrun) as H.
  assert (Z.of_nat (length (h ++ [])) <= u64_max) as Hb' by (by rewrite app_nil_r).
  split; [apply H|]. split; [apply H|]. split; [by apply H|]. intros Hsh Hop. split.
  - destruct (ew_phase w) as [|s|t|] eqn:Ep.
    + do 2 eexists. by apply (estep_top w 0).
    + do 2 eexists. by apply (estep_done w s true 0).
    + do 2 eexists. by apply (estep_timer w t (t + EXPORT_RETRY_MS)).
    + destruct (xi_ended _ _ _ _ _ H Ep); congruence.
  - intros ls' w' Hss Hok Hlen.
    destruct (steps_converge _ _ _ Hss _ _ _ _ H Hb' Hsh Hop Hok) as (H' & Es & Hsh' & Hop' & Hle).
    assert (last_success (ls ++ ls') = Some (host_snapshot (host_of e))) as Hlast;
      [|split; [done|]; intros m0 m [_ ->]%memory_serves; by rewrite Hlast].
    rewrite (converged_success _ _ _ _ _ H' Hb' Hsh' Hop'), Es.
    + destruct (xi_current _ _ _ _ _ H) as [h1 E1]. destruct (xi_view _ _ _ _ _ H) as [h2 E2].
      rewrite app_nil_r, E1 in E2. by apply app_inj_tail in E2 as [_ ->].
    + assert (steps_left w <= 4)%nat by (unfold steps_left; repeat case_match; lia). lia.
Qed.
End Run.
End Exporting.

(** * Runs *)

#[local] Existing Instance Demo.demo_net.

(** Two sockets on an IPv4 link whose interfaces have different indices. *)
Definition alice_socket : InterfaceSocket :=
  MkInterfaceSocket "eth0" TransportIpv4 2 [IpV4 (ipv4 192 0 2 1)] 1500 (Some alice).
Definition bob_socket : InterfaceSocket :=
  MkInterfaceSocket "eth1" TransportIpv4 7 [IpV4 (ipv4 192 0 2 2)] 1500 (Some bob_knowing).
Definition bob_link : option (list IfAddr) :=
  Some [MkIfAddr "eth1" (Some (IpV4 (ipv4 192 0 2 2))) None (Some (IpV4 (ipv4 255 255 255 0)))].

Definition hello_datagram : OutDatagram :=
  MkOutDatagram (signed_by alice demo_hello to_bob).2 bob_addr (IpV4 (ipv4 192 0 2 1)) 2.
Definition hello_message : Message :=
  MkMessage false (Some alice_addr) (Some [Ipv4PacketInfo (ipv4 192 0 2 2) 7]) (od_bytes hello_datagram).

Lemma hello_sent : socket_send alice_socket demo_hello (IpV4 (ipv4 192 0 2 2)) (Err Entropy) =
  Some (set_session alice_socket (Some (signed_by alice demo_hello to_bob).1), Ok hello_datagram).
Proof. vm_compute. reflexivity. Qed.

Lemma hello_decodes : decode_packet demo_hello (IpV4 (ipv4 192 0 2 1)) = Ok (MkPacket [THello false 1 400 []]).
Proof. vm_cast_no_check (eq_refl (Ok (MkPacket [THello false 1 400 []]) : result WireError Packet)). Qed.

Lemma datagram_crosses_link_witness : exists e b' r,
  socket_receive bob_socket (Some hello_message) = Ok (od_bytes hello_datagram, e) /\
  authenticate bob_socket (od_bytes hello_datagram) e 5 (Err Entropy) = Some (b', r) /\ accepted r = true /\
  exists ts, decode_packet (od_bytes hello_datagram) (IpV4 (ipv4 192 0 2 1)) =
    Ok (MkPacket ([THello false 1 400 []] ++ ts)).
Proof.
  destruct (datagram_crosses_link alice_socket bob_socket demo_hello (IpV4 (ipv4 192 0 2 2)) (Err Entropy) _ hello_datagram
    hello_message alice_addr bob_link 5 (Err Entropy) hello_sent) as (_ & e & b' & r & He & _ & Ha & Hr & Hd).
  - split; try reflexivity. split; reflexivity.
  - reflexivity.
  - split; [|split; vm_compute; reflexivity]. change (IpV4 (ipv4 192 0 2 1) ∉ [IpV4 (ipv4 192 0 2 2)]). 
    intros Hin%list_elem_of_singleton. vm_compute in Hin. discriminate Hin.
  - intros e He. assert (e = to_bob) as -> by (vm_compute in He; by injection He as <-). split; [exact alice_inv|].
    split; [exact bob_knowing_inv|]. split; [reflexivity|]. split; [exists demo_key; split; exact demo_key_shared|].
    eexists. split; [vm_compute; reflexivity|]. split; [simpl; lia|]. split; vm_compute; reflexivity.
  - exists e, b', r. split; [exact He|]. split; [exact Ha|]. split; [exact Hr|].
    destruct (Hd _ _ hello_decodes) as (ts & Hts & _). exists ts. exact Hts.
Defined.

(** The packet of the neighbour reaches the router. *)
Definition bob_receiving (p : ReceiverPhase) (slots outstanding : nat) : Receiver :=
  MkReceiver (match authenticate bob_socket (od_bytes hello_datagram) to_bob 5 (Err Entropy) with
              | Some (s, _) => s
              | None => bob_socket
              end) slots outstanding p.
Definition hello_item : Received := ReceivedPacket (IpV4 (ipv4 192 0 2 1)) (od_bytes hello_datagram) 77.

Lemma bob_receives : receiver_run bob_socket [hello_item] (bob_receiving Acquiring 3 1).
Proof.
  change [hello_item] with (((([] ++ []) ++ []) ++ []) ++ [hello_item]).
  apply (rrun_step _ _ (bob_receiving (Handing hello_item) 3 0) (Some hello_item)).
  2:{ exact (rstep_hand (bob_receiving (Handing hello_item) 3 0) hello_item eq_refl). }
  apply (rrun_step _ _ (bob_receiving (Answering [] (IpV4 (ipv4 192 0 2 1)) (Some hello_item)) 3 0) None).
  2:{ eapply rstep_answer; [reflexivity|]. exact (eq_refl : on_answer _ [] _ _ (Err Entropy) = _). }
  apply (rrun_step _ _ (MkReceiver bob_socket 3 0 Listening) None).
  2:{ apply (rstep_datagram _ (Some hello_message) bob_link 77 5 (Err Entropy)); [reflexivity|]. vm_compute. reflexivity. }
  apply (rrun_step _ _ (receiver_new bob_socket) None); [constructor|].
  exact (rstep_acquire (receiver_new bob_socket) 3 eq_refl eq_refl).
Qed.

Lemma receiver_refines_session_witness : exists ops outs m lost,
  mac_run bob_knowing ops = Some (m, outs) /\
  accepted_packets ops outs = [(IpV4 (ipv4 192 0 2 1), od_bytes hello_datagram)] ++ lost /\ (length lost <= 1)%nat.
Proof.
  destruct (receiver_refines_session bob_socket bob_knowing [hello_item] (bob_receiving Acquiring 3 1) bob_knowing_inv eq_refl
    bob_receives) as ((ops & outs & m & lost & _ & Hr & Ha & Hl & _) & _).
  exists ops, outs, m, lost. split; [exact Hr|]. split; [exact Ha|exact Hl].
Defined.

(** A worker that has not looked at its channel before the engine has learned a route. *)
#[local] Existing Instance demo_metrics.
#[local] Existing Instance Demo.demo_order.
#[local] Existing Instance release_build.

Lemma export_run_todo todo : forall h ls e w, export_run h ls e todo w ->
  export_run (h ++ todo) ls e [] (fold_left export_publish todo w).
Proof.
  induction todo as [|s todo IH]; intros h ls e w H; [by rewrite app_nil_r|].
  apply xrun_publish, IH in H. by rewrite <- app_assoc in H.
Qed.

Lemma publish_keeps l : forall w, let w' := fold_left export_publish l w in
  ew_phase w' = ew_phase w /\ ew_last_generation w' = ew_last_generation w /\ ew_shutdown w' = ew_shutdown w /\
  ew_open w' = ew_open w.
Proof. induction l as [|s l IH]; intros w; [done|]. apply (IH (export_publish w s)). Qed.

Lemma export_run_events events : forall h ls e w rs e', export_run h ls e [] w ->
  Forall (fun ev => in_u64 (event_time ev)) events -> run events e = Some (rs, e') ->
  Forall (fun r => exists acts, r = Ok acts) rs ->
  exists l, length l = length (published (EngineTheorems.run_actions rs)) /\
    export_run (h ++ l) ls e' [] (fold_left export_publish l w).
Proof.
  induction events as [|ev events IH]; intros h ls e w rs e' H Ht Hr Hok.
  - injection Hr as <- <-. exists []. by rewrite app_nil_r.
  - apply list.Forall_cons in Ht as [Ht Hts]. cbn [run] in Hr. apply bind_Some in Hr as ([r e1] & H1 & Hr).
    apply bind_Some in Hr as ([rs' e2] & H2 & Hr). injection Hr as <- <-. apply list.Forall_cons in Hok as [[acts ->] Hok].
    assert (engine_handle ev e = Some (acts, e1)) as Hh by (unfold engine_handle; by rewrite H1).
    pose proof (export_run_todo _ _ _ _ _ (xrun_event _ _ _ _ _ _ _ H Ht Hh)) as H'. rewrite published_batch in H'.
    destruct (IH _ _ _ _ _ _ H' Hts H2 Hok) as (l & Hl & Hrun). exists (published acts ++ l). split.
    + change (EngineTheorems.run_actions (Ok acts :: rs')) with (acts ++ EngineTheorems.run_actions rs').
      unfold published in *. by rewrite omap_app, !length_app, Hl.
    + by rewrite app_assoc, fold_left_app.
Qed.

Lemma demo_export : exists rs e0 e cfg, Engine_try_new cfg = Ok e0 /\ run Demo.demo_events e0 = Some (rs, e) /\
  Forall (fun r => exists acts, r = Ok acts) rs /\ (length (published (EngineTheorems.run_actions rs)) <= 9)%nat /\
  selected_routes e <> [].
Proof.
  assert (match demo_run release_build Demo.demo_events with
          | Some (rs, e) => forallb (fun r => match r with Ok _ => true | Err _ => false end) rs &&
              (length (published (EngineTheorems.run_actions rs)) <=? 9)%nat &&
              match selected_routes e with [] => false | _ => true end
          | None => false
          end = true) as H by vm_cast_no_check (eq_refl true).
  destruct (demo_run release_build Demo.demo_events) as [[rs e]|] eqn:Hd; [|done].
  apply andb_prop in H as [[H1 H2]%andb_prop H3].
  apply bind_Some in Hd as (e0 & (cfg & Hc & H0)%bind_Some & Hr).
  destruct (Engine_try_new cfg) as [e1|] eqn:En; [|discriminate H0]. apply (inj Some) in H0 as ->.
  exists rs, e0, e, cfg. split_and!; try done.
  - apply list.Forall_forall. intros r Hin. rewrite forallb_forall in H1. specialize (H1 r).
    apply list_elem_of_In in Hin. specialize (H1 Hin). destruct r as [acts|]; [by exists acts|done].
  - by apply Nat.leb_le.
  - by destruct (selected_routes e).
Qed.

Lemma exporter_converges_witness : exists h e w ls' w',
  export_run h [] e [] w /\ selected_routes e <> [] /\ export_steps w ls' w' /\
  last_success ([] ++ ls') = Some (host_snapshot (host_of e)).
Proof.
  destruct demo_export as (rs & e0 & e & cfg & Hn & Hr & Hok & Hlen & Hsel).
  destruct (export_run_events _ _ _ _ _ _ _ (xrun_publish _ _ _ _ _ _ (xrun_start cfg e0 Hn)) demo_events_typed Hr Hok)
    as (l & Hl & Hrun).
  set (w := fold_left export_publish l _) in Hrun. destruct (publish_keeps l (export_publish export_worker_new empty_snapshot))
    as (Hp & Hg & Hsh & Hop). fold w in Hp, Hg, Hsh, Hop.
  set (w1 := export_top w 0). assert (w1 = at_phase w1 (Reconciling (ew_snapshot w)) /\ ew_shutdown w1 = false) as [E1 Hs1].
  { unfold w1, export_top. rewrite Hsh, Hg. split; reflexivity. }
  set (w2 := export_done w1 (ew_snapshot w) true 5). assert (ew_phase w2 = ExportWaiting 5) as E2.
  { unfold w2, export_done, export_wait. simpl. by rewrite Hs1. }
  set (w3 := at_phase w2 ExportTop).
  set (label := fun w => match ew_phase w with Reconciling s => ExportCall s | _ => ExportTau end).
  assert (export_steps w [label w1; ExportReturn (ew_snapshot w) true; ExportTau; label (export_top w3 2005)]
    (export_top w3 2005)) as Hsteps.
  { eapply xsteps_cons; [exact (estep_top w 0 Hp)|].
    eapply xsteps_cons; [apply (estep_done w1 (ew_snapshot w) true 5); by rewrite E1|].
    eapply xsteps_cons; [exact (estep_timer w2 5 2005 E2 ltac:(unfold EXPORT_RETRY_MS; lia))|].
    eapply xsteps_cons; [exact (estep_top w3 2005 eq_refl)|]. apply xsteps_nil. }
  eexists _, e, w, _, (export_top w3 2005). split; [exact Hrun|]. split; [exact Hsel|]. split; [exact Hsteps|].
  destruct (exporter_converges eq_refl _ _ _ _ Hrun) as (_ & _ & _ & H).
  - rewrite length_app, Hl. simpl. unfold u64_max. lia.
  - destruct (H Hsh Hop) as [_ Hconv]. refine (proj1 (Hconv _ _ Hsteps _ _)); [|simpl; lia].
    assert (forall v, successful (label v)) as Hlab by (intros v; unfold label; by destruct (ew_phase v)).
    apply list.Forall_cons. split; [apply Hlab|]. do 2 (apply list.Forall_cons; split; [done|]).
    apply Forall_singleton, Hlab.
Defined.
