(* ===== verification/Lifecycle.v ===== *)
(** The life of the daemon ([main.rs], [shutdown.rs], [ownership.rs]): the command
    line, start-up, reloads, the event loop, and the stages of a shutdown.

    Reading the configuration file, the digest and TOML are given ([Files]). *)
From Stdlib Require Import String.
From S2P Require Import Prelude Net Mac Model Metric Wire Api Scheduler Sender Router RouterLoop Filters DaemonConfig Projection SourceViews DaemonTheorems Netlink Recovery Exporter State Handle Control.
Import Hello.
Local Open Scope Z_scope.

(** * The command line *)

Definition DEFAULT_CONTROL_SOCKET : string := "/run/babel-rs/babel-rs.ctl".

Inductive CliCommand :=
| CliRun (config : string) (control_socket : option string)
| CliCheck (config : string)
| CliStatus (socket : string)
| CliInterfaces (socket : string)
| CliNeighbors (socket : string)
| CliRoutes (socket : string) (destination source interface : option string)
| CliReload (socket : string)
| CliShutdown (socket : string).

Record Args := MkArgs { ar_command : option CliCommand; ar_config : option string; ar_control_socket : option string }.

Inductive Mode :=
| ModeRun (config : string) (control_socket : option string)
| ModeCheck (config : string)
| ModeRequest (socket command : string) (params : Value).

(** [mode]; [None] asks for a configuration. *)
Definition mode (args : Args) : option Mode :=
  match ar_command args with
  | Some (CliRun config control_socket) => Some (ModeRun config (Some (default DEFAULT_CONTROL_SOCKET control_socket)))
  | Some (CliCheck config) => Some (ModeCheck config)
  | Some (CliStatus socket) => Some (ModeRequest socket "status" (JObject []))
  | Some (CliInterfaces socket) => Some (ModeRequest socket "interfaces" (JObject []))
  | Some (CliNeighbors socket) => Some (ModeRequest socket "neighbors" (JObject []))
  | Some (CliRoutes socket destination source interface) =>
      Some (ModeRequest socket "routes" (JObject [("destination", jopt JString destination);
        ("source", jopt JString source); ("interface", jopt JString interface)]))
  | Some (CliReload socket) => Some (ModeRequest socket "reload" (JObject []))
  | Some (CliShutdown socket) => Some (ModeRequest socket "shutdown" (JObject []))
  | None => config ← ar_config args; Some (ModeRun config (ar_control_socket args))
  end.

(** * Ownership of a protocol number *)

Inductive OwnershipError := AlreadyOwned | OwnershipIo.

(** [ProtocolOwnership::acquire]: a lock on a file named after the network namespace
    and the protocol; [ready] is whether the file could be opened. *)
Definition acquire (ready : bool) (locks : gset (Z * Z)) (namespace protocol : Z) : result OwnershipError (gset (Z * Z)) :=
  if negb ready then Err OwnershipIo
  else if bool_decide ((namespace, protocol) ∈ locks) then Err AlreadyOwned
  else Ok ({[ (namespace, protocol) ]} ∪ locks).

(** * Reloads *)

Section Lifecycle.
Context {NL : IpNetLib} {NC : NetContains} {L : Libm}.
#[local] Existing Instance builtin_metrics.

Inductive ReloadError :=
| ReloadRead
| ReloadToml
| ReloadConfig (e : DaemonError)
| ReloadIdentity
| ReloadRecovery (e : LinuxError)
| ReloadRouter (e : RouterError)
| ReloadManager.

(** TOML, and the digest of a text. *)
Class Files : Type := {
  decode_config : string -> option Config;
  sha256 : string -> string;
  read_key_file : string -> option (list byte)
}.

Context {NK : Netlink} {HO : HashOrder} {F : Files}.
Context (scope_json : Export -> Filter -> string).

(** [load_config], of the content of the file. *)
Definition load_config (contents : option string) : result ReloadError (Config * string) :=
  contents ← ok_or contents ReloadRead;
  value ← ok_or (decode_config contents) ReloadToml;
  match parse read_key_file value with
  | Ok c => Ok (c, sha256 contents)
  | Err e => Err (ReloadConfig e)
  end.

(** [origin_map]: collected into a map. *)
Definition origin_map (c : Config) : result DaemonError (gmap RouteKey Z) :=
  l ← builder_origins (origins c);
  Ok (fold_left (fun m p => <[p.1 := p.2]> m) l ∅).

#[global] Instance Policies_eq_dec : EqDecision Policies.
Proof. solve_decision. Defined.

Section Reload.
Context {S : Type} {H : Handle S}.

(** What a reload works on: the active configuration, the router's handle, the
    exporter and the system it writes to, and what the interface manager was sent. *)
Record DaemonState := MkDaemonState {
  ds_active : Config;
  ds_router : S;
  ds_exporter : LinuxExporter;
  ds_world : World;
  ds_manager : Config;
  ds_metadata : RuntimeMetadata
}.

(** What a reload meets: the file, the links of the system, and whether the
    interface manager still listens. *)
Record ReloadEnv := MkReloadEnv { re_contents : option string; re_links : list string; re_manager_open : bool }.

(** The state in which [run_daemon] enters its loop. *)
Definition daemon_state (router : S) (active : Config) (digest : string) (x : LinuxExporter) (w : World) : DaemonState :=
  MkDaemonState active router x w active (MkRuntimeMetadata (shutdown_timeout_ms active) 1 digest None).

Definition set_router (d : DaemonState) (s : S) : DaemonState :=
  MkDaemonState (ds_active d) s (ds_exporter d) (ds_world d) (ds_manager d) (ds_metadata d).
Definition set_exporter (d : DaemonState) (x : LinuxExporter) (w : World) : DaemonState :=
  MkDaemonState (ds_active d) (ds_router d) x w (ds_manager d) (ds_metadata d).

(** A call of the router's handle, and what follows when it succeeds. *)
Definition router_call (c : Call) (d : DaemonState)
    (k : DaemonState -> option (result ReloadError string * DaemonState)) : option (result ReloadError string * DaemonState) :=
  let '(s, r) := call c (ds_router d) in
  let d := set_router d s in
  match r with Ok _ => k d | Err e => Some (Err (ReloadRouter e), d) end.

(** The end of [reload]: exporter, interface manager, and the active configuration. *)
Definition finish_reload (env : ReloadEnv) (candidate : Config) (digest : string) (d : DaemonState)
    : option (result ReloadError string * DaemonState) :=
  let active := ds_active d in
  let d := if negb (bool_decide (export active = export candidate))
              || negb (bool_decide (pol_import (policy active) = pol_import (policy candidate)))
           then set_exporter d (update_export (export candidate) (ds_exporter d)) (ds_world d) else d in
  if re_manager_open env
  then Some (Ok digest, MkDaemonState candidate (ds_router d) (ds_exporter d) (ds_world d) candidate (ds_metadata d))
  else Some (Err ReloadManager, d).

(** The calls of the router, in order. *)
Definition commit_reload (env : ReloadEnv) (candidate : Config) (digest : string) (new_origins : gmap RouteKey Z)
    (d : DaemonState) : option (result ReloadError string * DaemonState) :=
  let active := ds_active d in
  router_call (CallShutdownTimeout (shutdown_timeout_ms candidate)) d (fun d =>
  router_call (CallReplaceOrigins (btree_iter new_origins)) d (fun d =>
  if negb (bool_decide (export active = export candidate)) || negb (bool_decide (policy active = policy candidate))
  then router_call (CallReplaceRoutePolicy (DaemonPolicy candidate)) d (finish_reload env candidate digest)
  else finish_reload env candidate digest d)).

(** [reload]; [None] is a panic. *)
Definition reload (env : ReloadEnv) (d : DaemonState) : option (result ReloadError string * DaemonState) :=
  match load_config (re_contents env) with
  | Err e => Some (Err e, d)
  | Ok (candidate, digest) =>
      let active := ds_active d in
      if negb (reload_identity_matches active candidate) then Some (Err ReloadIdentity, d)
      else
        match origin_map candidate with
        | Err e => Some (Err (ReloadConfig e), d)
        | Ok new_origins =>
            '(recovered, x, w) ← update_recovery_interfaces scope_json candidate (re_links env) [] (ds_exporter d) (ds_world d);
            let d := set_exporter d x w in
            match recovered with
            | Err e => Some (Err (ReloadRecovery e), d)
            | Ok _ =>
                commit_reload env candidate digest new_origins d
            end
        end
  end.

(** [reload_and_record]; [text] is the text of an error. *)
Definition reload_and_record (text : ReloadError -> string) (env : ReloadEnv) (d : DaemonState)
    : option (result ReloadError ReloadResult * DaemonState) :=
  '(r, d) ← reload env d;
  let md := ds_metadata d in
  let with_metadata md := MkDaemonState (ds_active d) (ds_router d) (ds_exporter d) (ds_world d) (ds_manager d) md in
  Some (match r with
        | Ok digest =>
            let generation := wrapping_add64 (md_config_generation md) 1 in
            (Ok (MkReloadResult generation digest),
             with_metadata (MkRuntimeMetadata (shutdown_timeout_ms (ds_active d)) generation digest None))
        | Err e =>
            (Err e, with_metadata (MkRuntimeMetadata (md_shutdown_timeout_ms md) (md_config_generation md)
                                     (md_active_config_sha256 md) (Some (text e))))
        end).

(** * Start-up *)

Inductive StartError :=
| StartConfig (e : ReloadError)
| StartOwnership (e : OwnershipError)
| StartState (e : StateError)
| StartRecovery (e : LinuxError)
| StartRouter (e : RouterError).

(** What [run_daemon] meets before its loop. *)
Record StartEnv := MkStartEnv {
  sn_contents : option string;
  sn_lock_ready : bool;
  sn_locks : gset (Z * Z);
  sn_namespace : Z;
  sn_file : StateFile;
  sn_draws : list (option (array 8));
  sn_random : result StateError Z;
  sn_write : WriteOutcome;
  sn_links : list string;
  sn_boot_ms : option Z;
  sn_boot : option string;
  sn_net : option string;
  sn_journal : JournalFile;
  sn_journal_ok : bool;
  sn_env : nat -> Env;
  sn_now : nat -> Z
}.

(** [run_daemon] up to its loop: the configuration, the lock, the identity, the
    routes a predecessor left, and the router, in this order; nothing is advertised
    before the state file was rewritten.  [None] is a panic or a draw that has not
    ended; a signal or a timeout during the recovery ends the daemon. *)
Definition start_daemon {T : Toml} {B : Build} (env : StartEnv) (w : World)
    : option (result StartError (Config * string * Router * LoadedState * LinuxExporter * World) * StateFile) :=
  match load_config (sn_contents env) with
  | Err e => Some (Err (StartConfig e), sn_file env)
  | Ok (active, digest) =>
      match acquire (sn_lock_ready env) (sn_locks env) (sn_namespace env) (protocol (export active)) with
      | Err e => Some (Err (StartOwnership e), sn_file env)
      | Ok _ =>
          '(loaded, file) ← load_or_create (String.list_byte_of_string <$> DaemonConfig.router_id active) (path_of (state_file active)) (sn_file env)
            (sn_draws env) (sn_random env) (sn_write env);
          match loaded with
          | Err e => Some (Err (StartState e), file)
          | Ok st =>
              '(recovered, x, w) ← begin_recovery scope_json active (sn_links env) (sn_boot_ms env) (sn_boot env)
                (sn_net env) (sn_journal env) (sn_journal_ok env) (linux_exporter (export active)) w;
              match recovered with
              | Err e => Some (Err (StartRecovery e), file)
              | Ok _ =>
                  match daemon_builder active (ls_router_id st) (ls_sequence_number st) with
                  | Err e => Some (Err (StartConfig (ReloadConfig e)), file)
                  | Ok b =>
                      r ← RouterLoop.start b linux_supports_ipv4_via_ipv6 ∅ (sn_env env) (sn_now env);
                      Some (match r with
                            | Ok r => Ok (active, digest, r, st, x, w)
                            | Err e => Err (StartRouter e)
                            end, file)
                  end
              end
          end
      end
  end.

(** The background tasks, in the order in which they are started. *)
Inductive Service := InterfaceService | ReconcilerService | ControlService (path : string).
Definition services (control_socket : option string) : list Service :=
  [InterfaceService; ReconcilerService] ++ option_list (ControlService <$> control_socket).

(** * The event loop *)

Inductive ServiceExit :=
| InterfacesExit (failed : bool)
| ExporterExit
| ControlExit (failed : bool)
| ServicePanicked
| AllServicesGone.

Inductive DaemonFailure :=
| RouterFailed (e : RouterError)
| SignalStreamEnded
| CommandChannelClosed
| ServiceStopped (s : ServiceExit)
| CleanupFailed.

(** What the loop waits for. *)
Inductive DaemonEvent :=
| RouterEnded (r : result RouterError unit)
| SignalReceived
| HangupReceived (ended : bool) (env : ReloadEnv)
| ReloadCommand (env : ReloadEnv)
| ShutdownCommand
| CommandsClosed
| ServiceEnded (s : ServiceExit).

(** Why the loop ends: the result so far, whether the router's task is over, and
    whether a response is still to be flushed. *)
Record Stop := MkStop { run_result : result DaemonFailure unit; router_finished : bool; response_flushing : bool }.

(** One event; the answer goes to a control client. *)
Definition daemon_event (text : ReloadError -> string) (ev : DaemonEvent) (d : DaemonState)
    : option (DaemonState * option ReloadReply + Stop) :=
  match ev with
  | RouterEnded r => Some (inr (MkStop (match r with Ok _ => Ok tt | Err e => Err (RouterFailed e) end) true false))
  | SignalReceived => Some (inr (MkStop (Ok tt) false false))
  | HangupReceived true _ => Some (inr (MkStop (Err SignalStreamEnded) false false))
  | HangupReceived false env => '(_, d) ← reload_and_record text env d; Some (inl (d, None))
  | ReloadCommand env =>
      '(r, d) ← reload_and_record text env d;
      Some (inl (d, Some (ReloadAnswered (match r with Ok v => Ok v | Err e => Err (text e) end))))
  | ShutdownCommand => Some (inr (MkStop (Ok tt) false true))
  | CommandsClosed => Some (inr (MkStop (Err CommandChannelClosed) false false))
  | ServiceEnded s => Some (inr (MkStop (Err (ServiceStopped s)) false false))
  end.

(** ** A reload that is dropped

    A signal ends [event_loop] wherever it waits, and with it a reload.  The state a
    reload leaves then is that of the await it has reached: [Dropped] by an
    exhausted count of awaits. *)

Definition Task (A : Type) : Type := nat -> DaemonState -> option (DaemonState + A * DaemonState * nat).

Definition ready {A} (a : A) : Task A := fun n d => Some (inr (a, d, n)).
Definition await : Task unit := fun n d => match n with O => Some (inl d) | Datatypes.S n => ready tt n d end.
Definition current_state : Task DaemonState := fun n d => ready d n d.
Definition from_option_task {A} (o : option A) : Task A := fun n d => a ← o; ready a n d.
Definition modify (f : DaemonState -> DaemonState) : Task unit := fun n d => ready tt n (f d).
#[local] Instance task_bind : MBind Task := fun A B' k m n d =>
  match m n d with
  | Some (inr (a, d, n)) => k a n d
  | Some (inl d) => Some (inl d)
  | None => None
  end.

(** The command is sent, and then its answer awaited. *)
Definition router_task (c : Call) : Task (result RouterError Reply) :=
  _ ← await;
  d ← current_state;
  let '(s, r) := call c (ds_router d) in
  _ ← modify (fun d => set_router d s);
  _ ← await;
  ready r.

(** [update_recovery_interfaces]: the thread of the journal writes in any case. *)
Definition recovery_task (c : Config) (names : list string) : Task (result LinuxError unit) :=
  _ ← await;
  d ← current_state;
  indices ← from_option_task (allowed_indices c (fun name => ifindex name (sys (ds_world d))) names);
  match indices with
  | Err e => ready (Err e)
  | Ok indices =>
      let '(rec, write) := recovery_interfaces scope_json c indices (recovery (ds_exporter d)) in
      let '(ok, w) := save_journal write (ds_world d) in
      _ ← modify (fun d => set_exporter d (set_recovery (ds_exporter d) rec) w);
      _ ← await;
      if (ok : bool) then
        _ ← modify (fun d => set_exporter d (set_recovery (ds_exporter d) (saved (recovery (ds_exporter d)))) (ds_world d));
        ready (Ok tt)
      else ready (Err LinuxIo)
  end.

(** [update_export] revokes the recovery before it waits for its own lock. *)
Definition export_task (e : Export) : Task unit :=
  _ ← await;
  _ ← modify (fun d => set_exporter d (set_recovery (ds_exporter d) (revoke (recovery (ds_exporter d)))) (ds_world d));
  _ ← await;
  modify (fun d => set_exporter d (update_export e (ds_exporter d)) (ds_world d)).

Definition finish_task (env : ReloadEnv) (active candidate : Config) (digest : string)
    : Task (result ReloadError string) :=
  _ ← (if negb (bool_decide (export active = export candidate))
          || negb (bool_decide (pol_import (policy active) = pol_import (policy candidate)))
       then export_task (export candidate) else ready tt);
  if re_manager_open env
  then
    _ ← modify (fun d => MkDaemonState candidate (ds_router d) (ds_exporter d) (ds_world d) candidate (ds_metadata d));
    ready (Ok digest)
  else ready (Err ReloadManager).

Definition try_task (m : Task (result RouterError Reply)) (k : Task (result ReloadError string))
    : Task (result ReloadError string) :=
  r ← m; match r with Ok _ => k | Err e => ready (Err (ReloadRouter e)) end.

Definition commit_task (env : ReloadEnv) (active candidate : Config) (digest : string) (new_origins : gmap RouteKey Z)
    : Task (result ReloadError string) :=
  try_task (router_task (CallShutdownTimeout (shutdown_timeout_ms candidate)))
    (try_task (router_task (CallReplaceOrigins (btree_iter new_origins)))
      (if negb (bool_decide (export active = export candidate)) || negb (bool_decide (policy active = policy candidate))
       then try_task (router_task (CallReplaceRoutePolicy (DaemonPolicy candidate)))
              (finish_task env active candidate digest)
       else finish_task env active candidate digest)).

Definition reload_from (env : ReloadEnv) (active : Config) : Task (result ReloadError string) :=
  match load_config (re_contents env) with
  | Err e => ready (Err e)
  | Ok (candidate, digest) =>
      if negb (reload_identity_matches active candidate) then ready (Err ReloadIdentity)
      else
        match origin_map candidate with
        | Err e => ready (Err (ReloadConfig e))
        | Ok new_origins =>
            r ← recovery_task candidate (re_links env);
            match r with
            | Err e => ready (Err (ReloadRecovery e))
            | Ok _ => commit_task env active candidate digest new_origins
            end
        end
  end.
Definition reload_task (env : ReloadEnv) : Task (result ReloadError string) :=
  d ← current_state; reload_from env (ds_active d).

(** The calls a reload has for the router, in order. *)
Definition reload_calls (env : ReloadEnv) (active : Config) : list Call :=
  match load_config (re_contents env) with
  | Err _ => []
  | Ok (candidate, _) =>
      match origin_map candidate with
      | Err _ => []
      | Ok new_origins =>
          [CallShutdownTimeout (shutdown_timeout_ms candidate); CallReplaceOrigins (btree_iter new_origins)] ++
          if negb (bool_decide (export active = export candidate)) || negb (bool_decide (policy active = policy candidate))
          then [CallReplaceRoutePolicy (DaemonPolicy candidate)] else []
      end
  end.
End Reload.

(** * Shutdown *)

(** One deadline for all stages. *)
Record Deadline := MkDeadline { dl_at : Z; dl_timeout_ms : Z }.
Definition deadline_new (timeout_ms now : Z) : Deadline := MkDeadline (now + timeout_ms) timeout_ms.

(** [Deadline::wait] at the time [now], for something that takes [took] ([None]: for
    ever): whether it finished, and the time then. *)
Definition deadline_wait (at_ms now : Z) (took : option Z) : bool * Z :=
  if at_ms <=? now then (false, now)
  else match took with
       | Some d => if now + d <=? at_ms then (true, now + d) else (false, at_ms)
       | None => (false, at_ms)
       end.

Inductive Stage := FlushResponse | RouterCleanup | ExportCleanup | BackgroundTasks.

(** What a shutdown does. *)
Inductive ShutdownStep :=
| StopServices
| RequestRestart
| RequestShutdown
| RouterJoined
| ExporterRetain
| ExporterShutdown
| ServicesJoined
| AbortRouter
| AbortServices.

#[global] Instance ShutdownStep_eq_dec : EqDecision ShutdownStep.
Proof. solve_decision. Defined.

(** What the router is signalled meanwhile. *)
Definition signal (s : Signals) (step : ShutdownStep) : Signals :=
  match step with
  | RequestRestart => request_restart s
  | RequestShutdown => request_shutdown s
  | _ => s
  end.
Definition signalled (steps : list ShutdownStep) : Signals := fold_left signal steps no_signals.

(** How long the stages take, and how they end. *)
Record ShutdownEnv := MkShutdownEnv {
  sv_flush : option Z;
  sv_router : option Z;
  sv_router_result : result RouterError unit;
  sv_exporter : option Z;
  sv_exporter_ok : bool;
  sv_services : option Z
}.

Definition retains (stop : Stop) (policy : ShutdownPolicy) : bool :=
  match run_result stop with Err _ => true | Ok _ => match policy with ShutdownRetain => true | ShutdownClear => false end end.

(** The stages up to a timeout: the stage that timed out if any, the steps, the
    result, and the time. *)
Definition cleanup (env : ShutdownEnv) (stop : Stop) (retain : bool) (at_ms now : Z)
    : option Stage * list ShutdownStep * result DaemonFailure unit * Z :=
  let request := if retain then RequestRestart else RequestShutdown in
  let flush := Some (match sv_flush env with Some d => Z.min d 1000 | None => 1000 end) in
  let '(flushed, now) := if response_flushing stop then deadline_wait at_ms now flush else (true, now) in
  if negb flushed then (Some FlushResponse, [], run_result stop, now)
  else
    let steps := [StopServices; request] in
    let '(joined, now) := if router_finished stop then (true, now) else deadline_wait at_ms now (sv_router env) in
    if negb joined then (Some RouterCleanup, steps, run_result stop, now)
    else
      let steps := if router_finished stop then steps else steps ++ [RouterJoined] in
      let '(finished, result) :=
        if router_finished stop then (true, run_result stop)
        else match sv_router_result env with
             | Ok _ => (false, run_result stop)
             | Err e => (true, match run_result stop with Ok _ => Err (RouterFailed e) | Err x => Err x end)
             end in
      let '(exported, now) := if finished then deadline_wait at_ms now (sv_exporter env) else (true, now) in
      if negb exported then (Some ExportCleanup, steps, result, now)
      else
        let steps := if finished then steps ++ [if retain then ExporterRetain else ExporterShutdown] else steps in
        let result := if finished && negb (sv_exporter_ok env)
                      then match result with Ok _ => Err CleanupFailed | Err x => Err x end else result in
        let '(ended, now) := deadline_wait at_ms now (sv_services env) in
        if negb ended then (Some BackgroundTasks, steps, result, now)
        else (None, steps ++ [ServicesJoined], result, now).

Inductive DaemonResult :=
| DaemonEnded (r : result DaemonFailure unit)
| DaemonTimedOut (stage : Stage) (timeout_ms : Z).

(** The end of [run_daemon]. *)
Definition finish_daemon (env : ShutdownEnv) (stop : Stop) (policy : ShutdownPolicy) (timeout_ms now : Z)
    : DaemonResult * list ShutdownStep * Z :=
  let retain := retains stop policy in
  let deadline := deadline_new timeout_ms now in
  let '(timed_out, steps, result, now') := cleanup env stop retain (dl_at deadline) now in
  match timed_out with
  | Some stage =>
      (DaemonTimedOut stage (dl_timeout_ms deadline),
       steps ++ [StopServices; if retain then RequestRestart else RequestShutdown; AbortRouter; AbortServices], now')
  | None => (DaemonEnded result, steps, now')
  end.

(** * [main] *)

Inductive Exit :=
| ExitUsage
| ExitDaemon (r : DaemonResult)
| ExitChecked (r : result ReloadError unit)
| ExitAnswered (r : result ControlClientError Value).

(** [run], [read] and [ask] are a daemon, the files and a control session. *)
Definition main (run : string -> option string -> DaemonResult) (read : string -> option string)
    (ask : string -> string -> Value -> result ControlClientError Value) (args : Args) : Exit :=
  match mode args with
  | None => ExitUsage
  | Some (ModeRun config control_socket) => ExitDaemon (run config control_socket)
  | Some (ModeCheck path) => ExitChecked (_ ← load_config (read path); Ok tt)
  | Some (ModeRequest socket command params) => ExitAnswered (ask socket command params)
  end.
End Lifecycle.
