(* ===== verification/LifecycleTheorems.v ===== *)
(** A reload takes effect everywhere or nowhere, and a shutdown ends in time with
    the routes treated as the configuration says. *)
From S2P Require Import Prelude Net Mac Model Metric Wire WireDecode Api EngineState Neighbors Engine OutputSpec Invariant EngineSpec Scheduler Sender Router RouterLoop BatchSpec RouterTheorems Filters DaemonConfig Projection SourceViews DaemonTheorems Netlink Recovery Exporter State StateTheorems Handle Control Lifecycle.
Import Hello.
Local Open Scope Z_scope.

Section Lifecycle.
Context {NL : IpNetLib} {NC : NetContains} {L : Libm} {NK : Netlink} {HO : HashOrder} {F : Files}.
#[local] Existing Instance builtin_metrics.
Context (scope_json : Export -> Filter -> string).

(** * A handle that takes configuration *)

(** The calls of a reload. *)
Definition config_call (c : Call) : bool :=
  match c with CallShutdownTimeout _ | CallReplaceOrigins _ | CallReplaceRoutePolicy _ => true | _ => false end.

Class Configurable (S : Type) {H : Handle S} : Type := {
  alive : S -> Prop;
  alive_call c cmd s : alive s -> config_call c = true -> issue c = Ok cmd ->
    exists s' reply, call c s = (s', Ok reply) /\ alive s'
}.

(** The router behind its handle is such a one while it runs. *)
Lemma router_takes_config {B : Build} (release : overflow_checks = false) around (all_calm : forall k, calm (around k)) c cmd s :
  (exists v, router_view s v) -> config_call c = true -> issue c = Ok cmd ->
  exists s' reply, call (Handle := router_handle around) c s = (s', Ok reply) /\ exists v, router_view s' v.
Proof.
  intros [v Hv] Hc Hi.
  destruct (serve_reaches around release all_calm c cmd s v Hv Hi) as (r & r' & reply & Hn & Hp & Hinv & Hr & ->).
  assert (kept r r') as Hk.
  { eapply command_kept; [|exact Hr]. destruct c; try done; simpl in Hi.
    - by injection Hi as <-.
    - destruct (ms =? 0); [done|by injection Hi as <-].
    - apply result_bind_Ok in Hi as (m & _ & [= <-]). done. }
  assert (forall e, reply <> Replied (Err e)) as Hre.
  { destruct c; try done; simpl in Hi.
    - injection Hi as <-. simpl in Hr. by apply bind_Some in Hr as (r1 & _ & [= _ <-]).
    - destruct (ms =? 0); [done|]. injection Hi as <-. simpl in Hr. by injection Hr as _ <-.
    - apply result_bind_Ok in Hi as (m & _ & [= <-]). simpl in Hr. by apply bind_Some in Hr as (r1 & _ & [= _ <-]). }
  exists (Some r', S s.2), reply. split; [destruct reply as [|[|e]|]; try done; by destruct (Hre e)|].
  exists (policies r'), r'. split; [done|]. split; [done|]. split; [by eapply kept_named|done].
Qed.

Definition router_configurable {B : Build} (release : overflow_checks = false) around (all_calm : forall k, calm (around k))
    : Configurable (H := router_handle around) (option Router * nat) :=
  {| alive s := exists v, router_view s v; alive_call := router_takes_config release around all_calm |}.

(** * What was committed *)

Section Reload.
Context {S : Type} {H : Handle S} {C : Configurable S}.

(** The handle with the calls that succeeded. *)
#[local] Instance recorded : Handle (S * list Call) := {
  call c p := let '(s, r) := call c p.1 in ((s, match r with Ok _ => p.2 ++ [c] | Err _ => p.2 end), r)
}.

Record Settings := MkSettings {
  se_timeout : option Z;
  se_origins : option (list (RouteKey * Z));
  se_policy : option RoutePolicy
}.

Definition commit (st : Settings) (c : Call) : Settings :=
  match c with
  | CallShutdownTimeout ms => MkSettings (Some ms) (se_origins st) (se_policy st)
  | CallReplaceOrigins l => MkSettings (se_timeout st) (Some l) (se_policy st)
  | CallReplaceRoutePolicy p => MkSettings (se_timeout st) (se_origins st) (Some p)
  | _ => st
  end.
Definition in_force (log : list Call) : Settings := fold_left commit log (MkSettings None None None).

Lemma in_force_snoc log c : in_force (log ++ [c]) = commit (in_force log) c.
Proof. unfold in_force. by rewrite fold_left_app. Qed.

(** Everything follows the active configuration. *)
Record in_sync (d : DaemonState (S := S * list Call)) : Prop := {
  sy_alive : alive (ds_router d).1;
  sy_settings : exists m, origin_map (ds_active d) = Ok m /\
    in_force (ds_router d).2 =
      MkSettings (Some (shutdown_timeout_ms (ds_active d))) (Some (btree_iter m)) (Some (DaemonPolicy (ds_active d)));
  sy_export : xs_export (xstate (ds_exporter d)) = export (ds_active d);
  sy_running : stopping (xstate (ds_exporter d)) = false;
  sy_manager : ds_manager d = ds_active d
}.

(** Router and exporter follow the configuration [c]. *)
Record committed (c : Config) (d : DaemonState (S := S * list Call)) : Prop := {
  cm_alive : alive (ds_router d).1;
  cm_settings : exists m, origin_map c = Ok m /\
    in_force (ds_router d).2 = MkSettings (Some (shutdown_timeout_ms c)) (Some (btree_iter m)) (Some (DaemonPolicy c));
  cm_export : xs_export (xstate (ds_exporter d)) = export c;
  cm_running : stopping (xstate (ds_exporter d)) = false
}.

Lemma committed_sync d : committed (ds_active d) d -> ds_manager d = ds_active d -> in_sync d.
Proof. intros [H1 H2 H3 H4] Hm. by split. Qed.

(** Nothing was asked of the kernel; at most the journal was written, once. *)
Definition journaled (w w' : World) : Prop :=
  log w' = log w \/ exists j a, log w' = log w ++ [(WriteJournal j, a)].

Lemma save_journaled write w ok w' : save_journal write w = (ok, w') -> journaled w w'.
Proof.
  unfold save_journal. destruct write as [j|]; [|intros [= _ <-]; by left].
  destruct (write_journal j (sys w)) as [b s]. intros [= _ <-]. right. simpl. eauto.
Qed.

(** ** Steps *)

Lemma router_call_ok c cmd (d : DaemonState (S := S * list Call)) k : alive (ds_router d).1 -> config_call c = true -> issue c = Ok cmd ->
  exists s', alive s' /\ router_call c d k = k (set_router d (s', (ds_router d).2 ++ [c])).
Proof.
  intros Ha Hc Hi. destruct (alive_call c cmd _ Ha Hc Hi) as (s' & reply & E & Ha'). exists s'. split; [done|].
  unfold router_call. cbn [call recorded]. by rewrite E.
Qed.

Lemma collect_distinct l : forall desired, NoDup l.*1 -> (forall k, k ∈ l.*1 -> desired !! k = None) ->
  Forall (fun p => router_validate_origin p.1 p.2 = Ok tt) l -> exists m, collect_origins desired l = Ok m.
Proof.
  induction l as [|[k m] l IH]; intros desired Hnd Hd Hv; simpl; [by eexists|].
  apply list.NoDup_cons in Hnd as [Hk Hnd]. apply list.Forall_cons in Hv as [Hv Hvs]. simpl in *. rewrite Hv. simpl.
  rewrite bool_decide_false by (rewrite Hd by (by left); by apply is_Some_None). apply IH; [done| |done].
  intros k' Hin. rewrite lookup_insert_ne by (intros ->; done). apply Hd. by right.
Qed.

Lemma builder_origins_valid l : forall seen, validate_builder_origins seen l = Ok tt ->
  Forall (fun p : RouteKey * Z => router_validate_origin p.1 p.2 = Ok tt) l.
Proof.
  induction l as [|[k m] l IH]; intros seen Hv; simpl in Hv; [constructor|].
  apply unit_bind in Hv as [Hp Hv]. case_bool_decide; [done|]. constructor; [done|by eapply IH].
Qed.

(** The origins of an accepted configuration are accepted by the router. *)
Lemma parsed_origins read value c : parse read value = Ok c -> exists m cmd, origin_map c = Ok m /\
  issue (CallReplaceOrigins (btree_iter m)) = Ok cmd.
Proof.
  intros Hp. destruct (parse_parsed read value c Hp) as [_ _ _ Ho _]. apply conf_origins_ok in Ho as (os & Hos & Hv).
  apply builder_origins_valid in Hv. unfold origin_map. rewrite Hos. cbn [mbind result_bind].
  set (m := fold_left _ os ∅). assert (map_Forall (fun k v => router_validate_origin k v = Ok tt) m) as Hm.
  { assert (forall m0 : gmap RouteKey Z, map_Forall (fun k v => router_validate_origin k v = Ok tt) m0 ->
      map_Forall (fun k v => router_validate_origin k v = Ok tt) (fold_left (fun m p => <[p.1 := p.2]> m) os m0)) as Hf.
    { clear m Hos. induction Hv as [|p os Hp' _ IH]; intros m0 Hm0; simpl; [done|]. apply IH. by apply map_Forall_insert_2. }
    apply Hf, map_Forall_empty. }
  destruct (collect_distinct (btree_iter m) ∅) as [d Hd].
  - apply btree_iter_NoDup.
  - intros. apply lookup_empty.
  - apply list.Forall_forall. intros [k v] Hin%btree_iter_lookup. by apply Hm in Hin.
  - exists m, (CReplaceOrigins d). split; [done|]. simpl. by rewrite Hd.
Qed.

Lemma update_export_state e x : stopping (xstate x) = false ->
  xs_export (xstate (update_export e x)) = e /\ stopping (xstate (update_export e x)) = false.
Proof.
  intros Hs. unfold update_export. simpl. rewrite Hs. case_bool_decide as He; simpl; [by rewrite He|done].
Qed.


Lemma same_policy (a b : Config) : export a = export b -> policy a = policy b -> DaemonPolicy a = DaemonPolicy b.
Proof. intros He Hp. unfold DaemonPolicy. by rewrite He, Hp. Qed.

(** The table of links is read without a panic, and the exporter keeps its state. *)
Lemma recovery_step c names x w : (forall n, exists ei, effective_interface c n = Some ei) ->
  exists r x' w', update_recovery_interfaces scope_json c names [] x w = Some (r, x', w') /\ xstate x' = xstate x /\
    source_tables x' = source_tables x /\ journaled w w'.
Proof.
  intros Heff. unfold update_recovery_interfaces.
  assert (exists r, allowed_indices c (fun name => ifindex name (sys w)) names = Some r) as [r ->].
  { induction names as [|n names [r IH]]; simpl; [by eexists|]. destruct (Heff n) as [[e|] ->]; cbn [mbind option_bind]; [|by exists r].
    destruct (ifindex n (sys w)); [|by eexists]. rewrite IH. by eexists. }
  cbn [mbind option_bind]. destruct r as [indices|e]; [|eexists _, _, _; do 3 (split; [done|]); by left].
  destruct (recovery_interfaces _ _ _ _) as [rec write]. destruct (save_journal write w) as [ok w'] eqn:Ew.
  apply save_journaled in Ew. destruct ok; eexists _, _, _; (split; [done|]); done.
Qed.

Context (typed : forall text value, decode_config text = Some value -> Forall section_typed (DaemonConfig.interfaces value)).

Lemma load_parsed contents c digest : load_config contents = Ok (c, digest) ->
  exists value, parse read_key_file value = Ok c /\ Forall section_typed (DaemonConfig.interfaces value).
Proof.
  unfold load_config. intros Hl. apply result_bind_Ok in Hl as (text & _ & Hl). apply result_bind_Ok in Hl as (value & Hd & Hl).
  apply ok_or_Ok in Hd. destruct (parse read_key_file value) as [c'|e] eqn:E; [|done]. injection Hl as <- _.
  exists value. split; [done|by eapply typed].
Qed.

(** The last part of a reload; without the interface manager it ends in an error
    after the exporter was told. *)
Lemma finish_spec env c digest (d : DaemonState (S := S * list Call)) :
  alive (ds_router d).1 -> xs_export (xstate (ds_exporter d)) = export (ds_active d) -> stopping (xstate (ds_exporter d)) = false ->
  (exists m, origin_map c = Ok m /\ in_force (ds_router d).2 =
     MkSettings (Some (shutdown_timeout_ms c)) (Some (btree_iter m)) (Some (DaemonPolicy c))) ->
  exists d', finish_reload env c digest d = Some (if re_manager_open env then Ok digest else Err ReloadManager, d') /\
    committed c d' /\ ds_metadata d' = ds_metadata d /\ ds_world d' = ds_world d /\
    ds_active d' = (if re_manager_open env then c else ds_active d) /\
    ds_manager d' = (if re_manager_open env then c else ds_manager d).
Proof.
  intros Ha Hx Hs Hset. unfold finish_reload.
  destruct (negb _ || negb _) eqn:Ed; destruct (re_manager_open env); eexists; (split; [done|]); (split; [split|done]); simpl; try done;
    try (by apply update_export_state).
  all: apply orb_false_iff in Ed as [Ed _]; apply negb_false_iff, bool_decide_eq_true in Ed; congruence.
Qed.

(** The calls of the router, for an accepted configuration. *)
Lemma commit_spec env c digest m cmd (d : DaemonState (S := S * list Call)) :
  shutdown_timeout_ms c <> 0 -> origin_map c = Ok m -> issue (CallReplaceOrigins (btree_iter m)) = Ok cmd -> in_sync d ->
  exists d', commit_reload env c digest m d = Some (if re_manager_open env then Ok digest else Err ReloadManager, d') /\
    committed c d' /\ ds_metadata d' = ds_metadata d /\ ds_world d' = ds_world d /\
    ds_active d' = (if re_manager_open env then c else ds_active d) /\
    ds_manager d' = (if re_manager_open env then c else ds_manager d).
Proof.
  intros Ht Hm Hcmd [Ha (m0 & Hm0 & Hset) Hxe Hrun Hman]. unfold commit_reload.
  assert (issue (CallShutdownTimeout (shutdown_timeout_ms c)) = Ok (CShutdownTimeout (shutdown_timeout_ms c))) as Hti
    by (simpl; by rewrite (proj2 (Z.eqb_neq _ _))).
  destruct (router_call_ok (CallShutdownTimeout (shutdown_timeout_ms c)) _ d (fun d1 => router_call (CallReplaceOrigins (btree_iter m)) d1 (fun d2 =>
    if negb (bool_decide (export (ds_active d) = export c)) || negb (bool_decide (policy (ds_active d) = policy c))
    then router_call (CallReplaceRoutePolicy (DaemonPolicy c)) d2 (finish_reload env c digest)
    else finish_reload env c digest d2)) Ha eq_refl Hti) as (s1 & Ha1 & ->).
  destruct (router_call_ok (CallReplaceOrigins (btree_iter m)) _ (set_router d (s1, (ds_router d).2 ++ [CallShutdownTimeout (shutdown_timeout_ms c)])) (fun d2 =>
    if negb (bool_decide (export (ds_active d) = export c)) || negb (bool_decide (policy (ds_active d) = policy c))
    then router_call (CallReplaceRoutePolicy (DaemonPolicy c)) d2 (finish_reload env c digest)
    else finish_reload env c digest d2) Ha1 eq_refl Hcmd) as (s2 & Ha2 & ->).
  cbn [ds_router set_router snd]. set (log := ((ds_router d).2 ++ _) ++ _).
  assert (in_force log = MkSettings (Some (shutdown_timeout_ms c)) (Some (btree_iter m)) (Some (DaemonPolicy (ds_active d)))) as Hf
    by (subst log; by rewrite !in_force_snoc, Hset).
  destruct (negb _ || negb _) eqn:Ed.
  - destruct (router_call_ok (CallReplaceRoutePolicy (DaemonPolicy c)) _ (set_router (set_router d (s1, (ds_router d).2 ++
      [CallShutdownTimeout (shutdown_timeout_ms c)])) (s2, log)) (finish_reload env c digest) Ha2 eq_refl eq_refl) as (s3 & Ha3 & ->).
    match goal with |- context [finish_reload _ _ _ ?x] => apply (finish_spec env c digest x); try done end. exists m. split; [done|]. cbn [ds_router set_router snd]. by rewrite in_force_snoc, Hf.
  - apply orb_false_iff in Ed as [Ee%negb_false_iff%bool_decide_eq_true Ep%negb_false_iff%bool_decide_eq_true].
    match goal with |- context [finish_reload _ _ _ ?x] => apply (finish_spec env c digest x); try done end. exists m. split; [done|]. cbn [ds_router set_router snd]. by rewrite Hf, (same_policy _ _ Ee Ep).
Qed.

Lemma sync_exporter x w (d : DaemonState (S := S * list Call)) : in_sync d -> xstate x = xstate (ds_exporter d) ->
  in_sync (set_exporter d x w).
Proof. intros [A Hs X R M] Hx. split; simpl; [done|done|by rewrite Hx|by rewrite Hx|done]. Qed.

(** The outcome of a reload: everything follows the new file, nothing was changed,
    or the interface manager was gone and only router and exporter follow it. *)
Definition reloaded (env : ReloadEnv) (d d' : DaemonState (S := S * list Call)) (r : result ReloadError string) : Prop :=
  match r with
  | Ok digest => re_manager_open env = true /\ in_sync d' /\
      load_config (re_contents env) = Ok (ds_active d', digest) /\ reload_identity_matches (ds_active d) (ds_active d') = true
  | Err ReloadManager => re_manager_open env = false /\ ds_active d' = ds_active d /\ ds_manager d' = ds_manager d /\
      exists c digest, load_config (re_contents env) = Ok (c, digest) /\
        reload_identity_matches (ds_active d) c = true /\ committed c d'
  | Err _ => in_sync d' /\ ds_active d' = ds_active d /\ ds_router d' = ds_router d /\ ds_manager d' = ds_manager d /\
      xstate (ds_exporter d') = xstate (ds_exporter d) /\ source_tables (ds_exporter d') = source_tables (ds_exporter d)
  end.

Lemma reload_spec env d : in_sync d ->
  exists r d', reload scope_json env d = Some (r, d') /\ reloaded env d d' r /\
    ds_metadata d' = ds_metadata d /\ journaled (ds_world d) (ds_world d').
Proof.
  intros Hsync. assert (journaled (ds_world d) (ds_world d)) as Hj by (by left).
  unfold reload. destruct (load_config (re_contents env)) as [[c digest]|e] eqn:El.
  2:{ eexists _, d. split; [done|]. split; [|done]. unfold load_config in El.
      destruct (re_contents env) as [t|]; simpl in El; [|by injection El as <-].
      destruct (decode_config t) as [v|]; simpl in El; [|by injection El as <-].
      destruct (parse read_key_file v); [done|]. by injection El as <-. }
  destruct (reload_identity_matches (ds_active d) c) eqn:Eid; cbn [negb]; [|by eexists _, d].
  destruct (load_parsed _ _ _ El) as (value & Hp & Hty). destruct (parsed_origins _ _ _ Hp) as (m & cmd & Hm & Hcmd). rewrite Hm.
  destruct (recovery_step c (re_links env) (ds_exporter d) (ds_world d)) as (rr & x & w & -> & Hx & Htab & Hjw).
  { intros n. destruct (parsed_interfaces _ _ _ Hp Hty n) as (ei & He & _). by exists ei. }
  cbn [mbind option_bind]. pose proof (sync_exporter x w d Hsync Hx) as Hsync'. destruct rr as [[]|e]; [|by eexists _, _].
  destruct (commit_spec env c digest m cmd _ (pd_timeout _ (parse_parsed _ _ _ Hp)) Hm Hcmd Hsync')
    as (d' & E & Hc & Hmd & Hw & Hac & Hman).
  rewrite E. unfold reloaded. destruct (re_manager_open env); eexists _, d'; (split; [done|]).
  - rewrite Hw, Hac. split; [|done]. split; [done|]. split; [|done]. apply committed_sync; [by rewrite Hac|congruence].
  - rewrite Hw. split; [|done]. rewrite El. eauto 10.
Qed.

(** ** A reload that is dropped *)

Definition served_calls (cs : list Call) (s : S * list Call) : S * list Call := fold_left (fun s c => (call c s).1) cs s.

(** [d] is [d0] with some calls of the router made, and nothing else but the recovery
    record of start-up routes and its journal. *)
Record called (d0 : DaemonState (S := S * list Call)) (cs : list Call) (d : DaemonState (S := S * list Call)) : Prop := {
  cd_active : ds_active d = ds_active d0;
  cd_manager : ds_manager d = ds_manager d0;
  cd_metadata : ds_metadata d = ds_metadata d0;
  cd_exporter : xstate (ds_exporter d) = xstate (ds_exporter d0);
  cd_tables : source_tables (ds_exporter d) = source_tables (ds_exporter d0);
  cd_world : journaled (ds_world d0) (ds_world d);
  cd_router : ds_router d = served_calls cs (ds_router d0)
}.

Section Dropped.
Context (d0 : DaemonState (S := S * list Call)) (calls : list Call).

(** Dropped from a state of [pre], a task leaves some of the calls; finished, [post]. *)
Definition runs {A} (pre : DaemonState -> Prop) (m : Task A) (post : A -> DaemonState -> Prop) : Prop :=
  forall n d, pre d ->
  match m n d with
  | Some (inl d') => exists cs, cs `prefix_of` calls /\ called d0 cs d'
  | Some (inr (a, d', _)) => post a d'
  | None => True
  end.

Lemma runs_bind {A B'} pre (m : Task A) mid (k : A -> Task B') post :
  runs pre m mid -> (forall a, runs (mid a) (k a) post) -> runs pre (mbind (MBind := task_bind) k m) post.
Proof.
  intros Hm Hk n d Hd. specialize (Hm n d Hd). unfold mbind, task_bind.
  destruct (m n d) as [[d'|[[a d'] n']]|]; [done|by apply Hk|done].
Qed.

Lemma runs_ready {A} (pre : DaemonState -> Prop) (a : A) post : (forall d, pre d -> post a d) -> runs pre (ready a) post.
Proof. intros Hp n d Hd. by apply Hp. Qed.

Lemma runs_modify pre f post : (forall d, pre d -> post tt (f d)) -> runs pre (modify f) post.
Proof. intros Hp n d Hd. by apply Hp. Qed.

Lemma runs_await cs : cs `prefix_of` calls -> runs (called d0 cs) await (fun _ => called d0 cs).
Proof. intros Hc [|n] d Hd; [by exists cs|done]. Qed.

Lemma runs_state pre : runs pre current_state (fun x d => pre d /\ d = x).
Proof. by intros n d Hd. Qed.

Lemma runs_of {A} pre (o : option A) : runs pre (from_option_task o) (fun _ => pre).
Proof. intros n d Hd. unfold from_option_task. by destruct o. Qed.

(** Changes of the recovery record alone. *)
Lemma called_recovery cs d rec w : called d0 cs d -> journaled (ds_world d0) w ->
  called d0 cs (set_exporter d (set_recovery (ds_exporter d) rec) w).
Proof. intros [Ac M D X T W R] Hw. split; simpl; done. Qed.

Lemma runs_exporter cs f :
  runs (called d0 cs) (modify (fun d => set_exporter d (set_recovery (ds_exporter d) (f d)) (ds_world d))) (fun _ => called d0 cs).
Proof. apply runs_modify. intros d Hd. apply called_recovery; [done|]. by destruct Hd. Qed.

Lemma runs_router cs c : cs ++ [c] `prefix_of` calls ->
  runs (called d0 cs) (router_task c) (fun _ => called d0 (cs ++ [c])).
Proof.
  intros Hc. assert (cs `prefix_of` calls) as Hcs by (etrans; [by eexists|exact Hc]).
  eapply runs_bind; [by apply runs_await|intros ?]. eapply runs_bind; [apply runs_state|intros d1].
  destruct (call c (ds_router d1)) as [s r] eqn:E.
  eapply runs_bind; [apply (runs_modify _ _ (fun _ => called d0 (cs ++ [c])))|intros ?; eapply runs_bind;
    [by apply runs_await|intros ?; by apply runs_ready]].
  intros d [[Ac M D X T W R] Ed]. rewrite <- Ed in E. split; [done..|].
  unfold served_calls in *. rewrite fold_left_app. cbn [fold_left]. by rewrite <- R, E.
Qed.

Lemma runs_recovery c names : runs (fun d => d = d0) (recovery_task scope_json c names) (fun _ => called d0 []).
Proof.
  assert ([] `prefix_of` calls) as Hn by apply prefix_nil.
  assert (called d0 [] d0) as H0 by (split; try done; by left).
  apply (runs_bind _ _ (fun _ d => d = d0)); [|intros ?; eapply runs_bind; [apply runs_state|intros d1]].
  { intros [|n] d ->; [by exists []|done]. }
  eapply runs_bind; [apply runs_of|intros [indices|e]]; [|apply runs_ready; by intros d [-> _]].
  destruct (recovery_interfaces _ _ _ _) as [rec write]. destruct (save_journal _ _) as [ok w] eqn:Ew.
  eapply runs_bind; [apply (runs_modify _ _ (fun _ => called d0 []))|intros ?].
  { intros d [-> <-]. apply save_journaled in Ew. by apply called_recovery. }
  eapply runs_bind; [by apply runs_await|intros ?]. destruct ok; [|by apply runs_ready].
  eapply runs_bind; [apply runs_exporter|intros ?; by apply runs_ready].
Qed.

Lemma runs_finish cs env active candidate digest : cs `prefix_of` calls ->
  runs (called d0 cs) (finish_task env active candidate digest) (fun _ _ => True).
Proof.
  intros Hc. apply runs_bind with (fun _ _ => True).
  - destruct (_ || _); [|by apply runs_ready]. eapply runs_bind; [by apply runs_await|intros ?].
    eapply runs_bind; [apply runs_exporter|intros ?]. eapply runs_bind; [by apply runs_await|intros ?].
    by apply runs_modify.
  - intros ?. destruct (re_manager_open env); [|by apply runs_ready].
    eapply runs_bind; [by apply (runs_modify _ _ (fun _ _ => True))|intros ?; by apply runs_ready].
Qed.

Lemma runs_try cs c k : cs ++ [c] `prefix_of` calls -> runs (called d0 (cs ++ [c])) k (fun _ _ => True) ->
  runs (called d0 cs) (try_task (router_task c) k) (fun _ _ => True).
Proof. intros Hc Hk. eapply runs_bind; [by apply runs_router|]. intros [r|e]; [done|by apply runs_ready]. Qed.
End Dropped.

(** Dropped wherever it waits, a reload has given the router some of its calls, in
    order, and changed nothing else but the recovery record and its journal. *)
Lemma reload_dropped env n d d' : reload_task scope_json env n d = Some (inl d') ->
  exists cs, cs `prefix_of` reload_calls env (ds_active d) /\ called d cs d'.
Proof.
  intros Hd. enough (runs d (reload_calls env (ds_active d)) (fun d1 => d1 = d) (reload_task scope_json env) (fun _ _ => True)) as Hr
    by (specialize (Hr n d eq_refl); by rewrite Hd in Hr).
  eapply runs_bind; [apply runs_state|]. intros d1 n1 d2 [-> <-].
  enough (runs d (reload_calls env (ds_active d)) (fun d1 => d1 = d) (reload_from scope_json env (ds_active d)) (fun _ _ => True))
    as Hr by (by apply Hr).
  unfold reload_calls, reload_from. destruct (load_config _) as [[candidate digest]|e]; [|by apply runs_ready].
  destruct (reload_identity_matches _ _); [|by apply runs_ready].
  destruct (origin_map candidate) as [m|e]; [|by apply runs_ready].
  eapply runs_bind; [apply runs_recovery|]. intros [[]|e]; [|by apply runs_ready].
  apply runs_try; [by eexists|]. apply runs_try; [by eexists|].
  destruct (_ || _); [apply runs_try; [by eexists|]|]; apply runs_finish; by eexists.
Qed.

(** ** A reload that is not dropped *)

Section Finished.
Context (active : Config).

(** With awaits enough, at most [k], a task of a daemon with the configuration
    [active] is the operation it stands for. *)
Definition does {A} (k : nat) (m : Task A) (f : DaemonState -> option (A * DaemonState)) : Prop :=
  forall n (d : DaemonState (S := S * list Call)), ds_active d = active ->
  match f d with
  | Some (a, d') => exists n', (n <= n')%nat /\ m (k + n)%nat d = Some (inr (a, d', n'))
  | None => m (k + n)%nat d = None
  end.

Lemma does_bind {A B'} k1 k2 (m : Task A) f (k : A -> Task B') g : does k1 m f -> (forall a, does k2 (k a) (g a)) ->
  (forall d a d', ds_active d = active -> f d = Some (a, d') -> ds_active d' = active) ->
  does (k1 + k2) (mbind (MBind := task_bind) k m) (fun d => '(a, d) ← f d; g a d).
Proof.
  intros Hm Hk Hf n d Hd. unfold mbind, task_bind, option_bind. specialize (Hm (k2 + n)%nat d Hd). rewrite Nat.add_assoc in Hm.
  destruct (f d) as [[a d1]|] eqn:E; [|by rewrite Hm]. destruct Hm as (n1 & Hn & ->).
  specialize (Hk a (n1 - k2)%nat d1 (Hf _ _ _ Hd E)). replace (k2 + (n1 - k2))%nat with n1 in Hk by lia.
  destruct (g a d1) as [[b d2]|]; [|done]. destruct Hk as (n2 & Hn2 & ->). exists n2. split; [lia|done].
Qed.

Lemma does_less {A} k k' (m : Task A) f : (k <= k')%nat -> does k m f -> does k' m f.
Proof.
  intros Hk Hm n d Hd. specialize (Hm (k' - k + n)%nat d Hd). rewrite Nat.add_assoc in Hm.
  replace (k + (k' - k))%nat with k' in Hm by lia. destruct (f d) as [[a d']|]; [|done].
  destruct Hm as (n' & Hn & E). exists n'. split; [lia|done].
Qed.

Lemma does_eq {A} k (m : Task A) f g : (forall d, ds_active d = active -> f d = g d) -> does k m f -> does k m g.
Proof. intros Hfg Hm n d Hd. rewrite <- Hfg by done. by apply Hm. Qed.

Lemma does_ready {A} (a : A) k : does k (ready a) (fun d => Some (a, d)).
Proof. intros n d _. exists (k + n)%nat. split; [lia|done]. Qed.

(** Straight-line tasks run by computation. *)
Ltac run_task := cbv [router_task recovery_task export_task mbind task_bind option_bind await ready current_state modify from_option_task];
  cbn [Nat.add].

Lemma does_try c k m f : does k m f -> does (2 + k) (try_task (router_task c) m) (fun d => router_call c d f).
Proof.
  intros Hm. eapply does_eq, (does_bind 2 k _ (fun d => let '(s, r) := call c (ds_router d) in Some (r, set_router d s)) _
    (fun r d => match r with Ok _ => f d | Err e => Some (Err (ReloadRouter e), d) end)).
  - intros d _. cbv [router_call mbind option_bind]. by destruct (call c (ds_router d)) as [s r].
  - intros n d _. run_task. destruct (call c (ds_router d)) as [s r]. by exists n.
  - intros [r|e]; [done|apply does_ready].
  - intros d a d' Hd E. destruct (call c (ds_router d)) as [s r]. by injection E as <- <-.
Qed.

Lemma does_recovery c names : does 2 (recovery_task scope_json c names)
  (fun d => '(r, x, w) ← update_recovery_interfaces scope_json c names [] (ds_exporter d) (ds_world d);
            Some (r, set_exporter d x w)).
Proof.
  intros n d _. unfold update_recovery_interfaces. run_task.
  destruct (allowed_indices _ _ _) as [[indices|e]|]; [|exists (Datatypes.S n); split; [lia|]; by destruct d|done].
  destruct (recovery_interfaces _ _ _ _) as [rec write]. destruct (save_journal _ _) as [[] w]; by exists n.
Qed.

Lemma does_finish env candidate digest : does 2 (finish_task env active candidate digest)
  (finish_reload env candidate digest).
Proof.
  intros n d Hd. unfold finish_reload, finish_task. rewrite Hd. set (changes := _ || _). clearbody changes.
  destruct changes, (re_manager_open env); run_task; eexists; (split; [|done]); lia.
Qed.

Lemma does_commit env candidate digest m : does 8 (commit_task env active candidate digest m)
  (commit_reload env candidate digest m).
Proof.
  eapply does_eq; [|unfold commit_task; apply (does_try _ 6), (does_try _ 4)].
  - intros d Hd. unfold commit_reload. rewrite Hd. reflexivity.
  - destruct (_ || _); [apply (does_try _ 2)|apply (does_less 2); [lia|]]; apply does_finish.
Qed.

Lemma does_reload env : does 10 (reload_task scope_json env) (reload scope_json env).
Proof.
  intros n d Hd. unfold reload. rewrite Hd.
  change (reload_task scope_json env (10 + n)%nat d) with (reload_from scope_json env (ds_active d) (10 + n)%nat d).
  rewrite Hd. unfold reload_from. destruct (load_config _) as [[candidate digest]|e]; [|by apply does_ready].
  destruct (reload_identity_matches _ _); cbn [negb]; [|by apply does_ready].
  destruct (origin_map candidate) as [m|e]; [|by apply does_ready].
  revert n d Hd. eapply does_eq, (does_bind 2 8 _ _ _ (fun r d => match r with
    | Ok _ => commit_reload env candidate digest m d | Err e => Some (Err (ReloadRecovery e), d) end)
    (does_recovery candidate (re_links env))).
  - intros d _. cbv [mbind option_bind]. by destruct (update_recovery_interfaces _ _ _ _ _ _) as [[[[u|e] x] w]|].
  - intros [r|e]; [apply does_commit|apply does_ready].
  - intros d a d' Hd E. destruct (update_recovery_interfaces _ _ _ _ _ _) as [[[r x] w]|]; [|done].
    by injection E as _ <-.
Qed.
End Finished.

(** C30. A reload takes effect everywhere or nowhere, as long as the interface manager
    runs: a reload with whatever content of the file does not panic and asks nothing
    of the kernel (at most the journal is written).  When it is accepted, the
    shutdown timeout, the origins and the route policy of the router, the export
    of the exporter and the configuration of the interface manager are those of
    the new file, whose identity matches; when it is rejected, the router has been
    called for nothing, and the exporter and the interface manager go on with the
    old configuration; and the metadata tell which it was.  Only when the interface
    manager is gone, a valid reload fails after router and exporter were committed.
    A signal may drop a reload while it waits: with ten awaits it is complete, and
    dropped at an earlier one it has given the router some of its calls, in order,
    and changed nothing else but the recovery record of start-up routes and its
    journal, so that the shutdown that follows goes by the old configuration. *)
Theorem reload_all_or_nothing text env d : in_sync d ->
  (forall n d', reload_task scope_json env n d = Some (inl d') ->
     (n < 10)%nat /\ exists cs, cs `prefix_of` reload_calls env (ds_active d) /\ called d cs d') /\
  exists r d', reload_and_record scope_json text env d = Some (r, d') /\ journaled (ds_world d) (ds_world d') /\
    match r with
    | Ok v => in_sync d' /\ re_manager_open env = true /\ exists digest,
        load_config (re_contents env) = Ok (ds_active d', digest) /\
        reload_identity_matches (ds_active d) (ds_active d') = true /\
        v = MkReloadResult (wrapping_add64 (md_config_generation (ds_metadata d)) 1) digest /\
        ds_metadata d' = MkRuntimeMetadata (shutdown_timeout_ms (ds_active d'))
          (wrapping_add64 (md_config_generation (ds_metadata d)) 1) digest None
    | Err e => ds_active d' = ds_active d /\ ds_manager d' = ds_manager d /\
        ds_metadata d' = MkRuntimeMetadata (md_shutdown_timeout_ms (ds_metadata d)) (md_config_generation (ds_metadata d))
          (md_active_config_sha256 (ds_metadata d)) (Some (text e)) /\
        (in_sync d' /\ ds_router d' = ds_router d /\ xstate (ds_exporter d') = xstate (ds_exporter d) /\
           source_tables (ds_exporter d') = source_tables (ds_exporter d) \/
         e = ReloadManager /\ re_manager_open env = false /\ exists c digest,
           load_config (re_contents env) = Ok (c, digest) /\ reload_identity_matches (ds_active d) c = true /\
           committed c d')
    end.
Proof.
  intros Hs. destruct (reload_spec env d Hs) as (r & d' & E & Hr & Hmd & Hj). split.
  { intros n d1 Hn. split; [|by eapply reload_dropped]. destruct (decide (n < 10)%nat) as [|Hge]; [done|].
    pose proof (does_reload (ds_active d) env (n - 10)%nat d eq_refl) as H1. rewrite E in H1.
    destruct H1 as (n' & _ & E1). replace (10 + (n - 10))%nat with n in E1 by lia. congruence. }
  unfold reload_and_record. rewrite E.
  cbn [mbind option_bind]. destruct r as [digest|e]; eexists _, _; (split; [done|]); (split; [done|]).
  - destruct Hr as (Ho & Hs' & Hl & Hid). split; [by destruct Hs'; split|]. split; [done|]. exists digest. simpl. by rewrite Hmd.
  - simpl. rewrite Hmd. destruct e; simpl in Hr.
    7:{ destruct Hr as (Ho & H1 & H2 & c & digest & H3 & H4 & [C1 C2 C3 C4]). do 3 (split; [done|]). right.
        do 2 (split; [done|]). exists c, digest. do 2 (split; [done|]). by split. }
    all: destruct Hr as (Hs' & H1 & H2 & H3 & H4 & H5); do 3 (split; [done|]); left;
      (split; [by destruct Hs'; split|done]).
Qed.
End Reload.
(** * Start-up *)

(** The timeout of a router that was started is the builder's. *)
Lemma start_origins_timeout {B : Build} env now l : forall i r r', start_origins env now i l r = Some r' ->
  shutdown_timeout r' = shutdown_timeout r.
Proof.
  induction l as [|[key m] l IH]; intros i r r' H; simpl in H; [by injection H as <-|].
  apply bind_Some in H as (r1 & H1 & H). apply IH in H as ->. unfold start_event in H1.
  by apply bind_Some in H1 as ([acts e] & _ & [= <-]).
Qed.

Lemma started_timeout {B : Build} b via env now r ms : bd_interfaces b = [] -> bd_shutdown_timeout b = Some ms ->
  RouterLoop.start b via ∅ env now = Some (Ok r) -> shutdown_timeout r = ms.
Proof.
  intros Hi Hto Hr. unfold RouterLoop.start in Hr. destruct (_ : result RouterError RouterId) as [id|]; [|done].
  destruct (Engine_try_new _); [|done]. rewrite Hi, Hto in Hr. cbn [start_interfaces] in Hr.
  apply bind_Some in Hr as (r1 & [= <-] & Hr). apply bind_Some in Hr as (r2 & H2%start_origins_timeout & [= <-]). done.
Qed.

Section Start.
Context {T : Toml} {TL : TomlLaws} {B : Build} (release : overflow_checks = false).
Context (typed : forall text value, decode_config text = Some value -> Forall section_typed (DaemonConfig.interfaces value)).

(** A start that succeeds has rewritten the state file without a sequence number. *)
Lemma create_consumes explicit path file draws random o st file' :
  load_or_create explicit path file draws random o = Some (Ok st, file') -> holds file' (ls_router_id st) None.
Proof.
  unfold load_or_create. intros (loaded & Hl & H)%bind_Some. destruct loaded as [st'|]; [|done].
  assert (ls_store st' = MkStateStore path (ls_router_id st')) as Hst.
  { unfold load_state in Hl. destruct (_ : result StateError _) as [[configured existing]|]; [|done].
    apply bind_Some in Hl as (id & _ & Hl). apply (inj Some) in Hl. apply result_bind_Ok in Hl as (i & _ & Hl).
    apply result_bind_Ok in Hl as (n & _ & [= <-]). done. }
  rewrite Hst in H. unfold write_state in H. destruct o as [|[]]; simpl in H; [|done|done].
  injection H as <- <-. by apply state_text_holds.
Qed.

Lemma begin_recovery_state c names now boot namespace file ok x w r x' w' :
  begin_recovery scope_json c names now boot namespace file ok x w = Some (r, x', w') -> xstate x' = xstate x.
Proof.
  unfold begin_recovery. intros (indices & _ & H)%bind_Some. destruct indices as [indices|]; [|by injection H as _ <- _].
  match type of H with context [let '(_, _) := ?m in _] => destruct m as [[rec|e] w1] end; by injection H as _ <- _.
Qed.

(** A daemon starts in a consistent state: when [run_daemon] reaches its loop,
    its configuration is that of the file, nobody else holds the lock of its
    protocol, the state file holds its identity and no sequence number any more,
    the router runs without interfaces and with the timeout of the configuration,
    and the exporter has its views.  Without the lock or with a bad configuration
    the state file is left as it was, and an accepted configuration never makes
    the router refuse to start. *)
Theorem start_consistent env w res file : (forall j, in_u64 (sn_now env j)) ->
  start_daemon scope_json env w = Some (res, file) ->
  match res with
  | Ok (active, digest, r, st, x, _) =>
      load_config (sn_contents env) = Ok (active, digest) /\
      ((sn_namespace env, protocol (export active)) ∉ sn_locks env) /\
      holds file (ls_router_id st) None /\
      router_view (Some r, 0%nat) ∅ /\ shutdown_timeout r = shutdown_timeout_ms active /\
      xs_export (xstate x) = export active /\ stopping (xstate x) = false
  | Err (StartConfig _) | Err (StartOwnership _) => file = sn_file env
  | Err (StartRouter _) => False
  | Err _ => True
  end.
Proof.
  intros Ht. unfold start_daemon. destruct (load_config (sn_contents env)) as [[c digest]|e] eqn:El; [|by intros [= <- <-]].
  destruct (acquire _ _ _ _) as [locks|e] eqn:Eac; [|by intros [= <- <-]].
  intros ([loaded f] & Hc & H)%bind_Some. destruct loaded as [st|e]; [|by injection H as <- <-].
  apply create_consumes in Hc. apply bind_Some in H as ([[recovered x] w1] & Hb%begin_recovery_state & H).
  destruct recovered as [[]|e]; [|by injection H as <- <-]. destruct (load_parsed typed _ _ _ El) as (value & Hp & _).
  destruct (parsed_builder _ _ _ (ls_router_id st) (ls_sequence_number st) Hp) as (b & Eb & Hv). rewrite Eb in H.
  assert (bd_interfaces b = [] /\ bd_shutdown_timeout b = Some (shutdown_timeout_ms c)) as [Hi Hto].
  { by apply daemon_builder_ok in Eb as (os & _ & ->). }
  destruct (started_view release b linux_supports_ipv4_via_ipv6 (sn_env env) (sn_now env) 0 Hv Hi Ht) as (r & Er & Hview).
  rewrite Er in H. cbn [mbind option_bind] in H. injection H as <- <-. split; [done|]. split.
  { unfold acquire in Eac. destruct (negb _); [done|]. by case_bool_decide. }
  split; [done|]. split; [done|]. split; [by eapply started_timeout|]. by rewrite Hb.
Qed.
End Start.

(** * Shutdown *)

Definition duration (o : option Z) : Prop := from_option (fun d => 0 <= d) True o.

Lemma deadline_wait_time at_ms now took ok now' : now <= at_ms -> duration took ->
  deadline_wait at_ms now took = (ok, now') -> now <= now' <= at_ms.
Proof.
  intros Hn Ht. unfold deadline_wait. destruct (Z.leb_spec at_ms now); [intros [= _ <-]; lia|].
  destruct took as [d|]; simpl in Ht; [destruct (Z.leb_spec (now + d) at_ms)|]; intros [= _ <-]; lia.
Qed.

(** The promises of the stages before a timeout. *)
Record staged (env : ShutdownEnv) (stop : Stop) (retain : bool) (timed_out : option Stage) (steps : list ShutdownStep)
    (res : result DaemonFailure unit) : Prop := {
  sg_policy : ((if retain then RequestShutdown else RequestRestart) ∉ steps) /\
    ((if retain then ExporterShutdown else ExporterRetain) ∉ steps);
  sg_aborts : (AbortRouter ∉ steps) /\ (AbortServices ∉ steps);
  sg_complete : timed_out = None ->
    StopServices ∈ steps /\ (if retain then RequestRestart else RequestShutdown) ∈ steps /\ ServicesJoined ∈ steps /\
    (router_finished stop = true \/ RouterJoined ∈ steps) /\
    (router_finished stop = true \/ sv_router_result env <> Ok tt ->
       (if retain then ExporterRetain else ExporterShutdown) ∈ steps);
  sg_result : timed_out = None -> (res = Ok tt <-> run_result stop = Ok tt /\
    (router_finished stop = false -> sv_router_result env = Ok tt) /\
    (router_finished stop = true -> sv_exporter_ok env = true))
}.

(** Membership in the lists of steps is decided. *)
Ltac solve_steps := apply (bool_decide_unpack _); vm_compute; exact I.

Lemma cleanup_staged env stop retain at_ms now : now <= at_ms ->
  duration (sv_flush env) -> duration (sv_router env) -> duration (sv_exporter env) -> duration (sv_services env) ->
  let '(timed_out, steps, res, now') := cleanup env stop retain at_ms now in
  now <= now' <= at_ms /\ staged env stop retain timed_out steps res.
Proof.
  intros Hn Hf Hr Hx Hs. destruct stop as [res fin fl]. unfold cleanup. cbn [run_result router_finished response_flushing].
  set (flush := Some (match sv_flush env with Some d => Z.min d 1000 | None => 1000 end)).
  assert (duration flush) as Hfl by (subst flush; simpl; destruct (sv_flush env); simpl in *; lia).
  destruct (if fl then deadline_wait at_ms now flush else (true, now)) as [flushed now1] eqn:E1.
  assert (now <= now1 <= at_ms) as H1 by (destruct fl; [by eapply deadline_wait_time|injection E1 as _ <-; lia]).
  destruct flushed; cbn [negb]; [|split; [lia|]; split; [destruct retain; solve_steps|solve_steps|done|done]].
  destruct (if fin then (true, now1) else deadline_wait at_ms now1 (sv_router env)) as [joined now2] eqn:E2.
  assert (now1 <= now2 <= at_ms) as H2 by (destruct fin; [injection E2 as _ <-; lia|eapply deadline_wait_time; [|exact Hr|exact E2]; lia]).
  destruct joined; cbn [negb]; [|split; [lia|]; split; [destruct retain; solve_steps|destruct retain; solve_steps|done|done]].
  destruct (if fin then (true, res) else _) as [finished res2] eqn:E3.
  destruct (if finished then deadline_wait at_ms now2 (sv_exporter env) else (true, now2)) as [exported now3] eqn:E4.
  assert (now2 <= now3 <= at_ms) as H3
    by (destruct finished; [eapply deadline_wait_time; [|exact Hx|exact E4]; lia|injection E4 as _ <-; lia]).
  destruct exported; cbn [negb]; [|split; [lia|]; split; [destruct retain, fin; solve_steps|destruct retain, fin; solve_steps|done|done]].
  destruct (deadline_wait at_ms now3 (sv_services env)) as [ended now4] eqn:E5.
  assert (now3 <= now4 <= at_ms) as H4 by (eapply deadline_wait_time; [|exact Hs|exact E5]; lia).
  assert ((fin = true \/ sv_router_result env <> Ok tt -> finished = true) /\
    (res2 = Ok tt <-> res = Ok tt /\ (fin = false -> sv_router_result env = Ok tt)) /\
    (finished = true -> res2 = Ok tt -> fin = true) /\ (fin = true -> finished = true)) as (Hfin & Hres & Hfr & Hff).
  { destruct fin; [injection E3 as <- <-; intuition congruence|].
    destruct (sv_router_result env) as [[]|e]; injection E3 as <- <-; [intuition congruence|].
    destruct res as [[]|]; intuition congruence. }
  destruct ended; cbn [negb]; (split; [lia|]);
    (split; [destruct retain, fin, finished; solve_steps|destruct retain, fin, finished; solve_steps| |]); [| |done|done]; intros _.
  - split_and!; [destruct retain, fin, finished; solve_steps..|destruct fin; [by left|right; destruct retain, finished; solve_steps]|].
    intros ->%Hfin. destruct retain, fin; solve_steps.
  - destruct (finished && negb (sv_exporter_ok env)) eqn:Ef.
    + apply andb_true_iff in Ef as [-> Eo%negb_true_iff]. rewrite Eo.
      split; [by destruct res2|]. intros (Hr' & Hq & Hx'). assert (res2 = Ok tt) as H2' by tauto.
      discriminate (Hx' (Hfr eq_refl H2')).
    + rewrite Hres. split; [|tauto]. intros [Hr' Hq]. split_and!; [done|done|]. intros Hfin'.
      rewrite (Hff Hfin') in Ef. simpl in Ef. by apply negb_false_iff in Ef.
Qed.

(** A restart that was asked for stays so. *)
Lemma signalled_from steps : forall s, fold_left signal steps s =
  MkSignals (sg_shutdown s || bool_decide (RequestShutdown ∈ steps \/ RequestRestart ∈ steps))
    (sg_retaining s || bool_decide (RequestRestart ∈ steps)).
Proof.
  induction steps as [|st steps IH]; intros s; simpl.
  { by destruct s as [[] []]. }
  rewrite IH. destruct st; simpl; rewrite ?orb_true_r; simpl; f_equal;
    try (f_equal; apply bool_decide_ext; set_solver); rewrite ?bool_decide_true by set_solver; by rewrite ?orb_true_r.
Qed.

Lemma signalled_policy steps (retain : bool) : (if retain then RequestRestart else RequestShutdown) ∈ steps ->
  ((if retain then RequestShutdown else RequestRestart) ∉ steps) -> signalled steps = MkSignals true retain.
Proof.
  intros Hin Hout. unfold signalled. rewrite signalled_from. simpl.
  rewrite bool_decide_true by (destruct retain; tauto). f_equal.
  destruct retain; [by rewrite bool_decide_true|by rewrite bool_decide_false].
Qed.

(** C35. A shutdown ends in time and treats the routes as it should: whatever made
    the daemon stop, and however long the router, the exporter and the background
    tasks take, the daemon ends within the configured timeout.  The routes are kept
    for a successor exactly if the daemon stops for a failure or the configuration
    says so: the signals of the router and, if it is already over, the exporter are
    told just that, and never the opposite.  Without a timeout everything was told and waited
    for and nothing aborted, and the result is a success exactly if there was
    neither a failure before nor one of the router or the exporter now; with one,
    router and services are aborted and the stage is reported. *)
Theorem shutdown_in_time env stop pol timeout_ms now : 0 <= timeout_ms ->
  duration (sv_flush env) -> duration (sv_router env) -> duration (sv_exporter env) -> duration (sv_services env) ->
  let retain := retains stop pol in
  let '(res, steps, now') := finish_daemon env stop pol timeout_ms now in
  now <= now' <= now + timeout_ms /\
  (retain = false <-> run_result stop = Ok tt /\ pol = ShutdownClear) /\
  ((if retain then RequestShutdown else RequestRestart) ∉ steps) /\
  ((if retain then ExporterShutdown else ExporterRetain) ∉ steps) /\
  StopServices ∈ steps /\ signalled steps = MkSignals true retain /\
  match res with
  | DaemonTimedOut _ ms => ms = timeout_ms /\ AbortRouter ∈ steps /\ AbortServices ∈ steps
  | DaemonEnded r =>
      (AbortRouter ∉ steps) /\ (AbortServices ∉ steps) /\ ServicesJoined ∈ steps /\
      (router_finished stop = true \/ RouterJoined ∈ steps) /\
      (router_finished stop = true \/ sv_router_result env <> Ok tt ->
         (if retain then ExporterRetain else ExporterShutdown) ∈ steps) /\
      (r = Ok tt <-> run_result stop = Ok tt /\ (router_finished stop = false -> sv_router_result env = Ok tt) /\
         (router_finished stop = true -> sv_exporter_ok env = true))
  end.
Proof.
  intros Ht Hf Hr Hx Hs retain. unfold finish_daemon. fold retain.
  assert (retain = false <-> run_result stop = Ok tt /\ pol = ShutdownClear) as Hret.
  { unfold retain, retains. destruct (run_result stop) as [[]|], pol; intuition congruence. }
  pose proof (cleanup_staged env stop retain (now + timeout_ms) now ltac:(lia) Hf Hr Hx Hs) as Hc.
  destruct (cleanup _ _ _ _ _) as [[[timed_out steps] r] now']. destruct Hc as [Hn [[P1 P2] [A1 A2] Hcomp Hres]].
  destruct timed_out as [stage|].
  - split; [done|]. split; [done|]. rewrite !not_elem_of_app, !elem_of_app.
    split_and!; try done; try (by right; destruct retain; solve_steps); try (destruct retain; solve_steps).
    apply signalled_policy; [apply elem_of_app; right|apply not_elem_of_app; split; [done|]]; destruct retain; solve_steps.
  - destruct (Hcomp eq_refl) as (C1 & C2 & C3 & C4 & C5). do 5 (split; [done|]). split; [by apply signalled_policy|].
    do 5 (split; [done|]). by apply Hres.
Qed.
End Lifecycle.
