(* ===== verification/LifecycleDemo.v ===== *)
(** A daemon with one interface that its configuration covers, one that reloads its
    configuration, and one that is stopped in time. *)
From S2P Require Import Prelude Net Mac Model Metric Wire WireDecode Api EngineState Neighbors Engine OutputSpec Invariant EngineSpec Demo Scheduler Sender Router RouterLoop BatchSpec RouterTheorems RouterDemo Filters DaemonConfig Projection SourceViews DaemonTheorems DaemonDemo Netlink Recovery Exporter ExporterDemo State StateTheorems Handle Interfaces InterfaceTheorems Control Lifecycle LifecycleTheorems.
Import Hello.
Local Open Scope Z_scope.

#[local] Existing Instance demo_net.
#[local] Existing Instance demo_libm.
#[local] Existing Instance builtin_metrics.
#[local] Existing Instance demo_order.
#[local] Existing Instance demo_contains.
#[local] Existing Instance release_build.
#[local] Existing Instance demo_netlink.

(** * An interface *)

(** Nothing else happens, and IPv6 sockets can be opened. *)
Definition demo_around (k : nat) : CallEnv :=
  MkCallEnv [] demo_env (fun _ t => if bool_decide (t = TransportIpv6) then Some demo_socket else None) no_totals 1000.

Lemma demo_around_calm k : calm (demo_around k).
Proof.
  split; [constructor|constructor|by unfold in_u64, u64_max; simpl; lia|].
  intros n t s. simpl. case_bool_decide as Ht; [|done]. intros [= <-]. by rewrite Ht.
Qed.

Definition demo_signature : InterfaceSignature :=
  MkSignature 2 true (match own_address with IpV6 a => [a] | IpV4 _ => [] end) [].
Definition demo_current : gmap string InterfaceSignature := {[ "eth0" := demo_signature ]}.

Lemma demo_loaded_config : exists c, loaded no_files c /\ parse no_files demo_file = Ok c.
Proof. destruct demo_parsed_some as [c Hc]. exists c. split; [|done]. exists demo_file. split; [done|]. apply demo_section_typed. Qed.

Lemma demo_managed : exists c r, loaded no_files c /\ managed no_files demo_around (Some r, 0%nat) ∅.
Proof.
  destruct demo_loaded_config as (c & Hl & Hc).
  assert (exists id, own_id = Some id) as [id _] by (apply succeeds_Some; vm_compute; reflexivity).
  destruct (parsed_builder no_files demo_file c id 7 Hc) as (b & Hb & Hv).
  destruct (start_ok eq_refl b true ∅ (fun _ => demo_env) (fun _ => 900) Hv) as (r & Hr & _);
    [intros; unfold in_u64, u64_max; lia|].
  exists c, r. split; [done|]. eapply managed_start; [exact Hl|exact Hb| |exact Hr]. intros; unfold in_u64, u64_max; lia.
Qed.

Lemma interfaces_converge_witness : exists c r v s' att' v' log, router_view (Some r, 0%nat) v /\
  reconcile (H := router_handle demo_around) c (Some demo_current) ∅ (Some r, 0%nat) = Some (s', att', log, Ok tt) /\
  router_view s' v' /\ converged (policy_of c) demo_current ∅ v att' v' log.
Proof.
  destruct demo_managed as (c & r & Hc & Hm). exists c, r.
  exact (interfaces_converge eq_refl no_files demo_around demo_around_calm (Some r, 0%nat) ∅ c demo_current Hm Hc).
Defined.

(** The round attaches the interface. *)
Lemma demo_round_attaches :
  match c ← result_ok (parse no_files demo_file);
        id ← own_id; b ← result_ok (daemon_builder c id 7);
        started ← start b true ∅ (fun _ => demo_env) (fun _ => 900);
        r ← result_ok started;
        reconcile (H := router_handle demo_around) c (Some demo_current) ∅ (Some r, 0%nat) with
  | Some (_, att, [Attached n 2], Ok _) => bool_decide (n = "eth0") && bool_decide (is_Some (att !! "eth0"))
  | _ => false
  end = true.
Proof. vm_cast_no_check (eq_refl true). Qed.

(** * The daemon *)

(** One text is the configuration of the demonstration. *)
#[local] Instance demo_files : Files := {
  decode_config text := if bool_decide (text = "config"%string) then Some demo_file else None;
  sha256 text := "digest"%string;
  read_key_file := no_files
}.

Lemma demo_files_typed text value : decode_config text = Some value -> Forall section_typed (DaemonConfig.interfaces value).
Proof. simpl. case_bool_decide; [|done]. intros [= <-]. apply demo_section_typed. Qed.

#[local] Instance demo_handle : Handle (option Router * nat) := router_handle demo_around.
#[local] Instance demo_configurable : Configurable (option Router * nat) :=
  router_configurable eq_refl demo_around demo_around_calm.
#[local] Existing Instance recorded.

(** The daemon after its start, with the calls its builder stands for. *)
Definition started_daemon (c : Config) (r : Router) (m : gmap RouteKey Z)
    : DaemonState (S := (option Router * nat) * list Call) :=
  MkDaemonState c ((Some r, 0%nat), [CallShutdownTimeout (shutdown_timeout_ms c); CallReplaceOrigins (btree_iter m);
    CallReplaceRoutePolicy (DaemonPolicy c)]) (linux_exporter (export c)) demo_world c
    (MkRuntimeMetadata (shutdown_timeout_ms c) 1 "digest"%string None).

Definition demo_reload_env : ReloadEnv := MkReloadEnv (Some "config"%string) ["eth0"; "lo"]%string true.
Definition demo_error_text (e : ReloadError) : string := "error"%string.

Lemma demo_in_sync : exists c r m, in_sync (started_daemon c r m).
Proof.
  destruct demo_managed as (c & r & (value & Hp & Hty) & Hm).
  destruct (managed_inv eq_refl no_files demo_around demo_around_calm _ _ Hm) as (v & Hv & _).
  destruct (parsed_origins no_files value c Hp) as (m & cmd & Hom & _).
  exists c, r, m. split; [by exists v|by exists m|done|done|done].
Qed.

Lemma reload_all_or_nothing_witness : exists c r0 m r d',
  reload_and_record no_scope demo_error_text demo_reload_env (started_daemon c r0 m) = Some (r, d') /\
  journaled demo_world (ds_world d') /\ in_sync d'.
Proof.
  destruct demo_in_sync as (c & r0 & m & Hs). exists c, r0, m.
  destruct (reload_all_or_nothing no_scope demo_files_typed demo_error_text demo_reload_env (started_daemon c r0 m) Hs)
    as (_ & r & d' & E & Hj & Hr). exists r, d'. split; [exact E|]. split; [exact Hj|].
  destruct r as [v|e]; [exact (proj1 Hr)|]. destruct Hr as (_ & _ & _ & [[H _]|(_ & Ho & _)]); [exact H|discriminate Ho].
Defined.

(** * A shutdown *)

(** The router needs longer than the daemon has. *)
Definition slow_router : ShutdownEnv := MkShutdownEnv (Some 10) (Some 9000) (Ok tt) (Some 10) true (Some 10).
Definition asked_to_stop : Stop := MkStop (Ok tt) false true.

Lemma shutdown_in_time_witness :
  let '(res, steps, now') := finish_daemon slow_router asked_to_stop ShutdownClear 5000 100 in
  res = DaemonTimedOut RouterCleanup 5000 /\ 100 <= now' <= 100 + 5000 /\ AbortRouter ∈ steps.
Proof.
  pose proof (shutdown_in_time slow_router asked_to_stop ShutdownClear 5000 100 ltac:(lia) ltac:(simpl; lia) ltac:(simpl; lia)
    ltac:(simpl; lia) ltac:(simpl; lia)) as H. cbv zeta in H.
  assert (finish_daemon slow_router asked_to_stop ShutdownClear 5000 100 =
    (DaemonTimedOut RouterCleanup 5000, [StopServices; RequestShutdown; StopServices; RequestShutdown; AbortRouter; AbortServices], 5100))
    as E by reflexivity.
  rewrite E in *. destruct H as (H1 & _ & _ & _ & _ & _ & _ & H2 & _). split; [reflexivity|]. split; assumption.
Defined.

(** * A start *)

(** Texts of the state file as in [StateTheorems]. *)
#[local] Existing Instance demo_toml.
#[local] Existing Instance demo_toml_laws.

Definition demo_start_env : StartEnv :=
  MkStartEnv (Some "config"%string) true ∅ 4026531840 (StateText demo_old_file) [] (Ok 7) WriteDone ["eth0"; "lo"]%string
    (Some 1000) (Some "boot"%string) (Some "net"%string) JournalMissing true (fun _ => demo_env) (fun _ => 900).

Lemma demo_starts : exists started file, start_daemon no_scope demo_start_env demo_world = Some (Ok started, file).
Proof.
  assert (match start_daemon no_scope demo_start_env demo_world with Some (Ok _, _) => true | _ => false end = true) as H
    by vm_cast_no_check (eq_refl true).
  destruct (start_daemon _ _ _) as [[[started|] file]|]; [by exists started, file|discriminate H|discriminate H].
Qed.

Lemma start_consistent_witness : exists active digest r st x w file,
  start_daemon no_scope demo_start_env demo_world = Some (Ok (active, digest, r, st, x, w), file) /\
  holds file (ls_router_id st) None /\ router_view (Some r, 0%nat) ∅ /\ shutdown_timeout r = shutdown_timeout_ms active.
Proof.
  destruct demo_starts as ([[[[[active digest] r] st] x] w] & file & E).
  pose proof (start_consistent no_scope eq_refl demo_files_typed demo_start_env demo_world _ _
    ltac:(intros j; unfold in_u64, u64_max; simpl; lia) E) as (_ & _ & H1 & H2 & H3 & _).
  exists active, digest, r, st, x, w, file. split; [exact E|]. split; [exact H1|]. split; [exact H2|exact H3].
Defined.
